(** * gotris: the game-simulation engine and the room server, embedded in Rocq

    The development follows the Go sources:
    - package [game] (piece generator, board, game state);
    - package [main] of the room server (players, rooms, hub).

    Go [int] is a 64-bit two's-complement integer: it is modelled as [Z] with
    the wrap-around written out ([GoInt]).  In package [game] a run-time
    panic (index out of range, slicing past the end, a negative length) is
    modelled as [None].  Maps are [gmap]s.  Mutexes, goroutines and timers
    are not modelled: every function is the step it performs under its
    lock, and the tasks it starts are steps of their own. *)

From Stdlib Require Import ZArith List Lia Permutation Sorted.
From stdpp Require Import gmap strings list fin_maps pretty.

Local Open Scope Z_scope.

(** ** Go integers *)

Module GoInt.

Definition wrap (z : Z) : Z := (z + 2 ^ 63) mod 2 ^ 64 - 2 ^ 63.

Definition in_range (z : Z) : Prop := - 2 ^ 63 <= z < 2 ^ 63.

Definition add (a b : Z) : Z := wrap (a + b).
Definition sub (a b : Z) : Z := wrap (a - b).
Definition mul (a b : Z) : Z := wrap (a * b).
(* Go's [/] truncates toward zero. *)
Definition div (a b : Z) : Z := wrap (Z.quot a b).

(* len(s) of a slice *)
Definition len {A} (l : list A) : Z := Z.of_nat (length l).

(* s[i]: panics when [i] is outside [0, len(s)) *)
Definition index {A} (l : list A) (i : Z) : option A :=
  if i <? 0 then None else l !! Z.to_nat i.

(* s[i] = x *)
Definition store {A} (l : list A) (i : Z) (x : A) : option (list A) :=
  if (i <? 0) || (len l <=? i) then None else Some (<[Z.to_nat i := x]> l).

End GoInt.

(** ** math/rand

    [rand.Rand] is the standard library's; only its interface is used.  A
    source is a state with a seeding function and [Intn], which returns a
    number in [[0, n)] for [n > 0] (and panics otherwise: every call site
    below passes a positive bound). *)

Class RandSource (R : Type) := {
  NewSource : Z -> R;
  Intn : R -> Z -> Z * R;
  Intn_range : forall r n, 0 < n -> 0 <= fst (Intn r n) < n
}.

(** A concrete source (a 64-bit linear congruential generator), used to run
    the model on examples. *)
Module Lcg.

Definition step (s : Z) : Z :=
  (s * 6364136223846793005 + 1442695040888963407) mod 2 ^ 64.

Definition intn (s : Z) (n : Z) : Z * Z :=
  ((step s / 2 ^ 33) mod n, step s).

Lemma intn_range (s n : Z) : 0 < n -> 0 <= fst (intn s n) < n.
Proof. intros Hn. unfold intn. simpl. apply Z.mod_pos_bound. exact Hn. Qed.

#[export] Instance source : RandSource Z :=
  {| NewSource := fun seed => seed mod 2 ^ 64;
     Intn := intn;
     Intn_range := intn_range |}.

End Lcg.

(** ** package game *)

Module Game.

Definition BoardWidth : Z := 10.
Definition BoardHeight : Z := 20.

Inductive PieceType :=
  PieceI | PieceO | PieceT | PieceS | PieceZ | PieceJ | PieceL.

#[export] Instance PieceType_eq_dec : EqDecision PieceType.
Proof. solve_decision. Defined.

Record Piece := mkPiece {
  Typ : PieceType;          (* field [Type] *)
  Shape : list (list bool);
  X : Z;
  Y : Z;
  Color : Z
}.

Definition pieceShapes (t : PieceType) : list (list bool) :=
  match t with
  | PieceI => [ [false; false; false; false];
                [true; true; true; true];
                [false; false; false; false];
                [false; false; false; false] ]
  | PieceO => [ [true; true];
                [true; true] ]
  | PieceT => [ [false; true; false];
                [true; true; true];
                [false; false; false] ]
  | PieceS => [ [false; true; true];
                [true; true; false];
                [false; false; false] ]
  | PieceZ => [ [true; true; false];
                [false; true; true];
                [false; false; false] ]
  | PieceJ => [ [true; false; false];
                [true; true; true];
                [false; false; false] ]
  | PieceL => [ [false; false; true];
                [true; true; true];
                [false; false; false] ]
  end.

Definition pieceColors (t : PieceType) : Z :=
  match t with
  | PieceI => 6
  | PieceO => 3
  | PieceT => 5
  | PieceS => 2
  | PieceZ => 1
  | PieceJ => 4
  | PieceL => 3
  end.

(* [shape[0]] exists: no shape of [pieceShapes] is empty. *)
Definition NewPiece (t : PieceType) : Piece :=
  let shape := pieceShapes t in
  {| Typ := t;
     Shape := shape;
     X := GoInt.sub (GoInt.div BoardWidth 2)
            (GoInt.div (GoInt.len (hd [] shape)) 2);
     Y := 0;
     Color := pieceColors t |}.

(** *** The 7-bag piece generator *)

Section Generator.
Context {R : Type} `{RandSource R}.

Record PieceGenerator := mkGen {
  rng : R;
  bag : list PieceType
}.

Definition NewPieceGenerator (seed : Z) : PieceGenerator :=
  {| rng := NewSource seed; bag := [] |}.

Definition allPieces : list PieceType :=
  [PieceI; PieceO; PieceT; PieceS; PieceZ; PieceJ; PieceL].

(* pg.bag[i], pg.bag[j] = pg.bag[j], pg.bag[i] *)
Definition swap (i j : Z) (b : list PieceType) : option (list PieceType) :=
  bj ← GoInt.index b j;
  bi ← GoInt.index b i;
  b1 ← GoInt.store b i bj;
  GoInt.store b1 j bi.

(* for i := len(bag) - 1; i > 0; i-- { j := rng.Intn(i + 1); swap } ;
   [shuffle n] runs the iterations i = n, n-1, ..., 1. *)
Fixpoint shuffle (n : nat) (r : R) (b : list PieceType)
  : option (R * list PieceType) :=
  match n with
  | O => Some (r, b)
  | S n' =>
      let i := Z.of_nat n in
      let '(j, r') := Intn r (GoInt.add i 1) in
      b' ← swap i j b;
      shuffle n' r' b'
  end.

Definition refillBag (pg : PieceGenerator) : option PieceGenerator :=
  let b := allPieces in
  '(r, b') ← shuffle (length b - 1) (rng pg) b;
  Some {| rng := r; bag := b' |}.

(* if len(pg.bag) == 0 { pg.refillBag() } *)
Definition ensureBag (pg : PieceGenerator) : option PieceGenerator :=
  if decide (GoInt.len (bag pg) = 0) then refillBag pg else Some pg.

Definition Next (pg : PieceGenerator) : option (Piece * PieceGenerator) :=
  pg1 ← ensureBag pg;
  match bag pg1 with
  | [] => None
  | t :: rest => Some (NewPiece t, {| rng := rng pg1; bag := rest |})
  end.

Definition Peek (pg : PieceGenerator) : option (PieceType * PieceGenerator) :=
  pg1 ← ensureBag pg;
  match bag pg1 with
  | [] => None
  | t :: _ => Some (t, pg1)
  end.

(** A client's use of its generator: a sequence of [Next] and [Peek] calls.
    [runGen ops pg] returns the types of the pieces the [Next] calls of
    [ops] return, in order, and the generator afterwards. *)
Inductive GenOp := OpNext | OpPeek.

Fixpoint runGen (ops : list GenOp) (pg : PieceGenerator)
  : option (list PieceType * PieceGenerator) :=
  match ops with
  | [] => Some ([], pg)
  | OpNext :: ops' =>
      '(p, pg1) ← Next pg;
      '(ts, pg2) ← runGen ops' pg1;
      Some (Typ p :: ts, pg2)
  | OpPeek :: ops' =>
      '(_, pg1) ← Peek pg;
      runGen ops' pg1
  end.

Definition nextTypes (ops : list GenOp) (pg : PieceGenerator)
  : option (list PieceType) :=
  fst <$> runGen ops pg.

(* number of [Next] calls in a sequence of calls *)
Fixpoint countNext (ops : list GenOp) : nat :=
  match ops with
  | [] => O
  | OpNext :: ops' => S (countNext ops')
  | OpPeek :: ops' => countNext ops'
  end.

(* the first [n] calls of [Next] *)
Definition firstTypes (n : nat) (pg : PieceGenerator) : option (list PieceType) :=
  nextTypes (replicate n OpNext) pg.

End Generator.

Arguments PieceGenerator R : clear implicits.

(** *** The board *)

Record Cell := mkCell {
  Filled : bool;
  CellColor : Z            (* field [Color] of [Cell] *)
}.

(* the zero value of [Cell] *)
Definition emptyCell : Cell := {| Filled := false; CellColor := 0 |}.

Record Board := mkBoard {
  Cells : list (list Cell);
  Width : Z;
  Height : Z
}.

(* make([]Cell, n): panics for a negative [n] *)
Definition makeRow (n : Z) : option (list Cell) :=
  if n <? 0 then None else Some (replicate (Z.to_nat n) emptyCell).

Definition NewBoard : Board :=
  {| Cells := replicate (Z.to_nat BoardHeight)
                (replicate (Z.to_nat BoardWidth) emptyCell);
     Width := BoardWidth;
     Height := BoardHeight |}.

(* for x, cell := range row { ... } of IsValidPosition, from column [x] on;
   [Some false] is the early [return false]. *)
Fixpoint validRow (b : Board) (p : Piece) (offsetX offsetY y : Z)
    (row : list bool) (x : Z) : option bool :=
  match row with
  | [] => Some true
  | cell :: row' =>
      if negb cell then validRow b p offsetX offsetY y row' (x + 1)
      else
        let newX := GoInt.add (GoInt.add (X p) x) offsetX in
        let newY := GoInt.add (GoInt.add (Y p) y) offsetY in
        if (newX <? 0) || (Width b <=? newX) then Some false
        else if Height b <=? newY then Some false
        else if 0 <=? newY then
          r ← GoInt.index (Cells b) newY;
          c ← GoInt.index r newX;
          if Filled c then Some false
          else validRow b p offsetX offsetY y row' (x + 1)
        else validRow b p offsetX offsetY y row' (x + 1)
  end.

Fixpoint validRows (b : Board) (p : Piece) (offsetX offsetY : Z)
    (rows : list (list bool)) (y : Z) : option bool :=
  match rows with
  | [] => Some true
  | row :: rows' =>
      ok ← validRow b p offsetX offsetY y row 0;
      if ok : bool then validRows b p offsetX offsetY rows' (y + 1)
      else Some false
  end.

Definition Board_IsValidPosition (b : Board) (p : Piece) (offsetX offsetY : Z)
  : option bool :=
  validRows b p offsetX offsetY (Shape p) 0.

(* b.Cells[boardY][boardX] = c *)
Definition setCell (b : Board) (boardY boardX : Z) (c : Cell) : option Board :=
  r ← GoInt.index (Cells b) boardY;
  r' ← GoInt.store r boardX c;
  cells ← GoInt.store (Cells b) boardY r';
  Some {| Cells := cells; Width := Width b; Height := Height b |}.

Fixpoint stampRow (b : Board) (p : Piece) (y : Z) (row : list bool) (x : Z)
  : option Board :=
  match row with
  | [] => Some b
  | cell :: row' =>
      if cell : bool then
        let boardY := GoInt.add (Y p) y in
        let boardX := GoInt.add (X p) x in
        if (0 <=? boardY) && (boardY <? Height b) &&
           (0 <=? boardX) && (boardX <? Width b)
        then
          b' ← setCell b boardY boardX {| Filled := true; CellColor := Color p |};
          stampRow b' p y row' (x + 1)
        else stampRow b p y row' (x + 1)
      else stampRow b p y row' (x + 1)
  end.

Fixpoint stampRows (b : Board) (p : Piece) (rows : list (list bool)) (y : Z)
  : option Board :=
  match rows with
  | [] => Some b
  | row :: rows' =>
      b' ← stampRow b p y row 0;
      stampRows b' p rows' (y + 1)
  end.

Definition Board_LockPiece (b : Board) (p : Piece) : option Board :=
  stampRows b p (Shape p) 0.

(* for x := 0; x < b.Width; x++ { if !b.Cells[y][x].Filled { full = false; break } },
   with [todo] columns left from column [x] on *)
Fixpoint rowFull (b : Board) (y : nat) (todo : nat) (x : nat) : option bool :=
  match todo with
  | O => Some true
  | S todo' =>
      row ← Cells b !! y;
      c ← row !! x;
      if Filled c then rowFull b y todo' (S x) else Some false
  end.

(* for y := b.Height - 1; y >= 0; y-- { ... }, with the rows 0 .. n-1 left;
   a row that is not full is put in front of [newCells]. *)
Fixpoint clearRows (b : Board) (n : nat) (newCells : list (list Cell))
    (linesCleared : Z) : option (list (list Cell) * Z) :=
  match n with
  | O => Some (newCells, linesCleared)
  | S y =>
      full ← rowFull b y (Z.to_nat (Width b)) 0;
      if full : bool then clearRows b y newCells (linesCleared + 1)
      else row ← Cells b !! y; clearRows b y (row :: newCells) linesCleared
  end.

Definition Board_ClearLines (b : Board) : option (Board * Z) :=
  (* newCells := make([][]Cell, 0, b.Height): a negative capacity panics *)
  _ ← (if Height b <? 0 then None else Some tt);
  '(newCells, linesCleared) ← clearRows b (Z.to_nat (Height b)) [] 0;
  let missing := (Z.to_nat (Height b) - length newCells)%nat in
  (* for len(newCells) < b.Height { newCells = append({make([]Cell, b.Width)}, newCells...) } *)
  pad ← (if decide (missing = O) then Some []
         else row ← makeRow (Width b); Some (replicate missing row));
  Some ({| Cells := pad ++ newCells; Width := Width b; Height := Height b |},
        linesCleared).

(* the row the loop body of AddGarbageLines builds *)
Definition garbageLine (width holeX : Z) : list Cell :=
  (fun x => if decide (x = holeX) then {| Filled := false; CellColor := 0 |}
            else {| Filled := true; CellColor := 8 |})
  <$> seqZ 0 width.

(* one iteration: b.Cells = b.Cells[1:]; ...; b.Cells = append(b.Cells, newLine) *)
Definition addGarbageLine (b : Board) (holeX : Z) : option Board :=
  match Cells b with
  | [] => None
  | _ :: rest =>
      if Width b <? 0 then None
      else Some {| Cells := rest ++ [garbageLine (Width b) holeX];
                   Width := Width b; Height := Height b |}
  end.

Fixpoint addGarbageLines (n : nat) (b : Board) (holeX : Z) : option Board :=
  match n with
  | O => Some b
  | S n' => b' ← addGarbageLine b holeX; addGarbageLines n' b' holeX
  end.

Definition Board_AddGarbageLines (b : Board) (count holeX : Z) : option Board :=
  addGarbageLines (Z.to_nat count) b holeX.

Definition Board_IsGameOver (b : Board) (p : Piece) : option bool :=
  negb <$> Board_IsValidPosition b p 0 0.

(* number of filled cells of a row *)
Definition filledCells (row : list Cell) : nat :=
  length (List.filter Filled row).

Definition emptyCells (row : list Cell) : nat :=
  length (List.filter (fun c => negb (Filled c)) row).

(** *** The game state *)

Section State.
Context {R : Type} `{RandSource R}.

Record GameState := mkGameState {
  GBoard : Board;           (* field [Board] *)
  CurrentPiece : Piece;
  NextPiece : Piece;
  HoldPiece : option Piece;
  CanHold : bool;
  Score : Z;
  Level : Z;
  Lines : Z;
  GarbageQueue : Z;
  IsGameOver : bool;
  IsWinner : bool;
  PlayerID : string;
  PlayerName : string;
  AttackPower : Z;
  PieceGen : option (PieceGenerator R)
}.

(* [g] is the state of math/rand's global source. *)
Definition RandomPiece (g : R) : option (Piece * R) :=
  let '(k, g') := Intn g (GoInt.len allPieces) in
  t ← GoInt.index allPieces k;
  Some (NewPiece t, g').

Definition NewSeededGameState (playerID playerName : string) (seed : Z)
  : option GameState :=
  let gen := NewPieceGenerator seed in
  '(cur, gen1) ← Next gen;
  '(nxt, gen2) ← Next gen1;
  Some {| GBoard := NewBoard; CurrentPiece := cur; NextPiece := nxt;
          HoldPiece := None; CanHold := true; Score := 0; Level := 1;
          Lines := 0; GarbageQueue := 0; IsGameOver := false;
          IsWinner := false; PlayerID := playerID; PlayerName := playerName;
          AttackPower := 0; PieceGen := Some gen2 |}.

(* nextPiece: the piece, the generator afterwards, the global source afterwards *)
Definition nextPiece (gs : GameState) (g : R)
  : option (Piece * option (PieceGenerator R) * R) :=
  match PieceGen gs with
  | Some pg => '(p, pg') ← Next pg; Some (p, Some pg', g)
  | None => '(p, g') ← RandomPiece g; Some (p, None, g')
  end.

Definition calculateScore (gs : GameState) (lines : Z) : Z :=
  match lines with
  | 1 => GoInt.mul 100 (Level gs)
  | 2 => GoInt.mul 300 (Level gs)
  | 3 => GoInt.mul 500 (Level gs)
  | 4 => GoInt.mul 800 (Level gs)
  | _ => 0
  end.

Definition calculateAttack (lines : Z) : Z :=
  match lines with
  | 1 => 0
  | 2 => 1
  | 3 => 2
  | 4 => 4
  | _ => 0
  end.

(* if gs.GarbageQueue > 0 { holeX := rand.Intn(BoardWidth);
     gs.Board.AddGarbageLines(gs.GarbageQueue, holeX); gs.GarbageQueue = 0 }
   (of LockPiece): the board, the queue and the global source afterwards *)
Definition applyQueuedGarbage (b : Board) (queue : Z) (g : R)
  : option (Board * Z * R) :=
  if 0 <? queue then
    let '(holeX, g') := Intn g BoardWidth in
    b' ← Board_AddGarbageLines b queue holeX;
    Some (b', 0, g')
  else Some (b, queue, g).

Definition LockPiece (gs : GameState) (g : R) : option (Z * GameState * R) :=
  b1 ← Board_LockPiece (GBoard gs) (CurrentPiece gs);
  '(b2, linesCleared) ← Board_ClearLines b1;
  let lines := GoInt.add (Lines gs) linesCleared in
  let score := GoInt.add (Score gs) (calculateScore gs linesCleared) in
  let level := GoInt.add (GoInt.div lines 10) 1 in
  let attack := if 0 <? linesCleared then calculateAttack linesCleared else 0 in
  let current := NextPiece gs in
  '(next, gen, g1) ← nextPiece gs g;
  '(b3, queue, g2) ← applyQueuedGarbage b2 (GarbageQueue gs) g1;
  over ← Board_IsGameOver b3 current;
  Some (linesCleared,
        {| GBoard := b3; CurrentPiece := current; NextPiece := next;
           HoldPiece := HoldPiece gs; CanHold := true; Score := score;
           Level := level; Lines := lines; GarbageQueue := queue;
           IsGameOver := if over : bool then true else IsGameOver gs;
           IsWinner := IsWinner gs; PlayerID := PlayerID gs;
           PlayerName := PlayerName gs; AttackPower := attack;
           PieceGen := gen |},
        g2).

Definition ReceiveGarbage (gs : GameState) (lines : Z) : GameState :=
  {| GBoard := GBoard gs; CurrentPiece := CurrentPiece gs;
     NextPiece := NextPiece gs; HoldPiece := HoldPiece gs;
     CanHold := CanHold gs; Score := Score gs; Level := Level gs;
     Lines := Lines gs;
     GarbageQueue := GoInt.add (GarbageQueue gs) lines;
     IsGameOver := IsGameOver gs; IsWinner := IsWinner gs;
     PlayerID := PlayerID gs; PlayerName := PlayerName gs;
     AttackPower := AttackPower gs; PieceGen := PieceGen gs |}.

(** Line clears and garbage applications, in any order. *)
Inductive BoardOp :=
  | OpClearLines
  | OpAddGarbageLines (count holeX : Z)   (* a call of AddGarbageLines *)
  | OpGarbage (queue : Z).                (* the queue applied at a lock *)

Fixpoint runBoardOps (ops : list BoardOp) (b : Board) (g : R)
  : option (Board * R) :=
  match ops with
  | [] => Some (b, g)
  | OpClearLines :: ops' =>
      '(b', _) ← Board_ClearLines b;
      runBoardOps ops' b' g
  | OpAddGarbageLines count holeX :: ops' =>
      b' ← Board_AddGarbageLines b count holeX;
      runBoardOps ops' b' g
  | OpGarbage queue :: ops' =>
      '(b', _, g') ← applyQueuedGarbage b queue g;
      runBoardOps ops' b' g'
  end.

(** The reading of garbage application in which every inserted row gets a
    hole of its own: one draw per row.  It is compared with
    [applyQueuedGarbage] below. *)
Fixpoint addGarbagePerRow (n : nat) (b : Board) (g : R) : option (Board * R) :=
  match n with
  | O => Some (b, g)
  | S n' =>
      let '(holeX, g') := Intn g BoardWidth in
      b' ← addGarbageLine b holeX;
      addGarbagePerRow n' b' g'
  end.

End State.

Arguments GameState R : clear implicits.

(** The score and attack tables as the specification words them: the base
    score of [n] lines is [baseScores[n-1]], the attack power [attackTable[n]]. *)
Definition baseScores : list Z := [100; 300; 500; 800].
Definition attackTable : list Z := [0; 0; 1; 2; 4].

(* the columns of the empty cells of a row *)
Definition emptyColumns (row : list Cell) : list nat :=
  (List.filter (fun xc : nat * Cell => negb (Filled xc.2)) (imap pair row)).*1.

(* the empty columns of the [k] bottom rows of a board *)
Definition bottomHoles (k : nat) (b : Board) : list (list nat) :=
  emptyColumns <$> drop (length (Cells b) - k) (Cells b).

(* the grid of a board has [Height] rows of [Width] cells *)
Definition board_ok (b : Board) : Prop :=
  0 <= Width b /\ 0 <= Height b /\
  length (Cells b) = Z.to_nat (Height b) /\
  Forall (fun row => length row = Z.to_nat (Width b)) (Cells b).

(* a board of the game: a 10 x 20 grid *)
Definition game_board (b : Board) : Prop :=
  board_ok b /\ Width b = BoardWidth /\ Height b = BoardHeight.

End Game.

(** ** The room server (package main) *)

(** package protocol: the messages the server sends and reads *)
Module protocol.

Inductive MessageType :=
  | MsgAssignID | MsgGameStart | MsgCountdown | MsgOpponentUpdate
  | MsgReceiveGarbage | MsgLobbyUpdate | MsgMatchOver.

Record LobbyPlayer := mkLobbyPlayer {
  PlayerID : string;
  Name : string;
  Ready : bool
}.

(* the payloads of [Envelope.Payload] *)
Inductive Payload :=
  | AssignIDPayload (player_id : string)
  | GameStartPayload (seed : Z) (players : list string)
  | CountdownPayload (value : Z)
  | ReceiveGarbagePayload (lines : Z) (attacker_id : string)
  | LobbyUpdatePayload (players : list LobbyPlayer)
  | MatchOverPayload (winner_id winner_name : string) (your_rank : Z).

Record Envelope := mkEnvelope {
  EType : MessageType;      (* field [Type] *)
  EPayload : Payload
}.

Record LinesClearedPayload := mkLinesCleared {
  Count : Z;
  AttackPower : Z
}.

End protocol.

Module Server.

Definition minPlayers : Z := 2.

(* capacity of a player's outbound queue: make(chan []byte, 64) *)
Definition sendChCap : nat := 64.

(** A player.  [sendCh] holds the messages queued for the connection's
    writer, oldest first; [sendClosed] tells whether the channel was closed.
    The connection and the board snapshot play no part below. *)
Record Player := mkPlayer {
  ID : string;
  Name : string;
  Ready : bool;
  Alive : bool;
  sendCh : list protocol.Envelope;
  sendClosed : bool;
  roomID : string;
  TargetID : string
}.

Definition setReady (v : bool) (p : Player) : Player :=
  {| ID := ID p; Name := Name p; Ready := v; Alive := Alive p;
     sendCh := sendCh p; sendClosed := sendClosed p; roomID := roomID p;
     TargetID := TargetID p |}.

Definition setAlive (v : bool) (p : Player) : Player :=
  {| ID := ID p; Name := Name p; Ready := Ready p; Alive := v;
     sendCh := sendCh p; sendClosed := sendClosed p; roomID := roomID p;
     TargetID := TargetID p |}.

Definition setRoomID (v : string) (p : Player) : Player :=
  {| ID := ID p; Name := Name p; Ready := Ready p; Alive := Alive p;
     sendCh := sendCh p; sendClosed := sendClosed p; roomID := v;
     TargetID := TargetID p |}.

Definition setTargetID (v : string) (p : Player) : Player :=
  {| ID := ID p; Name := Name p; Ready := Ready p; Alive := Alive p;
     sendCh := sendCh p; sendClosed := sendClosed p; roomID := roomID p;
     TargetID := v |}.

Definition setSendCh (q : list protocol.Envelope) (p : Player) : Player :=
  {| ID := ID p; Name := Name p; Ready := Ready p; Alive := Alive p;
     sendCh := q; sendClosed := sendClosed p; roomID := roomID p;
     TargetID := TargetID p |}.

(* newPlayer, with the name handlePlay sets *)
Definition newPlayer (id name : string) : Player :=
  {| ID := id; Name := name; Ready := false; Alive := true; sendCh := [];
     sendClosed := false; roomID := ""; TargetID := "" |}.

(** [send]: a non-blocking send.  On a closed channel the send panics and the
    panic is recovered: nothing is queued.  On a full queue the message is
    dropped (and logged). *)
Definition send (env : protocol.Envelope) (p : Player) : Player :=
  if sendClosed p then p
  else if decide (length (sendCh p) < sendChCap)%nat
       then setSendCh (sendCh p ++ [env]) p
       else p.

Inductive RoomPhase := PhaseLobby | PhaseCountdown | PhasePlaying | PhaseGameOver.

#[export] Instance RoomPhase_eq_dec : EqDecision RoomPhase.
Proof. solve_decision. Defined.

(** A room.  [players] maps a player's id to the player: every [*Player] is
    held by one room at most, under its own id, so the map holds the player
    itself; the handler of a connection reaches its player through the id.
    Go leaves the order of a [range] over a map unspecified; the model
    ranges in the order of [map_to_list]. *)
Record Room := mkRoom {
  code : string;
  phase : RoomPhase;
  players : gmap string Player;
  seed : Z;
  countdown : Z;
  winnerID : string
}.

Definition setPlayers (m : gmap string Player) (r : Room) : Room :=
  {| code := code r; phase := phase r; players := m; seed := seed r;
     countdown := countdown r; winnerID := winnerID r |}.

Definition setPhase (ph : RoomPhase) (r : Room) : Room :=
  {| code := code r; phase := ph; players := players r; seed := seed r;
     countdown := countdown r; winnerID := winnerID r |}.

Definition setCountdown (c : Z) (r : Room) : Room :=
  {| code := code r; phase := phase r; players := players r; seed := seed r;
     countdown := c; winnerID := winnerID r |}.

Definition setWinnerID (w : string) (r : Room) : Room :=
  {| code := code r; phase := phase r; players := players r; seed := seed r;
     countdown := countdown r; winnerID := w |}.

Definition newRoom (c : string) : Room :=
  {| code := c; phase := PhaseLobby; players := ∅; seed := 0; countdown := 0;
     winnerID := "" |}.

Definition addPlayer (p : Player) (r : Room) : Room :=
  setPlayers (<[ID p := setRoomID (code r) p]> (players r)) r.

Definition playerCount (r : Room) : Z := Z.of_nat (size (players r)).

(* for _, p := range r.players { p.send(env) } *)
Definition sendAll (env : protocol.Envelope) (r : Room) : Room :=
  setPlayers (send env <$> players r) r.

Definition broadcastToAll := sendAll.

Definition broadcastLobbyUpdate (r : Room) : Room :=
  let ps := (fun kv : string * Player =>
               protocol.mkLobbyPlayer (ID kv.2) (Name kv.2) (Ready kv.2))
            <$> map_to_list (players r) in
  sendAll (protocol.mkEnvelope protocol.MsgLobbyUpdate
             (protocol.LobbyUpdatePayload ps)) r.

Definition canStart (r : Room) : bool :=
  if playerCount r <? minPlayers then false
  else bool_decide (map_Forall (fun _ p => Ready p = true) (players r)).

(** [startCountdown], the part that runs before it returns: the phase and the
    counter are set.  The task it starts (three ticks a second apart, then
    [startGame]) runs later. *)
Definition startCountdown (r : Room) : Room :=
  setCountdown 3 (setPhase PhaseCountdown r).

(** [startGame], with the seed [rand.Int63()] drew. *)
Definition startGame (newSeed : Z) (r : Room) : Room :=
  let r1 := {| code := code r; phase := PhasePlaying;
               players := (fun p => setReady false (setAlive true p)) <$> players r;
               seed := newSeed; countdown := countdown r; winnerID := "" |} in
  broadcastToAll
    (protocol.mkEnvelope protocol.MsgGameStart
       (protocol.GameStartPayload newSeed (map_to_list (players r)).*1)) r1.

Definition matchOver (winner winnerName : string) (rank : Z) : protocol.Envelope :=
  protocol.mkEnvelope protocol.MsgMatchOver
    (protocol.MatchOverPayload winner winnerName rank).

(* the players with [p.Alive], in the order of the range *)
Definition alivePlayers (r : Room) : list Player :=
  List.filter Alive (map_to_list (players r)).*2.

(** [checkWinCondition], the part that runs before it returns.  The task it
    starts (back to the lobby two seconds later) is [resetAfterGameOver]. *)
Definition checkWinCondition (r : Room) : Room :=
  let alive := alivePlayers r in
  if (GoInt.len alive <=? 1) && (minPlayers <=? playerCount r) then
    let r1 := setPhase PhaseGameOver r in
    let '(winner, winnerName, r2) :=
      match alive with
      | [w] => (ID w, Name w, setWinnerID (ID w) r1)
      | _ => ("", "", r1)
      end in
    let totalPlayers := playerCount r in
    setPlayers
      ((fun p =>
          let rank := if decide (ID p = winner) then 1 else totalPlayers in
          send (matchOver winner winnerName rank) p)
       <$> players r2) r2
  else r.

Definition resetAfterGameOver (r : Room) : Room :=
  broadcastLobbyUpdate
    (setPlayers ((fun p => setReady false (setAlive true p)) <$> players r)
       (setPhase PhaseLobby r)).

Definition removePlayer (id : string) (r : Room) : Room :=
  let r1 := setPlayers (delete id (players r)) r in
  if decide (phase r1 = PhasePlaying) then checkWinCondition r1 else r1.

Definition handlePlayerDead (playerID : string) (r : Room) : Room :=
  checkWinCondition (setPlayers (alter (setAlive false) playerID (players r)) r).

(** The MsgReady case of [handleMessage], for the room that
    [hub.getRoom(p.roomID)] returned (with no room the handler returns at
    once); [pid] is the id of the connection's player [p]. *)
Definition handleMessage_Ready (pid : string) (ready : bool) (r : Room) : Room :=
  let r1 := setPlayers (alter (setReady ready) pid (players r)) r in
  let r2 := broadcastLobbyUpdate r1 in
  if canStart r2 then startCountdown r2 else r2.

(* the MsgSetTarget case *)
Definition handleMessage_SetTarget (pid target : string) (r : Room) : Room :=
  setPlayers (alter (setTargetID target) pid (players r)) r.

Section Attack.
Context {R : Type} `{RandSource R}.

(* the ids of the alive players other than the attacker, in the order of the
   range *)
Definition candidates (attackerID : string) (r : Room) : list string :=
  (List.filter (fun kv : string * Player =>
                  bool_decide (kv.1 <> attackerID) && Alive kv.2)
     (map_to_list (players r))).*1.

(** The target of an attack (lines 367-387 of [handleLinesCleared]); [None]
    is the [return] taken when nobody can be attacked.  [g] is the global
    source of math/rand; the index it draws is within [candidates], so the
    default of the lookup is never taken. *)
Definition resolveTarget (attackerID : string) (attacker : Player) (r : Room)
    (g : R) : option string * R :=
  let targetID := TargetID attacker in
  let targetID :=
    if decide (targetID <> "") then
      match players r !! targetID with
      | Some t =>
          if negb (Alive t) || bool_decide (targetID = attackerID) then ""
          else targetID
      | None => ""
      end
    else targetID in
  if decide (targetID = "") then
    let cs := candidates attackerID r in
    if decide (GoInt.len cs = 0) then (None, g)
    else
      let '(k, g') := Intn g (GoInt.len cs) in
      (Some (default "" (GoInt.index cs k)), g')
  else (Some targetID, g).

Definition receiveGarbage (lines : Z) (attackerID : string) : protocol.Envelope :=
  protocol.mkEnvelope protocol.MsgReceiveGarbage
    (protocol.ReceiveGarbagePayload lines attackerID).

Definition handleLinesCleared (attackerID : string)
    (payload : protocol.LinesClearedPayload) (r : Room) (g : R) : Room * R :=
  if protocol.AttackPower payload <=? 0 then (r, g)
  else
    match players r !! attackerID with
    | None => (r, g)
    | Some attacker =>
        match resolveTarget attackerID attacker r g with
        | (None, g') => (r, g')
        | (Some targetID, g') =>
            match players r !! targetID with
            | Some target =>
                (setPlayers
                   (<[targetID :=
                        send (receiveGarbage (protocol.AttackPower payload)
                                attackerID) target]> (players r)) r,
                 g')
            | None => (r, g')
            end
        end
    end.

End Attack.

(* the attacker's chosen target is a member, alive, and not the attacker *)
Definition validTarget (attackerID : string) (attacker : Player) (r : Room) : Prop :=
  TargetID attacker <> "" /\ TargetID attacker <> attackerID /\
  exists t, players r !! TargetID attacker = Some t /\ Alive t = true.

(* the room after [target.send] of the garbage message *)
Definition garbageSentTo (targetID attackerID : string) (lines : Z) (t : Player)
    (r : Room) : Room :=
  setPlayers (<[targetID := send (receiveGarbage lines attackerID) t]> (players r)) r.

(** What sending [env] to a player comes to, told by the player's queue: the
    message is queued last when the queue is open and holds fewer than 64
    messages; a closed or full queue is as it was (the message is dropped);
    nothing else of the player changes. *)
Definition sentTo (env : protocol.Envelope) (p p' : Player) : Prop :=
  ID p' = ID p /\ Name p' = Name p /\ Ready p' = Ready p /\
  Alive p' = Alive p /\ TargetID p' = TargetID p /\ roomID p' = roomID p /\
  sendClosed p' = sendClosed p /\
  (sendClosed p = false -> (length (sendCh p) < 64)%nat ->
   sendCh p' = sendCh p ++ [env]) /\
  (sendClosed p = true \/ (64 <= length (sendCh p))%nat ->
   sendCh p' = sendCh p).

(** The room [r'] is the room [r] after [env] was sent to its member [tid],
    and to nobody else. *)
Definition deliveredTo (tid : string) (env : protocol.Envelope) (r r' : Room)
  : Prop :=
  (exists t t', players r !! tid = Some t /\ players r' !! tid = Some t' /\
                sentTo env t t') /\
  (forall id, id <> tid -> players r' !! id = players r !! id) /\
  code r' = code r /\ phase r' = phase r /\ seed r' = seed r /\
  countdown r' = countdown r /\ winnerID r' = winnerID r.

(** *** The hub *)

Record PendingJoin := mkPendingJoin {
  RoomCode : string;
  PlayerName : string;
  PlayerID : string;
  CreatedAt : Z             (* a [time.Time], in nanoseconds *)
}.

(** The hub.  The index of connected players ([hub.players]) is written and
    never read; it is left out. *)
Record Hub := mkHub {
  rooms : gmap string Room;
  pendingJoins : gmap string PendingJoin;
  nextID : Z
}.

Definition setPendingJoins (m : gmap string PendingJoin) (h : Hub) : Hub :=
  {| rooms := rooms h; pendingJoins := m; nextID := nextID h |}.

Definition newHub : Hub := {| rooms := ∅; pendingJoins := ∅; nextID := 0 |}.

Definition Second : Z := 1000000000.

(* t.Sub(u): a [time.Duration], saturating at the ends of int64 *)
Definition Sub (t u : Z) : Z :=
  Z.max (- 2 ^ 63) (Z.min (2 ^ 63 - 1) (t - u)).

(* now.Sub(p.CreatedAt) > 60*time.Second *)
Definition expired (now : Z) (pj : PendingJoin) : bool :=
  60 * Second <? Sub now (CreatedAt pj).

(* fmt.Sprintf("player_%d_%d", time.Now().UnixMilli(), h.nextID) *)
Definition generatePlayerID (nowMilli : Z) (h : Hub) : string * Hub :=
  let n := GoInt.add (nextID h) 1 in
  ("player_" +:+ pretty nowMilli +:+ "_" +:+ pretty n,
   {| rooms := rooms h; pendingJoins := pendingJoins h; nextID := n |}).

(* fmt.Sprintf("tok_%d_%d", time.Now().UnixNano(), h.nextID) *)
Definition generateToken (nowNano : Z) (h : Hub) : string * Hub :=
  let n := GoInt.add (nextID h) 1 in
  ("tok_" +:+ pretty nowNano +:+ "_" +:+ pretty n,
   {| rooms := rooms h; pendingJoins := pendingJoins h; nextID := n |}).

(* [now] is what time.Now() returns *)
Definition addPendingJoin (token : string) (pj : PendingJoin) (now : Z)
    (h : Hub) : Hub :=
  let kept := filter (fun tp : string * PendingJoin => expired now tp.2 = false)
                (pendingJoins h) in
  setPendingJoins (<[token := pj]> kept) h.

Definition consumeToken (token : string) (now : Z) (h : Hub)
  : option PendingJoin * Hub :=
  match pendingJoins h !! token with
  | None => (None, h)
  | Some pj =>
      let h' := setPendingJoins (delete token (pendingJoins h)) h in
      if expired now pj then (None, h') else (Some pj, h')
  end.

(** What [handlePlay] answers before it upgrades the connection. *)
Inductive PlayAnswer :=
  | StatusBadRequest        (* missing room or token query parameter *)
  | StatusUnauthorized      (* invalid or expired token *)
  | StatusForbidden         (* token does not match room *)
  | StatusNotFound          (* room not found *)
  | Upgrade (pj : PendingJoin).

Section Play.
(* strings.ToUpper, of the standard library *)
Variable ToUpper : string -> string.

Definition getRoom (h : Hub) (c : string) : option Room :=
  rooms h !! ToUpper c.

Definition handlePlay (roomCode token : string) (now : Z) (h : Hub)
  : PlayAnswer * Hub :=
  if bool_decide (roomCode = "") || bool_decide (token = "")
  then (StatusBadRequest, h)
  else
    match consumeToken token now h with
    | (None, h') => (StatusUnauthorized, h')
    | (Some pj, h') =>
        if decide (RoomCode pj <> ToUpper roomCode) then (StatusForbidden, h')
        else match getRoom h' (RoomCode pj) with
             | None => (StatusNotFound, h')
             | Some _ => (Upgrade pj, h')
             end
    end.

End Play.

(** Registrations and consumptions of tokens, in any order. *)
Inductive HubOp :=
  | OpAddPendingJoin (token : string) (pj : PendingJoin) (now : Z)
  | OpConsumeToken (token : string) (now : Z).

Definition hubStep (op : HubOp) (h : Hub) : Hub :=
  match op with
  | OpAddPendingJoin token pj now => addPendingJoin token pj now h
  | OpConsumeToken token now => (consumeToken token now h).2
  end.

Definition runHub (ops : list HubOp) (h : Hub) : Hub :=
  foldl (fun h op => hubStep op h) h ops.

(* [op] does not register [token] *)
Definition registers (token : string) (op : HubOp) : bool :=
  match op with
  | OpAddPendingJoin t _ _ => bool_decide (t = token)
  | OpConsumeToken _ _ => false
  end.

(** Every member is stored under its own id ([addPlayer] is the only writer
    of the map), and ids are not empty ([generatePlayerID] makes them). *)
Definition room_ok (r : Room) : Prop :=
  forall id p, players r !! id = Some p -> ID p = id /\ id <> "".

End Server.

(** ** package player: the lobby of the in-process match

    The room server does not use it; its target picker is kept here beside
    the room's. *)
Module player.

Record Player := mkPlayer {
  ID : string;
  Name : string;
  Ready : bool;
  IsAlive : bool;
  AttackTarget : string;
  Kills : Z
}.

Record Lobby := mkLobby {
  players : gmap string Player
}.

(* the ids of the alive players other than [excludeID], in the order of the
   range *)
Definition aliveOthers (excludeID : string) (l : Lobby) : list string :=
  ID <$> List.filter (fun p => IsAlive p && bool_decide (ID p <> excludeID))
           (map_to_list (players l)).*2.

(* return alive[len(alive)%len(alive)] *)
Definition GetRandomAliveTarget (excludeID : string) (l : Lobby) : string :=
  let alive := aliveOthers excludeID l in
  if decide (GoInt.len alive = 0) then ""
  else default "" (GoInt.index alive (Z.rem (GoInt.len alive) (GoInt.len alive))).

End player.

(** ** Concrete states, to run the model on *)

Module Examples.
Import Lcg Game Server.

(* a row with its first column empty and the nine others filled *)
Definition wellRow : list Cell :=
  emptyCell :: replicate 9 {| Filled := true; CellColor := 8 |}.

(* sixteen empty rows over four rows with a one-column well *)
Definition wellBoard : Board :=
  {| Cells := replicate 16 (replicate 10 emptyCell) ++ replicate 4 wellRow;
     Width := BoardWidth; Height := BoardHeight |}.

(* the I piece, upright, over the well *)
Definition uprightI : Piece :=
  {| Typ := PieceI;
     Shape := [ [false; false; true; false];
                [false; false; true; false];
                [false; false; true; false];
                [false; false; true; false] ];
     X := -2; Y := 16; Color := 6 |}.

(* a seeded game at level 1 about to lock the I piece into the well, with
   [queue] garbage rows waiting *)
Definition wellState (queue : Z) : GameState Z :=
  {| GBoard := wellBoard; CurrentPiece := uprightI; NextPiece := NewPiece PieceO;
     HoldPiece := None; CanHold := true; Score := 0; Level := 1; Lines := 0;
     GarbageQueue := queue; IsGameOver := false; IsWinner := false;
     Game.PlayerID := "player_1_1"; Game.PlayerName := "Ann";
     AttackPower := 0; PieceGen := Some (NewPieceGenerator 42) |}.

(* the state of the global source in the examples *)
Definition g0 : Z := 5.

Definition ann : Player := newPlayer "player_1_1" "Ann".
Definition bob : Player := newPlayer "player_2_2" "Bob".
Definition cy : Player := newPlayer "player_3_3" "Cy".

(* a lobby of three *)
Definition lobby3 : Room :=
  addPlayer cy (addPlayer bob (addPlayer ann (newRoom "ABCDE"))).

(* a lobby of two in which Ann is ready and Bob is not *)
Definition lobby2 : Room :=
  handleMessage_Ready "player_1_1" true
    (addPlayer bob (addPlayer ann (newRoom "ABCDE"))).

(* a match of three in which Ann has chosen Bob as her target *)
Definition match3 : Room :=
  handleMessage_SetTarget "player_1_1" "player_2_2" (startGame 7 lobby3).

(* the same match with only Cy left alive, and with nobody left alive *)
Definition onlyCyAlive : Room :=
  setPlayers (alter (setAlive false) "player_1_1"
                (alter (setAlive false) "player_2_2" (players match3))) match3.

Definition nobodyAlive : Room :=
  setPlayers (setAlive false <$> players match3) match3.


(* Ann, as the match holds her *)
Definition annInMatch : Player :=
  default ann (players match3 !! "player_1_1").

(* a report of four cleared lines *)
Definition fourLines : protocol.LinesClearedPayload :=
  {| protocol.Count := 4; protocol.AttackPower := 4 |}.

(* a member whose outbound queue is full *)
Definition fullQueue (p : Player) : Player :=
  setSendCh (replicate 64 (protocol.mkEnvelope protocol.MsgCountdown
                             (protocol.CountdownPayload 1))) p.

Definition joinAnn : PendingJoin :=
  {| RoomCode := "ABCDE"; Server.PlayerName := "Ann";
     Server.PlayerID := "player_1_1"; CreatedAt := 0 |}.

Definition hub1 : Hub := addPendingJoin "tok_0_1" joinAnn 0 newHub.

End Examples.

(** ** package game, continued: moves, rotation, hold, tick, drop speed *)

Module GamePlay.
Import Game.

(* for _, x := range l { ... }, the body [f] updating the state or panicking *)
Fixpoint forM {A S : Type} (l : list A) (f : A -> S -> option S) (s : S)
  : option S :=
  match l with
  | [] => Some s
  | x :: l' => s' ← f x s; forM l' f s'
  end.

Definition setShape (sh : list (list bool)) (p : Piece) : Piece :=
  {| Typ := Typ p; Shape := sh; X := X p; Y := Y p; Color := Color p |}.

Definition setXY (x y : Z) (p : Piece) : Piece :=
  {| Typ := Typ p; Shape := Shape p; X := x; Y := y; Color := Color p |}.

(* rotated[j][n-1-i] = p.Shape[i][j] *)
Definition rotateCell (shape : list (list bool)) (n i j : nat)
    (rotated : list (list bool)) : option (list (list bool)) :=
  row ← shape !! i;
  v ← row !! j;
  rj ← rotated !! j;
  if decide (n - 1 - i < length rj)%nat
  then Some (<[j := <[(n - 1 - i)%nat := v]> rj]> rotated)
  else None.

(** [Piece.Rotate]: a quarter turn clockwise of an n x n shape. *)
Definition Piece_Rotate (p : Piece) : option Piece :=
  let n := length (Shape p) in
  rotated ← forM (seq 0 n)
               (fun i rot => forM (seq 0 n) (rotateCell (Shape p) n i) rot)
               (replicate n (replicate n false));
  Some (setShape rotated p).

(* GetDropSpeed's table, in nanoseconds *)
Definition Millisecond : Z := 1000000.

Definition speeds : list Z :=
  (fun ms => ms * Millisecond)
  <$> [800; 720; 630; 550; 470; 380; 300; 220; 130; 100;
       80; 80; 80; 70; 70; 70; 50; 50; 50; 30].

Section Play.
Context {R : Type} `{RandSource R}.

Definition setCurrentPiece (p : Piece) (gs : GameState R) : GameState R :=
  {| GBoard := GBoard gs; CurrentPiece := p; NextPiece := NextPiece gs;
     HoldPiece := HoldPiece gs; CanHold := CanHold gs; Score := Score gs;
     Level := Level gs; Lines := Lines gs; GarbageQueue := GarbageQueue gs;
     IsGameOver := IsGameOver gs; IsWinner := IsWinner gs;
     PlayerID := PlayerID gs; PlayerName := PlayerName gs;
     AttackPower := AttackPower gs; PieceGen := PieceGen gs |}.

Definition setScore (v : Z) (gs : GameState R) : GameState R :=
  {| GBoard := GBoard gs; CurrentPiece := CurrentPiece gs;
     NextPiece := NextPiece gs; HoldPiece := HoldPiece gs;
     CanHold := CanHold gs; Score := v; Level := Level gs; Lines := Lines gs;
     GarbageQueue := GarbageQueue gs; IsGameOver := IsGameOver gs;
     IsWinner := IsWinner gs; PlayerID := PlayerID gs;
     PlayerName := PlayerName gs; AttackPower := AttackPower gs;
     PieceGen := PieceGen gs |}.

(* p.X += dx (p.X-- is p.X += -1) and p.Y += dy *)
Definition moveX (dx : Z) (p : Piece) : Piece := setXY (GoInt.add (X p) dx) (Y p) p.
Definition moveY (dy : Z) (p : Piece) : Piece := setXY (X p) (GoInt.add (Y p) dy) p.

(* if gs.Board.IsValidPosition(gs.CurrentPiece, dx, dy) { move; return true }
   return false *)
Definition tryMove (dx dy : Z) (move : Piece -> Piece) (gs : GameState R)
  : option (bool * GameState R) :=
  ok ← Board_IsValidPosition (GBoard gs) (CurrentPiece gs) dx dy;
  if ok : bool
  then Some (true, setCurrentPiece (move (CurrentPiece gs)) gs)
  else Some (false, gs).

Definition MoveLeft (gs : GameState R) := tryMove (-1) 0 (moveX (-1)) gs.
Definition MoveRight (gs : GameState R) := tryMove 1 0 (moveX 1) gs.
Definition MoveDown (gs : GameState R) := tryMove 0 1 (moveY 1) gs.

(** [GameState.Rotate]: the turn, then the wall kicks -1, +1, -2, +2, then
    the shape put back. *)
Definition Rotate (gs : GameState R) : option (bool * GameState R) :=
  let original := Shape (CurrentPiece gs) in
  p ← Piece_Rotate (CurrentPiece gs);
  let b := GBoard gs in
  v0 ← Board_IsValidPosition b p 0 0;
  if v0 : bool then Some (true, setCurrentPiece p gs)
  else
    v1 ← Board_IsValidPosition b p (-1) 0;
    if v1 : bool then Some (true, setCurrentPiece (moveX (-1) p) gs)
    else
      v2 ← Board_IsValidPosition b p 1 0;
      if v2 : bool then Some (true, setCurrentPiece (moveX 1 p) gs)
      else
        v3 ← Board_IsValidPosition b p (-2) 0;
        if v3 : bool then Some (true, setCurrentPiece (moveX (-2) p) gs)
        else
          v4 ← Board_IsValidPosition b p 2 0;
          if v4 : bool then Some (true, setCurrentPiece (moveX 2 p) gs)
          else Some (false, setCurrentPiece (setShape original p) gs).

(** [GameState.Hold]; [g] is the global source, read when there is no
    generator. *)
Definition Hold (gs : GameState R) (g : R) : option (bool * GameState R * R) :=
  if negb (CanHold gs) then Some (false, gs, g)
  else
    match HoldPiece gs with
    | None =>
        '(next, gen, g') ← nextPiece gs g;
        Some (true,
              {| GBoard := GBoard gs; CurrentPiece := NextPiece gs;
                 NextPiece := next;
                 HoldPiece := Some (NewPiece (Typ (CurrentPiece gs)));
                 CanHold := false; Score := Score gs; Level := Level gs;
                 Lines := Lines gs; GarbageQueue := GarbageQueue gs;
                 IsGameOver := IsGameOver gs; IsWinner := IsWinner gs;
                 PlayerID := PlayerID gs; PlayerName := PlayerName gs;
                 AttackPower := AttackPower gs; PieceGen := gen |},
              g')
    | Some held =>
        let currentType := Typ (CurrentPiece gs) in
        let c := NewPiece (Typ held) in
        row0 ← Shape c !! O;
        let c' := setXY (GoInt.sub (GoInt.div BoardWidth 2)
                           (GoInt.div (GoInt.len row0) 2)) 0 c in
        Some (true,
              {| GBoard := GBoard gs; CurrentPiece := c';
                 NextPiece := NextPiece gs;
                 HoldPiece := Some (NewPiece currentType);
                 CanHold := false; Score := Score gs; Level := Level gs;
                 Lines := Lines gs; GarbageQueue := GarbageQueue gs;
                 IsGameOver := IsGameOver gs; IsWinner := IsWinner gs;
                 PlayerID := PlayerID gs; PlayerName := PlayerName gs;
                 AttackPower := AttackPower gs; PieceGen := PieceGen gs |},
              g)
    end.

(** [GameState.Tick] *)
Definition Tick (gs : GameState R) (g : R) : option (bool * GameState R * R) :=
  if IsGameOver gs then Some (false, gs, g)
  else
    '(moved, gs1) ← MoveDown gs;
    if moved : bool then Some (true, gs1, g)
    else '(_, gs2, g') ← LockPiece gs1 g; Some (false, gs2, g').

(** [GameState.GetDropSpeed], in nanoseconds *)
Definition GetDropSpeed (gs : GameState R) : option Z :=
  if GoInt.len speeds <? Level gs
  then GoInt.index speeds (GoInt.sub (GoInt.len speeds) 1)
  else GoInt.index speeds (GoInt.sub (Level gs) 1).

(** Moves and turns of the current piece, in any order. *)
Inductive MoveOp := OpLeft | OpRight | OpDown | OpRotate.

Definition moveStep (op : MoveOp) (gs : GameState R) : option (bool * GameState R) :=
  match op with
  | OpLeft => MoveLeft gs
  | OpRight => MoveRight gs
  | OpDown => MoveDown gs
  | OpRotate => Rotate gs
  end.

Fixpoint runMoves (ops : list MoveOp) (gs : GameState R) : option (GameState R) :=
  match ops with
  | [] => Some gs
  | op :: ops' => '(_, gs') ← moveStep op gs; runMoves ops' gs'
  end.

(** [GameState.GetGhostY]: for gs.Board.IsValidPosition(gs.CurrentPiece, 0,
    ghostY-gs.CurrentPiece.Y+1) { ghostY++ }.  The loops of [GetGhostY] and
    [HardDrop] take fuel; [None] is a panic or the end of the fuel. *)
Fixpoint ghostLoop (fuel : nat) (gs : GameState R) (ghostY : Z) : option Z :=
  match fuel with
  | O => None
  | S fuel' =>
      ok ← Board_IsValidPosition (GBoard gs) (CurrentPiece gs) 0
             (GoInt.add (GoInt.sub ghostY (Y (CurrentPiece gs))) 1);
      if ok : bool then ghostLoop fuel' gs (GoInt.add ghostY 1) else Some ghostY
  end.

Definition GetGhostY (fuel : nat) (gs : GameState R) : option Z :=
  ghostLoop fuel gs (Y (CurrentPiece gs)).

(** [GameState.HardDrop]: for gs.MoveDown() { gs.Score += 2 }; gs.LockPiece() *)
Fixpoint dropLoop (fuel : nat) (gs : GameState R) : option (GameState R) :=
  match fuel with
  | O => None
  | S fuel' =>
      '(moved, gs1) ← MoveDown gs;
      if moved : bool
      then dropLoop fuel' (setScore (GoInt.add (Score gs1) 2) gs1)
      else Some gs1
  end.

(* [n] ticks in a row: what they returned and the state afterwards *)
Fixpoint runTicks (n : nat) (gs : GameState R) (g : R)
  : option (list bool * GameState R * R) :=
  match n with
  | O => Some ([], gs, g)
  | S n' =>
      '(moved, gs1, g1) ← Tick gs g;
      '(rest, gs2, g2) ← runTicks n' gs1 g1;
      Some (moved :: rest, gs2, g2)
  end.

Definition HardDrop (fuel : nat) (gs : GameState R) (g : R)
  : option (GameState R * R) :=
  gs1 ← dropLoop fuel gs;
  '(_, gs2, g') ← LockPiece gs1 g;
  Some (gs2, g').

(** A client at play: locks, holds, garbage receipts, moves and turns, in
    any order. *)
Inductive PlayOp :=
  | PlayLock
  | PlayHold
  | PlayReceive (lines : Z)
  | PlayMove (m : MoveOp).

Fixpoint runPlay (ops : list PlayOp) (gs : GameState R) (g : R)
  : option (GameState R * R) :=
  match ops with
  | [] => Some (gs, g)
  | PlayLock :: ops' =>
      '(_, gs', g') ← LockPiece gs g; runPlay ops' gs' g'
  | PlayHold :: ops' =>
      '(_, gs', g') ← Hold gs g; runPlay ops' gs' g'
  | PlayReceive lines :: ops' =>
      runPlay ops' (ReceiveGarbage gs lines) g
  | PlayMove m :: ops' =>
      '(_, gs') ← moveStep m gs; runPlay ops' gs' g
  end.

(* is there a hold in the sequence? *)
Definition hasHold (ops : list PlayOp) : bool :=
  existsb (fun op => match op with PlayHold => true | _ => false end) ops.

(* one for every lock, and one for the first hold when nothing is held yet *)
Fixpoint countDraws (held : bool) (ops : list PlayOp) : nat :=
  match ops with
  | [] => O
  | PlayLock :: ops' => S (countDraws held ops')
  | PlayHold :: ops' =>
      if held then countDraws true ops' else S (countDraws true ops')
  | _ :: ops' => countDraws held ops'
  end.

End Play.

(** *** The flat board *)

(* make([]int, n): panics for a negative [n] *)
Definition makeInts (n : Z) : option (list Z) :=
  if n <? 0 then None else Some (replicate (Z.to_nat n) 0).

(* for x := 0; x < b.Width; x++ { if b.Cells[y][x].Filled { flat[y*b.Width+x] = ... } }
   of ToFlat, with [todo] columns left from column [x] on *)
Fixpoint flatRow (b : Board) (y : Z) (todo : nat) (x : Z) (flat : list Z)
  : option (list Z) :=
  match todo with
  | O => Some flat
  | S todo' =>
      row ← GoInt.index (Cells b) y;
      c ← GoInt.index row x;
      flat' ← (if Filled c
               then GoInt.store flat (GoInt.add (GoInt.mul y (Width b)) x)
                      (CellColor c)
               else Some flat);
      flatRow b y todo' (x + 1) flat'
  end.

(* for y := 0; y < b.Height; y++ { ... }, with [todo] rows left from row [y] on *)
Fixpoint flatRows (b : Board) (todo : nat) (y : Z) (flat : list Z)
  : option (list Z) :=
  match todo with
  | O => Some flat
  | S todo' =>
      flat' ← flatRow b y (Z.to_nat (Width b)) 0 flat;
      flatRows b todo' (y + 1) flat'
  end.

Definition Board_ToFlat (b : Board) : option (list Z) :=
  flat ← makeInts (GoInt.mul (Height b) (Width b));
  flatRows b (Z.to_nat (Height b)) 0 flat.

(* for x := 0; x < width; x++ { idx := y*width + x;
     if idx < len(flat) && flat[idx] != 0 { b.Cells[y][x] = Cell{true, flat[idx]} } }
   of BoardFromFlat *)
Fixpoint unflatRow (flat : list Z) (y : Z) (todo : nat) (x : Z) (b : Board)
  : option Board :=
  match todo with
  | O => Some b
  | S todo' =>
      let idx := GoInt.add (GoInt.mul y (Width b)) x in
      b' ← (if idx <? GoInt.len flat then
              v ← GoInt.index flat idx;
              if decide (v <> 0)
              then setCell b y x {| Filled := true; CellColor := v |}
              else Some b
            else Some b);
      unflatRow flat y todo' (x + 1) b'
  end.

(* for y := 0; y < height; y++ { b.Cells[y] = make([]Cell, width); ... } *)
Fixpoint unflatRows (flat : list Z) (todo : nat) (y : Z) (b : Board)
  : option Board :=
  match todo with
  | O => Some b
  | S todo' =>
      row ← makeRow (Width b);
      cells ← GoInt.store (Cells b) y row;
      b' ← unflatRow flat y (Z.to_nat (Width b)) 0
             {| Cells := cells; Width := Width b; Height := Height b |};
      unflatRows flat todo' (y + 1) b'
  end.

(** [make] panics on a negative length, which is the [None] below.  It also
    panics on a length past the allocator's bound, far beyond the size of any
    board; that bound is not part of this definition, which is meant for
    sizes [make] allocates. *)
Definition BoardFromFlat (flat : list Z) (width height : Z) : option Board :=
  (* make([][]Cell, height): rows that are nil *)
  cells ← (if height <? 0 then None else Some (replicate (Z.to_nat height) []));
  unflatRows flat (Z.to_nat height) 0
    {| Cells := cells; Width := width; Height := height |}.

(* the colour index a cell is sent as *)
Definition colourOf (c : Cell) : Z := if Filled c then CellColor c else 0.

(* the cell a colour index is read as *)
Definition cellOf (v : Z) : Cell :=
  if decide (v <> 0) then {| Filled := true; CellColor := v |} else emptyCell.

(* the rows of a board one after the other, as colour indices *)
Definition flatOf (b : Board) : list Z :=
  concat ((fun row : list Cell => colourOf <$> row) <$> Cells b).

(* the [w] x [h] grid read from a flat list; a missing entry reads as empty *)
Definition gridOf (flat : list Z) (w h : nat) : list (list Cell) :=
  (fun y => (fun x => cellOf (default 0 (flat !! (y * w + x)%nat))) <$> seq 0 w)
  <$> seq 0 h.

(* the cell read at place (y, x) of a grid of width [w] *)
Definition cellAt (flat : list Z) (w y x : nat) : Cell :=
  cellOf (default 0 (flat !! (y * w + x)%nat)).

(* a filled cell has a colour, an empty cell has none *)
Definition cleanCell (c : Cell) : Prop :=
  if Filled c then CellColor c <> 0 else CellColor c = 0.

(* the cell of a board at row [y], column [x] *)
Definition boardCell (b : Board) (y x : Z) : option Cell :=
  r ← GoInt.index (Cells b) y; GoInt.index r x.

(* a filled cell of a piece may be at column [nx], row [ny]: within the
   columns, above the floor and, when on the board, on a cell that is not
   filled (above the board every place is free) *)
Definition freeAt (b : Board) (nx ny : Z) : bool :=
  (0 <=? nx) && (nx <? Width b) && (ny <? Height b) &&
  ((ny <? 0) ||
   match boardCell b ny nx with
   | Some c => negb (Filled c)
   | None => false
   end).

(* the cell a lock writes *)
Definition stamped (p : Piece) : Cell := {| Filled := true; CellColor := Color p |}.

(* every cell of the grid is clean *)
Definition clean_board (b : Board) : Prop :=
  Forall (Forall cleanCell) (Cells b).

(* a game whose board is a clean game board and whose pieces have colours *)
Definition tidy {R : Type} `{RandSource R} (gs : GameState R) : Prop :=
  game_board (GBoard gs) /\ clean_board (GBoard gs) /\
  Color (CurrentPiece gs) <> 0 /\ Color (NextPiece gs) <> 0 /\
  forall h, HoldPiece gs = Some h -> Color h <> 0.

(* an n x n shape *)
Definition square (sh : list (list bool)) : Prop :=
  Forall (fun row => length row = length sh) sh.

(* the n x n table whose cell (r, c) is [f r c] *)
Definition tab (n : nat) (f : nat -> nat -> bool) : list (list bool) :=
  (fun r => f r <$> seq 0 n) <$> seq 0 n.

(* the cell (r, c) of a shape, [false] outside *)
Definition cell (sh : list (list bool)) (r c : nat) : bool :=
  default false (sh !! r ≫= fun row => row !! c).

(* the quarter turn of a square shape, cell by cell *)
Definition turned (sh : list (list bool)) : list (list bool) :=
  tab (length sh) (fun r c => cell sh (length sh - 1 - c) r).

(* what a move must keep: the piece in a valid place, its shape square, its
   type and colour, and everything but the piece *)
Definition moved {R : Type} `{RandSource R} (gs gs' : GameState R) : Prop :=
  Board_IsValidPosition (GBoard gs') (CurrentPiece gs') 0 0 = Some true /\
  square (Shape (CurrentPiece gs')) /\
  length (Shape (CurrentPiece gs')) = length (Shape (CurrentPiece gs)) /\
  Typ (CurrentPiece gs') = Typ (CurrentPiece gs) /\
  Color (CurrentPiece gs') = Color (CurrentPiece gs) /\
  gs' = setCurrentPiece (CurrentPiece gs') gs.

(* a row with every cell filled *)
Definition fullRow (row : list Cell) : bool := forallb Filled row.

(* an empty row of a board of width [w] *)
Definition emptyRow (w : Z) : list Cell := replicate (Z.to_nat w) emptyCell.

(* a game begun with [NewSeededGameState _ _ s], after [d] draws beyond the
   first two: the generator has made [d + 2] pieces, the next piece is the
   last of them and, as long as nothing was held, the current piece is the
   one before *)
Definition seeded {R : Type} `{RandSource R}
    (s : Z) (d : nat) (held : bool) (gs : GameState R) : Prop :=
  game_board (GBoard gs) /\ square (Shape (CurrentPiece gs)) /\
  exists ts pg t,
    runGen (replicate (d + 2) OpNext) (NewPieceGenerator s) = Some (ts, pg) /\
    PieceGen gs = Some pg /\
    ts !! (d + 1)%nat = Some t /\ NextPiece gs = NewPiece t /\
    if held then HoldPiece gs <> None
    else HoldPiece gs = None /\ CanHold gs = true /\
         ts !! d = Some (Typ (CurrentPiece gs)).

End GamePlay.

(** ** The room server, continued: the outbound queue, the handlers of a
    connection and the front desk *)

Module Session.
Import Server.

(** *** A player's outbound queue *)

(* case msg, ok := <-p.sendCh of writePump: the oldest queued message, if
   there is one, leaves the queue *)
Definition recv (p : Player) : option protocol.Envelope * Player :=
  match sendCh p with
  | [] => (None, p)
  | msg :: q => (Some msg, setSendCh q p)
  end.

(* close(p.sendCh) *)
Definition closeSendCh (p : Player) : Player :=
  {| ID := ID p; Name := Name p; Ready := Ready p; Alive := Alive p;
     sendCh := sendCh p; sendClosed := true; roomID := roomID p;
     TargetID := TargetID p |}.

(** Sends by the room and receives by the write pump, in any order. *)
Inductive ChanOp :=
  | ChSend (env : protocol.Envelope)
  | ChRecv.

(* the messages the write pump received, oldest first, and the player
   afterwards *)
Fixpoint runChan (ops : list ChanOp) (p : Player)
  : list protocol.Envelope * Player :=
  match ops with
  | [] => ([], p)
  | ChSend env :: ops' => runChan ops' (send env p)
  | ChRecv :: ops' =>
      match recv p with
      | (Some msg, p1) => let '(out, p') := runChan ops' p1 in (msg :: out, p')
      | (None, p1) => runChan ops' p1
      end
  end.

(* the messages of the sends of a sequence *)
Definition sentOf (ops : list ChanOp) : list protocol.Envelope :=
  omap (fun op => match op with ChSend env => Some env | ChRecv => None end) ops.

(* the message [startGame] broadcasts *)
Definition gameStart (newSeed : Z) (r : Room) : protocol.Envelope :=
  protocol.mkEnvelope protocol.MsgGameStart
    (protocol.GameStartPayload newSeed (map_to_list (players r)).*1).

(** *** The front desk *)

(* the readings of the clock a join takes, in their order: for the player
   id (milliseconds), for the token, for [CreatedAt], and for the sweep of
   [addPendingJoin] (nanoseconds) *)
Record Clock := mkClock {
  atPlayerID : Z;
  atToken : Z;
  atCreated : Z;
  atSweep : Z
}.

(** What [handleJoinRoom] answers to a POST with a body that decodes. *)
Inductive JoinAnswer :=
  | JoinNotFound (code : string)          (* 404, room not found *)
  | JoinConflict                          (* 409, game already in progress *)
  | JoinOK (roomID joinToken : string).   (* 200 *)

(* the character of the underscore *)
Definition underscore : Ascii.ascii :=
  Ascii.Ascii true true true true true false true false.

(* no underscore among the characters of a string *)
Fixpoint plain (s : string) : bool :=
  match s with
  | String.EmptyString => true
  | String.String c s' => negb (bool_decide (c = underscore)) && plain s'
  end.

(** Every pending token was made by [generateToken], from a value of the
    counter that is not above the counter of the hub. *)
Definition tokens_ok (h : Hub) : Prop :=
  forall tok pj, pendingJoins h !! tok = Some pj ->
    exists t n : Z,
      tok = "tok_" +:+ pretty t +:+ "_" +:+ pretty n /\ n <= nextID h.

Section Desk.
(* strings.ToUpper and strings.TrimSpace, of the standard library *)
Variable ToUpper : string -> string.
Variable TrimSpace : string -> string.

(* if strings.TrimSpace(req.PlayerName) == "" { req.PlayerName = "Player" } *)
Definition playerNameOr (name : string) : string :=
  if decide (TrimSpace name = "") then "Player" else name.

Definition handleJoinRoom (roomID playerName : string) (t : Clock) (h : Hub)
  : JoinAnswer * Hub :=
  let code := ToUpper (TrimSpace roomID) in
  match getRoom ToUpper h code with
  | None => (JoinNotFound code, h)
  | Some room =>
      if decide (phase room <> PhaseLobby) then (JoinConflict, h)
      else
        let name := playerNameOr playerName in
        let '(playerID, h1) := generatePlayerID (atPlayerID t) h in
        let '(token, h2) := generateToken (atToken t) h1 in
        (JoinOK code token,
         addPendingJoin token
           {| RoomCode := code; PlayerName := name; PlayerID := playerID;
              CreatedAt := atCreated t |} (atSweep t) h2)
  end.

End Desk.

End Session.

(** ** The server: a connection's arrival and leave *)

Module Connection.
Import Server Session.

(* the message [handlePlay] sends a new player *)
Definition assignID (id : string) : protocol.Envelope :=
  protocol.mkEnvelope protocol.MsgAssignID (protocol.AssignIDPayload id).

(* the list a lobby update carries *)
Definition lobbyList (r : Room) : list protocol.LobbyPlayer :=
  (fun kv : string * Player =>
     protocol.mkLobbyPlayer (ID kv.2) (Name kv.2) (Ready kv.2))
  <$> map_to_list (players r).

Definition lobbyUpdate (ps : list protocol.LobbyPlayer) : protocol.Envelope :=
  protocol.mkEnvelope protocol.MsgLobbyUpdate (protocol.LobbyUpdatePayload ps).

(** [handlePlay] from the upgrade of the connection to the read pump, for
    the pending join [pj] and the room [getRoom] returned: the player is
    made, added to the room and sent its id, its write pump is started, and
    the lobby update goes to every member.  [pumped] tells whether the write
    pump has taken the first message off the queue by the time of the
    broadcast. *)
Definition connect (pumped : bool) (pj : PendingJoin) (r : Room) : Room :=
  let p := newPlayer (PlayerID pj) (PlayerName pj) in
  let r1 := addPlayer p r in
  let r2 := setPlayers (alter (send (assignID (ID p))) (ID p) (players r1)) r1 in
  let r3 := if pumped
            then setPlayers (alter (fun q => (recv q).2) (ID p) (players r2)) r2
            else r2 in
  broadcastLobbyUpdate r3.

Definition setRooms (m : gmap string Room) (h : Hub) : Hub :=
  {| rooms := m; pendingJoins := pendingJoins h; nextID := nextID h |}.

Definition resetToLobby (r : Room) : Room :=
  setPlayers ((fun p => setAlive true (setReady false p)) <$> players r)
    (setPhase PhaseLobby r).

(* the stop channel of the room's broadcast loop is left out *)
Definition removeRoomIfEmpty (c : string) (h : Hub) : Hub :=
  match rooms h !! c with
  | Some room =>
      if playerCount room =? 0 then setRooms (delete c (rooms h)) h else h
  | None => h
  end.

Section Leave.
(* strings.ToUpper, of the standard library *)
Variable ToUpper : string -> string.

(** The MsgLeaveRoom case of [handleMessage].  [pid] and [proomID] are the
    id and the [roomID] field of the connection's player [p]; the result is
    the hub and [p.roomID] afterwards.  The room is an object shared with the
    hub's map, where [getRoom] found it under the key [ToUpper proomID]: what
    the handler does to it is done to the map's entry.  A member stored under
    [pid] is [p] itself (ids are unique), so [removePlayer] clears
    [p.roomID] exactly when [pid] is a member. *)
Definition handleMessage_LeaveRoom (pid proomID : string) (h : Hub)
  : Hub * string :=
  if decide (proomID = "") then (h, proomID)
  else
    match getRoom ToUpper h proomID with
    | None => (h, proomID)
    | Some room =>
        let proomID' := match players room !! pid with
                        | Some _ => ""
                        | None => proomID
                        end in
        let room1 := removePlayer pid room in
        if playerCount room1 =? 0 then
          (removeRoomIfEmpty proomID
             (setRooms (<[ToUpper proomID := resetToLobby room1]> (rooms h)) h),
           proomID')
        else
          (setRooms (<[ToUpper proomID := broadcastLobbyUpdate room1]> (rooms h)) h,
           proomID')
    end.

End Leave.

End Connection.

(** ** The server: the countdown task *)

Module Countdown.
Import Server Session.

Definition countdownMsg (i : Z) : protocol.Envelope :=
  protocol.mkEnvelope protocol.MsgCountdown (protocol.CountdownPayload i).

(* one round of the loop of the countdown task *)
Definition countdownTick (i : Z) (r : Room) : Room :=
  broadcastToAll (countdownMsg i) (setCountdown i r).

(** The task [startCountdown] starts, with nothing else happening to the room
    meanwhile: the loop runs for i = 3, 2, 1, a second apart, then
    [startGame] with the seed it draws. *)
Definition countdownTask (newSeed : Z) (r : Room) : Room :=
  startGame newSeed (foldl (fun r i => countdownTick i r) r [3; 2; 1]).

End Countdown.

(** ** The client: targeting *)

Module Tui.

Inductive GameMode := ModeNone | ModeSingle | ModeMulti.

#[export] Instance GameMode_eq_dec : EqDecision GameMode.
Proof. solve_decision. Defined.

(* protocol.OpponentState; the score, level, lines, winner flag and board of
   the snapshot play no part below *)
Record OpponentState := mkOpponent {
  PlayerID : string;
  PlayerName : string;
  Alive : bool
}.

(* what the client sends to the server *)
Inductive ClientMsg :=
  | MsgSetTarget (target_id : string)
  | MsgLinesCleared (count attack_power : Z)
  | MsgPlayerDead.

(** The fields of the TUI's [Model] that targeting reads and writes.
    [connected] is [m.client != nil]; [outbox] holds what [m.client.Send] was
    given, oldest first. *)
Record Model := mkModel {
  mode : GameMode;
  opponents : list OpponentState;
  targetID : string;
  targetIndex : Z;
  connected : bool;
  outbox : list ClientMsg
}.

Definition setTarget (id : string) (idx : Z) (m : Model) : Model :=
  {| mode := mode m; opponents := opponents m; targetID := id;
     targetIndex := idx; connected := connected m; outbox := outbox m |}.

(* m.client.Send(env), when there is a client *)
Definition notify (msg : ClientMsg) (m : Model) : Model :=
  if connected m
  then {| mode := mode m; opponents := opponents m; targetID := targetID m;
          targetIndex := targetIndex m; connected := connected m;
          outbox := outbox m ++ [msg] |}
  else m.

(* for i, x := range ids { if x == id { pos = i; break } }: the position of
   the first [id] from position [i] on, [pos] when there is none *)
Fixpoint firstIndex (ids : list string) (id : string) (i pos : Z) : Z :=
  match ids with
  | [] => pos
  | x :: rest => if decide (x = id) then i else firstIndex rest id (i + 1) pos
  end.

(* the ids of the opponents with [opp.Alive], in the order of the list *)
Definition aliveIDs (m : Model) : list string :=
  PlayerID <$> List.filter Alive (opponents m).

(** [cycleTarget]; [None] is a panic *)
Definition cycleTarget (m : Model) : option Model :=
  if negb (bool_decide (mode m = ModeMulti)) || (GoInt.len (opponents m) =? 0)
  then Some m
  else
    let alive := aliveIDs m in
    if GoInt.len alive =? 0 then Some (setTarget "" (-1) m)
    else
      let currentPos := firstIndex alive (targetID m) 0 (-1) in
      let nextPos := GoInt.add currentPos 1 in
      m1 ← (if GoInt.len alive <=? nextPos then Some (setTarget "" (-1) m)
            else
              id ← GoInt.index alive nextPos;
              Some (setTarget id
                      (firstIndex (PlayerID <$> opponents m) id 0 (targetIndex m))
                      m));
      Some (notify (MsgSetTarget (targetID m1)) m1).

(* the Tab key pressed [k] times *)
Fixpoint cycles (k : nat) (m : Model) : option Model :=
  match k with
  | O => Some m
  | S k' => m' ← cycleTarget m; cycles k' m'
  end.

(* the target after [i] presses from "random": none, then the alive
   opponents in their order *)
Definition posID (ids : list string) (i : nat) : string :=
  match i with
  | O => ""
  | S i' => default "" (ids !! i')
  end.

(* what targeting relies on: a multiplayer game, opponents with distinct
   ids, at least one of them alive, and no alive opponent without an id (the
   length of a slice is an [int]) *)
Definition targeting_ok (m : Model) : Prop :=
  mode m = ModeMulti /\ NoDup (PlayerID <$> opponents m) /\
  ("" ∉ aliveIDs m) /\ aliveIDs m <> [] /\
  GoInt.len (opponents m) < 2 ^ 63.

End Tui.


(** ** The client: server messages and attack reports *)

Module Client.
Import Tui.
Import Game GamePlay.

Inductive Screen :=
  | ScreenConnecting | ScreenMainMenu | ScreenEditName | ScreenJoinRoom
  | ScreenListRooms | ScreenLobby | ScreenCountdown | ScreenPlaying
  | ScreenGameOver.

#[export] Instance Screen_eq_dec : EqDecision Screen.
Proof. solve_decision. Defined.

Section Handlers.
Context {R : Type} `{RandSource R}.

(** The TUI's [Model]: the targeting part ([Tui.Model]) and the fields the
    handlers of server messages and of the game tick read and write.  The
    window size, the inputs of the menus and the room list play no part. *)
Record Client := mkClient {
  model : Tui.Model;
  screen : Screen;
  playerID : string;
  playerName : string;
  gameState : option (GameState R);
  countdown : Z;
  lobbyPlayers : list protocol.LobbyPlayer;
  seed : Z;
  matchPlayers : list string;
  matchResult : option protocol.Payload
}.

Definition setModel (m : Tui.Model) (c : Client) : Client :=
  {| model := m; screen := screen c; playerID := playerID c;
     playerName := playerName c; gameState := gameState c;
     countdown := countdown c; lobbyPlayers := lobbyPlayers c; seed := seed c;
     matchPlayers := matchPlayers c; matchResult := matchResult c |}.

Definition setGameState (gs : option (GameState R)) (c : Client) : Client :=
  {| model := model c; screen := screen c; playerID := playerID c;
     playerName := playerName c; gameState := gs;
     countdown := countdown c; lobbyPlayers := lobbyPlayers c; seed := seed c;
     matchPlayers := matchPlayers c; matchResult := matchResult c |}.

Definition setAttackPower (v : Z) (gs : GameState R) : GameState R :=
  {| GBoard := GBoard gs; CurrentPiece := CurrentPiece gs;
     NextPiece := NextPiece gs; HoldPiece := HoldPiece gs;
     CanHold := CanHold gs; Score := Score gs; Level := Level gs;
     Lines := Lines gs; GarbageQueue := GarbageQueue gs;
     IsGameOver := IsGameOver gs; IsWinner := IsWinner gs;
     PlayerID := PlayerID gs; PlayerName := PlayerName gs;
     AttackPower := v; PieceGen := PieceGen gs |}.

Definition setIsWinner (v : bool) (gs : GameState R) : GameState R :=
  {| GBoard := GBoard gs; CurrentPiece := CurrentPiece gs;
     NextPiece := NextPiece gs; HoldPiece := HoldPiece gs;
     CanHold := CanHold gs; Score := Score gs; Level := Level gs;
     Lines := Lines gs; GarbageQueue := GarbageQueue gs;
     IsGameOver := IsGameOver gs; IsWinner := v;
     PlayerID := PlayerID gs; PlayerName := PlayerName gs;
     AttackPower := AttackPower gs; PieceGen := PieceGen gs |}.

(** [sendAttackIfNeeded] *)
Definition sendAttackIfNeeded (c : Client) : Client :=
  match gameState c with
  | Some gs =>
      if negb (bool_decide (Tui.mode (model c) = Tui.ModeMulti))
         || negb (Tui.connected (model c))
      then c
      else if 0 <? AttackPower gs then
        setGameState (Some (setAttackPower 0 gs))
          (setModel (Tui.notify (Tui.MsgLinesCleared (AttackPower gs)
                                   (AttackPower gs)) (model c)) c)
      else c
  | None => c
  end.

(** [checkLocalGameOver] *)
Definition checkLocalGameOver (c : Client) : Client :=
  match gameState c with
  | Some gs =>
      if negb (bool_decide (Tui.mode (model c) = Tui.ModeMulti))
         || negb (Tui.connected (model c))
      then c
      else if IsGameOver gs
           then setModel (Tui.notify Tui.MsgPlayerDead (model c)) c
           else c
  | None => c
  end.

(** [handleServerMsg], for the messages the room server sends, each with
    the payload of its type; [None] is a panic.  The opponent update has no
    payload in [protocol.Payload] and is left out; on a type with another
    type's payload, which the server never sends, the model leaves the client
    as it is. *)
Definition handleServerMsg (env : protocol.Envelope) (c : Client) : option Client :=
  match protocol.EType env, protocol.EPayload env with
  | protocol.MsgLobbyUpdate, protocol.LobbyUpdatePayload players =>
      Some {| model := model c; screen := screen c; playerID := playerID c;
              playerName := playerName c; gameState := gameState c;
              countdown := countdown c; lobbyPlayers := players;
              seed := seed c; matchPlayers := matchPlayers c;
              matchResult := matchResult c |}
  | protocol.MsgCountdown, protocol.CountdownPayload value =>
      if bool_decide (screen c = ScreenLobby)
         || bool_decide (screen c = ScreenCountdown)
      then Some {| model := model c; screen := ScreenCountdown;
                   playerID := playerID c; playerName := playerName c;
                   gameState := gameState c; countdown := value;
                   lobbyPlayers := lobbyPlayers c; seed := seed c;
                   matchPlayers := matchPlayers c;
                   matchResult := matchResult c |}
      else Some c
  | protocol.MsgGameStart, protocol.GameStartPayload s players =>
      gs ← NewSeededGameState (playerID c) (playerName c) s;
      (* gameTickCmd(m.gameState.GetDropSpeed()) *)
      _ ← GetDropSpeed gs;
      Some {| model := Tui.setTarget "" (-1) (model c); screen := ScreenPlaying;
              playerID := playerID c; playerName := playerName c;
              gameState := Some gs; countdown := countdown c;
              lobbyPlayers := lobbyPlayers c; seed := s;
              matchPlayers := players; matchResult := None |}
  | protocol.MsgReceiveGarbage, protocol.ReceiveGarbagePayload lines _ =>
      match gameState c with
      | Some gs =>
          if negb (IsGameOver gs)
          then Some (setGameState (Some (ReceiveGarbage gs lines)) c)
          else Some c
      | None => Some c
      end
  | protocol.MsgMatchOver, protocol.MatchOverPayload winner _ _ =>
      let gs' :=
        match gameState c with
        | Some gs =>
            if bool_decide (winner = playerID c)
            then Some (setIsWinner true gs) else Some gs
        | None => None
        end in
      Some {| model := model c; screen := ScreenGameOver;
              playerID := playerID c; playerName := playerName c;
              gameState := gs'; countdown := countdown c;
              lobbyPlayers := lobbyPlayers c; seed := seed c;
              matchPlayers := matchPlayers c;
              matchResult := Some (protocol.EPayload env) |}
  | _, _ => Some c
  end.

End Handlers.
End Client.


(** ** package player, continued: the calls of the lobby *)

Module LobbyOps.
Import player.

Definition NewLobby : Lobby := {| players := ∅ |}.

Definition AddPlayer (id name : string) (l : Lobby) : Player * Lobby :=
  let p := {| ID := id; Name := name; Ready := false; IsAlive := true;
              AttackTarget := ""; Kills := 0 |} in
  (p, {| players := <[id := p]> (players l) |}).

Definition RemovePlayer (id : string) (l : Lobby) : Lobby :=
  {| players := delete id (players l) |}.

Definition GetPlayer (id : string) (l : Lobby) : option Player :=
  players l !! id.

(* if p, ok := l.players[id]; ok { p.Ready = ready } *)
Definition SetPlayerReady (id : string) (ready : bool) (l : Lobby) : Lobby :=
  {| players :=
       alter (fun p => {| ID := ID p; Name := Name p; Ready := ready;
                          IsAlive := IsAlive p; AttackTarget := AttackTarget p;
                          Kills := Kills p |}) id (players l) |}.

Definition SetPlayerAlive (id : string) (alive : bool) (l : Lobby) : Lobby :=
  {| players :=
       alter (fun p => {| ID := ID p; Name := Name p; Ready := Ready p;
                          IsAlive := alive; AttackTarget := AttackTarget p;
                          Kills := Kills p |}) id (players l) |}.

Definition SetAttackTarget (id targetID : string) (l : Lobby) : Lobby :=
  {| players :=
       alter (fun p => {| ID := ID p; Name := Name p; Ready := Ready p;
                          IsAlive := IsAlive p; AttackTarget := targetID;
                          Kills := Kills p |}) id (players l) |}.

Definition IncrementKills (id : string) (l : Lobby) : Lobby :=
  {| players :=
       alter (fun p => {| ID := ID p; Name := Name p; Ready := Ready p;
                          IsAlive := IsAlive p; AttackTarget := AttackTarget p;
                          Kills := GoInt.add (Kills p) 1 |}) id (players l) |}.

Definition Reset (l : Lobby) : Lobby :=
  {| players :=
       (fun p => {| ID := ID p; Name := Name p; Ready := false;
                    IsAlive := true; AttackTarget := ""; Kills := 0 |})
       <$> players l |}.

(* the players in the order of the range *)
Definition GetAllPlayers (l : Lobby) : list Player :=
  (map_to_list (players l)).*2.

Definition GetAlivePlayers (l : Lobby) : list Player :=
  List.filter IsAlive (GetAllPlayers l).

Definition GetReadyPlayers (l : Lobby) : list Player :=
  List.filter Ready (GetAllPlayers l).

Definition Count (l : Lobby) : Z := Z.of_nat (size (players l)).

(* count := 0; for _, p := range l.players { if p.IsAlive { count++ } } *)
Definition CountAlive (l : Lobby) : Z :=
  foldl (fun count p => if IsAlive p then GoInt.add count 1 else count) 0
    (GetAllPlayers l).

Definition CountReady (l : Lobby) : Z :=
  foldl (fun count p => if Ready p then GoInt.add count 1 else count) 0
    (GetAllPlayers l).

(** The calls that change a lobby, in any order. *)
Inductive LobbyOp :=
  | OpAddPlayer (id name : string)
  | OpRemovePlayer (id : string)
  | OpSetPlayerReady (id : string) (ready : bool)
  | OpSetPlayerAlive (id : string) (alive : bool)
  | OpSetAttackTarget (id targetID : string)
  | OpIncrementKills (id : string)
  | OpReset.

Definition lobbyStep (op : LobbyOp) (l : Lobby) : Lobby :=
  match op with
  | OpAddPlayer id name => (AddPlayer id name l).2
  | OpRemovePlayer id => RemovePlayer id l
  | OpSetPlayerReady id ready => SetPlayerReady id ready l
  | OpSetPlayerAlive id alive => SetPlayerAlive id alive l
  | OpSetAttackTarget id targetID => SetAttackTarget id targetID l
  | OpIncrementKills id => IncrementKills id l
  | OpReset => Reset l
  end.

Definition runLobby (ops : list LobbyOp) (l : Lobby) : Lobby :=
  foldl (fun l op => lobbyStep op l) l ops.

(* every player is stored under its own id *)
Definition lobby_ok (l : Lobby) : Prop :=
  forall id p, players l !! id = Some p -> ID p = id.

End LobbyOps.


(** ** More inputs of the examples *)

Module PlayExamples.
Import Lcg Game GamePlay Server Session Examples.

(* the well with the upright I piece locked into it: four full rows *)
Definition filledWell : Board :=
  default wellBoard (Board_LockPiece wellBoard uprightI).

(* the game of [wellState] with the I piece thirteen rows above its place *)
Definition highState : GameState Z :=
  setCurrentPiece (setXY (-2) 3 uprightI) (wellState 0).

(* Ann's client in a match of three: Bob and Dan alive, Cy dead *)
Definition annTargets : Tui.Model :=
  {| Tui.mode := Tui.ModeMulti;
     Tui.opponents :=
       [ Tui.mkOpponent "player_2_2" "Bob" true;
         Tui.mkOpponent "player_3_3" "Cy" false;
         Tui.mkOpponent "player_4_4" "Dan" true ];
     Tui.targetID := ""; Tui.targetIndex := -1; Tui.connected := true;
     Tui.outbox := [] |}.

(* a client at play with the game [gs] *)
Definition clientOf (id name : string) (gs : GameState Z) : Client.Client :=
  {| Client.model := annTargets; Client.screen := Client.ScreenPlaying;
     Client.playerID := id; Client.playerName := name;
     Client.gameState := Some gs; Client.countdown := 0;
     Client.lobbyPlayers := []; Client.seed := 7;
     Client.matchPlayers := ["player_1_1"; "player_2_2"; "player_3_3"];
     Client.matchResult := None |}.

(* Bob, as the match holds him *)
Definition bobInMatch : Player :=
  default bob (players match3 !! "player_2_2").

(* the game of [wellState] at level [l] *)
Definition atLevel (l : Z) : GameState Z :=
  {| GBoard := wellBoard; CurrentPiece := uprightI; NextPiece := NewPiece PieceO;
     HoldPiece := None; CanHold := true; Score := 0; Level := l; Lines := 0;
     GarbageQueue := 0; IsGameOver := false; IsWinner := false;
     Game.PlayerID := "player_1_1"; Game.PlayerName := "Ann";
     AttackPower := 0; PieceGen := Some (NewPieceGenerator 42) |}.

(* a match of two *)
Definition duel : Room :=
  startGame 7 (addPlayer bob (addPlayer ann (newRoom "ABCDE"))).

(* a 2 x 2 board as a flat list *)
Definition flat4 : list Z := [0; 8; 3; 0].

Definition countdown1 : protocol.Envelope :=
  protocol.mkEnvelope protocol.MsgCountdown (protocol.CountdownPayload 1).

(* upper case of the ASCII letters *)
Definition upperChar (c : Ascii.ascii) : Ascii.ascii :=
  let n := Ascii.nat_of_ascii c in
  if (97 <=? n)%nat && (n <=? 122)%nat then Ascii.ascii_of_nat (n - 32) else c.

Fixpoint asciiUpper (s : string) : string :=
  match s with
  | String.EmptyString => String.EmptyString
  | String.String c s' => String.String (upperChar c) (asciiUpper s')
  end.

(* a hub with one room, in the lobby phase *)
Definition hubABCDE : Hub :=
  {| rooms := {[ "ABCDE" := addPlayer ann (newRoom "ABCDE") ]};
     pendingJoins := ∅; nextID := 1 |}.

Definition noon : Clock :=
  {| atPlayerID := 1000; atToken := 1000000000; atCreated := 1000000001;
     atSweep := 1000000002 |}.

End PlayExamples.

(** * Go integers and slices *)

Module GoIntFacts.

(* The result of an operation is an [int]. *)
Lemma wrap_range (z : Z) : - 2 ^ 63 <= GoInt.wrap z < 2 ^ 63.
Proof.
  unfold GoInt.wrap.
  pose proof (Z.mod_pos_bound (z + 2 ^ 63) (2 ^ 64) ltac:(lia)). lia.
Qed.

(* An [int] is left as it is. *)
Lemma wrap_id (z : Z) : - 2 ^ 63 <= z < 2 ^ 63 -> GoInt.wrap z = z.
Proof. intros Hz. unfold GoInt.wrap. rewrite Z.mod_small; lia. Qed.

(* Wrapping an operand first does not change a wrapped sum. *)
Lemma add_wrap_r (a b : Z) : GoInt.wrap (a + GoInt.wrap b) = GoInt.wrap (a + b).
Proof.
  unfold GoInt.wrap. f_equal.
  replace (a + ((b + 2 ^ 63) mod 2 ^ 64 - 2 ^ 63) + 2 ^ 63)
    with (a + (b + 2 ^ 63) mod 2 ^ 64) by lia.
  rewrite Zplus_mod_idemp_r. f_equal. lia.
Qed.

(* An index within the slice does not panic. *)
Lemma index_in_range {A} (l : list A) (i : Z) :
  0 <= i < GoInt.len l -> is_Some (GoInt.index l i).
Proof.
  intros [Hlo Hhi]. unfold GoInt.index, GoInt.len in *.
  destruct (i <? 0) eqn:E; [lia|].
  apply lookup_lt_is_Some_2. lia.
Qed.

Lemma index_lookup {A} (l : list A) (i : Z) (x : A) :
  GoInt.index l i = Some x -> l !! Z.to_nat i = Some x.
Proof.
  unfold GoInt.index. destruct (i <? 0); [discriminate|]. auto.
Qed.

Lemma store_in_range {A} (l : list A) (i : Z) (x : A) :
  0 <= i < GoInt.len l ->
  GoInt.store l i x = Some (<[Z.to_nat i := x]> l).
Proof.
  intros [Hlo Hhi]. unfold GoInt.store.
  destruct (i <? 0) eqn:E1; [lia|].
  destruct (GoInt.len l <=? i) eqn:E2; [lia|]. reflexivity.
Qed.

End GoIntFacts.

(** * Properties of the piece generator *)

Module GeneratorFacts.
Import Game GoIntFacts.

Section Facts.
Context {R : Type} `{RandSource R}.

(* Writing [y] where [x] was and [x] where [y] was permutes the list. *)
Lemma insert_moves {A} (l : list A) (j : nat) (x y : A) :
  l !! j = Some y -> y :: <[j:=x]> l ≡ₚ x :: l.
Proof.
  revert j. induction l as [|a l IH]; intros [|j] Hj; simpl in *; try discriminate.
  - injection Hj as ->. apply perm_swap.
  - rewrite (perm_swap a y). rewrite (IH j Hj). apply perm_swap.
Qed.

Lemma insert_swap_perm {A} (l : list A) (i j : nat) (x y : A) :
  l !! i = Some x -> l !! j = Some y -> <[j:=x]> (<[i:=y]> l) ≡ₚ l.
Proof.
  revert i j. induction l as [|a l IH]; intros [|i] [|j] Hi Hj; simpl in *;
    try discriminate.
  - injection Hi as ->. injection Hj as ->. reflexivity.
  - injection Hi as ->. apply insert_moves. exact Hj.
  - injection Hj as ->. apply insert_moves. exact Hi.
  - f_equiv. apply IH; assumption.
Qed.

Lemma swap_perm (i j : Z) (b b' : list PieceType) :
  swap i j b = Some b' -> b' ≡ₚ b.
Proof.
  unfold swap, GoInt.index, GoInt.store. intros Hs.
  destruct (j <? 0) eqn:Ej; [discriminate|]. simpl in Hs.
  destruct (b !! Z.to_nat j) as [bj|] eqn:Hj; [|discriminate]. simpl in Hs.
  destruct (i <? 0) eqn:Ei; [discriminate|]. simpl in Hs.
  destruct (b !! Z.to_nat i) as [bi|] eqn:Hi; [|discriminate]. simpl in Hs.
  destruct (GoInt.len b <=? i); [discriminate|]. simpl in Hs.
  destruct (GoInt.len _ <=? j); [discriminate|]. simpl in Hs.
  injection Hs as <-. apply insert_swap_perm; assumption.
Qed.

Lemma swap_Some (i j : Z) (b : list PieceType) :
  0 <= i < GoInt.len b -> 0 <= j < GoInt.len b -> is_Some (swap i j b).
Proof.
  intros Hi Hj.
  destruct (index_in_range b i Hi) as [bi Ei].
  destruct (index_in_range b j Hj) as [bj Ej].
  unfold swap. rewrite Ej, Ei. simpl. unfold GoInt.store.
  assert (GoInt.len (<[Z.to_nat i:=bj]> b) = GoInt.len b) as Hl
    by (unfold GoInt.len; rewrite length_insert; reflexivity).
  destruct (i <? 0) eqn:E1; [lia|]. destruct (GoInt.len b <=? i) eqn:E2; [lia|].
  simpl. rewrite Hl.
  destruct (j <? 0) eqn:E3; [lia|]. destruct (GoInt.len b <=? j) eqn:E4; [lia|].
  simpl. eauto.
Qed.

Lemma shuffle_perm (n : nat) (r : R) (b : list PieceType) :
  (n < length b)%nat -> Z.of_nat (length b) < 2 ^ 62 ->
  exists r' b', shuffle n r b = Some (r', b') /\ b' ≡ₚ b.
Proof.
  revert r b. induction n as [|n IH]; intros r b Hn Hb.
  - exists r, b. split; reflexivity.
  - cbn [shuffle].
    assert (GoInt.add (Z.of_nat (S n)) 1 = Z.of_nat (S n) + 1) as Hadd
      by (apply wrap_id; lia).
    rewrite Hadd.
    pose proof (Intn_range r (Z.of_nat (S n) + 1) ltac:(lia)) as Hj.
    destruct (Intn r (Z.of_nat (S n) + 1)) as [j r1]. simpl in Hj.
    destruct (swap_Some (Z.of_nat (S n)) j b) as [b1 Hb1];
      [unfold GoInt.len; lia | unfold GoInt.len; lia |].
    rewrite Hb1. simpl.
    pose proof (swap_perm _ _ _ _ Hb1) as Hp.
    pose proof (Permutation_length Hp) as Hlen.
    destruct (IH r1 b1) as (r' & b' & Hs & Hp'); [lia | lia |].
    exists r', b'. split; [exact Hs|]. etransitivity; eassumption.
Qed.

Lemma refillBag_perm (pg : PieceGenerator R) :
  exists pg', refillBag pg = Some pg' /\ bag pg' ≡ₚ allPieces.
Proof.
  unfold refillBag.
  destruct (shuffle_perm (length allPieces - 1) (rng pg) allPieces)
    as (r' & b' & Hs & Hp); [simpl; lia | simpl; lia |].
  rewrite Hs. simpl. eexists. split; [reflexivity|]. exact Hp.
Qed.

Lemma ensureBag_Some (pg : PieceGenerator R) :
  exists pg1, ensureBag pg = Some pg1 /\ bag pg1 <> [] /\
    (bag pg = [] -> bag pg1 ≡ₚ allPieces) /\
    (bag pg <> [] -> pg1 = pg).
Proof.
  unfold ensureBag, GoInt.len. destruct (bag pg) as [|t rest] eqn:Hb.
  - simpl. destruct (refillBag_perm pg) as (pg' & Hr & Hp).
    exists pg'. split; [exact Hr|]. split; [|split; [auto|congruence]].
    intros Hnil. rewrite Hnil in Hp.
    apply Permutation_nil in Hp. discriminate.
  - rewrite decide_False by (simpl; lia).
    exists pg. rewrite Hb. repeat split; congruence.
Qed.

Lemma ensureBag_idem (pg pg1 : PieceGenerator R) :
  ensureBag pg = Some pg1 -> ensureBag pg1 = Some pg1.
Proof.
  intros He. destruct (ensureBag_Some pg) as (pg2 & He2 & Hne & _).
  rewrite He in He2. injection He2 as <-.
  unfold ensureBag, GoInt.len. destruct (bag pg1); [congruence|].
  apply decide_False. simpl. lia.
Qed.

Lemma Next_Some (pg : PieceGenerator R) : is_Some (Next pg).
Proof.
  unfold Next. destruct (ensureBag_Some pg) as (pg1 & He & Hne & _).
  rewrite He. simpl. destruct (bag pg1); [congruence|]. eauto.
Qed.

Lemma Peek_Some (pg : PieceGenerator R) : is_Some (Peek pg).
Proof.
  unfold Peek. destruct (ensureBag_Some pg) as (pg1 & He & Hne & _).
  rewrite He. simpl. destruct (bag pg1); [congruence|]. eauto.
Qed.

(* Peeking never consumes the piece: the calls that follow see what they
   would have seen without it. *)
Lemma Peek_transparent (pg pg1 : PieceGenerator R) (t : PieceType) :
  Peek pg = Some (t, pg1) -> Next pg1 = Next pg /\ Peek pg1 = Peek pg.
Proof.
  unfold Peek, Next. intros Hp.
  destruct (ensureBag pg) as [pg2|] eqn:He; [|discriminate]. simpl in *.
  destruct (bag pg2) eqn:Hb; [discriminate|]. injection Hp as -> ->.
  rewrite (ensureBag_idem _ _ He). simpl. rewrite Hb. auto.
Qed.

Lemma runGen_Some (ops : list GenOp) (pg : PieceGenerator R) :
  is_Some (runGen ops pg).
Proof.
  revert pg. induction ops as [|[|] ops IH]; intros pg; simpl.
  - eauto.
  - destruct (Next_Some pg) as [[p pg1] ->]. simpl.
    destruct (IH pg1) as [[ts pg2] ->]. simpl. eauto.
  - destruct (Peek_Some pg) as [[t pg1] ->]. simpl. apply IH.
Qed.

Lemma runGen_app (o1 o2 : list GenOp) (pg : PieceGenerator R) :
  runGen (o1 ++ o2) pg =
    '(ts1, pg1) ← runGen o1 pg;
    '(ts2, pg2) ← runGen o2 pg1;
    Some (ts1 ++ ts2, pg2).
Proof.
  revert pg. induction o1 as [|[|] o1 IH]; intros pg; simpl.
  - destruct (runGen o2 pg) as [[ts2 pg2]|]; reflexivity.
  - destruct (Next pg) as [[p pg1]|]; [|reflexivity]. simpl.
    rewrite IH. destruct (runGen o1 pg1) as [[ts1 pg2]|]; [|reflexivity]. simpl.
    destruct (runGen o2 pg2) as [[ts2 pg3]|]; reflexivity.
  - destruct (Peek pg) as [[t pg1]|]; [|reflexivity]. simpl. apply IH.
Qed.

Lemma nextTypes_after_Peek (pg pg1 : PieceGenerator R) (t : PieceType) :
  Peek pg = Some (t, pg1) ->
  forall ops, nextTypes ops pg1 = nextTypes ops pg.
Proof.
  intros Hp ops. destruct (Peek_transparent _ _ _ Hp) as [Hn Hk].
  unfold nextTypes. destruct ops as [|[|] ops]; simpl.
  - reflexivity.
  - rewrite Hn. reflexivity.
  - rewrite Hk. reflexivity.
Qed.

Lemma nextTypes_Next (ops : list GenOp) (pg : PieceGenerator R) :
  nextTypes (OpNext :: ops) pg =
    '(p, pg1) ← Next pg; ts ← nextTypes ops pg1; Some (Typ p :: ts).
Proof.
  unfold nextTypes. simpl. destruct (Next pg) as [[p pg1]|]; [|reflexivity].
  simpl. destruct (runGen ops pg1) as [[ts pg2]|]; reflexivity.
Qed.

(* Only the [Next] calls matter. *)
Lemma nextTypes_firstTypes (ops : list GenOp) (pg : PieceGenerator R) :
  nextTypes ops pg = firstTypes (countNext ops) pg.
Proof.
  revert pg. induction ops as [|[|] ops IH]; intros pg.
  - reflexivity.
  - unfold firstTypes. cbn [countNext replicate]. rewrite !nextTypes_Next.
    destruct (Next pg) as [[p pg1]|]; [|reflexivity]. simpl.
    rewrite IH. reflexivity.
  - cbn [countNext]. destruct (Peek_Some pg) as [[t pg1] Hp].
    transitivity (nextTypes ops pg1).
    + unfold nextTypes. simpl. rewrite Hp. reflexivity.
    + rewrite IH. unfold firstTypes. apply (nextTypes_after_Peek _ _ _ Hp).
Qed.

Lemma firstTypes_length (n : nat) (pg : PieceGenerator R) :
  exists ts, firstTypes n pg = Some ts /\ length ts = n.
Proof.
  revert pg. induction n as [|n IH]; intros pg.
  - exists []. split; reflexivity.
  - unfold firstTypes. cbn [replicate]. rewrite nextTypes_Next.
    destruct (Next_Some pg) as [[p pg1] ->]. simpl.
    destruct (IH pg1) as (ts & Hts & Hl). unfold firstTypes in Hts.
    rewrite Hts. simpl. exists (Typ p :: ts). split; [reflexivity|].
    simpl. congruence.
Qed.

(* The first [n] types are a prefix of the first [n + m]. *)
Lemma firstTypes_prefix (n m : nat) (pg : PieceGenerator R) (ts : list PieceType) :
  firstTypes (n + m) pg = Some ts -> firstTypes n pg = Some (take n ts).
Proof.
  unfold firstTypes, nextTypes. rewrite replicate_add, runGen_app.
  destruct (firstTypes_length n pg) as (ts1 & H1 & Hl).
  unfold firstTypes, nextTypes in H1.
  destruct (runGen (replicate n OpNext) pg) as [[ts1' pg1]|]; [|discriminate].
  simpl in H1. injection H1 as ->. simpl.
  destruct (runGen (replicate m OpNext) pg1) as [[ts2 pg2]|]; [|discriminate].
  simpl. intros [= <-]. rewrite take_app_length'; auto.
Qed.

Lemma runGen_pop (l : list PieceType) (r : R) :
  runGen (replicate (length l) OpNext) (mkGen r l) = Some (l, mkGen r []).
Proof.
  induction l as [|t l IH]; [reflexivity|].
  cbn [length replicate runGen]. unfold Next, ensureBag, GoInt.len.
  rewrite decide_False by (simpl; lia). simpl.
  rewrite IH. reflexivity.
Qed.

(* From an empty bag, seven calls draw one whole bag and leave it empty. *)
Lemma runGen_one_bag (pg : PieceGenerator R) :
  bag pg = [] ->
  exists ts pg', runGen (replicate 7 OpNext) pg = Some (ts, pg') /\
    ts ≡ₚ allPieces /\ bag pg' = [].
Proof.
  intros Hb. destruct (ensureBag_Some pg) as (pg1 & He & Hne & Hp & _).
  specialize (Hp Hb). pose proof (Permutation_length Hp) as Hl.
  destruct pg1 as [r1 b1]. simpl in Hne, Hp, Hl.
  destruct b1 as [|t rest]; [congruence|].
  assert (7%nat = S (length rest)) as -> by (simpl in Hl; lia).
  cbn [replicate runGen]. unfold Next. rewrite He.
  cbn [mbind option_bind bag rng]. rewrite runGen_pop.
  eexists _, _. split; [reflexivity|]. auto.
Qed.

Lemma runGen_bags (k : nat) (pg : PieceGenerator R) :
  bag pg = [] ->
  exists ts pg', runGen (replicate (7 * k) OpNext) pg = Some (ts, pg') /\
    length ts = (7 * k)%nat /\ bag pg' = [].
Proof.
  intros Hb. induction k as [|k IH].
  - exists [], pg. auto.
  - destruct IH as (ts & pg1 & Hr & Hl & Hb1).
    destruct (runGen_one_bag pg1 Hb1) as (ts2 & pg2 & Hr2 & Hp & Hb2).
    replace (7 * S k)%nat with (7 * k + 7)%nat by lia.
    rewrite replicate_add, runGen_app, Hr. cbn [mbind option_bind].
    rewrite Hr2. cbn [mbind option_bind].
    eexists _, _. split; [reflexivity|]. split; [|exact Hb2].
    rewrite length_app, Hl, (Permutation_length Hp). reflexivity.
Qed.

(** C1. Two generators constructed independently from one seed, each used by
    its own client through any sequence of [Next] and [Peek] calls, return
    pieces of the same type at the n-th call of [Next], for every n; and every
    such sequence of calls returns (nothing panics). *)
Theorem C1_same_seed_same_pieces (s : Z) (ops1 ops2 : list GenOp) :
  let g1 : PieceGenerator R := NewPieceGenerator s in
  let g2 : PieceGenerator R := NewPieceGenerator s in
  exists ts1 ts2,
    nextTypes ops1 g1 = Some ts1 /\ nextTypes ops2 g2 = Some ts2 /\
    length ts1 = countNext ops1 /\ length ts2 = countNext ops2 /\
    forall (n : nat) (t1 t2 : PieceType),
      ts1 !! n = Some t1 -> ts2 !! n = Some t2 -> t1 = t2.
Proof.
  intros g1 g2.
  destruct (firstTypes_length (countNext ops1) g1) as (ts1 & H1 & L1).
  destruct (firstTypes_length (countNext ops2) g2) as (ts2 & H2 & L2).
  exists ts1, ts2. rewrite !nextTypes_firstTypes.
  repeat split; try assumption.
  assert (forall a b (g : PieceGenerator R) la lb, (a <= b)%nat ->
            firstTypes a g = Some la -> firstTypes b g = Some lb ->
            la = take a lb) as Hpre.
  { intros a b g la lb Hab Ha Hb'.
    replace b with (a + (b - a))%nat in Hb' by lia.
    apply firstTypes_prefix in Hb'. congruence. }
  intros n t1 t2 Hn1 Hn2.
  pose proof (lookup_lt_Some _ _ _ Hn1) as Hlt1.
  pose proof (lookup_lt_Some _ _ _ Hn2) as Hlt2.
  destruct (Nat.le_ge_cases (countNext ops1) (countNext ops2)) as [Hle|Hle].
  - rewrite (Hpre _ _ g1 ts1 ts2 Hle H1 H2) in Hn1.
    rewrite lookup_take_lt in Hn1 by lia. congruence.
  - rewrite (Hpre _ _ g1 ts2 ts1 Hle H2 H1) in Hn2.
    rewrite lookup_take_lt in Hn2 by lia. congruence.
Qed.

(** C2. For every seed and every k, the k-th aligned window of seven
    consecutive outputs of [Next] (the k-th complete bag) is a permutation of
    the seven piece types: each type occurs in it exactly once. *)
Theorem C2_every_bag_is_a_permutation (s : Z) (k : nat) :
  exists ts,
    firstTypes (7 * (k + 1)) (NewPieceGenerator (R:=R) s) = Some ts /\
    length ts = (7 * (k + 1))%nat /\
    let window := take 7 (drop (7 * k) ts) in
    window ≡ₚ allPieces /\
    forall t : PieceType, count_occ PieceType_eq_dec window t = 1%nat.
Proof.
  destruct (runGen_bags k (NewPieceGenerator s) eq_refl)
    as (ts1 & pg1 & Hr1 & Hl1 & Hb1).
  destruct (runGen_one_bag pg1 Hb1) as (ts2 & pg2 & Hr2 & Hp & _).
  exists (ts1 ++ ts2). unfold firstTypes, nextTypes.
  replace (7 * (k + 1))%nat with (7 * k + 7)%nat by lia.
  rewrite replicate_add, runGen_app, Hr1. cbn [mbind option_bind].
  rewrite Hr2. cbn [mbind option_bind fmap option_fmap option_map fst].
  pose proof (Permutation_length Hp) as Hl2. simpl in Hl2.
  split; [reflexivity|]. split; [rewrite length_app; lia|].
  assert (take 7 (drop (7 * k) (ts1 ++ ts2)) = ts2) as ->.
  { rewrite drop_app_length' by lia. apply take_ge. lia. }
  split; [exact Hp|].
  intros t. rewrite (Permutation_count_occ PieceType_eq_dec) in Hp.
  rewrite Hp. destruct t; reflexivity.
Qed.

End Facts.
End GeneratorFacts.

(** * Properties of the board *)

Module BoardFacts.
Import Game GoIntFacts.

Lemma board_ok_row (b : Board) (i : nat) (row : list Cell) :
  board_ok b -> Cells b !! i = Some row -> length row = Z.to_nat (Width b).
Proof.
  intros (_ & _ & _ & Hrows) Hi.
  rewrite Forall_forall in Hrows. apply Hrows.
  apply list_elem_of_lookup. eauto.
Qed.

Lemma setCell_ok (b : Board) (y x : Z) (c : Cell) :
  board_ok b -> 0 <= y < Height b -> 0 <= x < Width b ->
  exists b', setCell b y x c = Some b' /\ board_ok b' /\
    Width b' = Width b /\ Height b' = Height b.
Proof.
  intros Hok Hy Hx. pose proof Hok as (HW & HH & Hlen & Hrows).
  unfold setCell.
  destruct (index_in_range (Cells b) y) as [r Hr]; [unfold GoInt.len; lia|].
  rewrite Hr. cbn [mbind option_bind].
  assert (length r = Z.to_nat (Width b)) as Hlr.
  { unfold GoInt.index in Hr. destruct (y <? 0); [discriminate|].
    eapply board_ok_row; eauto. }
  rewrite store_in_range by (unfold GoInt.len; lia). cbn [mbind option_bind].
  rewrite store_in_range by (unfold GoInt.len; lia). cbn [mbind option_bind].
  eexists. split; [reflexivity|]. split; [|auto].
  unfold board_ok. cbn [Cells Width Height]. repeat split; try assumption.
  - rewrite length_insert. exact Hlen.
  - apply Forall_insert; [exact Hrows|]. rewrite length_insert. exact Hlr.
Qed.

Lemma stampRow_ok (p : Piece) (y : Z) (row : list bool) :
  forall (b : Board) (x : Z), board_ok b ->
  exists b', stampRow b p y row x = Some b' /\ board_ok b' /\
    Width b' = Width b /\ Height b' = Height b.
Proof.
  induction row as [|cell row IH]; intros b x Hok; cbn [stampRow].
  - exists b. auto.
  - destruct cell; [|apply IH; exact Hok].
    destruct ((0 <=? GoInt.add (Y p) y) && (GoInt.add (Y p) y <? Height b) &&
              (0 <=? GoInt.add (X p) x) && (GoInt.add (X p) x <? Width b)) eqn:E;
      [|apply IH; exact Hok].
    apply andb_prop in E as [E E4]. apply andb_prop in E as [E E3].
    apply andb_prop in E as [E1 E2].
    destruct (setCell_ok b (GoInt.add (Y p) y) (GoInt.add (X p) x)
                {| Filled := true; CellColor := Color p |} Hok)
      as (b1 & Hs & Hok1 & HW1 & HH1); [lia | lia |].
    rewrite Hs. cbn [mbind option_bind].
    destruct (IH b1 (x + 1) Hok1) as (b2 & Hs2 & Hok2 & HW2 & HH2).
    exists b2. split; [exact Hs2|]. split; [exact Hok2|]. split; congruence.
Qed.

Lemma stampRows_ok (p : Piece) (rows : list (list bool)) :
  forall (b : Board) (y : Z), board_ok b ->
  exists b', stampRows b p rows y = Some b' /\ board_ok b' /\
    Width b' = Width b /\ Height b' = Height b.
Proof.
  induction rows as [|row rows IH]; intros b y Hok; cbn [stampRows].
  - exists b. auto.
  - destruct (stampRow_ok p y row b 0 Hok) as (b1 & Hs & Hok1 & HW1 & HH1).
    rewrite Hs. cbn [mbind option_bind].
    destruct (IH b1 (y + 1) Hok1) as (b2 & Hs2 & Hok2 & HW2 & HH2).
    exists b2. split; [exact Hs2|]. split; [exact Hok2|]. split; congruence.
Qed.

(* Stamping a piece never panics on a well-formed board and keeps its shape. *)
Lemma Board_LockPiece_ok (b : Board) (p : Piece) :
  board_ok b ->
  exists b', Board_LockPiece b p = Some b' /\ board_ok b' /\
    Width b' = Width b /\ Height b' = Height b.
Proof. apply stampRows_ok. Qed.

Lemma validRow_Some (b : Board) (p : Piece) (ox oy y : Z) (row : list bool) :
  board_ok b -> forall x, is_Some (validRow b p ox oy y row x).
Proof.
  intros Hok. pose proof Hok as (HW & HH & Hlen & Hrows).
  induction row as [|cell row IH]; intros x; cbn [validRow]; [eauto|].
  destruct cell; cbn [negb]; [|apply IH].
  set (newX := GoInt.add (GoInt.add (X p) x) ox).
  set (newY := GoInt.add (GoInt.add (Y p) y) oy).
  destruct ((newX <? 0) || (Width b <=? newX)) eqn:E1; [eauto|].
  apply orb_false_elim in E1 as [E1 E1'].
  destruct (Height b <=? newY) eqn:E2; [eauto|].
  destruct (0 <=? newY) eqn:E3; [|apply IH].
  destruct (index_in_range (Cells b) newY) as [r Hr]; [unfold GoInt.len; lia|].
  rewrite Hr. cbn [mbind option_bind].
  assert (length r = Z.to_nat (Width b)) as Hlr.
  { unfold GoInt.index in Hr. destruct (newY <? 0); [discriminate|].
    eapply board_ok_row; eauto. }
  destruct (index_in_range r newX) as [c Hc]; [unfold GoInt.len; lia|].
  rewrite Hc. cbn [mbind option_bind]. destruct (Filled c); [eauto|apply IH].
Qed.

Lemma Board_IsValidPosition_Some (b : Board) (p : Piece) (ox oy : Z) :
  board_ok b -> is_Some (Board_IsValidPosition b p ox oy).
Proof.
  intros Hok. unfold Board_IsValidPosition. generalize 0 at 1.
  induction (Shape p) as [|row rows IH]; intros y; cbn [validRows]; [eauto|].
  destruct (validRow_Some b p ox oy y row Hok 0) as [ok ->].
  cbn [mbind option_bind]. destruct ok; [apply IH|eauto].
Qed.

Lemma Board_IsGameOver_Some (b : Board) (p : Piece) :
  board_ok b -> is_Some (Board_IsGameOver b p).
Proof.
  intros Hok. unfold Board_IsGameOver.
  destruct (Board_IsValidPosition_Some b p 0 0 Hok) as [v ->]. simpl. eauto.
Qed.

Lemma rowFull_Some (b : Board) (y : nat) (todo x : nat) :
  board_ok b -> (y < length (Cells b))%nat ->
  (todo + x <= Z.to_nat (Width b))%nat ->
  is_Some (rowFull b y todo x).
Proof.
  intros Hok Hy. revert x. induction todo as [|todo IH]; intros x Hx;
    cbn [rowFull]; [eauto|].
  destruct (lookup_lt_is_Some_2 (Cells b) y Hy) as [row Hrow].
  rewrite Hrow. cbn [mbind option_bind].
  pose proof (board_ok_row b y row Hok Hrow) as Hl.
  destruct (lookup_lt_is_Some_2 row x) as [c Hc]; [lia|].
  rewrite Hc. cbn [mbind option_bind].
  destruct (Filled c); [apply IH; lia|eauto].
Qed.

Lemma clearRows_ok (b : Board) : board_ok b ->
  forall (n : nat) (newCells : list (list Cell)) (k : Z),
  (n <= length (Cells b))%nat ->
  Forall (fun row => length row = Z.to_nat (Width b)) newCells ->
  exists cells k', clearRows b n newCells k = Some (cells, k') /\
    Forall (fun row => length row = Z.to_nat (Width b)) cells /\
    k <= k' /\
    Z.of_nat (length cells) + k' = Z.of_nat (length newCells) + k + Z.of_nat n.
Proof.
  intros Hok. induction n as [|y IH]; intros newCells k Hn Hw; cbn [clearRows].
  - exists newCells, k. repeat split; [assumption | lia | lia].
  - destruct (rowFull_Some b y (Z.to_nat (Width b)) 0 Hok) as [full ->];
      [lia | lia |].
    cbn [mbind option_bind]. destruct full.
    + destruct (IH newCells (k + 1)) as (cells & k' & Hc & Hf & Hk & Hsum);
        [lia | assumption |].
      exists cells, k'. repeat split; [assumption | assumption | lia | lia].
    + destruct (lookup_lt_is_Some_2 (Cells b) y) as [row Hrow]; [lia|].
      rewrite Hrow. cbn [mbind option_bind].
      destruct (IH (row :: newCells) k) as (cells & k' & Hc & Hf & Hk & Hsum);
        [lia | constructor; [eapply board_ok_row; eauto | assumption] |].
      exists cells, k'. repeat split; [assumption | assumption | lia |].
      cbn [length] in Hsum. lia.
Qed.

(* Clearing lines never panics on a well-formed board and keeps its shape. *)
Lemma Board_ClearLines_ok (b : Board) :
  board_ok b ->
  exists b' n, Board_ClearLines b = Some (b', n) /\ board_ok b' /\
    Width b' = Width b /\ Height b' = Height b /\ 0 <= n <= Height b.
Proof.
  intros Hok. pose proof Hok as (HW & HH & Hlen & Hrows).
  unfold Board_ClearLines.
  destruct (Z.ltb_spec (Height b) 0) as [Hneg|_]; [lia|]. cbn [mbind option_bind].
  destruct (clearRows_ok b Hok (Z.to_nat (Height b)) [] 0)
    as (cells & n & Hc & Hf & Hn & Hsum); [lia | constructor |].
  rewrite Hc. cbn [mbind option_bind]. cbn [length] in Hsum.
  assert (exists pad,
    (if decide ((Z.to_nat (Height b) - length cells)%nat = O) then Some []
     else row ← makeRow (Width b);
          Some (replicate (Z.to_nat (Height b) - length cells) row)) = Some pad
    /\ length pad = (Z.to_nat (Height b) - length cells)%nat
    /\ Forall (fun row => length row = Z.to_nat (Width b)) pad)
    as (pad & -> & Hlp & Hfp).
  { destruct (decide _) as [E|E].
    - exists []. rewrite E. repeat split. constructor.
    - unfold makeRow. destruct (Width b <? 0) eqn:EW; [lia|].
      cbn [mbind option_bind]. eexists. split; [reflexivity|].
      split; [apply length_replicate|].
      apply Forall_replicate. apply length_replicate. }
  cbn [mbind option_bind]. eexists _, _. split; [reflexivity|].
  unfold board_ok. cbn [Width Height Cells].
  repeat split; try assumption; try lia.
  - rewrite length_app, Hlp. lia.
  - apply Forall_app. auto.
Qed.

(* Filled and empty cells of the columns [m, m + k) of a garbage row. *)
Lemma garbage_cells (holeX m : Z) (k : nat) :
  let row := (fun x => if decide (x = holeX)
                       then {| Filled := false; CellColor := 0 |}
                       else {| Filled := true; CellColor := 8 |})
             <$> seqZ m (Z.of_nat k) in
  let hit := if decide (m <= holeX < m + Z.of_nat k) then 1%nat else 0%nat in
  filledCells row = (k - hit)%nat /\ emptyCells row = hit.
Proof.
  revert m. induction k as [|k IH]; intros m.
  - cbn. split; [reflexivity|]. destruct (decide _); [lia|reflexivity].
  - rewrite seqZ_cons by lia.
    replace (Z.pred (Z.of_nat (S k))) with (Z.of_nat k) by lia.
    destruct (IH (Z.succ m)) as [IHf IHe].
    unfold filledCells, emptyCells in *. cbn zeta in *.
    rewrite fmap_cons. cbn [List.filter].
    destruct (decide (m = holeX)) as [->|Hne]; cbn [Filled negb length].
    + rewrite IHf, IHe.
      rewrite (decide_False (P := Z.succ holeX <= holeX < _)) by lia.
      rewrite decide_True by lia. split; lia.
    + rewrite IHf, IHe.
      destruct (decide (Z.succ m <= holeX < Z.succ m + Z.of_nat k)).
      * rewrite decide_True by lia. split; lia.
      * rewrite decide_False by lia. split; lia.
Qed.

Lemma garbageLine_length (width holeX : Z) :
  length (garbageLine width holeX) = Z.to_nat width.
Proof. unfold garbageLine. rewrite length_fmap. apply length_seqZ. Qed.

(* A garbage row whose hole is a column of the board has exactly one empty
   cell, at the hole, and [width - 1] filled cells. *)
Lemma garbageLine_one_hole (width holeX : Z) :
  0 <= holeX < width ->
  filledCells (garbageLine width holeX) = (Z.to_nat width - 1)%nat /\
  emptyCells (garbageLine width holeX) = 1%nat /\
  Filled <$> garbageLine width holeX !! Z.to_nat holeX = Some false.
Proof.
  intros Hh. pose proof (garbage_cells holeX 0 (Z.to_nat width)) as Hc.
  cbn zeta in Hc. rewrite Z2Nat.id in Hc by lia.
  rewrite decide_True in Hc by lia. destruct Hc as [Hf He].
  split; [exact Hf|]. split; [exact He|].
  unfold garbageLine. rewrite list_lookup_fmap.
  rewrite (lookup_seqZ_lt 0 width (Z.to_nat holeX)) by lia.
  cbn. rewrite decide_True by lia. reflexivity.
Qed.

(* A hole outside the board leaves the row full. *)
Lemma garbageLine_no_hole (width holeX : Z) :
  0 <= width -> ~ (0 <= holeX < width) ->
  filledCells (garbageLine width holeX) = Z.to_nat width.
Proof.
  intros Hw Hh. pose proof (garbage_cells holeX 0 (Z.to_nat width)) as Hc.
  cbn zeta in Hc. rewrite Z2Nat.id in Hc by lia.
  rewrite decide_False in Hc by lia. destruct Hc as [Hf _].
  unfold garbageLine. rewrite Hf. lia.
Qed.

(* [n] garbage rows: the grid loses its [n] top rows and gains [n] copies of
   one row at the bottom. *)
Lemma addGarbageLines_ok (n : nat) (holeX : Z) :
  forall b : Board, board_ok b -> (n = O \/ 0 < Height b) ->
  exists b', addGarbageLines n b holeX = Some b' /\
    Cells b' = drop n (Cells b ++ replicate n (garbageLine (Width b) holeX)) /\
    Width b' = Width b /\ Height b' = Height b /\ board_ok b'.
Proof.
  induction n as [|n IH]; intros b Hok Hn.
  - exists b. cbn [addGarbageLines replicate]. rewrite app_nil_r, drop_0. auto.
  - destruct Hn as [Hn|Hn]; [discriminate|].
    pose proof Hok as (HW & HH & Hlen & Hrows).
    cbn [addGarbageLines]. unfold addGarbageLine.
    destruct (Cells b) as [|c rest] eqn:Hcells; [simpl in Hlen; lia|].
    destruct (Width b <? 0) eqn:EW; [lia|]. cbn [mbind option_bind].
    set (b1 := {| Cells := rest ++ [garbageLine (Width b) holeX];
                  Width := Width b; Height := Height b |}).
    assert (board_ok b1) as Hok1.
    { unfold board_ok, b1. cbn [Cells Width Height].
      repeat split; try assumption.
      - rewrite length_app. simpl in *. lia.
      - apply Forall_app. split.
        + inversion Hrows; assumption.
        + repeat constructor. apply garbageLine_length. }
    destruct (IH b1 Hok1) as (b' & Hs & Hc & HW' & HH' & Hok'); [right; exact Hn|].
    exists b'. split; [exact Hs|]. split; [|auto].
    rewrite Hc. unfold b1. cbn [Cells Width replicate].
    rewrite <- app_assoc. reflexivity.
Qed.

End BoardFacts.

(** * Properties of the game state *)

Module GameStateFacts.
Import Game GoIntFacts BoardFacts.

(* The level is computed without overflow, whatever the line count. *)
Lemma level_exact (lines : Z) :
  - 2 ^ 63 <= lines < 2 ^ 63 ->
  GoInt.add (GoInt.div lines 10) 1 = lines ÷ 10 + 1.
Proof.
  intros Hl. unfold GoInt.add, GoInt.div.
  assert (- 2 ^ 62 <= lines ÷ 10 <= 2 ^ 62) as Hq.
  { destruct (Z.le_gt_cases 0 lines) as [Hp|Hn].
    - rewrite Z.quot_div_nonneg by lia.
      pose proof (Z.div_pos lines 10 Hp ltac:(lia)).
      pose proof (Z.div_le_upper_bound lines 10 (2 ^ 62) ltac:(lia) ltac:(lia)).
      lia.
    - replace lines with (- (- lines)) by lia. rewrite Z.quot_opp_l by lia.
      rewrite Z.quot_div_nonneg by lia.
      pose proof (Z.div_pos (- lines) 10 ltac:(lia) ltac:(lia)).
      pose proof (Z.div_le_upper_bound (- lines) 10 (2 ^ 62) ltac:(lia) ltac:(lia)).
      lia. }
  rewrite (wrap_id (lines ÷ 10)) by lia. apply wrap_id. lia.
Qed.

Section Facts.
Context {R : Type} `{RandSource R}.

Lemma RandomPiece_Some (g : R) : is_Some (RandomPiece g).
Proof.
  unfold RandomPiece.
  pose proof (Intn_range g (GoInt.len allPieces) eq_refl) as Hk.
  destruct (Intn g (GoInt.len allPieces)) as [k g']. cbn [fst] in Hk.
  destruct (index_in_range allPieces k Hk) as [t ->]. cbn. eauto.
Qed.

Lemma nextPiece_Some (gs : GameState R) (g : R) : is_Some (nextPiece gs g).
Proof.
  unfold nextPiece. destruct (PieceGen gs) as [pg|].
  - destruct (GeneratorFacts.Next_Some pg) as [[p pg'] ->]. cbn. eauto.
  - destruct (RandomPiece_Some g) as [[p g'] ->]. cbn. eauto.
Qed.

(* Applying a queue of [queue > 0] rows: one hole is drawn, once, and every
   inserted row is the garbage row with that hole. *)
Lemma applyQueuedGarbage_ok (b : Board) (queue : Z) (g : R) :
  game_board b -> 0 < queue ->
  exists b' holeX g',
    applyQueuedGarbage b queue g = Some (b', 0, g') /\
    Intn g BoardWidth = (holeX, g') /\
    0 <= holeX < BoardWidth /\
    Cells b' = drop (Z.to_nat queue)
                 (Cells b ++ replicate (Z.to_nat queue)
                                (garbageLine BoardWidth holeX)) /\
    game_board b'.
Proof.
  intros (Hok & HW & HH) Hq. unfold applyQueuedGarbage.
  destruct (0 <? queue) eqn:E; [|lia].
  pose proof (Intn_range g BoardWidth ltac:(unfold BoardWidth; lia)) as Hh.
  destruct (Intn g BoardWidth) as [holeX g'] eqn:Hi. cbn [fst] in Hh.
  unfold Board_AddGarbageLines.
  destruct (addGarbageLines_ok (Z.to_nat queue) holeX b Hok)
    as (b' & Hs & Hc & HW' & HH' & Hok');
    [right; rewrite HH; unfold BoardHeight; lia|].
  rewrite Hs. cbn [mbind option_bind].
  exists b', holeX, g'. rewrite HW in Hc.
  split; [reflexivity|]. split; [reflexivity|]. split; [exact Hh|].
  split; [exact Hc|]. split; [exact Hok'|]. split; congruence.
Qed.

Lemma applyQueuedGarbage_none (b : Board) (queue : Z) (g : R) :
  queue <= 0 -> applyQueuedGarbage b queue g = Some (b, queue, g).
Proof.
  intros Hq. unfold applyQueuedGarbage. destruct (0 <? queue) eqn:E; [lia|].
  reflexivity.
Qed.

Lemma applyQueuedGarbage_board (b : Board) (queue : Z) (g : R) :
  game_board b ->
  exists b' queue' g', applyQueuedGarbage b queue g = Some (b', queue', g') /\
    game_board b'.
Proof.
  intros Hb. destruct (Z.lt_ge_cases 0 queue) as [Hq|Hq].
  - destruct (applyQueuedGarbage_ok b queue g Hb Hq)
      as (b' & h & g' & He & _ & _ & _ & Hb').
    eauto 6.
  - rewrite applyQueuedGarbage_none by lia. eauto 6.
Qed.

(* A lock never panics on a game board; its steps, one by one. *)
Lemma LockPiece_steps (gs : GameState R) (g : R) :
  game_board (GBoard gs) ->
  exists b1 b2 n next gen g1 b3 queue g2 over,
    Board_LockPiece (GBoard gs) (CurrentPiece gs) = Some b1 /\
    Board_ClearLines b1 = Some (b2, n) /\ game_board b2 /\
    0 <= n <= BoardHeight /\
    nextPiece gs g = Some (next, gen, g1) /\
    applyQueuedGarbage b2 (GarbageQueue gs) g1 = Some (b3, queue, g2) /\
    game_board b3 /\
    Board_IsGameOver b3 (NextPiece gs) = Some over /\
    LockPiece gs g =
      Some (n,
            {| GBoard := b3; CurrentPiece := NextPiece gs; NextPiece := next;
               HoldPiece := HoldPiece gs; CanHold := true;
               Score := GoInt.add (Score gs) (calculateScore gs n);
               Level := GoInt.add (GoInt.div (GoInt.add (Lines gs) n) 10) 1;
               Lines := GoInt.add (Lines gs) n;
               GarbageQueue := queue;
               IsGameOver := if over : bool then true else IsGameOver gs;
               IsWinner := IsWinner gs; PlayerID := PlayerID gs;
               PlayerName := PlayerName gs;
               AttackPower := if 0 <? n then calculateAttack n else 0;
               PieceGen := gen |},
            g2).
Proof.
  intros (Hok & HW & HH).
  destruct (Board_LockPiece_ok (GBoard gs) (CurrentPiece gs) Hok)
    as (b1 & H1 & Hok1 & HW1 & HH1).
  destruct (Board_ClearLines_ok b1 Hok1) as (b2 & n & H2 & Hok2 & HW2 & HH2 & Hn).
  assert (game_board b2) as Hb2 by (split; [exact Hok2 | split; congruence]).
  destruct (nextPiece_Some gs g) as [[[next gen] g1] H3].
  destruct (applyQueuedGarbage_board b2 (GarbageQueue gs) g1 Hb2)
    as (b3 & queue & g2 & H4 & Hb3).
  destruct (Board_IsGameOver_Some b3 (NextPiece gs) (proj1 Hb3)) as [over H5].
  exists b1, b2, n, next, gen, g1, b3, queue, g2, over.
  split; [exact H1|]. split; [exact H2|]. split; [exact Hb2|].
  split; [rewrite HH1, HH in Hn; exact Hn|]. split; [exact H3|].
  split; [exact H4|]. split; [exact Hb3|]. split; [exact H5|].
  unfold LockPiece. rewrite H1. cbn [mbind option_bind]. rewrite H2.
  cbn [mbind option_bind]. rewrite H3. cbn [mbind option_bind].
  rewrite H4. cbn [mbind option_bind]. rewrite H5. reflexivity.
Qed.

(** C3. A lock on a game board returns.  With [n] the number of lines it
    clears and [L] the level before the lock: for [n] in 1..4 the score
    grows by [baseScores[n-1] * L] (in Go's [int] arithmetic, so exactly
    whenever the sum fits in an [int]) and the attack power becomes
    [attackTable[n]], that is 0, 1, 2, 4; the level becomes
    [Lines / 10 + 1] for the line count after the lock; and a lock that clears
    no line leaves the attack power at 0. *)
Theorem C3_lock_score_level_attack (gs : GameState R) (g : R) :
  game_board (GBoard gs) ->
  exists n gs' g',
    LockPiece gs g = Some (n, gs', g') /\
    0 <= n /\
    Lines gs' = GoInt.wrap (Lines gs + n) /\
    Level gs' = Lines gs' ÷ 10 + 1 /\
    (1 <= n <= 4 ->
       let base := nth (Z.to_nat (n - 1)) baseScores 0 in
       Score gs' = GoInt.wrap (Score gs + base * Level gs) /\
       (GoInt.in_range (Score gs + base * Level gs) ->
        Score gs' = Score gs + base * Level gs) /\
       AttackPower gs' = nth (Z.to_nat n) attackTable 0) /\
    (n = 0 -> AttackPower gs' = 0).
Proof.
  intros Hb.
  destruct (LockPiece_steps gs g Hb)
    as (b1 & b2 & n & next & gen & g1 & b3 & queue & g2 & over &
        _ & _ & _ & Hn & _ & _ & _ & _ & HL).
  eexists n, _, g2. split; [exact HL|]. cbn [Lines Level Score AttackPower].
  split; [lia|]. split; [reflexivity|].
  split; [apply level_exact, wrap_range|]. split.
  - intros Hn14. set (base := nth (Z.to_nat (n - 1)) baseScores 0).
    assert (calculateScore gs n = GoInt.wrap (base * Level gs)
            /\ calculateAttack n = nth (Z.to_nat n) attackTable 0) as [Hs Ha].
    { assert (n = 1 \/ n = 2 \/ n = 3 \/ n = 4) as Hcases by lia.
      unfold base.
      destruct Hcases as [-> | [-> | [-> | ->]]]; split; reflexivity. }
    assert (GoInt.add (Score gs) (calculateScore gs n)
            = GoInt.wrap (Score gs + base * Level gs)) as Hsc.
    { rewrite Hs. unfold GoInt.add. apply add_wrap_r. }
    split; [exact Hsc|]. split.
    + intros Hr. rewrite Hsc. apply wrap_id. exact Hr.
    + destruct (0 <? n) eqn:E; [exact Ha|lia].
  - intros ->. reflexivity.
Qed.

(** C4. From a 10 x 20 game board, every sequence of line clears and garbage
    applications (calls of [AddGarbageLines] with any count and hole, and
    queues applied as a lock applies them) returns a board whose [Width] and
    [Height] are unchanged, 10 and 20, and whose grid still has 20 rows of 10
    cells.  On the board so reached, a garbage application whose hole is a
    column of the board, as is the hole a lock draws, inserts copies of a row
    of 10 cells of which exactly 9 (width - 1) are filled and one is empty. *)
Theorem C4_dimensions_kept_garbage_rows_one_hole
    (b : Board) (ops : list BoardOp) (g : R) :
  game_board b ->
  exists b' g',
    runBoardOps ops b g = Some (b', g') /\
    Width b' = Width b /\ Height b' = Height b /\
    Width b' = 10 /\ Height b' = 20 /\
    length (Cells b') = 20%nat /\
    Forall (fun row => length row = 10%nat) (Cells b') /\
    (forall count holeX : Z, 0 < count -> 0 <= holeX < Width b' ->
       let row := garbageLine (Width b') holeX in
       exists b'',
         Board_AddGarbageLines b' count holeX = Some b'' /\
         Cells b'' = drop (Z.to_nat count)
                       (Cells b' ++ replicate (Z.to_nat count) row) /\
         length row = 10%nat /\
         filledCells row = Z.to_nat (Width b' - 1) /\
         emptyCells row = 1%nat) /\
    (forall queue : Z, 0 < queue ->
       exists row b'' g'',
         runBoardOps [OpGarbage queue] b' g' = Some (b'', g'') /\
         Cells b'' = drop (Z.to_nat queue)
                       (Cells b' ++ replicate (Z.to_nat queue) row) /\
         length row = 10%nat /\
         filledCells row = Z.to_nat (Width b' - 1) /\
         emptyCells row = 1%nat).
Proof.
  intros Hb.
  assert (exists b' g', runBoardOps ops b g = Some (b', g') /\ game_board b')
    as (b' & g' & Hrun & Hb').
  { revert b g Hb. induction ops as [|[|count holeX|queue] ops IH]; intros b g Hb.
    - exists b, g. auto.
    - destruct Hb as (Hok & HW & HH).
      destruct (Board_ClearLines_ok b Hok) as (b1 & n & Hc & Hok1 & HW1 & HH1 & _).
      cbn [runBoardOps]. rewrite Hc. cbn [mbind option_bind].
      apply IH. split; [exact Hok1|]. split; congruence.
    - destruct Hb as (Hok & HW & HH).
      destruct (addGarbageLines_ok (Z.to_nat count) holeX b Hok)
        as (b1 & Hs & _ & HW1 & HH1 & Hok1);
        [right; rewrite HH; unfold BoardHeight; lia|].
      cbn [runBoardOps]. unfold Board_AddGarbageLines. rewrite Hs.
      cbn [mbind option_bind].
      apply IH. split; [exact Hok1|]. split; congruence.
    - destruct (applyQueuedGarbage_board b queue g Hb)
        as (b1 & q1 & g1 & Ha & Hb1).
      cbn [runBoardOps]. rewrite Ha. cbn [mbind option_bind].
      apply IH. exact Hb1. }
  exists b', g'. split; [exact Hrun|].
  destruct Hb as (_ & HW & HH). pose proof Hb' as (Hok' & HW' & HH').
  pose proof Hok' as (_ & _ & Hlen & Hrows).
  rewrite HW' in Hrows. rewrite HH' in Hlen.
  split; [congruence|]. split; [congruence|].
  split; [exact HW'|]. split; [exact HH'|].
  split; [exact Hlen|]. split; [exact Hrows|]. split.
  - intros count holeX Hc Hh. cbn zeta.
    destruct (addGarbageLines_ok (Z.to_nat count) holeX b' Hok')
      as (b'' & Hs & Hcells & _);
      [right; rewrite HH'; unfold BoardHeight; lia|].
    exists b''. split; [exact Hs|]. split; [exact Hcells|].
    destruct (garbageLine_one_hole (Width b') holeX Hh) as (Hf & He & _).
    split; [rewrite garbageLine_length, HW'; reflexivity|].
    split; [rewrite Hf; lia|exact He].
  - intros queue Hq.
    destruct (applyQueuedGarbage_ok b' queue g' Hb' Hq)
      as (b'' & holeX & g'' & Ha & _ & Hh & Hc & _).
    exists (garbageLine BoardWidth holeX), b'', g''.
    cbn [runBoardOps]. rewrite Ha. cbn [mbind option_bind].
    split; [reflexivity|]. split; [exact Hc|].
    destruct (garbageLine_one_hole BoardWidth holeX Hh) as (Hf & He & _).
    split; [apply garbageLine_length|]. rewrite HW'. auto.
Qed.

(** C5, as the code has it.  When a queue of [k > 0] garbage rows is applied
    at a lock of a game board, one hole column is drawn at application time:
    it is the result of a single [rand.Intn(BoardWidth)], called on the global
    source as [nextPiece] left it (untouched, in a seeded game), and the
    source after the lock is the source after that one draw.  The grid loses
    its [k] top rows (the existing rows shift upward) and gains at the bottom
    [k] copies of one and the same garbage row, whose only empty cell is at
    that column; the queue is emptied. *)
Theorem C5_queued_garbage_one_hole_for_all_rows (gs : GameState R) (g : R) :
  game_board (GBoard gs) -> 0 < GarbageQueue gs ->
  let k := Z.to_nat (GarbageQueue gs) in
  exists n gs' g' b1 b2 holeX next gen g1,
    LockPiece gs g = Some (n, gs', g') /\
    Board_LockPiece (GBoard gs) (CurrentPiece gs) = Some b1 /\
    Board_ClearLines b1 = Some (b2, n) /\
    nextPiece gs g = Some (next, gen, g1) /\
    (PieceGen gs <> None -> g1 = g) /\
    Intn g1 BoardWidth = (holeX, g') /\
    0 <= holeX < BoardWidth /\
    Cells (GBoard gs') =
      drop k (Cells b2 ++ replicate k (garbageLine BoardWidth holeX)) /\
    length (Cells (GBoard gs')) = length (Cells b2) /\
    (forall i : nat, (i + k < 20)%nat ->
       Cells (GBoard gs') !! i = Cells b2 !! (i + k)%nat) /\
    (forall i : nat, (20 - k <= i < 20)%nat ->
       Cells (GBoard gs') !! i = Some (garbageLine BoardWidth holeX)) /\
    emptyCells (garbageLine BoardWidth holeX) = 1%nat /\
    Filled <$> garbageLine BoardWidth holeX !! Z.to_nat holeX = Some false /\
    GarbageQueue gs' = 0.
Proof.
  intros Hb Hq k.
  destruct (LockPiece_steps gs g Hb)
    as (b1 & b2 & n & next & gen & g1 & b3 & queue & g2 & over &
        H1 & H2 & Hb2 & _ & H3 & H4 & Hb3 & _ & HL).
  destruct (applyQueuedGarbage_ok b2 (GarbageQueue gs) g1 Hb2 Hq)
    as (b3' & holeX & g2' & Ha & Hdraw & Hh & Hc & _).
  rewrite Ha in H4. injection H4 as <- <- <-.
  destruct (garbageLine_one_hole BoardWidth holeX Hh) as (_ & He & Hhole).
  assert (length (Cells b2) = 20%nat) as Hl2.
  { destruct Hb2 as ((_ & _ & Hl & _) & _ & HH). rewrite HH in Hl. exact Hl. }
  eexists n, _, g2', b1, b2, holeX, next, gen, g1. split; [exact HL|].
  cbn [GBoard GarbageQueue]. fold k in Hc.
  split; [exact H1|]. split; [exact H2|]. split; [exact H3|].
  split.
  { intros Hgen. unfold nextPiece in H3.
    destruct (PieceGen gs) as [pg|]; [|contradiction].
    destruct (Next pg) as [[p pg']|]; [|discriminate].
    cbn in H3. congruence. }
  split; [exact Hdraw|]. split; [exact Hh|].
  split; [exact Hc|]. rewrite Hc.
  split; [rewrite length_drop, length_app, length_replicate; lia|].
  split; [|split; [|auto]].
  - intros i Hi. rewrite lookup_drop, lookup_app_l by lia. f_equal. lia.
  - intros i Hi. rewrite lookup_drop, lookup_app_r by lia.
    apply lookup_replicate_2. lia.
Qed.

End Facts.
End GameStateFacts.

(** * Properties of the room server *)

Module ServerFacts.
Import Server GoIntFacts.

Lemma send_fields (env : protocol.Envelope) (p : Player) :
  ID (send env p) = ID p /\ Name (send env p) = Name p /\
  Ready (send env p) = Ready p /\ Alive (send env p) = Alive p /\
  TargetID (send env p) = TargetID p /\ roomID (send env p) = roomID p /\
  sendClosed (send env p) = sendClosed p.
Proof.
  unfold send. destruct (sendClosed p) eqn:E; [rewrite E; auto 10|].
  destruct (decide _); cbn; rewrite ?E; auto 10.
Qed.

(* On an open channel with room left, [send] queues the message last. *)
Lemma send_queued (env : protocol.Envelope) (p : Player) :
  sendClosed p = false -> (length (sendCh p) < sendChCap)%nat ->
  sendCh (send env p) = sendCh p ++ [env].
Proof.
  intros Hc Hl. unfold send. rewrite Hc. rewrite decide_True by exact Hl.
  reflexivity.
Qed.

(* On a closed channel or a full queue, [send] changes nothing. *)
Lemma send_dropped (env : protocol.Envelope) (p : Player) :
  sendClosed p = true \/ (sendChCap <= length (sendCh p))%nat ->
  send env p = p.
Proof.
  intros [Hc|Hl]; unfold send.
  - rewrite Hc. reflexivity.
  - destruct (sendClosed p); [reflexivity|].
    rewrite decide_False by lia. reflexivity.
Qed.

(* [send] is a sending in the sense of [sentTo]. *)
Lemma send_sentTo (env : protocol.Envelope) (p : Player) :
  sentTo env p (send env p).
Proof.
  destruct (send_fields env p) as (HI & HN & HR & HA & HT & HRo & HC).
  unfold sentTo. repeat (split; [assumption|]). split.
  - intros Ho Hl. apply send_queued; [exact Ho|]. unfold sendChCap. exact Hl.
  - intros Hd. rewrite send_dropped; [reflexivity|]. unfold sendChCap. exact Hd.
Qed.

Lemma canStart_spec (r : Room) :
  canStart r = true <->
  (2 <= size (players r))%nat /\
  forall id p, players r !! id = Some p -> Ready p = true.
Proof.
  unfold canStart, playerCount, minPlayers.
  destruct (Z.of_nat (size (players r)) <? 2) eqn:E.
  - split; [discriminate|]. intros [Hs _]. lia.
  - rewrite bool_decide_eq_true. unfold map_Forall. split.
    + intros Hall. split; [lia|exact Hall].
    + intros [_ Hall]. exact Hall.
Qed.




Lemma expired_spec (now : Z) (pj : PendingJoin) :
  expired now pj = true <-> 60 * Second < now - CreatedAt pj.
Proof.
  unfold expired, Sub, Second. rewrite Z.ltb_lt.
  assert (2 ^ 63 = 9223372036854775808) as -> by reflexivity. lia.
Qed.

Lemma consumeToken_gone (token : string) (now : Z) (h : Hub) :
  pendingJoins (consumeToken token now h).2 !! token = None.
Proof.
  unfold consumeToken. destruct (pendingJoins h !! token) as [pj|] eqn:E.
  - destruct (expired now pj); cbn; apply lookup_delete_eq.
  - exact E.
Qed.

Lemma consumeToken_absent (token : string) (now : Z) (h : Hub) :
  pendingJoins h !! token = None -> consumeToken token now h = (None, h).
Proof. intros E. unfold consumeToken. rewrite E. reflexivity. Qed.

Lemma hubStep_keeps_absent (token : string) (op : HubOp) (h : Hub) :
  registers token op = false -> pendingJoins h !! token = None ->
  pendingJoins (hubStep op h) !! token = None.
Proof.
  destruct op as [t pj now|t now]; cbn [registers hubStep]; intros Hr Hn.
  - apply bool_decide_eq_false in Hr. unfold addPendingJoin. cbn.
    rewrite lookup_insert_ne by exact Hr.
    apply map_lookup_filter_None. left. exact Hn.
  - unfold consumeToken. destruct (pendingJoins h !! t) as [pj|] eqn:E;
      [|exact Hn].
    destruct (expired now pj); cbn;
      (destruct (decide (t = token)) as [->|Hne];
       [apply lookup_delete_eq | rewrite lookup_delete_ne by exact Hne; exact Hn]).
Qed.

Lemma runHub_keeps_absent (token : string) (ops : list HubOp) :
  forall h, Forall (fun op => registers token op = false) ops ->
  pendingJoins h !! token = None ->
  pendingJoins (runHub ops h) !! token = None.
Proof.
  induction ops as [|op ops IH]; intros h Hops Hn; [exact Hn|].
  inversion Hops as [|? ? Hop Hrest]; subst. cbn.
  apply IH; [exact Hrest|]. apply hubStep_keeps_absent; assumption.
Qed.

(** C7. Consuming a token that is not in the table fails; consuming a token
    registered more than 60 seconds ago fails; a token registered at most 60
    seconds ago is consumed with success, once: after a consumption, whatever
    registrations of other tokens and consumptions follow, consuming it again
    fails.  A failed consumption makes [handlePlay] answer with the
    invalid-token status.  A registration keeps, of the entries that were in
    the table, exactly those not older than 60 seconds, and adds the new
    one. *)
Theorem C7_join_token_single_use (h : Hub) (token : string) (now : Z) :
  (pendingJoins h !! token = None -> (consumeToken token now h).1 = None) /\
  (forall pj, pendingJoins h !! token = Some pj ->
     60 * Second < now - CreatedAt pj ->
     (consumeToken token now h).1 = None) /\
  (forall pj, pendingJoins h !! token = Some pj ->
     now - CreatedAt pj <= 60 * Second ->
     (consumeToken token now h).1 = Some pj) /\
  (forall (ops : list HubOp) (now' : Z),
     Forall (fun op => registers token op = false) ops ->
     (consumeToken token now'
        (runHub ops (consumeToken token now h).2)).1 = None) /\
  (forall (ToUpper : string -> string) (roomCode : string),
     roomCode <> "" -> token <> "" ->
     (consumeToken token now h).1 = None ->
     (handlePlay ToUpper roomCode token now h).1 = StatusUnauthorized) /\
  (forall (tok : string) (pj : PendingJoin),
     let h' := addPendingJoin tok pj now h in
     pendingJoins h' !! tok = Some pj /\
     forall t p, t <> tok ->
       (pendingJoins h' !! t = Some p <->
        pendingJoins h !! t = Some p /\ now - CreatedAt p <= 60 * Second)).
Proof.
  split; [|split; [|split; [|split; [|split]]]].
  - intros E. rewrite consumeToken_absent by exact E. reflexivity.
  - intros pj E Hold. unfold consumeToken. rewrite E.
    apply expired_spec in Hold. rewrite Hold. reflexivity.
  - intros pj E Hyoung. unfold consumeToken. rewrite E.
    destruct (expired now pj) eqn:Ex; [|reflexivity].
    apply expired_spec in Ex. lia.
  - intros ops now' Hops.
    rewrite consumeToken_absent; [reflexivity|].
    apply runHub_keeps_absent; [exact Hops|apply consumeToken_gone].
  - intros ToUpper roomCode Hr Ht Hc. unfold handlePlay.
    rewrite bool_decide_eq_false_2 by exact Hr.
    rewrite bool_decide_eq_false_2 by exact Ht. cbn [orb].
    destruct (consumeToken token now h) as [[pj|] h']; [discriminate|reflexivity].
  - intros tok pj h'. unfold h', addPendingJoin. cbn. split.
    + apply lookup_insert_eq.
    + intros t p Hne. rewrite lookup_insert_ne by congruence.
      rewrite map_lookup_filter_Some. cbn.
      assert (expired now p = false <-> now - CreatedAt p <= 60 * Second) as Hx.
      { pose proof (expired_spec now p) as He. destruct (expired now p).
        - split; [discriminate|]. intros Hle.
          assert (60 * Second < now - CreatedAt p) by (apply He; reflexivity).
          lia.
        - split; [|reflexivity]. intros _.
          destruct (Z.le_gt_cases (now - CreatedAt p) (60 * Second)) as [Hle|Hgt];
            [exact Hle|].
          apply He in Hgt. discriminate. }
      rewrite Hx. reflexivity.
Qed.

(** *** The win condition *)

Lemma filter_snd_commute {A B} (f : B -> bool) (l : list (A * B)) :
  List.filter f l.*2 = (List.filter (fun kv => f kv.2) l).*2.
Proof.
  induction l as [|[a b] l IH]; [reflexivity|]. cbn.
  destruct (f b); cbn; rewrite IH; reflexivity.
Qed.

Lemma filter_all_false {A} (f : A -> bool) (l : list A) :
  (forall x, x ∈ l -> f x = false) -> List.filter f l = [].
Proof.
  induction l as [|a l IH]; intros Hall; [reflexivity|]. cbn.
  rewrite (Hall a) by (left). apply IH. intros x Hx. apply Hall. right. exact Hx.
Qed.

Lemma filter_elem_of {A} (f : A -> bool) (l : list A) (x : A) :
  x ∈ List.filter f l <-> x ∈ l /\ f x = true.
Proof. rewrite !list_elem_of_In. apply List.filter_In. Qed.

Lemma NoDup_fst_filter {A B} (f : A * B -> bool) (l : list (A * B)) :
  NoDup l.*1 -> NoDup (List.filter f l).*1.
Proof.
  induction l as [|[a b] l IH]; intros Hnd; [constructor|].
  cbn in Hnd. apply NoDup_cons in Hnd as [Hni Hnd]. cbn.
  destruct (f (a, b)); [|apply IH; exact Hnd].
  cbn. apply NoDup_cons. split; [|apply IH; exact Hnd].
  intros Hin. apply Hni. apply list_elem_of_fmap in Hin as ([a' b'] & -> & Hin).
  apply filter_elem_of in Hin as [Hin _].
  apply list_elem_of_fmap. exists (a', b'). auto.
Qed.


Lemma alivePlayers_none (r : Room) :
  (forall id p, players r !! id = Some p -> Alive p = false) ->
  alivePlayers r = [].
Proof.
  intros Hdead. unfold alivePlayers. apply filter_all_false.
  intros p Hp. apply list_elem_of_fmap in Hp as ([id p'] & -> & Hin).
  apply elem_of_map_to_list in Hin. eapply Hdead. exact Hin.
Qed.



(** C10. In a room of at least two members none of whom is alive, the
    win-condition check still ends the match and sends every member one
    match-over message; its winner id and winner name are empty and its rank
    is the member count, for every member: nobody is sent rank 1.  Sent is
    meant as the queue has it: queued last on an open queue with room left,
    dropped on a closed or full one.  The room's winner id is left as it
    was. *)
Theorem C10_no_survivor_ranks (r : Room) :
  room_ok r ->
  (2 <= size (players r))%nat ->
  (forall id p, players r !! id = Some p -> Alive p = false) ->
  let r' := checkWinCondition r in
  let total := Z.of_nat (size (players r)) in
  let msg := protocol.mkEnvelope protocol.MsgMatchOver
               (protocol.MatchOverPayload "" "" total) in
  phase r' = PhaseGameOver /\ winnerID r' = winnerID r /\
  dom (players r') = dom (players r) /\
  protocol.EPayload msg <> protocol.MatchOverPayload "" "" 1 /\
  forall id p, players r !! id = Some p ->
    exists p', players r' !! id = Some p' /\ sentTo msg p p'.
Proof.
  intros Hok Hsize Hdead r' total msg.
  pose proof (alivePlayers_none r Hdead) as Halive.
  assert (r' = setPlayers
            ((fun p => send (matchOver "" ""
                               (if decide (ID p = "") then 1 else total)) p)
             <$> players r)
            (setPhase PhaseGameOver r)) as Hr'.
  { unfold r', checkWinCondition. rewrite Halive.
    unfold playerCount, minPlayers, GoInt.len. cbn [length].
    change (Z.of_nat 0 <=? 1) with true.
    rewrite (proj2 (Z.leb_le 2 (Z.of_nat (size (players r))))) by lia.
    reflexivity. }
  rewrite Hr'. cbn [phase winnerID players setPlayers setPhase].
  split; [reflexivity|]. split; [reflexivity|].
  split; [apply dom_fmap_L|]. split.
  { unfold msg. cbn [protocol.EPayload]. intros [= Ht]. unfold total in Ht. lia. }
  intros id p Hp. eexists. split.
  - rewrite lookup_fmap, Hp. cbn. reflexivity.
  - destruct (Hok id p Hp) as [Hid Hne].
    rewrite decide_False by congruence. apply send_sentTo.
Qed.

(** *** Attack routing *)

(* [validTarget] is decidable: it is what the code tests. *)
Lemma classic_valid (attackerID : string) (attacker : Player) (r : Room) :
  validTarget attackerID attacker r \/ ~ validTarget attackerID attacker r.
Proof.
  unfold validTarget.
  destruct (decide (TargetID attacker = "")) as [He|Hne]; [tauto|].
  destruct (decide (TargetID attacker = attackerID)) as [He|Hna]; [tauto|].
  destruct (players r !! TargetID attacker) as [t|] eqn:Ht.
  - destruct (Alive t) eqn:Ha.
    + left. eauto.
    + right. intros (_ & _ & t' & [= <-] & Ha'). congruence.
  - right. intros (_ & _ & t' & Hd & _). discriminate.
Qed.

Section Attack.
Context {R : Type} `{RandSource R}.

Lemma candidates_spec (attackerID : string) (r : Room) :
  NoDup (candidates attackerID r) /\
  forall id, id ∈ candidates attackerID r <->
    id <> attackerID /\ exists p, players r !! id = Some p /\ Alive p = true.
Proof.
  unfold candidates. split.
  - apply NoDup_fst_filter, NoDup_fst_map_to_list.
  - intros id. rewrite list_elem_of_fmap. split.
    + intros ([id' p] & -> & Hin). apply filter_elem_of in Hin as [Hin Hf].
      apply elem_of_map_to_list in Hin. cbn in *.
      apply andb_prop in Hf as [Hne Ha]. apply bool_decide_eq_true in Hne.
      eauto.
    + intros (Hne & p & Hp & Ha). exists (id, p). split; [reflexivity|].
      apply filter_elem_of. split; [apply elem_of_map_to_list; exact Hp|].
      cbn. rewrite Ha, bool_decide_eq_true_2 by exact Hne. reflexivity.
Qed.

Lemma resolveTarget_valid (attackerID : string) (attacker : Player) (r : Room) (g : R) :
  validTarget attackerID attacker r ->
  resolveTarget attackerID attacker r g = (Some (TargetID attacker), g).
Proof.
  intros (Hne & Hna & t & Ht & Ha). unfold resolveTarget. cbn zeta.
  destruct (decide (TargetID attacker <> "")) as [_|Hc]; [|contradiction].
  rewrite Ht, Ha. rewrite bool_decide_eq_false_2 by exact Hna. cbn [negb orb].
  destruct (decide (TargetID attacker = "")); [contradiction|reflexivity].
Qed.

Lemma resolveTarget_fallback (attackerID : string) (attacker : Player) (r : Room) (g : R) :
  ~ validTarget attackerID attacker r ->
  resolveTarget attackerID attacker r g =
    let cs := candidates attackerID r in
    if decide (GoInt.len cs = 0) then (None, g)
    else let '(k, g') := Intn g (GoInt.len cs) in
         (Some (default "" (GoInt.index cs k)), g').
Proof.
  intros Hinv. unfold resolveTarget. cbn zeta.
  destruct (decide (TargetID attacker <> "")) as [Hne|He].
  - destruct (players r !! TargetID attacker) as [t|] eqn:Ht;
      [|destruct (decide ("" = "")); [reflexivity|contradiction]].
    destruct (negb (Alive t) || bool_decide (TargetID attacker = attackerID)) eqn:E;
      [destruct (decide ("" = "")); [reflexivity|contradiction]|].
    exfalso. apply Hinv. apply orb_false_elim in E as [Ea Eb].
    apply negb_false_iff in Ea. apply bool_decide_eq_false in Eb.
    split; [exact Hne|]. split; [exact Eb|]. eauto.
  - destruct (decide (TargetID attacker = "")) as [_|Hn]; [reflexivity|].
    exfalso. apply He. exact Hn.
Qed.

(* Whoever is resolved is a member, alive, and not the attacker. *)
Lemma resolveTarget_member (attackerID : string) (attacker : Player) (r : Room)
    (g : R) (tid : string) :
  (resolveTarget attackerID attacker r g).1 = Some tid ->
  tid <> attackerID /\ exists t, players r !! tid = Some t /\ Alive t = true.
Proof.
  destruct (classic_valid attackerID attacker r) as [Hv|Hv].
  - rewrite resolveTarget_valid by exact Hv. intros [= <-].
    destruct Hv as (_ & Hna & Ht). auto.
  - rewrite resolveTarget_fallback by exact Hv. cbn zeta.
    destruct (decide (GoInt.len (candidates attackerID r) = 0)) as [|Hn];
      [discriminate|].
    pose proof (Intn_range g (GoInt.len (candidates attackerID r))) as Hk.
    destruct (Intn g _) as [k g']. cbn in *.
    specialize (Hk ltac:(unfold GoInt.len in *; lia)).
    destruct (index_in_range (candidates attackerID r) k Hk) as [c Hc].
    rewrite Hc. cbn. intros [= <-].
    apply (proj2 (candidates_spec attackerID r)).
    unfold GoInt.index in Hc. destruct (k <? 0); [discriminate|].
    apply list_elem_of_lookup. eauto.
Qed.

Lemma handleLinesCleared_resolved (attackerID : string) (attacker : Player)
    (payload : protocol.LinesClearedPayload) (r : Room) (g : R) :
  0 < protocol.AttackPower payload ->
  players r !! attackerID = Some attacker ->
  handleLinesCleared attackerID payload r g =
    match resolveTarget attackerID attacker r g with
    | (None, g') => (r, g')
    | (Some targetID, g') =>
        match players r !! targetID with
        | Some target =>
            (garbageSentTo targetID attackerID (protocol.AttackPower payload)
               target r, g')
        | None => (r, g')
        end
    end.
Proof.
  intros Hpos Ha. unfold handleLinesCleared.
  destruct (protocol.AttackPower payload <=? 0) eqn:E; [lia|].
  rewrite Ha. reflexivity.
Qed.

Lemma checkWinCondition_absent (r : Room) (id : string) :
  players r !! id = None -> players (checkWinCondition r) !! id = None.
Proof.
  intros Hn. unfold checkWinCondition.
  destruct ((GoInt.len (alivePlayers r) <=? 1) && (minPlayers <=? playerCount r));
    [|exact Hn].
  destruct (alivePlayers r) as [|w [|w' l]]; cbn [players setPlayers setPhase setWinnerID];
    rewrite lookup_fmap, Hn; reflexivity.
Qed.

Lemma removePlayer_absent (r : Room) (id : string) :
  players (removePlayer id r) !! id = None.
Proof.
  unfold removePlayer. destruct (decide _).
  - apply checkWinCondition_absent. cbn. apply lookup_delete_eq.
  - cbn. apply lookup_delete_eq.
Qed.

(* [garbageSentTo] is a delivery of the garbage message to the target. *)
Lemma garbageSentTo_delivered (tid attackerID : string) (lines : Z) (t : Player)
    (r : Room) :
  players r !! tid = Some t ->
  deliveredTo tid
    (protocol.mkEnvelope protocol.MsgReceiveGarbage
       (protocol.ReceiveGarbagePayload lines attackerID))
    r (garbageSentTo tid attackerID lines t r).
Proof.
  intros Ht. unfold deliveredTo, garbageSentTo.
  cbn [players setPlayers code phase seed countdown winnerID].
  split.
  - exists t. eexists. split; [exact Ht|]. split; [apply lookup_insert_eq|].
    apply send_sentTo.
  - split; [|auto 10]. intros id Hne. apply lookup_insert_ne. congruence.
Qed.

(* Where the garbage of a report goes, in the three cases of the code. *)
Lemma attack_delivery (r : Room) (attackerID : string) (attacker : Player)
    (payload : protocol.LinesClearedPayload) (g : R) :
  0 < protocol.AttackPower payload ->
  players r !! attackerID = Some attacker ->
  let cs := candidates attackerID r in
  let out := handleLinesCleared attackerID payload r g in
  let msg := protocol.mkEnvelope protocol.MsgReceiveGarbage
               (protocol.ReceiveGarbagePayload (protocol.AttackPower payload)
                  attackerID) in
  (validTarget attackerID attacker r ->
   out.2 = g /\ deliveredTo (TargetID attacker) msg r out.1) /\
  (~ validTarget attackerID attacker r -> cs <> [] ->
   exists k tid,
     k = (Intn g (GoInt.len cs)).1 /\ 0 <= k < GoInt.len cs /\
     cs !! Z.to_nat k = Some tid /\
     out.2 = (Intn g (GoInt.len cs)).2 /\ deliveredTo tid msg r out.1) /\
  (~ validTarget attackerID attacker r -> cs = [] -> out = (r, g)).
Proof.
  intros Hpos Ha cs out msg.
  pose proof (candidates_spec attackerID r) as Hcs. fold cs in Hcs.
  split; [|split].
  - intros Hv. pose proof Hv as (_ & _ & t & Ht & _). unfold out.
    rewrite (handleLinesCleared_resolved _ attacker) by assumption.
    rewrite resolveTarget_valid by exact Hv. rewrite Ht. cbn [fst snd].
    split; [reflexivity|]. apply garbageSentTo_delivered. exact Ht.
  - intros Hv Hne. unfold out.
    rewrite (handleLinesCleared_resolved _ attacker) by assumption.
    rewrite resolveTarget_fallback by exact Hv. cbn zeta. fold cs.
    assert (0 < GoInt.len cs) as Hlen
      by (unfold GoInt.len; destruct cs; [congruence|cbn; lia]).
    destruct (decide (GoInt.len cs = 0)) as [|_]; [lia|].
    pose proof (Intn_range g (GoInt.len cs) Hlen) as Hk.
    destruct (Intn g (GoInt.len cs)) as [k g'] eqn:Hi. cbn [fst snd] in *.
    destruct (index_in_range cs k Hk) as [tid Htid].
    rewrite Htid. cbn [from_option]. unfold id.
    assert (cs !! Z.to_nat k = Some tid) as Hlk.
    { unfold GoInt.index in Htid. destruct (k <? 0); [discriminate|exact Htid]. }
    assert (tid ∈ cs) as Hin by (apply list_elem_of_lookup; eauto).
    apply (proj2 Hcs) in Hin as (_ & t & Ht & _).
    exists k, tid. rewrite Ht. cbn [fst snd].
    split; [reflexivity|]. split; [exact Hk|]. split; [exact Hlk|].
    split; [reflexivity|]. apply garbageSentTo_delivered. exact Ht.
  - intros Hv Hnil. unfold out.
    rewrite (handleLinesCleared_resolved _ attacker) by assumption.
    rewrite resolveTarget_fallback by exact Hv. cbn zeta. fold cs. rewrite Hnil.
    reflexivity.
Qed.

(** C9. A report with positive attack power from a member [attacker]; the
    garbage message carries the attack power and the attacker's id.
    - When the attacker's chosen target is a member, alive, and not the
      attacker, the message is sent to it, and to nobody else, and nothing is
      drawn.
    - Otherwise the message is sent, to nobody else, to the alive opponent at
      the index that [rand.Intn] draws in the list of the alive opponents, a
      list that holds each alive opponent exactly once: a uniform draw is a
      uniform choice.
    - With no alive opponent nothing is sent: room and source are unchanged.
    - After a player [B] has left the room, [B] is sent nothing: either
      nothing is sent at all, or the message is sent to an alive member other
      than [B] and the attacker, and it is sent to one whenever one exists.
    Sent is meant as the queue has it: queued last on an open queue with room
    left, dropped on a closed or full one. *)
Theorem C9_attack_routing (r : Room) (attackerID : string) (attacker : Player)
    (payload : protocol.LinesClearedPayload) (g : R) :
  0 < protocol.AttackPower payload ->
  players r !! attackerID = Some attacker ->
  let cs := candidates attackerID r in
  let out := handleLinesCleared attackerID payload r g in
  let msg := protocol.mkEnvelope protocol.MsgReceiveGarbage
               (protocol.ReceiveGarbagePayload (protocol.AttackPower payload)
                  attackerID) in
  (NoDup cs /\
   forall id, id ∈ cs <->
     id <> attackerID /\ exists p, players r !! id = Some p /\ Alive p = true) /\
  (validTarget attackerID attacker r ->
   out.2 = g /\ deliveredTo (TargetID attacker) msg r out.1) /\
  (~ validTarget attackerID attacker r -> cs <> [] ->
   exists k tid,
     k = (Intn g (GoInt.len cs)).1 /\ 0 <= k < GoInt.len cs /\
     cs !! Z.to_nat k = Some tid /\
     out.2 = (Intn g (GoInt.len cs)).2 /\ deliveredTo tid msg r out.1) /\
  (~ validTarget attackerID attacker r -> cs = [] -> out = (r, g)) /\
  (forall (B : string) (a1 : Player) (g1 : R),
     let r1 := removePlayer B r in
     let out1 := handleLinesCleared attackerID payload r1 g1 in
     players r1 !! attackerID = Some a1 ->
     players out1.1 !! B = None /\
     (out1.1 = r1 \/
      exists tid t, tid <> B /\ tid <> attackerID /\
        players r1 !! tid = Some t /\ Alive t = true /\
        deliveredTo tid msg r1 out1.1) /\
     ((exists id p, id <> attackerID /\ players r1 !! id = Some p /\
                    Alive p = true) ->
      exists tid t, tid <> B /\ tid <> attackerID /\
        players r1 !! tid = Some t /\ Alive t = true /\
        deliveredTo tid msg r1 out1.1)).
Proof.
  intros Hpos Ha cs out msg.
  pose proof (candidates_spec attackerID r) as Hcs. fold cs in Hcs.
  destruct (attack_delivery r attackerID attacker payload g Hpos Ha)
    as (Hvalid & Hdraw & Hnone).
  split; [exact Hcs|]. split; [exact Hvalid|]. split; [exact Hdraw|].
  split; [exact Hnone|].
  intros B a1 g1 r1 out1 Ha1.
  pose proof (removePlayer_absent r B) as HB. fold r1 in HB.
  pose proof (candidates_spec attackerID r1) as [_ Hcs1].
  destruct (attack_delivery r1 attackerID a1 payload g1 Hpos Ha1)
    as (Hvalid1 & Hdraw1 & Hnone1). fold out1 in Hvalid1, Hdraw1, Hnone1.
  assert (forall tid, deliveredTo tid msg r1 out1.1 -> tid <> B) as Hne.
  { intros tid ((t & t' & Ht & _) & _) ->. congruence. }
  assert (forall tid, tid <> B -> deliveredTo tid msg r1 out1.1 ->
            players out1.1 !! B = None) as Hgone.
  { intros tid Htid (_ & Hrest & _). rewrite Hrest by congruence. exact HB. }
  destruct (classic_valid attackerID a1 r1) as [Hv|Hv].
  - destruct (Hvalid1 Hv) as [_ Hd].
    pose proof Hv as (_ & Hna & t & Ht & Halive).
    assert (exists tid t, tid <> B /\ tid <> attackerID /\
              players r1 !! tid = Some t /\ Alive t = true /\
              deliveredTo tid msg r1 out1.1) as Hsent
      by (exists (TargetID a1), t; auto using Hne).
    split; [exact (Hgone _ (Hne _ Hd) Hd)|]. split; [right; exact Hsent|].
    intros _. exact Hsent.
  - destruct (candidates attackerID r1) as [|c cs1] eqn:Ecs.
    + rewrite (Hnone1 Hv eq_refl). cbn [fst].
      split; [exact HB|]. split; [left; reflexivity|].
      intros (id & p & Hid & Hp & Hal).
      assert (id ∈ @nil string) as Hin by (apply Hcs1; eauto).
      inversion Hin.
    + destruct (Hdraw1 Hv ltac:(discriminate)) as (k & tid & _ & _ & Hlk & _ & Hd).
      assert (tid ∈ c :: cs1) as Hin by (apply list_elem_of_lookup; eauto).
      apply Hcs1 in Hin as (Hna & t & Ht & Halive).
      assert (exists tid t, tid <> B /\ tid <> attackerID /\
                players r1 !! tid = Some t /\ Alive t = true /\
                deliveredTo tid msg r1 out1.1) as Hsent
        by (exists tid, t; auto using Hne).
      split; [exact (Hgone _ (Hne _ Hd) Hd)|]. split; [right; exact Hsent|].
      intros _. exact Hsent.
Qed.

End Attack.

(** The lobby's picker takes index [len % len], that is 0: the first alive
    opponent of the range, whatever their number. *)
Lemma GetRandomAliveTarget_first (excludeID : string) (l : player.Lobby) :
  player.GetRandomAliveTarget excludeID l =
    default "" (head (player.aliveOthers excludeID l)).
Proof.
  unfold player.GetRandomAliveTarget.
  destruct (player.aliveOthers excludeID l) as [|a rest]; [reflexivity|].
  destruct (decide _) as [E|_]; [discriminate E|].
  rewrite Z.rem_same by (unfold GoInt.len; cbn [length]; lia). reflexivity.
Qed.

End ServerFacts.

(** * The theorems at work on concrete states *)

Module Witnesses.
Import Lcg Game Server Examples.
Import GeneratorFacts BoardFacts GameStateFacts ServerFacts.

Lemma wellBoard_ok : game_board wellBoard.
Proof.
  unfold game_board, board_ok. cbn [wellBoard Width Height Cells].
  repeat split; try reflexivity; try (unfold BoardWidth, BoardHeight; lia).
  vm_compute. repeat constructor.
Qed.

Lemma NewBoard_ok : game_board NewBoard.
Proof.
  unfold game_board, board_ok. cbn [NewBoard Width Height Cells].
  repeat split; try reflexivity; try (unfold BoardWidth, BoardHeight; lia).
  vm_compute. repeat constructor.
Qed.

(* [room_ok], decided by running over the members *)
Lemma room_ok_decide (r : Room) :
  bool_decide (map_Forall (fun id p => ID p = id /\ id <> "") (players r)) = true ->
  room_ok r.
Proof. intros Hd. apply bool_decide_eq_true in Hd. exact Hd. Qed.

(** The first two bags of the generator seeded with 42. *)
Example two_bags_of_seed_42 :
  firstTypes 14 (NewPieceGenerator (R:=Z) 42) =
    Some [PieceL; PieceI; PieceJ; PieceZ; PieceS; PieceT; PieceO;
          PieceT; PieceL; PieceS; PieceZ; PieceO; PieceI; PieceJ].
Proof. vm_compute. reflexivity. Qed.

(** Peeking between two calls of [Next] changes nothing. *)
Example peeks_do_not_consume :
  nextTypes [OpPeek; OpNext; OpPeek; OpPeek; OpNext; OpNext]
    (NewPieceGenerator (R:=Z) 42) = Some [PieceL; PieceI; PieceJ].
Proof. vm_compute. reflexivity. Qed.

(** Locking the upright I piece into the well at level 1 clears four lines:
    800 points, attack power 4, level 4/10 + 1 = 1. *)
Example lock_into_well :
  (fun x : Z * GameState Z * Z =>
     (x.1.1, Score x.1.2, Level x.1.2, Lines x.1.2, AttackPower x.1.2))
  <$> LockPiece (wellState 0) g0 = Some (4, 800, 1, 4, 4).
Proof. vm_compute. reflexivity. Qed.

Lemma C3_witness :
  game_board (GBoard (wellState 0)) /\
  exists gs' g', LockPiece (wellState 0) g0 = Some (4, gs', g') /\
    Score gs' = Score (wellState 0) + 800 * Level (wellState 0) /\
    AttackPower gs' = 4 /\ Level gs' = Lines gs' ÷ 10 + 1.
Proof.
  split; [exact wellBoard_ok|].
  destruct (C3_lock_score_level_attack (wellState 0) g0 wellBoard_ok)
    as (n & gs' & g' & HL & _ & _ & Hlevel & H14 & _).
  assert (n = 4) as ->.
  { assert ((fun x : Z * GameState Z * Z => x.1.1) <$> LockPiece (wellState 0) g0
            = Some 4) as Hc by (vm_compute; reflexivity).
    rewrite HL in Hc. cbn in Hc. congruence. }
  destruct (H14 ltac:(lia)) as (_ & Hscore & Hattack).
  exists gs', g'. split; [exact HL|]. split; [|split; [exact Hattack|exact Hlevel]].
  apply Hscore. vm_compute. split; [discriminate|reflexivity].
Defined.

Lemma C4_witness :
  game_board wellBoard /\
  exists b' g',
    runBoardOps [OpGarbage 2; OpClearLines; OpAddGarbageLines 3 (-1); OpGarbage 1]
      wellBoard g0 = Some (b', g') /\
    Width b' = 10 /\ Height b' = 20 /\ length (Cells b') = 20%nat.
Proof.
  split; [exact wellBoard_ok|].
  destruct (C4_dimensions_kept_garbage_rows_one_hole wellBoard
              [OpGarbage 2; OpClearLines; OpAddGarbageLines 3 (-1); OpGarbage 1]
              g0 wellBoard_ok)
    as (b' & g' & Hrun & _ & _ & HW & HH & Hlen & _).
  exists b', g'. auto.
Defined.

(** Two queued rows applied at a lock: both get the hole at column 2. *)
Example two_garbage_rows_one_hole :
  (fun x : Z * GameState Z * Z => bottomHoles 2 (GBoard x.1.2))
  <$> LockPiece (wellState 2) g0 = Some [[2%nat]; [2%nat]].
Proof. vm_compute. reflexivity. Qed.

Lemma C5_witness :
  game_board (GBoard (wellState 2)) /\ 0 < GarbageQueue (wellState 2) /\
  exists n gs' g' holeX g1,
    LockPiece (wellState 2) g0 = Some (n, gs', g') /\
    Intn g1 BoardWidth = (holeX, g') /\
    0 <= holeX < BoardWidth /\
    (forall i : nat, (18 <= i < 20)%nat ->
       Cells (GBoard gs') !! i = Some (garbageLine BoardWidth holeX)) /\
    GarbageQueue gs' = 0.
Proof.
  split; [exact wellBoard_ok|]. split; [reflexivity|].
  destruct (C5_queued_garbage_one_hole_for_all_rows (wellState 2) g0
              wellBoard_ok eq_refl)
    as (n & gs' & g' & b1 & b2 & holeX & next & gen & g1 &
        HL & _ & _ & _ & _ & Hdraw & Hh & _ & _ & _ & Hrows & _ & _ & Hq).
  exists n, gs', g', holeX, g1. split; [exact HL|]. split; [exact Hdraw|].
  split; [exact Hh|].
  split; [|exact Hq]. intros i Hi. apply Hrows. cbn. lia.
Defined.

(** C5, as worded: the reading in which every row gets a hole of its own (one
    draw per row) is not what the code does.  Whatever the random source and
    its state, the two rows of a queue of two get the hole at one and the same
    column, that of the first draw.  With a source whose first two draws are
    2 and 3 the code gives both rows the hole at column 2, where a draw per
    row gives the holes at columns 2 and 3. *)
Lemma C5_holes_not_drawn_per_row :
  (forall (S : Type) (src : RandSource S) (g : S),
     (fun x : Board * Z * S => bottomHoles 2 x.1.1)
       <$> applyQueuedGarbage NewBoard 2 g
     = Some [[Z.to_nat (Intn g BoardWidth).1];
             [Z.to_nat (Intn g BoardWidth).1]]) /\
  (fun x : Board * Z * Z => bottomHoles 2 x.1.1)
    <$> applyQueuedGarbage NewBoard 2 g0 = Some [[2%nat]; [2%nat]] /\
  (fun x : Board * Z => bottomHoles 2 x.1)
    <$> addGarbagePerRow 2 NewBoard g0 = Some [[2%nat]; [3%nat]] /\
  (fun x : Board * Z * Z => Cells x.1.1) <$> applyQueuedGarbage NewBoard 2 g0
    <> (fun x : Board * Z => Cells x.1) <$> addGarbagePerRow 2 NewBoard g0.
Proof.
  split.
  { intros S src g.
    pose proof (Intn_range g BoardWidth ltac:(unfold BoardWidth; lia)) as Hh.
    unfold applyQueuedGarbage. change (0 <? 2) with true. cbv iota.
    destruct (Intn g BoardWidth) as [holeX g'] eqn:Hi. cbn [fst] in *.
    unfold BoardWidth in Hh.
    assert (holeX = 0 \/ holeX = 1 \/ holeX = 2 \/ holeX = 3 \/ holeX = 4 \/
            holeX = 5 \/ holeX = 6 \/ holeX = 7 \/ holeX = 8 \/ holeX = 9)
      as Hcases by lia.
    repeat (destruct Hcases as [->|Hcases]); try subst holeX;
      vm_compute; reflexivity. }
  split; [vm_compute; reflexivity|]. split; [vm_compute; reflexivity|].
  vm_compute. discriminate.
Qed.

(** Ann is ready, Bob is not: Bob's ready message starts the countdown; a
    message of Bob that sets his flag to false does not. *)
Example second_ready_starts_countdown :
  phase (handleMessage_Ready "player_2_2" true lobby2) = PhaseCountdown /\
  phase (handleMessage_Ready "player_2_2" false lobby2) = PhaseLobby.
Proof. split; vm_compute; reflexivity. Qed.



(** A token is consumed once, within its sixty seconds. *)
Example token_consumed_once :
  (consumeToken "tok_0_1" (5 * Second) hub1).1 = Some joinAnn /\
  (consumeToken "tok_0_1" (6 * Second)
     (consumeToken "tok_0_1" (5 * Second) hub1).2).1 = None /\
  (consumeToken "tok_0_1" (60 * Second) hub1).1 = Some joinAnn /\
  (consumeToken "tok_0_1" (60 * Second + 1) hub1).1 = None /\
  (consumeToken "tok_9_9" (5 * Second) hub1).1 = None.
Proof. repeat split; vm_compute; reflexivity. Qed.

(** A registration sweeps the entries older than sixty seconds. *)
Example registration_sweeps :
  let h := addPendingJoin "tok_0_2" joinAnn (61 * Second) hub1 in
  pendingJoins h !! "tok_0_1" = None /\ pendingJoins h !! "tok_0_2" = Some joinAnn.
Proof. split; vm_compute; reflexivity. Qed.


Lemma nobodyAlive_ok : room_ok nobodyAlive.
Proof. apply room_ok_decide. vm_compute. reflexivity. Qed.


Lemma nobodyAlive_dead :
  forall id p, players nobodyAlive !! id = Some p -> Alive p = false.
Proof.
  apply (bool_decide_eq_true_1
           (map_Forall (fun _ p => Alive p = false) (players nobodyAlive))).
  vm_compute. reflexivity.
Qed.



(** A member whose queue is full is sent the match-over message and does not
    get it; the others get it. *)
Example match_over_dropped_on_full_queue :
  let r := setPlayers (alter fullQueue "player_1_1" (players onlyCyAlive))
             onlyCyAlive in
  sendCh <$> players (checkWinCondition r) !! "player_1_1"
    = sendCh <$> players r !! "player_1_1" /\
  (last <$> (sendCh <$> players (checkWinCondition r) !! "player_2_2"))
    = Some (Some (protocol.mkEnvelope protocol.MsgMatchOver
                    (protocol.MatchOverPayload "player_3_3" "Cy" 3))).
Proof. split; vm_compute; reflexivity. Qed.

Lemma C10_witness :
  room_ok nobodyAlive /\ (2 <= size (players nobodyAlive))%nat /\
  let r' := checkWinCondition nobodyAlive in
  phase r' = PhaseGameOver /\
  forall id p, players nobodyAlive !! id = Some p ->
    exists p', players r' !! id = Some p' /\
      sentTo (protocol.mkEnvelope protocol.MsgMatchOver
                (protocol.MatchOverPayload "" "" 3)) p p'.
Proof.
  assert (2 <= size (players nobodyAlive))%nat as Hsize by (vm_compute; lia).
  split; [exact nobodyAlive_ok|]. split; [exact Hsize|].
  destruct (C10_no_survivor_ranks nobodyAlive nobodyAlive_ok Hsize
              nobodyAlive_dead)
    as (Hphase & _ & _ & _ & Hmsg).
  split; [exact Hphase|].
  intros id p Hp. exact (Hmsg id p Hp).
Defined.

(** Ann has chosen Bob: four lines of garbage go to Bob.  Once Bob has left,
    they go to Cy, the only alive opponent left. *)
Example garbage_follows_target :
  (fun r => last <$> (sendCh <$> players r !! "player_2_2"))
    (handleLinesCleared "player_1_1" fourLines match3 g0).1
    = Some (Some (protocol.mkEnvelope protocol.MsgReceiveGarbage
                    (protocol.ReceiveGarbagePayload 4 "player_1_1"))) /\
  let r1 := removePlayer "player_2_2" match3 in
  (fun r => last <$> (sendCh <$> players r !! "player_3_3"))
    (handleLinesCleared "player_1_1" fourLines r1 g0).1
    = Some (Some (protocol.mkEnvelope protocol.MsgReceiveGarbage
                    (protocol.ReceiveGarbagePayload 4 "player_1_1"))) /\
  players (handleLinesCleared "player_1_1" fourLines r1 g0).1 !! "player_2_2"
    = None.
Proof. repeat split; vm_compute; reflexivity. Qed.

Lemma C9_witness :
  0 < protocol.AttackPower fourLines /\
  players match3 !! "player_1_1" = Some annInMatch /\
  validTarget "player_1_1" annInMatch match3 /\
  deliveredTo "player_2_2"
    (protocol.mkEnvelope protocol.MsgReceiveGarbage
       (protocol.ReceiveGarbagePayload 4 "player_1_1"))
    match3 (handleLinesCleared "player_1_1" fourLines match3 g0).1.
Proof.
  assert (players match3 !! "player_1_1" = Some annInMatch) as Hann
    by (vm_compute; reflexivity).
  assert (validTarget "player_1_1" annInMatch match3) as Hvalid.
  { split; [vm_compute; discriminate|]. split; [vm_compute; discriminate|].
    eexists. split; vm_compute; reflexivity. }
  split; [reflexivity|]. split; [exact Hann|]. split; [exact Hvalid|].
  destruct (C9_attack_routing match3 "player_1_1" annInMatch fourLines g0
              eq_refl Hann) as (_ & Hsent & _).
  exact (proj2 (Hsent Hvalid)).
Defined.

End Witnesses.

(** * Properties of moves, rotation, hold and drop speed *)

Module GamePlayFacts.
Import Game GamePlay GoIntFacts BoardFacts.

(** *** Rotation *)

Lemma tab_lookup (n : nat) (f : nat -> nat -> bool) (r : nat) :
  (r < n)%nat -> tab n f !! r = Some (f r <$> seq 0 n).
Proof.
  intros Hr. unfold tab. rewrite list_lookup_fmap, lookup_seq_lt by exact Hr.
  reflexivity.
Qed.

Lemma tab_length (n : nat) (f : nat -> nat -> bool) : length (tab n f) = n.
Proof. unfold tab. rewrite length_fmap. apply length_seq. Qed.

Lemma tab_cell (n : nat) (f : nat -> nat -> bool) (r c : nat) :
  (r < n)%nat -> (c < n)%nat -> cell (tab n f) r c = f r c.
Proof.
  intros Hr Hc. unfold cell. rewrite tab_lookup by exact Hr. cbn.
  rewrite list_lookup_fmap, lookup_seq_lt by exact Hc. reflexivity.
Qed.

Lemma tab_ext (n : nat) (f g : nat -> nat -> bool) :
  (forall r c, (r < n)%nat -> (c < n)%nat -> f r c = g r c) -> tab n f = tab n g.
Proof.
  intros Hfg. unfold tab. apply list_fmap_ext. intros i r Hr.
  apply lookup_seq in Hr as [-> Hlt]. apply list_fmap_ext. intros k c Hc.
  apply lookup_seq in Hc as [-> Hlt']. apply Hfg; assumption.
Qed.

Lemma tab_square (n : nat) (f : nat -> nat -> bool) : square (tab n f).
Proof.
  unfold square. rewrite tab_length. unfold tab. apply Forall_fmap.
  apply Forall_forall. intros r _. cbn. rewrite length_fmap. apply length_seq.
Qed.

(* A square shape is the table of its cells. *)
Lemma square_tab (sh : list (list bool)) :
  square sh -> sh = tab (length sh) (cell sh).
Proof.
  intros Hsq. apply list_eq. intros r.
  destruct (decide (r < length sh)%nat) as [Hr|Hr].
  - rewrite tab_lookup by exact Hr.
    destruct (lookup_lt_is_Some_2 sh r Hr) as [row Hrow]. rewrite Hrow. f_equal.
    assert (length row = length sh) as Hl.
    { unfold square in Hsq. rewrite Forall_forall in Hsq. apply Hsq.
      apply list_elem_of_lookup. eauto. }
    apply list_eq. intros c. rewrite list_lookup_fmap.
    destruct (decide (c < length sh)%nat) as [Hc|Hc].
    + rewrite lookup_seq_lt by exact Hc. cbn. unfold cell. rewrite Hrow. cbn.
      destruct (lookup_lt_is_Some_2 row c) as [v Hv]; [lia|]. rewrite Hv. reflexivity.
    + rewrite lookup_seq_ge by lia. cbn. apply lookup_ge_None. lia.
  - rewrite (lookup_ge_None_2 sh) by lia. symmetry. apply lookup_ge_None.
    rewrite tab_length. lia.
Qed.

(* Writing one cell of a table. *)
Lemma tab_insert (n : nat) (f : nat -> nat -> bool) (j k : nat) (v : bool) :
  (j < n)%nat -> (k < n)%nat ->
  <[j := <[k := v]> (f j <$> seq 0 n)]> (tab n f) =
    tab n (fun r c => if decide (r = j /\ c = k) then v else f r c).
Proof.
  intros Hj Hk. apply list_eq. intros r.
  destruct (decide (r < n)%nat) as [Hr|Hr].
  - rewrite (tab_lookup n _ r Hr). destruct (decide (r = j)) as [->|Hne].
    + rewrite list_lookup_insert_eq by (rewrite tab_length; exact Hj). f_equal.
      apply list_eq. intros c. rewrite list_lookup_fmap.
      destruct (decide (c < n)%nat) as [Hc|Hc].
      * rewrite lookup_seq_lt by exact Hc. cbn.
        destruct (decide (c = k)) as [->|Hck].
        -- rewrite list_lookup_insert_eq by (rewrite length_fmap, length_seq; exact Hk).
           rewrite decide_True by auto. reflexivity.
        -- rewrite list_lookup_insert_ne by congruence.
           rewrite list_lookup_fmap, lookup_seq_lt by exact Hc. cbn.
           rewrite decide_False by (intros [_ ?]; congruence). reflexivity.
      * rewrite lookup_seq_ge by lia. cbn. apply lookup_ge_None.
        rewrite length_insert, length_fmap, length_seq. lia.
    + rewrite list_lookup_insert_ne by congruence. rewrite (tab_lookup n f r Hr).
      f_equal. apply list_fmap_ext. intros i c Hc.
      rewrite decide_False by (intros [? _]; congruence). reflexivity.
  - rewrite (lookup_ge_None_2 (tab n _) r) by (rewrite tab_length; lia).
    apply lookup_ge_None. rewrite length_insert, tab_length. lia.
Qed.

Lemma square_row (sh : list (list bool)) (i : nat) (row : list bool) :
  square sh -> sh !! i = Some row -> length row = length sh.
Proof.
  intros Hsq Hrow. unfold square in Hsq. rewrite Forall_forall in Hsq.
  apply Hsq. apply list_elem_of_lookup. eauto.
Qed.

(* one step of the inner loop *)
Lemma rotateCell_tab (sh : list (list bool)) (n i j : nat)
    (f : nat -> nat -> bool) :
  square sh -> length sh = n -> (i < n)%nat -> (j < n)%nat ->
  rotateCell sh n i j (tab n f) =
    Some (tab n (fun r c =>
            if decide (r = j /\ c = (n - 1 - i)%nat) then cell sh i j else f r c)).
Proof.
  intros Hsq Hn Hi Hj. unfold rotateCell.
  destruct (lookup_lt_is_Some_2 sh i) as [row Hrow]; [lia|]. rewrite Hrow.
  cbn [mbind option_bind].
  pose proof (square_row sh i row Hsq Hrow) as Hl.
  destruct (lookup_lt_is_Some_2 row j) as [v Hv]; [lia|]. rewrite Hv.
  cbn [mbind option_bind]. rewrite tab_lookup by lia. cbn [mbind option_bind].
  rewrite decide_True by (rewrite length_fmap, length_seq; lia).
  rewrite tab_insert by lia. do 2 f_equal.
  unfold cell. rewrite Hrow. cbn. rewrite Hv. reflexivity.
Qed.

(* the inner loop, for the columns [j0, j0 + m) of the source row [i] *)
Lemma rotate_row (sh : list (list bool)) (n i : nat) :
  square sh -> length sh = n -> (i < n)%nat ->
  forall (m j0 : nat) (f : nat -> nat -> bool), (j0 + m <= n)%nat ->
  forM (seq j0 m) (rotateCell sh n i) (tab n f) =
    Some (tab n (fun r c =>
            if decide ((j0 <= r < j0 + m)%nat /\ c = (n - 1 - i)%nat)
            then cell sh i r else f r c)).
Proof.
  intros Hsq Hn Hi. induction m as [|m IH]; intros j0 f Hm.
  - cbn. f_equal. apply tab_ext. intros r c _ _.
    rewrite decide_False by lia. reflexivity.
  - cbn [seq forM]. rewrite rotateCell_tab by (assumption || lia).
    cbn [mbind option_bind]. rewrite IH by lia. f_equal.
    apply tab_ext. intros r c Hr Hc.
    destruct (decide (r = j0 /\ c = (n - 1 - i)%nat)) as [[-> ->]|Hne].
    + rewrite decide_False by lia. rewrite decide_True by lia. reflexivity.
    + destruct (decide ((S j0 <= r < S j0 + m)%nat /\ c = (n - 1 - i)%nat)) as [Hin|Hout].
      * rewrite decide_True by lia. reflexivity.
      * rewrite decide_False by lia. reflexivity.
Qed.

(* the outer loop, for the source rows [i0, i0 + m) *)
Lemma rotate_rows (sh : list (list bool)) (n : nat) :
  square sh -> length sh = n ->
  forall (m i0 : nat) (f : nat -> nat -> bool), (i0 + m <= n)%nat ->
  forM (seq i0 m)
    (fun i rot => forM (seq 0 n) (rotateCell sh n i) rot) (tab n f) =
    Some (tab n (fun r c =>
            if decide (i0 <= n - 1 - c < i0 + m)%nat
            then cell sh (n - 1 - c) r else f r c)).
Proof.
  intros Hsq Hn. induction m as [|m IH]; intros i0 f Hm.
  - cbn. f_equal. apply tab_ext. intros r c _ _.
    rewrite decide_False by lia. reflexivity.
  - cbn [seq forM]. rewrite (rotate_row sh n i0 Hsq Hn) by lia.
    cbn [mbind option_bind]. rewrite IH by lia. f_equal.
    apply tab_ext. intros r c Hr Hc.
    destruct (decide (S i0 <= n - 1 - c < S i0 + m)%nat) as [Hin|Hout].
    + rewrite decide_True by lia. reflexivity.
    + destruct (decide ((0 <= r < 0 + n)%nat /\ c = (n - 1 - i0)%nat)) as [[_ ->]|Hne].
      * rewrite decide_True by lia. f_equal. lia.
      * rewrite decide_False by lia. reflexivity.
Qed.

Lemma fmap_const_seq {A} (x : A) (k a : nat) :
  (fun _ : nat => x) <$> seq a k = replicate k x.
Proof. revert a. induction k as [|k IH]; intros a; [reflexivity|]. cbn. f_equal. apply IH. Qed.

Lemma tab_false (n : nat) :
  replicate n (replicate n false) = tab n (fun _ _ => false).
Proof.
  unfold tab. rewrite <- (fmap_const_seq (replicate n false) n 0).
  apply list_fmap_ext. intros i r _. symmetry. apply fmap_const_seq.
Qed.

Lemma Piece_Rotate_turned (p : Piece) :
  square (Shape p) -> Piece_Rotate p = Some (setShape (turned (Shape p)) p).
Proof.
  intros Hsq. unfold Piece_Rotate. rewrite tab_false.
  rewrite (rotate_rows (Shape p) (length (Shape p)) Hsq eq_refl) by lia.
  cbn [mbind option_bind]. do 2 f_equal. unfold turned. apply tab_ext.
  intros r c Hr Hc. rewrite decide_True by lia. reflexivity.
Qed.

Lemma turned_length (sh : list (list bool)) : length (turned sh) = length sh.
Proof. apply tab_length. Qed.

Lemma turned_square (sh : list (list bool)) : square (turned sh).
Proof. apply tab_square. Qed.

Lemma turned_cell (sh : list (list bool)) (r c : nat) :
  (r < length sh)%nat -> (c < length sh)%nat ->
  cell (turned sh) r c = cell sh (length sh - 1 - c) r.
Proof. intros Hr Hc. unfold turned. rewrite tab_cell by assumption. reflexivity. Qed.

(* Four quarter turns of a square shape give the shape back. *)
Lemma turned_four (sh : list (list bool)) :
  square sh -> turned (turned (turned (turned sh))) = sh.
Proof.
  intros Hsq.
  transitivity (tab (length sh) (cell sh)); [|symmetry; apply square_tab; exact Hsq].
  unfold turned at 1. rewrite !turned_length. apply tab_ext. intros r c Hr Hc.
  rewrite !turned_cell by (rewrite ?turned_length; lia).
  rewrite !turned_length. f_equal; lia.
Qed.

(** X1. [Piece.Rotate] on an n x n shape returns (no index is out of range):
    the result is again n x n, its cell (r, c) is the cell (n-1-c, r) of the
    shape (a quarter turn clockwise), type, position and colour are
    unchanged, and four turns in a row give the piece back. *)
Theorem X1_rotate_quarter_turn (p : Piece) :
  square (Shape p) ->
  let n := length (Shape p) in
  exists p1 p2 p3,
    Piece_Rotate p = Some p1 /\ Piece_Rotate p1 = Some p2 /\
    Piece_Rotate p2 = Some p3 /\ Piece_Rotate p3 = Some p /\
    square (Shape p1) /\ length (Shape p1) = n /\
    (forall r c, (r < n)%nat -> (c < n)%nat ->
       cell (Shape p1) r c = cell (Shape p) (n - 1 - c) r) /\
    Typ p1 = Typ p /\ X p1 = X p /\ Y p1 = Y p /\ Color p1 = Color p.
Proof.
  intros Hsq n.
  set (s1 := turned (Shape p)). set (s2 := turned s1). set (s3 := turned s2).
  exists (setShape s1 p), (setShape s2 p), (setShape s3 p).
  split; [apply Piece_Rotate_turned; exact Hsq|].
  split; [rewrite Piece_Rotate_turned by apply turned_square; reflexivity|].
  split; [rewrite Piece_Rotate_turned by apply turned_square; reflexivity|].
  split.
  - rewrite Piece_Rotate_turned by apply turned_square. cbn [Shape setShape].
    unfold s3, s2, s1. rewrite turned_four by exact Hsq.
    destruct p; reflexivity.
  - cbn [Shape setShape Typ X Y Color].
    split; [apply turned_square|]. split; [apply turned_length|].
    split; [|auto]. intros r c Hr Hc. apply turned_cell; assumption.
Qed.

(** *** Drop speed *)

Lemma sorted_lookup {A} (Rel : A -> A -> Prop) (l : list A) (i j : nat) (a b : A) :
  StronglySorted Rel l -> (i < j)%nat -> l !! i = Some a -> l !! j = Some b ->
  Rel a b.
Proof.
  intros Hs. revert i j. induction Hs as [|x l Hs IH Hall]; intros i j Hij Ha Hb.
  - discriminate.
  - destruct j as [|j]; [lia|]. cbn in Hb. destruct i as [|i].
    + cbn in Ha. injection Ha as ->. rewrite Forall_forall in Hall.
      apply Hall. apply list_elem_of_lookup. eauto.
    + cbn in Ha. apply (IH i j); [lia|assumption|assumption].
Qed.

(* The table never goes up. *)
Lemma speeds_sorted : StronglySorted (fun a b => b <= a) speeds.
Proof.
  unfold speeds, Millisecond. cbn [fmap list_fmap].
  repeat (constructor; [|repeat constructor; lia]). constructor.
Qed.

Section Speed.
Context {R : Type} `{RandSource R}.

(* From level 1 on, the speed is the entry [min(level, 20) - 1] of the table. *)
Lemma GetDropSpeed_lookup (gs : GameState R) :
  1 <= Level gs ->
  GetDropSpeed gs = speeds !! Z.to_nat (Z.min (Level gs) 20 - 1).
Proof.
  intros Hl. unfold GetDropSpeed.
  change (GoInt.len speeds) with 20.
  destruct (20 <? Level gs) eqn:E.
  - rewrite Z.min_r by lia. reflexivity.
  - rewrite Z.min_l by lia. unfold GoInt.sub. rewrite wrap_id by lia.
    unfold GoInt.index. destruct (Level gs - 1 <? 0) eqn:E2; [lia|reflexivity].
Qed.

(** X2. [GetDropSpeed] at a level below 1 panics (index -1).  From level 1 on
    it returns an interval between 30 ms and 800 ms, 800 ms at level 1 and
    30 ms from level 20 on, and a higher level never gets a longer
    interval. *)
Theorem X2_drop_speed_bounded_monotone (gs : GameState R) :
  (GoInt.in_range (Level gs) -> Level gs <= 0 -> GetDropSpeed gs = None) /\
  (1 <= Level gs ->
   exists d, GetDropSpeed gs = Some d /\
     30 * Millisecond <= d <= 800 * Millisecond /\
     (Level gs = 1 -> d = 800 * Millisecond) /\
     (20 <= Level gs -> d = 30 * Millisecond) /\
     forall gs' : GameState R, Level gs <= Level gs' ->
       exists d', GetDropSpeed gs' = Some d' /\ d' <= d).
Proof.
  split.
  - intros [Hlo Hhi] Hl. unfold GetDropSpeed. change (GoInt.len speeds) with 20.
    destruct (20 <? Level gs) eqn:E; [lia|].
    unfold GoInt.index, GoInt.sub.
    destruct (Z.eq_dec (Level gs) (- 2 ^ 63)) as [->|Hne].
    + assert (GoInt.wrap (- 2 ^ 63 - 1) = 2 ^ 63 - 1) as -> by (vm_compute; reflexivity).
      destruct (2 ^ 63 - 1 <? 0); [reflexivity|].
      apply lookup_ge_None_2. change (length speeds) with 20%nat. lia.
    + rewrite wrap_id by lia. destruct (Level gs - 1 <? 0) eqn:E2; [reflexivity|lia].
  - intros Hl.
    assert (forall g : GameState R, 1 <= Level g ->
              exists d, GetDropSpeed g = Some d /\
                speeds !! Z.to_nat (Z.min (Level g) 20 - 1) = Some d) as Hget.
    { intros g Hg. rewrite GetDropSpeed_lookup by exact Hg.
      destruct (lookup_lt_is_Some_2 speeds (Z.to_nat (Z.min (Level g) 20 - 1)))
        as [d Hd]; [cbn; lia|]. eauto. }
    destruct (Hget gs Hl) as (d & Hd & Hlk). exists d. split; [exact Hd|].
    assert (speeds !! 0%nat = Some (800 * Millisecond)) as H0 by reflexivity.
    assert (speeds !! 19%nat = Some (30 * Millisecond)) as H19 by reflexivity.
    pose proof speeds_sorted as Hs.
    assert (forall (i j : nat) a b, (i <= j)%nat -> speeds !! i = Some a ->
              speeds !! j = Some b -> b <= a) as Hmono.
    { intros i j a b Hij Ha Hb. destruct (decide (i = j)) as [->|Hne].
      - rewrite Ha in Hb. injection Hb as ->. lia.
      - apply (sorted_lookup _ speeds i j a b Hs); [lia|assumption|assumption]. }
    split; [split|split; [|split]].
    + eapply Hmono; [|exact Hlk|exact H19]. lia.
    + eapply Hmono; [|exact H0|exact Hlk]. lia.
    + intros E. rewrite E in Hlk. change (speeds !! 0%nat = Some d) in Hlk.
      rewrite H0 in Hlk. congruence.
    + intros E. rewrite Z.min_r in Hlk by lia.
      change (speeds !! 19%nat = Some d) in Hlk. rewrite H19 in Hlk. congruence.
    + intros gs' Hle. destruct (Hget gs' ltac:(lia)) as (d' & Hd' & Hlk').
      exists d'. split; [exact Hd'|].
      eapply Hmono; [|exact Hlk|exact Hlk']. lia.
Qed.

End Speed.

(** *** Moves *)

Lemma wrap_add_l (a b : Z) : GoInt.wrap (GoInt.wrap a + b) = GoInt.wrap (a + b).
Proof. rewrite (Z.add_comm (GoInt.wrap a)), add_wrap_r. f_equal. lia. Qed.

Lemma wrap_wrap (a : Z) : GoInt.wrap (GoInt.wrap a) = GoInt.wrap a.
Proof. apply wrap_id, wrap_range. Qed.

(* Looking one step aside from a place is looking at the place one step
   aside. *)
Lemma add_offset (v d k : Z) :
  GoInt.add (GoInt.add (GoInt.add v d) k) 0 = GoInt.add (GoInt.add v k) d.
Proof.
  unfold GoInt.add. rewrite Z.add_0_r, wrap_wrap, !wrap_add_l. f_equal. lia.
Qed.

Lemma validRow_same (b : Board) (p p' : Piece) (ox oy ox' oy' y : Z)
    (row : list bool) :
  (forall k, GoInt.add (GoInt.add (X p) k) ox = GoInt.add (GoInt.add (X p') k) ox') ->
  (forall k, GoInt.add (GoInt.add (Y p) k) oy = GoInt.add (GoInt.add (Y p') k) oy') ->
  forall x, validRow b p ox oy y row x = validRow b p' ox' oy' y row x.
Proof.
  intros HX HY. induction row as [|c row IH]; intros x; [reflexivity|].
  cbn [validRow]. rewrite HX, HY, !IH. reflexivity.
Qed.

Lemma valid_same (b : Board) (p p' : Piece) (ox oy ox' oy' : Z) :
  Shape p' = Shape p ->
  (forall k, GoInt.add (GoInt.add (X p) k) ox = GoInt.add (GoInt.add (X p') k) ox') ->
  (forall k, GoInt.add (GoInt.add (Y p) k) oy = GoInt.add (GoInt.add (Y p') k) oy') ->
  Board_IsValidPosition b p ox oy = Board_IsValidPosition b p' ox' oy'.
Proof.
  intros Hs HX HY. unfold Board_IsValidPosition. rewrite Hs. clear Hs.
  generalize 0. generalize (Shape p). intros sh.
  induction sh as [|row rows IH]; intros y; [reflexivity|].
  cbn [validRows]. rewrite (validRow_same b p p' ox oy ox' oy' y row HX HY).
  destruct (validRow b p' ox' oy' y row 0) as [[|]|]; cbn [mbind option_bind];
    [apply IH|reflexivity|reflexivity].
Qed.

(* A place found valid [dx] columns aside is valid for the piece moved there. *)
Lemma valid_moveX (b : Board) (p : Piece) (dx : Z) :
  Board_IsValidPosition b (moveX dx p) 0 0 = Board_IsValidPosition b p dx 0.
Proof.
  symmetry. apply valid_same; [reflexivity| |reflexivity].
  intros k. cbn. symmetry. apply add_offset.
Qed.

Lemma valid_moveY (b : Board) (p : Piece) (dy : Z) :
  Board_IsValidPosition b (moveY dy p) 0 0 = Board_IsValidPosition b p 0 dy.
Proof.
  symmetry. apply valid_same; [reflexivity|reflexivity|].
  intros k. cbn. symmetry. apply add_offset.
Qed.

Section Moves.
Context {R : Type} `{RandSource R}.

Lemma setCurrentPiece_id (gs : GameState R) :
  setCurrentPiece (CurrentPiece gs) gs = gs.
Proof. destruct gs; reflexivity. Qed.

Lemma tryMove_moved (dx dy : Z) (move : Piece -> Piece) (gs : GameState R) :
  board_ok (GBoard gs) ->
  (forall p, Board_IsValidPosition (GBoard gs) (move p) 0 0
             = Board_IsValidPosition (GBoard gs) p dx dy) ->
  (forall p, Shape (move p) = Shape p /\ Typ (move p) = Typ p /\
             Color (move p) = Color p) ->
  Board_IsValidPosition (GBoard gs) (CurrentPiece gs) 0 0 = Some true ->
  square (Shape (CurrentPiece gs)) ->
  exists ok gs', tryMove dx dy move gs = Some (ok, gs') /\ moved gs gs' /\
    (ok = false -> gs' = gs).
Proof.
  intros Hok Hmove Hkeep Hv Hsq. unfold tryMove.
  destruct (Board_IsValidPosition_Some (GBoard gs) (CurrentPiece gs) dx dy Hok)
    as [ok Hvalid].
  rewrite Hvalid. cbn [mbind option_bind]. destruct ok.
  - eexists true, _. split; [reflexivity|]. split; [|discriminate].
    destruct (Hkeep (CurrentPiece gs)) as (Hs & Ht & Hc).
    unfold moved. cbn [GBoard CurrentPiece setCurrentPiece].
    rewrite Hmove, Hs. auto 10.
  - exists false, gs. split; [reflexivity|]. split; [|reflexivity].
    unfold moved. rewrite setCurrentPiece_id. auto 10.
Qed.

Lemma moveX_keeps (dx : Z) (p : Piece) :
  Shape (moveX dx p) = Shape p /\ Typ (moveX dx p) = Typ p /\
  Color (moveX dx p) = Color p.
Proof. auto. Qed.

Lemma moveY_keeps (dy : Z) (p : Piece) :
  Shape (moveY dy p) = Shape p /\ Typ (moveY dy p) = Typ p /\
  Color (moveY dy p) = Color p.
Proof. auto. Qed.

Lemma Rotate_moved (gs : GameState R) :
  board_ok (GBoard gs) ->
  Board_IsValidPosition (GBoard gs) (CurrentPiece gs) 0 0 = Some true ->
  square (Shape (CurrentPiece gs)) ->
  exists ok gs', Rotate gs = Some (ok, gs') /\ moved gs gs' /\
    (ok = false -> gs' = gs).
Proof.
  intros Hok Hv Hsq. unfold Rotate.
  rewrite (Piece_Rotate_turned _ Hsq). cbn [mbind option_bind].
  set (p := setShape (turned (Shape (CurrentPiece gs))) (CurrentPiece gs)).
  assert (forall q, Shape q = Shape p -> Typ q = Typ p -> Color q = Color p ->
            Board_IsValidPosition (GBoard gs) q 0 0 = Some true ->
            moved gs (setCurrentPiece q gs)) as Hmoved.
  { intros q Hs Ht Hc Hq. unfold moved. cbn [GBoard CurrentPiece setCurrentPiece].
    rewrite Hs. unfold p. cbn [Shape setShape Typ Color] in *.
    split; [exact Hq|]. split; [apply turned_square|].
    split; [apply turned_length|]. auto. }
  destruct (Board_IsValidPosition_Some (GBoard gs) p 0 0 Hok) as [v0 E0].
  rewrite E0. cbn [mbind option_bind]. destruct v0.
  { eexists true, _. split; [reflexivity|]. split; [|discriminate].
    apply Hmoved; auto. }
  destruct (Board_IsValidPosition_Some (GBoard gs) p (-1) 0 Hok) as [v1 E1].
  rewrite E1. cbn [mbind option_bind]. destruct v1.
  { eexists true, _. split; [reflexivity|]. split; [|discriminate].
    apply Hmoved; auto. rewrite valid_moveX. exact E1. }
  destruct (Board_IsValidPosition_Some (GBoard gs) p 1 0 Hok) as [v2 E2].
  rewrite E2. cbn [mbind option_bind]. destruct v2.
  { eexists true, _. split; [reflexivity|]. split; [|discriminate].
    apply Hmoved; auto. rewrite valid_moveX. exact E2. }
  destruct (Board_IsValidPosition_Some (GBoard gs) p (-2) 0 Hok) as [v3 E3].
  rewrite E3. cbn [mbind option_bind]. destruct v3.
  { eexists true, _. split; [reflexivity|]. split; [|discriminate].
    apply Hmoved; auto. rewrite valid_moveX. exact E3. }
  destruct (Board_IsValidPosition_Some (GBoard gs) p 2 0 Hok) as [v4 E4].
  rewrite E4. cbn [mbind option_bind]. destruct v4.
  { eexists true, _. split; [reflexivity|]. split; [|discriminate].
    apply Hmoved; auto. rewrite valid_moveX. exact E4. }
  assert (setCurrentPiece (setShape (Shape (CurrentPiece gs)) p) gs = gs) as Eback.
  { unfold p. destruct gs as [b [t sh x y c] nx hd ch sc lv ln gq go wi pi pn ap pg].
    reflexivity. }
  exists false, gs. rewrite Eback. split; [reflexivity|]. split; [|reflexivity].
  unfold moved. rewrite setCurrentPiece_id. auto 10.
Qed.

Lemma moveStep_moved (op : MoveOp) (gs : GameState R) :
  board_ok (GBoard gs) ->
  Board_IsValidPosition (GBoard gs) (CurrentPiece gs) 0 0 = Some true ->
  square (Shape (CurrentPiece gs)) ->
  exists ok gs', moveStep op gs = Some (ok, gs') /\ moved gs gs' /\
    (ok = false -> gs' = gs).
Proof.
  intros Hok Hv Hsq. destruct op; cbn [moveStep].
  - apply tryMove_moved; auto using moveX_keeps. intros p. apply valid_moveX.
  - apply tryMove_moved; auto using moveX_keeps. intros p. apply valid_moveX.
  - apply tryMove_moved; auto using moveY_keeps. intros p. apply valid_moveY.
  - apply Rotate_moved; assumption.
Qed.

(** X3. Starting with the current piece, of square shape, in a valid place of
    a well-formed board, every sequence of left, right and down moves and
    rotations returns; the piece is still in a valid place, of the same type,
    colour and size, and nothing but the piece has changed (board, score,
    lines, level, queue, next and held piece are as they were).  A move or
    rotation that reports failure changes nothing at all. *)
Theorem X3_moves_keep_piece_valid (gs : GameState R) (ops : list MoveOp) :
  board_ok (GBoard gs) ->
  Board_IsValidPosition (GBoard gs) (CurrentPiece gs) 0 0 = Some true ->
  square (Shape (CurrentPiece gs)) ->
  (exists gs', runMoves ops gs = Some gs' /\
     Board_IsValidPosition (GBoard gs') (CurrentPiece gs') 0 0 = Some true /\
     square (Shape (CurrentPiece gs')) /\
     length (Shape (CurrentPiece gs')) = length (Shape (CurrentPiece gs)) /\
     Typ (CurrentPiece gs') = Typ (CurrentPiece gs) /\
     Color (CurrentPiece gs') = Color (CurrentPiece gs) /\
     gs' = setCurrentPiece (CurrentPiece gs') gs) /\
  (forall op, exists ok gs1, moveStep op gs = Some (ok, gs1) /\
     (ok = false -> gs1 = gs)).
Proof.
  intros Hok Hv Hsq. split.
  - revert gs Hok Hv Hsq. induction ops as [|op ops IH]; intros gs Hok Hv Hsq.
    + exists gs. cbn. rewrite setCurrentPiece_id. auto 10.
    + destruct (moveStep_moved op gs Hok Hv Hsq)
        as (ok & gs1 & Hstep & (Hv1 & Hsq1 & Hl1 & Ht1 & Hc1 & Hgs1) & _).
      cbn [runMoves]. rewrite Hstep. cbn [mbind option_bind].
      assert (GBoard gs1 = GBoard gs) as Hb by (rewrite Hgs1; reflexivity).
      destruct (IH gs1) as (gs' & Hrun & Hv' & Hsq' & Hl' & Ht' & Hc' & Hgs');
        [rewrite Hb; exact Hok | exact Hv1 | exact Hsq1 |].
      exists gs'. split; [exact Hrun|]. split; [exact Hv'|]. split; [exact Hsq'|].
      split; [congruence|]. split; [congruence|]. split; [congruence|].
      rewrite Hgs' at 1. rewrite Hgs1. reflexivity.
  - intros op.
    destruct (moveStep_moved op gs Hok Hv Hsq) as (ok & gs1 & Hstep & _ & Hfail).
    eauto.
Qed.

End Moves.

(** *** Hold *)

Lemma NewPiece_row0 (t : PieceType) :
  exists row0, Shape (NewPiece t) !! O = Some row0 /\
    setXY (GoInt.sub (GoInt.div BoardWidth 2) (GoInt.div (GoInt.len row0) 2)) 0
      (NewPiece t) = NewPiece t.
Proof. destruct t; eexists; split; reflexivity. Qed.

Lemma NewPiece_square (t : PieceType) : square (Shape (NewPiece t)).
Proof. destruct t; repeat constructor. Qed.

Section HoldFacts.
Context {R : Type} `{RandSource R}.

Lemma LockPiece_CanHold (gs gs' : GameState R) (g g' : R) (n : Z) :
  LockPiece gs g = Some (n, gs', g') -> CanHold gs' = true.
Proof.
  unfold LockPiece. intros HL.
  destruct (Board_LockPiece _ _) as [b1|]; [|discriminate]. cbn in HL.
  destruct (Board_ClearLines b1) as [[b2 k]|]; [|discriminate]. cbn in HL.
  destruct (nextPiece gs g) as [[[np gen] g1]|]; [|discriminate]. cbn in HL.
  destruct (applyQueuedGarbage _ _ _) as [[[b3 q] g2]|]; [|discriminate]. cbn in HL.
  destruct (Board_IsGameOver _ _) as [over|]; [|discriminate]. cbn in HL.
  injection HL as _ <- _. reflexivity.
Qed.

(** X4. [Hold] never panics.  With the hold spent it returns false and
    changes nothing.  Otherwise it returns true and spends the hold, so a
    second [Hold] before the next lock returns false and changes nothing;
    the held piece becomes a fresh piece of the current type; with a piece
    already held that piece comes back, fresh, at its spawn place, and the
    next piece and the generator are untouched; with none held the next
    piece becomes current and one piece is drawn.  Board, score, level, lines
    and queue are unchanged.  Every lock gives the hold back. *)
Theorem X4_hold_once_between_locks (gs : GameState R) (g : R) :
  exists ok gs1 g1,
    Hold gs g = Some (ok, gs1, g1) /\ ok = CanHold gs /\
    (ok = false -> gs1 = gs /\ g1 = g) /\
    (ok = true ->
       CanHold gs1 = false /\ Hold gs1 g1 = Some (false, gs1, g1) /\
       HoldPiece gs1 = Some (NewPiece (Typ (CurrentPiece gs))) /\
       GBoard gs1 = GBoard gs /\ Score gs1 = Score gs /\ Level gs1 = Level gs /\
       Lines gs1 = Lines gs /\ GarbageQueue gs1 = GarbageQueue gs /\
       (forall held, HoldPiece gs = Some held ->
          CurrentPiece gs1 = NewPiece (Typ held) /\
          NextPiece gs1 = NextPiece gs /\ PieceGen gs1 = PieceGen gs /\ g1 = g) /\
       (HoldPiece gs = None ->
          CurrentPiece gs1 = NextPiece gs /\
          nextPiece gs g = Some (NextPiece gs1, PieceGen gs1, g1))) /\
    (forall n gs2 g2, LockPiece gs1 g1 = Some (n, gs2, g2) -> CanHold gs2 = true).
Proof.
  assert (forall (s : GameState R) (r : R), CanHold s = false ->
            Hold s r = Some (false, s, r)) as Hspent.
  { intros s r E. unfold Hold. rewrite E. reflexivity. }
  unfold Hold at 1. destruct (CanHold gs) eqn:Ech; cbn [negb].
  - destruct (HoldPiece gs) as [held|] eqn:Eh.
    + destruct (NewPiece_row0 (Typ held)) as (row0 & Hrow & Hsame).
      rewrite Hrow. cbn [mbind option_bind]. rewrite Hsame.
      eexists true, _, g. split; [reflexivity|]. split; [reflexivity|].
      split; [discriminate|]. split.
      * intros _. cbn [CanHold HoldPiece GBoard Score Level Lines GarbageQueue
                       CurrentPiece NextPiece PieceGen].
        split; [reflexivity|]. split; [apply Hspent; reflexivity|].
        split; [reflexivity|]. repeat (split; [reflexivity|]).
        split; [|discriminate]. intros h [= <-]. auto.
      * intros n gs2 g2. apply LockPiece_CanHold.
    + destruct (GameStateFacts.nextPiece_Some gs g) as [[[np gen] g1] Hn].
      rewrite Hn. cbn [mbind option_bind].
      eexists true, _, g1. split; [reflexivity|]. split; [reflexivity|].
      split; [discriminate|]. split.
      * intros _. cbn [CanHold HoldPiece GBoard Score Level Lines GarbageQueue
                       CurrentPiece NextPiece PieceGen].
        split; [reflexivity|]. split; [apply Hspent; reflexivity|].
        split; [reflexivity|]. repeat (split; [reflexivity|]).
        split; [discriminate|]. intros _. auto.
      * intros n gs2 g2. apply LockPiece_CanHold.
  - exists false, gs, g. split; [reflexivity|]. split; [reflexivity|].
    split; [auto|]. split; [discriminate|].
    intros n gs2 g2. apply LockPiece_CanHold.
Qed.

End HoldFacts.

(** *** The piece order of a seeded game *)

Lemma Typ_NewPiece (t : PieceType) : Typ (NewPiece t) = t.
Proof. destruct t; reflexivity. Qed.

Section Seeded.
Context {R : Type} `{RandSource R}.

Lemma Next_NewPiece (pg pg' : PieceGenerator R) (p : Piece) :
  Next pg = Some (p, pg') -> p = NewPiece (Typ p).
Proof.
  unfold Next. destruct (ensureBag pg) as [pg1|]; [|discriminate].
  cbn [mbind option_bind]. destruct (bag pg1) as [|t rest]; [discriminate|].
  intros [= <- _]. rewrite Typ_NewPiece. reflexivity.
Qed.

Lemma runGen_length (n : nat) (pg0 pg : PieceGenerator R) (ts : list PieceType) :
  runGen (replicate n OpNext) pg0 = Some (ts, pg) -> length ts = n.
Proof.
  intros Hr. destruct (GeneratorFacts.firstTypes_length n pg0) as (ts' & Hf & Hl).
  unfold firstTypes, nextTypes in Hf. rewrite Hr in Hf. cbn in Hf. congruence.
Qed.

Lemma runGen_snoc (n : nat) (pg0 pg pg' : PieceGenerator R)
    (ts : list PieceType) (p : Piece) :
  runGen (replicate n OpNext) pg0 = Some (ts, pg) ->
  Next pg = Some (p, pg') ->
  runGen (replicate (n + 1) OpNext) pg0 = Some (ts ++ [Typ p], pg').
Proof.
  intros Hr Hn. rewrite replicate_add, GeneratorFacts.runGen_app, Hr.
  cbn [mbind option_bind replicate runGen]. rewrite Hn. reflexivity.
Qed.

Lemma seeded_start (playerID playerName : string) (s : Z) :
  exists gs0, NewSeededGameState playerID playerName s = Some gs0 /\
    seeded s 0 false gs0.
Proof.
  unfold NewSeededGameState.
  destruct (GeneratorFacts.Next_Some (NewPieceGenerator s)) as [[cur gen1] H1].
  destruct (GeneratorFacts.Next_Some gen1) as [[nxt gen2] H2].
  rewrite H1. cbn [mbind option_bind]. rewrite H2. cbn [mbind option_bind].
  eexists. split; [reflexivity|].
  unfold seeded. cbn [GBoard CurrentPiece NextPiece PieceGen HoldPiece CanHold].
  split; [apply Witnesses.NewBoard_ok|].
  split; [rewrite (Next_NewPiece _ _ _ H1); apply NewPiece_square|].
  exists [Typ cur; Typ nxt], gen2, (Typ nxt).
  split; [cbn [Nat.add replicate runGen]; rewrite H1; cbn [mbind option_bind];
          rewrite H2; reflexivity|].
  split; [reflexivity|]. split; [reflexivity|].
  split; [exact (Next_NewPiece _ _ _ H2)|]. auto.
Qed.

Lemma seeded_setCurrentPiece (s : Z) (d : nat) (held : bool)
    (gs : GameState R) (p : Piece) :
  seeded s d held gs -> Typ p = Typ (CurrentPiece gs) -> square (Shape p) ->
  seeded s d held (setCurrentPiece p gs).
Proof.
  intros (Hb & Hsq & ts & pg & t & Hr & Hg & Ht & Hn & Hh) Htyp Hsq'.
  unfold seeded. cbn [setCurrentPiece GBoard CurrentPiece NextPiece PieceGen
                      HoldPiece CanHold].
  split; [exact Hb|]. split; [exact Hsq'|]. exists ts, pg, t.
  repeat (split; [assumption|]). destruct held; [exact Hh|].
  rewrite Htyp. exact Hh.
Qed.

Lemma seeded_ReceiveGarbage (s : Z) (d : nat) (held : bool)
    (gs : GameState R) (lines : Z) :
  seeded s d held gs -> seeded s d held (ReceiveGarbage gs lines).
Proof. intros Hs. exact Hs. Qed.

Lemma tryMove_frame (dx dy : Z) (move : Piece -> Piece) (gs : GameState R) :
  board_ok (GBoard gs) ->
  (forall p, Shape (move p) = Shape p /\ Typ (move p) = Typ p /\
             Color (move p) = Color p) ->
  square (Shape (CurrentPiece gs)) ->
  exists ok p', tryMove dx dy move gs = Some (ok, setCurrentPiece p' gs) /\
    Typ p' = Typ (CurrentPiece gs) /\ square (Shape p').
Proof.
  intros Hok Hkeep Hsq. unfold tryMove.
  destruct (Board_IsValidPosition_Some (GBoard gs) (CurrentPiece gs) dx dy Hok)
    as [ok ->].
  cbn [mbind option_bind]. destruct (Hkeep (CurrentPiece gs)) as (Hs & Ht & _).
  destruct ok.
  - exists true, (move (CurrentPiece gs)). rewrite Hs. auto.
  - exists false, (CurrentPiece gs). rewrite setCurrentPiece_id. auto.
Qed.

Lemma Rotate_frame (gs : GameState R) :
  board_ok (GBoard gs) -> square (Shape (CurrentPiece gs)) ->
  exists ok p', Rotate gs = Some (ok, setCurrentPiece p' gs) /\
    Typ p' = Typ (CurrentPiece gs) /\ square (Shape p').
Proof.
  intros Hok Hsq. unfold Rotate.
  rewrite (Piece_Rotate_turned _ Hsq). cbn [mbind option_bind].
  set (p := setShape (turned (Shape (CurrentPiece gs))) (CurrentPiece gs)).
  assert (square (Shape p)) as Hp by apply turned_square.
  destruct (Board_IsValidPosition_Some (GBoard gs) p 0 0 Hok) as [v0 ->].
  cbn [mbind option_bind]. destruct v0; [exists true, p; auto|].
  destruct (Board_IsValidPosition_Some (GBoard gs) p (-1) 0 Hok) as [v1 ->].
  cbn [mbind option_bind]. destruct v1; [exists true, (moveX (-1) p); auto|].
  destruct (Board_IsValidPosition_Some (GBoard gs) p 1 0 Hok) as [v2 ->].
  cbn [mbind option_bind]. destruct v2; [exists true, (moveX 1 p); auto|].
  destruct (Board_IsValidPosition_Some (GBoard gs) p (-2) 0 Hok) as [v3 ->].
  cbn [mbind option_bind]. destruct v3; [exists true, (moveX (-2) p); auto|].
  destruct (Board_IsValidPosition_Some (GBoard gs) p 2 0 Hok) as [v4 ->].
  cbn [mbind option_bind]. destruct v4; [exists true, (moveX 2 p); auto|].
  exists false, (setShape (Shape (CurrentPiece gs)) p). auto.
Qed.

Lemma moveStep_frame (op : MoveOp) (gs : GameState R) :
  board_ok (GBoard gs) -> square (Shape (CurrentPiece gs)) ->
  exists ok p', moveStep op gs = Some (ok, setCurrentPiece p' gs) /\
    Typ p' = Typ (CurrentPiece gs) /\ square (Shape p').
Proof.
  intros Hok Hsq. destruct op; cbn [moveStep].
  - apply tryMove_frame; auto using moveX_keeps.
  - apply tryMove_frame; auto using moveX_keeps.
  - apply tryMove_frame; auto using moveY_keeps.
  - apply Rotate_frame; assumption.
Qed.

Lemma seeded_LockPiece (s : Z) (d : nat) (held : bool) (gs : GameState R) (g : R) :
  seeded s d held gs ->
  exists n gs' g', LockPiece gs g = Some (n, gs', g') /\
    seeded s (S d) held gs'.
Proof.
  intros (Hb & Hsq & ts & pg & t & Hr & Hg & Ht & Hn & Hh).
  destruct (GameStateFacts.LockPiece_steps gs g Hb)
    as (b1 & b2 & n & next & gen & g1 & b3 & queue & g2 & over &
        _ & _ & _ & _ & Hnext & _ & Hb3 & _ & HL).
  rewrite HL. eexists _, _, _. split; [reflexivity|].
  unfold nextPiece in Hnext. rewrite Hg in Hnext.
  destruct (Next pg) as [[p pg']|] eqn:HN; [|discriminate].
  cbn [mbind option_bind] in Hnext. injection Hnext as <- <- <-.
  pose proof (runGen_length _ _ _ _ Hr) as Hlen.
  unfold seeded. cbn [GBoard CurrentPiece NextPiece PieceGen HoldPiece CanHold].
  split; [exact Hb3|]. split; [rewrite Hn; apply NewPiece_square|].
  exists (ts ++ [Typ p]), pg', (Typ p).
  split; [replace (S d + 2)%nat with (d + 2 + 1)%nat by lia;
          exact (runGen_snoc _ _ _ _ _ _ Hr HN)|].
  split; [reflexivity|].
  split; [rewrite lookup_app_r by lia;
          replace (S d + 1 - length ts)%nat with O by lia; reflexivity|].
  split; [exact (Next_NewPiece _ _ _ HN)|].
  destruct held; [exact Hh|]. destruct Hh as (Hh & _ & _).
  split; [exact Hh|]. split; [reflexivity|].
  rewrite lookup_app_l by lia. rewrite Hn, Typ_NewPiece.
  replace (S d) with (d + 1)%nat by lia. exact Ht.
Qed.

Lemma seeded_Hold (s : Z) (d : nat) (held : bool) (gs : GameState R) (g : R) :
  seeded s d held gs ->
  exists ok gs' g', Hold gs g = Some (ok, gs', g') /\
    seeded s (if held then d else S d) true gs'.
Proof.
  intros (Hb & Hsq & ts & pg & t & Hr & Hg & Ht & Hn & Hh).
  unfold Hold. destruct held.
  - destruct (CanHold gs); cbn [negb].
    + destruct (HoldPiece gs) as [h|] eqn:Eh; [|congruence].
      destruct (NewPiece_row0 (Typ h)) as (row0 & Hrow & Hsame).
      rewrite Hrow. cbn [mbind option_bind]. rewrite Hsame.
      eexists _, _, _. split; [reflexivity|].
      unfold seeded. cbn [GBoard CurrentPiece NextPiece PieceGen HoldPiece].
      split; [exact Hb|]. split; [apply NewPiece_square|].
      exists ts, pg, t. repeat (split; [assumption|]). discriminate.
    + eexists _, _, _. split; [reflexivity|].
      unfold seeded. split; [exact Hb|]. split; [exact Hsq|].
      exists ts, pg, t. auto.
  - destruct Hh as (Hnone & -> & _). cbn [negb]. rewrite Hnone.
    unfold nextPiece. rewrite Hg.
    destruct (GeneratorFacts.Next_Some pg) as [[p pg'] HN]. rewrite HN.
    cbn [mbind option_bind]. eexists _, _, _. split; [reflexivity|].
    pose proof (runGen_length _ _ _ _ Hr) as Hlen.
    unfold seeded. cbn [GBoard CurrentPiece NextPiece PieceGen HoldPiece].
    split; [exact Hb|]. split; [rewrite Hn; apply NewPiece_square|].
    exists (ts ++ [Typ p]), pg', (Typ p).
    split; [replace (S d + 2)%nat with (d + 2 + 1)%nat by lia;
            exact (runGen_snoc _ _ _ _ _ _ Hr HN)|].
    split; [reflexivity|].
    split; [rewrite lookup_app_r by lia;
            replace (S d + 1 - length ts)%nat with O by lia; reflexivity|].
    split; [exact (Next_NewPiece _ _ _ HN)|]. discriminate.
Qed.

Lemma seeded_runPlay (s : Z) (ops : list PlayOp) :
  forall (d : nat) (held : bool) (gs : GameState R) (g : R),
  seeded s d held gs ->
  exists gs' g', runPlay ops gs g = Some (gs', g') /\
    seeded s (d + countDraws held ops) (held || hasHold ops) gs'.
Proof.
  induction ops as [|op ops IH]; intros d held gs g Hs.
  - exists gs, g. split; [reflexivity|]. cbn [countDraws hasHold existsb].
    rewrite Nat.add_0_r, orb_false_r. exact Hs.
  - destruct op as [| |lines|m]; cbn [runPlay countDraws];
      unfold hasHold; cbn [existsb]; fold (hasHold ops).
    + destruct (seeded_LockPiece s d held gs g Hs) as (n & gs1 & g1 & -> & Hs1).
      cbn [mbind option_bind]. destruct (IH _ _ gs1 g1 Hs1) as (gs' & g' & Hrun & Hs').
      exists gs', g'. split; [exact Hrun|].
      replace (d + S (countDraws held ops))%nat
        with (S d + countDraws held ops)%nat by lia.
      exact Hs'.
    + destruct (seeded_Hold s d held gs g Hs) as (ok & gs1 & g1 & -> & Hs1).
      cbn [mbind option_bind]. destruct (IH _ _ gs1 g1 Hs1) as (gs' & g' & Hrun & Hs').
      exists gs', g'. split; [exact Hrun|]. rewrite orb_true_r.
      destruct held; cbn [orb] in *; [exact Hs'|].
      replace (d + S (countDraws true ops))%nat
        with (S d + countDraws true ops)%nat by lia.
      exact Hs'.
    + apply IH. apply seeded_ReceiveGarbage. exact Hs.
    + pose proof Hs as (Hb & Hsq & _).
      destruct (moveStep_frame m gs (proj1 Hb) Hsq) as (ok & p' & -> & Ht & Hsq').
      cbn [mbind option_bind]. apply IH.
      apply seeded_setCurrentPiece; assumption.
Qed.

(** X5. A game begun with [NewSeededGameState] and a seed never panics,
    whatever sequence of locks, holds, garbage receipts, moves and turns is
    played, and its pieces are the seed's: with [d] the number of pieces
    drawn (one per lock, one for the first hold), the next piece is piece
    [d + 2] of the sequence the seed's generator produces, and as long as no
    hold was made the current piece is piece [d + 1].  Neither the global
    random source nor the garbage received nor the moves change the order. *)
Theorem X5_seeded_game_follows_the_seed
    (playerID playerName : string) (s : Z) (ops : list PlayOp) (g : R) :
  exists gs0 gs' g' ts,
    NewSeededGameState playerID playerName s = Some gs0 /\
    runPlay ops gs0 g = Some (gs', g') /\
    firstTypes (countDraws false ops + 2) (NewPieceGenerator s) = Some ts /\
    ts !! (countDraws false ops + 1)%nat = Some (Typ (NextPiece gs')) /\
    (hasHold ops = false ->
     ts !! countDraws false ops = Some (Typ (CurrentPiece gs'))).
Proof.
  destruct (seeded_start playerID playerName s) as (gs0 & H0 & Hs0).
  destruct (seeded_runPlay s ops 0 false gs0 g Hs0) as (gs' & g' & Hrun & Hs').
  cbn [orb Nat.add] in Hs'.
  destruct Hs' as (_ & _ & ts & pg & t & Hr & _ & Ht & Hn & Hh).
  exists gs0, gs', g', ts. split; [exact H0|]. split; [exact Hrun|].
  split; [unfold firstTypes, nextTypes; rewrite Hr; reflexivity|].
  split; [rewrite Hn, Typ_NewPiece; exact Ht|].
  intros Hno. rewrite Hno in Hh. apply Hh.
Qed.

End Seeded.

(** *** Line clears *)

Lemma rowFull_spec (b : Board) (y : nat) (row : list Cell) :
  Cells b !! y = Some row ->
  forall (todo x : nat), (todo + x = length row)%nat ->
  rowFull b y todo x = Some (fullRow (drop x row)).
Proof.
  intros Hrow. induction todo as [|todo IH]; intros x Hx; cbn [rowFull].
  - rewrite drop_ge by lia. reflexivity.
  - rewrite Hrow. cbn [mbind option_bind].
    destruct (lookup_lt_is_Some_2 row x) as [c Hc]; [lia|].
    rewrite Hc. cbn [mbind option_bind].
    rewrite (drop_S _ _ _ Hc). unfold fullRow. cbn [forallb].
    destruct (Filled c); cbn [andb]; [|reflexivity].
    apply IH. lia.
Qed.

Lemma clearRows_spec (b : Board) :
  board_ok b ->
  forall (n : nat) (newCells : list (list Cell)) (k : Z),
  (n <= length (Cells b))%nat ->
  clearRows b n newCells k =
    Some (List.filter (fun row => negb (fullRow row)) (take n (Cells b)) ++ newCells,
          k + Z.of_nat (length (List.filter fullRow (take n (Cells b))))).
Proof.
  intros Hok. induction n as [|y IH]; intros newCells k Hn; cbn [clearRows].
  - rewrite take_0. cbn [List.filter length app]. rewrite Z.add_0_r. reflexivity.
  - destruct (lookup_lt_is_Some_2 (Cells b) y) as [row Hrow]; [lia|].
    pose proof (board_ok_row b y row Hok Hrow) as Hl.
    rewrite (rowFull_spec b y row Hrow) by lia.
    cbn [mbind option_bind]. rewrite drop_0.
    rewrite (take_S_r _ _ _ Hrow), !List.filter_app. cbn [List.filter].
    destruct (fullRow row) eqn:Ef; cbn [negb].
    + rewrite IH by lia. rewrite !app_nil_r, length_app. cbn [length].
      f_equal. f_equal. lia.
    + rewrite Hrow. cbn [mbind option_bind]. rewrite IH by lia.
      rewrite app_nil_r, <- app_assoc. reflexivity.
Qed.

Lemma filter_split_length {A} (f : A -> bool) (l : list A) :
  (length (List.filter f l) + length (List.filter (fun x => negb (f x)) l)
   = length l)%nat.
Proof.
  induction l as [|x l IH]; [reflexivity|]. cbn [List.filter].
  destruct (f x); cbn [negb length]; lia.
Qed.

(* What [ClearLines] returns and leaves. *)
Lemma Board_ClearLines_spec (b : Board) :
  board_ok b ->
  exists b',
    let n := length (List.filter fullRow (Cells b)) in
    Board_ClearLines b = Some (b', Z.of_nat n) /\
    Cells b' = replicate n (emptyRow (Width b))
               ++ List.filter (fun row => negb (fullRow row)) (Cells b) /\
    Width b' = Width b /\ Height b' = Height b /\
    (0 < Width b -> Forall (fun row => fullRow row = false) (Cells b')).
Proof.
  intros Hok. pose proof Hok as (HW & HH & Hlen & Hrows).
  unfold Board_ClearLines.
  destruct (Z.ltb_spec (Height b) 0) as [Hneg|_]; [lia|]. cbn [mbind option_bind].
  rewrite (clearRows_spec b Hok) by lia.
  rewrite <- Hlen, firstn_all, app_nil_r, Z.add_0_l.
  cbn [mbind option_bind].
  pose proof (filter_split_length fullRow (Cells b)) as Hsplit.
  set (n := length (List.filter fullRow (Cells b))) in *.
  set (kept := List.filter (fun row => negb (fullRow row)) (Cells b)) in *.
  replace (length (Cells b) - length kept)%nat with n by lia.
  assert ((if decide (n = O) then Some []
           else row ← makeRow (Width b); Some (replicate n row))
          = Some (replicate n (emptyRow (Width b)))) as ->.
  { destruct (decide (n = O)) as [->|_]; [reflexivity|].
    unfold makeRow. destruct (Width b <? 0) eqn:E; [lia|]. reflexivity. }
  cbn [mbind option_bind]. eexists. cbn zeta.
  split; [reflexivity|]. cbn [Cells Width Height].
  split; [reflexivity|]. split; [reflexivity|]. split; [reflexivity|].
  intros Hpos. apply Forall_app. split.
  - apply Forall_replicate. unfold emptyRow.
    destruct (Z.to_nat (Width b)) eqn:E; [lia|]. reflexivity.
  - apply List.Forall_forall. intros row Hin.
    apply List.filter_In in Hin. destruct Hin as [_ Hf].
    destruct (fullRow row); [discriminate|reflexivity].
Qed.

(** X6. On a well-formed board [ClearLines] returns the number of full rows;
    the new grid is that many empty rows on top of the rows that were not
    full, in their order; width and height are kept, and on a board with at
    least one column no full row is left. *)
Theorem X6_clear_lines_drops_exactly_the_full_rows (b : Board) :
  board_ok b ->
  exists b',
    let n := length (List.filter fullRow (Cells b)) in
    Board_ClearLines b = Some (b', Z.of_nat n) /\
    Cells b' = replicate n (emptyRow (Width b))
               ++ List.filter (fun row => negb (fullRow row)) (Cells b) /\
    Width b' = Width b /\ Height b' = Height b /\
    (0 < Width b -> Forall (fun row => fullRow row = false) (Cells b')).
Proof. apply Board_ClearLines_spec. Qed.

(** *** Falling: the ghost row, the hard drop and gravity *)

Section Dropping.
Context {R : Type} `{RandSource R}.

Lemma validRow_true_below (b : Board) (p : Piece) (ox oy y : Z) (row : list bool) :
  forall x, validRow b p ox oy y row x = Some true -> true ∈ row ->
  GoInt.add (GoInt.add (Y p) y) oy < Height b.
Proof.
  induction row as [|c row IH]; intros x Hv Hin; [inversion Hin|].
  cbn [validRow] in Hv. destruct c; cbn [negb] in Hv.
  - match type of Hv with (if ?c then _ else _) = _ => destruct c end;
      [discriminate|].
    destruct (Z.leb_spec (Height b) (GoInt.add (GoInt.add (Y p) y) oy)) as [|Hlt];
      [discriminate|exact Hlt].
  - apply (IH (x + 1) Hv). apply elem_of_cons in Hin as [Heq|Hin];
      [discriminate|exact Hin].
Qed.

Lemma validRows_true_below (b : Board) (p : Piece) (ox oy : Z)
    (rows : list (list bool)) :
  forall (y : Z) (r : nat) (row : list bool),
  validRows b p ox oy rows y = Some true ->
  rows !! r = Some row -> true ∈ row ->
  GoInt.add (GoInt.add (Y p) (y + Z.of_nat r)) oy < Height b.
Proof.
  induction rows as [|row0 rows IH]; intros y r row Hv Hr Hin; [discriminate|].
  cbn [validRows] in Hv.
  destruct (validRow b p ox oy y row0 0) as [[|]|] eqn:E; try discriminate.
  cbn [mbind option_bind] in Hv. destruct r as [|r].
  - injection Hr as <-. rewrite Z.add_0_r.
    exact (validRow_true_below b p ox oy y row0 0 E Hin).
  - cbn in Hr. replace (y + Z.of_nat (S r)) with (y + 1 + Z.of_nat r) by lia.
    exact (IH (y + 1) r row Hv Hr Hin).
Qed.

(* A valid place keeps every row of the piece that has a filled cell above
   the floor. *)
Lemma valid_above_floor (b : Board) (p : Piece) (dy : Z) (r : nat) (row : list bool) :
  Board_IsValidPosition b p 0 dy = Some true ->
  Shape p !! r = Some row -> true ∈ row ->
  0 <= Y p -> Y p + Z.of_nat r < 2 ^ 62 -> 0 <= dy < 2 ^ 62 ->
  Y p + Z.of_nat r + dy < Height b.
Proof.
  intros Hv Hr Hin HY Hr62 Hdy.
  pose proof (validRows_true_below b p 0 dy (Shape p) 0 r row Hv Hr Hin) as Hlt.
  unfold GoInt.add in Hlt. rewrite Z.add_0_l in Hlt.
  rewrite (wrap_id (Y p + Z.of_nat r)) in Hlt by lia.
  rewrite wrap_id in Hlt by lia. exact Hlt.
Qed.

Lemma valid_lowered (b : Board) (p : Piece) (j d : Z) :
  Board_IsValidPosition b (setXY (X p) (Y p + j) p) 0 d
  = Board_IsValidPosition b p 0 (j + d).
Proof.
  apply valid_same; [reflexivity|reflexivity|].
  intros k. cbn [Y setXY]. unfold GoInt.add. rewrite !wrap_add_l. f_equal. lia.
Qed.

Lemma dropped_step (gs : GameState R) (j s s' : Z) :
  setScore s'
    (setCurrentPiece
       (moveY 1 (setXY (X (CurrentPiece gs)) (Y (CurrentPiece gs) + j)
                   (CurrentPiece gs)))
       (setScore s (setCurrentPiece
                      (setXY (X (CurrentPiece gs)) (Y (CurrentPiece gs) + j)
                         (CurrentPiece gs)) gs)))
  = setScore s'
      (setCurrentPiece
         (setXY (X (CurrentPiece gs))
            (GoInt.add (Y (CurrentPiece gs) + j) 1) (CurrentPiece gs)) gs).
Proof. reflexivity. Qed.

Lemma drop_descent (gs : GameState R) (r : nat) (row : list bool) :
  let p := CurrentPiece gs in
  let b := GBoard gs in
  board_ok b -> Height b < 2 ^ 62 ->
  0 <= Y p -> Y p + Z.of_nat r < 2 ^ 62 ->
  Shape p !! r = Some row -> true ∈ row ->
  forall (fuel : nat) (j s : Z),
  0 <= j < Height b -> GoInt.in_range s ->
  (forall i, 0 <= i <= j -> Board_IsValidPosition b p 0 i = Some true) ->
  Height b - Y p - Z.of_nat r - j <= Z.of_nat fuel ->
  exists k, j <= k < Height b /\
    (forall i, 0 <= i <= k -> Board_IsValidPosition b p 0 i = Some true) /\
    Board_IsValidPosition b p 0 (k + 1) = Some false /\
    ghostLoop fuel gs (Y p + j) = Some (Y p + k) /\
    dropLoop fuel (setScore s (setCurrentPiece (setXY (X p) (Y p + j) p) gs))
    = Some (setScore (GoInt.wrap (s + 2 * (k - j)))
              (setCurrentPiece (setXY (X p) (Y p + k) p) gs)).
Proof.
  intros p b Hok HH HY Hr62 Hrow Hin.
  induction fuel as [|fuel IH]; intros j s Hj Hs Hvalid Hfuel.
  - pose proof (valid_above_floor b p j r row (Hvalid j ltac:(lia)) Hrow Hin HY Hr62
                  ltac:(lia)). lia.
  - destruct (Board_IsValidPosition_Some b p 0 (j + 1) Hok) as [v Hv].
    assert (GoInt.add (GoInt.sub (Y p + j) (Y p)) 1 = j + 1) as Hoff.
    { unfold GoInt.add, GoInt.sub. rewrite wrap_add_l.
      replace (Y p + j - Y p + 1) with (j + 1) by lia. apply wrap_id. lia. }
    cbn [ghostLoop dropLoop]. fold p b. rewrite Hoff, Hv. cbn [mbind option_bind].
    unfold MoveDown, tryMove. cbn [GBoard CurrentPiece setScore setCurrentPiece].
    fold b. rewrite (valid_lowered b p j 1), Hv. cbn [mbind option_bind].
    destruct v.
    + assert (j + 1 < Height b) as Hj1.
      { pose proof (valid_above_floor b p (j + 1) r row Hv Hrow Hin HY Hr62
                      ltac:(lia)). lia. }
      assert (GoInt.add (Y p + j) 1 = Y p + (j + 1)) as Hy1.
      { unfold GoInt.add. rewrite wrap_id by lia. lia. }
      destruct (IH (j + 1) (GoInt.add s 2)) as (k & Hk & Hall & Hstop & Hg & Hd).
      * lia.
      * apply wrap_range.
      * intros i Hi. destruct (decide (i = j + 1)) as [->|]; [exact Hv|].
        apply Hvalid. lia.
      * lia.
      * exists k. split; [lia|]. split; [exact Hall|]. split; [exact Hstop|].
        rewrite Hy1. split; [exact Hg|].
        replace (GoInt.wrap (s + 2 * (k - j)))
          with (GoInt.wrap (GoInt.add s 2 + 2 * (k - (j + 1))))
          by (unfold GoInt.add; rewrite wrap_add_l; f_equal; lia).
        rewrite <- Hd. rewrite <- Hy1. reflexivity.
    + exists j. split; [lia|]. split; [exact Hvalid|]. split; [exact Hv|].
      split; [reflexivity|]. rewrite Z.sub_diag, Z.add_0_r, wrap_id by exact Hs.
      reflexivity.
Qed.


Lemma dropped_start (gs : GameState R) :
  setScore (Score gs)
    (setCurrentPiece (setXY (X (CurrentPiece gs)) (Y (CurrentPiece gs) + 0)
                        (CurrentPiece gs)) gs) = gs.
Proof.
  rewrite Z.add_0_r.
  destruct gs as [b [t sh x y c] nx hd ch sc lv ln gq go wi pi pn ap pg].
  reflexivity.
Qed.

(** X12. With the current piece in a valid place on a game board, its row
    on the board, its shape at most four rows with at least one filled cell,
    and fuel for twenty steps, [GetGhostY] and [HardDrop] return.  The ghost
    row is the lowest row the piece can fall to: every place on the way down
    to it is valid and the place below it is not.  [HardDrop] moves the piece
    to that row in its column, adds 2 points per row fallen (in [int]
    arithmetic) and locks the piece there. *)
Theorem X12_hard_drop_lands_on_ghost (gs : GameState R) (g : R) (fuel : nat) :
  let p := CurrentPiece gs in
  game_board (GBoard gs) ->
  Board_IsValidPosition (GBoard gs) p 0 0 = Some true ->
  0 <= Y p < BoardHeight -> (length (Shape p) <= 4)%nat ->
  (exists row, row ∈ Shape p /\ true ∈ row) ->
  GoInt.in_range (Score gs) ->
  (20 <= fuel)%nat ->
  exists gy,
    GetGhostY fuel gs = Some gy /\ Y p <= gy < BoardHeight /\
    (forall dy, 0 <= dy <= gy - Y p ->
       Board_IsValidPosition (GBoard gs) p 0 dy = Some true) /\
    Board_IsValidPosition (GBoard gs) p 0 (gy - Y p + 1) = Some false /\
    let landed :=
      setScore (GoInt.wrap (Score gs + 2 * (gy - Y p)))
        (setCurrentPiece (setXY (X p) gy p) gs) in
    dropLoop fuel gs = Some landed /\
    Board_IsValidPosition (GBoard landed) (CurrentPiece landed) 0 0 = Some true /\
    Board_IsValidPosition (GBoard landed) (CurrentPiece landed) 0 1 = Some false /\
    exists n gs' g',
      LockPiece landed g = Some (n, gs', g') /\
      HardDrop fuel gs g = Some (gs', g').
Proof.
  intros p Hb Hv [HY HY'] Hlen (row & Hrow & Hin) Hs Hfuel.
  pose proof Hb as (Hok & HW & HH).
  apply list_elem_of_lookup in Hrow as [r Hr].
  assert (r < 4)%nat as Hr4 by (apply lookup_lt_Some in Hr; lia).
  unfold BoardHeight in *.
  pose proof (valid_above_floor (GBoard gs) p 0 r row Hv Hr Hin HY
                ltac:(lia) ltac:(lia)) as Hfloor.
  destruct (drop_descent gs r row Hok ltac:(lia) HY ltac:(fold p; lia) Hr Hin
              fuel 0 (Score gs))
    as (k & Hk & Hall & Hstop & Hg & Hd).
  { lia. }
  { exact Hs. }
  { intros i Hi. replace i with 0 by lia. exact Hv. }
  { fold p. lia. }
  fold p in Hall, Hstop, Hg, Hd.
  rewrite dropped_start in Hd. rewrite Z.add_0_r in Hg. rewrite Z.sub_0_r in Hd.
  pose proof (valid_above_floor (GBoard gs) p k r row (Hall k ltac:(lia)) Hr Hin HY
                ltac:(lia) ltac:(lia)) as Hfloork.
  exists (Y p + k). unfold GetGhostY. fold p.
  replace (Y p + k - Y p) with k by lia.
  split; [exact Hg|]. split; [lia|]. split; [exact Hall|]. split; [exact Hstop|].
  cbn zeta. set (landed := setScore _ _). split; [exact Hd|].
  split.
  { change (Board_IsValidPosition (GBoard gs) (setXY (X p) (Y p + k) p) 0 0
            = Some true).
    rewrite valid_lowered, Z.add_0_r. apply Hall. lia. }
  split.
  { change (Board_IsValidPosition (GBoard gs) (setXY (X p) (Y p + k) p) 0 1
            = Some false).
    rewrite valid_lowered. exact Hstop. }
  destruct (GameStateFacts.LockPiece_steps landed g Hb)
    as (b1 & b2 & n & next & gen & g1 & b3 & queue & g2 & over &
        _ & _ & _ & _ & _ & _ & _ & _ & HL).
  eexists _, _, _. split; [exact HL|].
  unfold HardDrop. rewrite Hd. cbn [mbind option_bind]. fold landed.
  rewrite HL. reflexivity.
Qed.


Lemma lowered_step (gs : GameState R) (j : Z) :
  let p := CurrentPiece gs in
  Y p + j + 1 < 2 ^ 62 -> 0 <= Y p + j ->
  setCurrentPiece (moveY 1 (setXY (X p) (Y p + j) p))
    (setCurrentPiece (setXY (X p) (Y p + j) p) gs)
  = setCurrentPiece (setXY (X p) (Y p + (j + 1)) p) gs.
Proof.
  intros p Hlt Hge. unfold moveY. cbn [X Y setXY]. unfold GoInt.add.
  rewrite wrap_id by lia. rewrite Z.add_assoc. reflexivity.
Qed.

Lemma runTicks_S (n : nat) (gs : GameState R) (g : R) :
  runTicks (S n) gs g =
    '(moved, gs1, g1) ← Tick gs g;
    '(rest, gs2, g2) ← runTicks n gs1 g1;
    Some (moved :: rest, gs2, g2).
Proof. reflexivity. Qed.

Lemma Tick_lowered (gs : GameState R) (g : R) (j : Z) :
  let p := CurrentPiece gs in
  IsGameOver gs = false ->
  Tick (setCurrentPiece (setXY (X p) (Y p + j) p) gs) g =
    ok ← Board_IsValidPosition (GBoard gs) p 0 (j + 1);
    if ok : bool
    then Some (true, setCurrentPiece (moveY 1 (setXY (X p) (Y p + j) p))
                       (setCurrentPiece (setXY (X p) (Y p + j) p) gs), g)
    else '(_, gs2, g') ← LockPiece (setCurrentPiece (setXY (X p) (Y p + j) p) gs) g;
         Some (false, gs2, g').
Proof.
  intros p Hover. unfold Tick. cbn [IsGameOver setCurrentPiece]. rewrite Hover.
  unfold MoveDown, tryMove. cbn [GBoard CurrentPiece setCurrentPiece].
  fold p. rewrite (valid_lowered (GBoard gs) p j 1).
  destruct (Board_IsValidPosition (GBoard gs) p 0 (j + 1)) as [[|]|]; reflexivity.
Qed.

Lemma tick_descent (gs : GameState R) (g : R) (k : Z) :
  let p := CurrentPiece gs in
  let b := GBoard gs in
  IsGameOver gs = false -> 0 <= Y p -> Y p + k < 2 ^ 62 - 1 ->
  (forall i, 0 <= i <= k -> Board_IsValidPosition b p 0 i = Some true) ->
  Board_IsValidPosition b p 0 (k + 1) = Some false ->
  forall (m : nat) (j : Z), 0 <= j -> j + Z.of_nat m = k ->
  runTicks (S m) (setCurrentPiece (setXY (X p) (Y p + j) p) gs) g
  = '(n, gs', g') ← LockPiece (setCurrentPiece (setXY (X p) (Y p + k) p) gs) g;
    Some (replicate m true ++ [false], gs', g').
Proof.
  intros p b Hover HY Hk Hall Hstop.
  induction m as [|m IH]; intros j Hj Hm.
  - assert (j = k) as -> by lia. rewrite runTicks_S.
    pose proof (Tick_lowered gs g k Hover) as Ht. cbn zeta in Ht. fold p b in Ht.
    rewrite Ht, Hstop. cbn [mbind option_bind replicate app].
    destruct (LockPiece _ g) as [[[n gs'] g']|]; reflexivity.
  - rewrite runTicks_S.
    pose proof (Tick_lowered gs g j Hover) as Ht. cbn zeta in Ht. fold p b in Ht.
    rewrite Ht, (Hall (j + 1)) by lia. cbn [mbind option_bind].
    pose proof (lowered_step gs j) as Hstep. cbn zeta in Hstep. fold p in Hstep.
    rewrite Hstep by lia.
    rewrite (IH (j + 1)) by lia.
    destruct (LockPiece _ g) as [[[n gs'] g']|]; reflexivity.
Qed.


Lemma runTicks_over (n : nat) (gs : GameState R) (g : R) :
  IsGameOver gs = true -> runTicks n gs g = Some (replicate n false, gs, g).
Proof.
  intros Hover. induction n as [|n IH]; [reflexivity|].
  rewrite runTicks_S. unfold Tick. rewrite Hover. cbn [mbind option_bind].
  rewrite IH. reflexivity.
Qed.

Lemma lowered_start (gs : GameState R) :
  setCurrentPiece (setXY (X (CurrentPiece gs)) (Y (CurrentPiece gs) + 0)
                     (CurrentPiece gs)) gs = gs.
Proof.
  rewrite Z.add_0_r.
  destruct gs as [b [t sh x y c] nx hd ch sc lv ln gq go wi pi pn ap pg].
  reflexivity.
Qed.

(** X13. [Tick] on a finished game returns false and changes nothing,
    however often.  On a running game with the current piece as in X12,
    gravity alone brings the piece to the ghost row: with [k] the distance to
    the ghost row, [k] ticks return true and the next one returns false and
    locks the piece at the ghost row, in its column, with no score for the
    fall. *)
Theorem X13_gravity_locks_at_the_ghost (gs : GameState R) (g : R) :
  let p := CurrentPiece gs in
  game_board (GBoard gs) ->
  Board_IsValidPosition (GBoard gs) p 0 0 = Some true ->
  0 <= Y p < BoardHeight -> (length (Shape p) <= 4)%nat ->
  (exists row, row ∈ Shape p /\ true ∈ row) ->
  (IsGameOver gs = true ->
   forall n, runTicks n gs g = Some (replicate n false, gs, g)) /\
  (IsGameOver gs = false ->
   exists gy n gs' g',
     GetGhostY 20 gs = Some gy /\ Y p <= gy < BoardHeight /\
     LockPiece (setCurrentPiece (setXY (X p) gy p) gs) g = Some (n, gs', g') /\
     let k := Z.to_nat (gy - Y p) in
     runTicks (S k) gs g = Some (replicate k true ++ [false], gs', g')).
Proof.
  intros p Hb Hv [HY HY'] Hlen (row & Hrow & Hin).
  split; [intros Hover n; apply runTicks_over; exact Hover|].
  intros Hover. pose proof Hb as (Hok & HW & HH).
  apply list_elem_of_lookup in Hrow as [r Hr].
  assert (r < 4)%nat as Hr4 by (apply lookup_lt_Some in Hr; lia).
  unfold BoardHeight in *.
  pose proof (valid_above_floor (GBoard gs) p 0 r row Hv Hr Hin HY
                ltac:(lia) ltac:(lia)) as Hfloor.
  destruct (drop_descent gs r row Hok ltac:(lia) HY ltac:(fold p; lia) Hr Hin
              20%nat 0 0)
    as (k & Hk & Hall & Hstop & Hg & _).
  { lia. }
  { unfold GoInt.in_range. lia. }
  { intros i Hi. replace i with 0 by lia. exact Hv. }
  { fold p. lia. }
  fold p in Hall, Hstop, Hg. rewrite Z.add_0_r in Hg.
  pose proof (valid_above_floor (GBoard gs) p k r row (Hall k ltac:(lia)) Hr Hin HY
                ltac:(lia) ltac:(lia)) as Hfloork.
  set (landed := setCurrentPiece (setXY (X p) (Y p + k) p) gs).
  destruct (GameStateFacts.LockPiece_steps landed g Hb)
    as (b1 & b2 & n & next & gen & g1 & b3 & queue & g2 & over &
        _ & _ & _ & _ & _ & _ & _ & _ & HL).
  eexists (Y p + k), _, _, _. split; [exact Hg|]. split; [lia|].
  split; [exact HL|]. cbn zeta.
  replace (Y p + k - Y p) with k by lia.
  pose proof (tick_descent gs g k Hover HY ltac:(fold p; lia) Hall Hstop
                (Z.to_nat k) 0 ltac:(lia) ltac:(lia)) as Hticks.
  fold p in Hticks. unfold p in Hticks at 1 2 3.
  rewrite lowered_start in Hticks. fold p in Hticks. fold landed in Hticks.
  rewrite HL in Hticks. exact Hticks.
Qed.

End Dropping.

End GamePlayFacts.

(** * Placing and locking a piece *)

Module PlacementFacts.
Import Game GamePlay GoIntFacts BoardFacts GamePlayFacts.

Lemma boardCell_Some (b : Board) (y x : Z) :
  board_ok b -> 0 <= y < Height b -> 0 <= x < Width b ->
  is_Some (boardCell b y x).
Proof.
  intros Hok Hy Hx. pose proof Hok as (HW & HH & Hlen & Hrows).
  unfold boardCell.
  destruct (index_in_range (Cells b) y) as [r Hr]; [unfold GoInt.len; lia|].
  rewrite Hr. cbn [mbind option_bind].
  assert (length r = Z.to_nat (Width b)) as Hlr
    by (apply index_lookup in Hr; eapply board_ok_row; eauto).
  apply index_in_range. unfold GoInt.len. lia.
Qed.

Lemma validRow_filled (b : Board) (p : Piece) (ox oy y : Z) (row : list bool)
    (x : Z) :
  board_ok b ->
  validRow b p ox oy y (true :: row) x =
    if freeAt b (GoInt.add (GoInt.add (X p) x) ox)
                (GoInt.add (GoInt.add (Y p) y) oy)
    then validRow b p ox oy y row (x + 1) else Some false.
Proof.
  intros Hok. cbn [validRow negb]. unfold freeAt.
  set (newX := GoInt.add (GoInt.add (X p) x) ox).
  set (newY := GoInt.add (GoInt.add (Y p) y) oy).
  destruct (Z.ltb_spec newX 0) as [Hx0|Hx0]; cbn [orb].
  { destruct (Z.leb_spec 0 newX); [lia|]. reflexivity. }
  destruct (Z.leb_spec 0 newX); [|lia]. cbn [andb].
  destruct (Z.leb_spec (Width b) newX) as [HxW|HxW];
    destruct (Z.ltb_spec newX (Width b)); try lia; cbn [andb]; [reflexivity|].
  destruct (Z.leb_spec (Height b) newY) as [HyH|HyH];
    destruct (Z.ltb_spec newY (Height b)); try lia; cbn [andb]; [reflexivity|].
  destruct (Z.leb_spec 0 newY) as [Hy0|Hy0];
    destruct (Z.ltb_spec newY 0); try lia; cbn [orb]; [|reflexivity].
  destruct (boardCell_Some b newY newX Hok) as [c Hc]; [lia|lia|].
  rewrite Hc. unfold boardCell in Hc.
  destruct (GoInt.index (Cells b) newY) as [r|]; [|discriminate].
  cbn [mbind option_bind] in *. rewrite Hc. cbn [mbind option_bind].
  destruct (Filled c); reflexivity.
Qed.

Lemma validRow_iff (b : Board) (p : Piece) (ox oy y : Z) (row : list bool) :
  board_ok b -> forall x,
  exists v, validRow b p ox oy y row x = Some v /\
    (v = true <->
     forall c : nat, row !! c = Some true ->
       freeAt b (GoInt.add (GoInt.add (X p) (x + Z.of_nat c)) ox)
                (GoInt.add (GoInt.add (Y p) y) oy) = true).
Proof.
  intros Hok. induction row as [|cell row IH]; intros x.
  - exists true. split; [reflexivity|]. split; [discriminate 2|reflexivity].
  - destruct (IH (x + 1)) as (v & Hv & Hiff). destruct cell.
    + rewrite validRow_filled by exact Hok.
      destruct (freeAt b _ _) eqn:Hfree.
      * exists v. split; [exact Hv|]. rewrite Hiff. split.
        -- intros Hall [|c] Hc.
           ++ rewrite Z.add_0_r. exact Hfree.
           ++ replace (x + Z.of_nat (S c)) with (x + 1 + Z.of_nat c) by lia.
              apply Hall. exact Hc.
        -- intros Hall c Hc.
           replace (x + 1 + Z.of_nat c) with (x + Z.of_nat (S c)) by lia.
           apply Hall. exact Hc.
      * exists false. split; [reflexivity|]. split; [discriminate|].
        intros Hall. specialize (Hall O eq_refl). rewrite Z.add_0_r in Hall.
        congruence.
    + exists v. cbn [validRow negb]. split; [exact Hv|]. rewrite Hiff. split.
      * intros Hall [|c] Hc; [discriminate|].
        replace (x + Z.of_nat (S c)) with (x + 1 + Z.of_nat c) by lia.
        apply Hall. exact Hc.
      * intros Hall c Hc.
        replace (x + 1 + Z.of_nat c) with (x + Z.of_nat (S c)) by lia.
        apply Hall. exact Hc.
Qed.

Lemma validRows_iff (b : Board) (p : Piece) (ox oy : Z) (rows : list (list bool)) :
  board_ok b -> forall y,
  exists v, validRows b p ox oy rows y = Some v /\
    (v = true <->
     forall (r c : nat) (row : list bool),
       rows !! r = Some row -> row !! c = Some true ->
       freeAt b (GoInt.add (GoInt.add (X p) (Z.of_nat c)) ox)
                (GoInt.add (GoInt.add (Y p) (y + Z.of_nat r)) oy) = true).
Proof.
  intros Hok. induction rows as [|row rows IH]; intros y.
  - exists true. split; [reflexivity|]. split; [discriminate 2|reflexivity].
  - destruct (validRow_iff b p ox oy y row Hok 0) as (v0 & Hv0 & Hiff0).
    destruct (IH (y + 1)) as (v & Hv & Hiff).
    cbn [validRows]. rewrite Hv0. cbn [mbind option_bind]. destruct v0.
    + exists v. split; [exact Hv|]. rewrite Hiff. split.
      * intros Hall [|r] c row' Hr Hc.
        -- injection Hr as <-. rewrite Z.add_0_r.
           apply (proj1 Hiff0 eq_refl c Hc).
        -- replace (y + Z.of_nat (S r)) with (y + 1 + Z.of_nat r) by lia.
           exact (Hall r c row' Hr Hc).
      * intros Hall r c row' Hr Hc.
        replace (y + 1 + Z.of_nat r) with (y + Z.of_nat (S r)) by lia.
        exact (Hall (S r) c row' Hr Hc).
    + exists false. split; [reflexivity|]. split; [discriminate|].
      intros Hall. apply Hiff0. intros c Hc.
      specialize (Hall O c row eq_refl Hc). rewrite Z.add_0_r in Hall. exact Hall.
Qed.

(** X17. On a well-formed board [IsValidPosition] never panics, and it
    returns true exactly when every filled cell of the piece's shape, moved by
    the offsets, is within the columns of the board, above its floor and,
    unless it is above the top row, on a board cell that is not filled.  (The
    sums are Go's: they wrap.) *)
Theorem X17_valid_position_means_free_cells (b : Board) (p : Piece) (ox oy : Z) :
  board_ok b ->
  exists v, Board_IsValidPosition b p ox oy = Some v /\
    (v = true <->
     forall (r c : nat) (row : list bool),
       Shape p !! r = Some row -> row !! c = Some true ->
       let nx := GoInt.add (GoInt.add (X p) (Z.of_nat c)) ox in
       let ny := GoInt.add (GoInt.add (Y p) (Z.of_nat r)) oy in
       0 <= nx < Width b /\ ny < Height b /\
       (0 <= ny -> exists cl, boardCell b ny nx = Some cl /\ Filled cl = false)).
Proof.
  intros Hok. unfold Board_IsValidPosition.
  destruct (validRows_iff b p ox oy (Shape p) Hok 0) as (v & Hv & Hiff).
  exists v. split; [exact Hv|]. rewrite Hiff. clear Hiff Hv.
  split; intros Hall r c row Hr Hc; specialize (Hall r c row Hr Hc);
    cbn zeta in *; rewrite ?Z.add_0_l in *;
    set (nx := GoInt.add (GoInt.add (X p) (Z.of_nat c)) ox) in *;
    set (ny := GoInt.add (GoInt.add (Y p) (Z.of_nat r)) oy) in *.
  - unfold freeAt in Hall.
    apply andb_prop in Hall as [Hall H4]. apply andb_prop in Hall as [Hall H3].
    apply andb_prop in Hall as [H1 H2].
    split; [lia|]. split; [lia|]. intros Hny.
    apply orb_prop in H4 as [H4|H4]; [lia|].
    destruct (boardCell b ny nx) as [cl|]; [|discriminate].
    exists cl. split; [reflexivity|]. destruct (Filled cl); [discriminate|reflexivity].
  - destruct Hall as (Hx & Hy & Hcell). unfold freeAt.
    destruct (Z.leb_spec 0 nx); [|lia]. destruct (Z.ltb_spec nx (Width b)); [|lia].
    destruct (Z.ltb_spec ny (Height b)); [|lia]. cbn [andb].
    destruct (Z.ltb_spec ny 0) as [|Hny]; [reflexivity|]. cbn [orb].
    destruct (Hcell Hny) as (cl & -> & ->). reflexivity.
Qed.

Lemma index_neg {A} (l : list A) (i : Z) : i < 0 -> GoInt.index l i = None.
Proof. intros Hi. unfold GoInt.index. destruct (Z.ltb_spec i 0); [reflexivity|lia]. Qed.

Lemma index_pos {A} (l : list A) (i : Z) :
  0 <= i -> GoInt.index l i = l !! Z.to_nat i.
Proof. intros Hi. unfold GoInt.index. destruct (Z.ltb_spec i 0); [lia|reflexivity]. Qed.

(* Writing one cell changes that cell and no other. *)
Lemma setCell_boardCell (b b' : Board) (y0 x0 : Z) (c : Cell) :
  board_ok b -> 0 <= y0 < Height b -> 0 <= x0 < Width b ->
  setCell b y0 x0 c = Some b' ->
  forall y x, boardCell b' y x =
    if decide (y = y0 /\ x = x0) then Some c else boardCell b y x.
Proof.
  intros Hok Hy Hx Hs y x. pose proof Hok as (HW & HH & Hlen & Hrows).
  unfold setCell in Hs.
  destruct (GoInt.index (Cells b) y0) as [r|] eqn:Hr; [|discriminate].
  cbn [mbind option_bind] in Hs.
  assert (length r = Z.to_nat (Width b)) as Hlr
    by (apply index_lookup in Hr; eapply board_ok_row; eauto).
  rewrite store_in_range in Hs by (unfold GoInt.len; lia).
  cbn [mbind option_bind] in Hs.
  rewrite store_in_range in Hs by (unfold GoInt.len; lia).
  cbn [mbind option_bind] in Hs. injection Hs as <-.
  unfold boardCell. cbn [Cells].
  destruct (Z.lt_ge_cases y 0) as [Hneg|Hpos].
  { rewrite !index_neg by lia. destruct (decide _) as [[-> _]|]; [lia|reflexivity]. }
  rewrite !(index_pos _ y) by lia.
  destruct (decide (y = y0)) as [->|Hne].
  - rewrite list_lookup_insert_eq by lia.
    rewrite index_pos in Hr by lia. rewrite Hr. cbn [mbind option_bind].
    destruct (Z.lt_ge_cases x 0) as [Hxn|Hxp].
    { rewrite !index_neg by lia. destruct (decide _) as [[_ ->]|]; [lia|reflexivity]. }
    rewrite !(index_pos _ x) by lia.
    destruct (decide (x = x0)) as [->|Hnx].
    + rewrite list_lookup_insert_eq by lia.
      destruct (decide _) as [|Hn]; [reflexivity|]. exfalso. apply Hn. auto.
    + rewrite list_lookup_insert_ne by lia.
      destruct (decide _) as [[_ ->]|]; [congruence|reflexivity].
  - rewrite list_lookup_insert_ne by lia.
    destruct (decide _) as [[-> _]|]; [congruence|reflexivity].
Qed.

Lemma stampRow_spec (p : Piece) (y : Z) (row : list bool) :
  forall (b b' : Board) (x0 : Z),
  board_ok b -> stampRow b p y row x0 = Some b' ->
  forall cy cx, 0 <= cy < Height b -> 0 <= cx < Width b ->
  let covered :=
    cy = GoInt.add (Y p) y /\
    exists c : nat, row !! c = Some true /\
      GoInt.add (X p) (x0 + Z.of_nat c) = cx in
  (covered -> boardCell b' cy cx = Some (stamped p)) /\
  (boardCell b' cy cx = boardCell b cy cx \/ covered).
Proof.
  induction row as [|cell row IH]; intros b b' x0 Hok Hs cy cx Hcy Hcx; cbn zeta.
  - cbn [stampRow] in Hs. injection Hs as <-. split.
    + intros (_ & c & Hc & _). discriminate.
    + left. reflexivity.
  - cbn [stampRow] in Hs.
    assert (forall b1, board_ok b1 -> Height b1 = Height b -> Width b1 = Width b ->
              stampRow b1 p y row (x0 + 1) = Some b' ->
              ((cy = GoInt.add (Y p) y /\
                exists c : nat, row !! c = Some true /\
                  GoInt.add (X p) (x0 + Z.of_nat (S c)) = cx) ->
               boardCell b' cy cx = Some (stamped p)) /\
              (boardCell b' cy cx = boardCell b1 cy cx \/
               (cy = GoInt.add (Y p) y /\
                exists c : nat, row !! c = Some true /\
                  GoInt.add (X p) (x0 + Z.of_nat (S c)) = cx))) as Hrest.
    { intros b1 Hok1 HH1 HW1 Hs1.
      destruct (IH b1 b' (x0 + 1) Hok1 Hs1 cy cx ltac:(lia) ltac:(lia)) as [HA HB].
      cbn zeta in HA, HB.
      assert (forall c : nat, x0 + 1 + Z.of_nat c = x0 + Z.of_nat (S c)) as E
        by (intros; lia).
      split.
      - intros (Hy & c & Hc & Hx). apply HA. split; [exact Hy|].
        exists c. rewrite E. auto.
      - destruct HB as [HB|(Hy & c & Hc & Hx)]; [left; exact HB|].
        right. split; [exact Hy|]. exists c. rewrite <- E. auto. }
    destruct cell.
    + set (boardY := GoInt.add (Y p) y) in *.
      set (boardX := GoInt.add (X p) x0) in *.
      destruct ((0 <=? boardY) && (boardY <? Height b) &&
                (0 <=? boardX) && (boardX <? Width b)) eqn:E.
      * apply andb_prop in E as [E E4]. apply andb_prop in E as [E E3].
        apply andb_prop in E as [E1 E2].
        destruct (setCell_ok b boardY boardX (stamped p) Hok)
          as (b1 & Hset & Hok1 & HW1 & HH1); [lia|lia|].
        unfold stamped in Hset. rewrite Hset in Hs. cbn [mbind option_bind] in Hs.
        destruct (Hrest b1 Hok1 HH1 HW1 Hs) as [HA HB].
        pose proof (setCell_boardCell b b1 boardY boardX _ Hok ltac:(lia) ltac:(lia)
                      Hset cy cx) as Hcell.
        split.
        -- intros (Hy & [|c] & Hc & Hx).
           ++ rewrite Z.add_0_r in Hx. fold boardX in Hx.
              destruct HB as [HB|HB]; [|apply HA; exact HB].
              rewrite HB, Hcell. destruct (decide _) as [|Hn]; [reflexivity|].
              exfalso. apply Hn. auto.
           ++ apply HA. split; [exact Hy|]. exists c. auto.
        -- destruct HB as [HB|(Hy & c & Hc & Hx)].
           ++ rewrite HB, Hcell. destruct (decide _) as [[-> ->]|]; [|left; reflexivity].
              right. split; [reflexivity|]. exists O. rewrite Z.add_0_r. auto.
           ++ right. split; [exact Hy|]. exists (S c). auto.
      * destruct (Hrest b Hok eq_refl eq_refl Hs) as [HA HB]. split.
        -- intros (Hy & [|c] & Hc & Hx).
           ++ rewrite Z.add_0_r in Hx. fold boardX in Hx. fold boardY in Hy.
              exfalso. subst cy cx.
              destruct (Z.leb_spec 0 boardY); [|lia].
              destruct (Z.ltb_spec boardY (Height b)); [|lia].
              destruct (Z.leb_spec 0 boardX); [|lia].
              destruct (Z.ltb_spec boardX (Width b)); [|lia].
              discriminate.
           ++ apply HA. split; [exact Hy|]. exists c. auto.
        -- destruct HB as [HB|(Hy & c & Hc & Hx)]; [left; exact HB|].
           right. split; [exact Hy|]. exists (S c). auto.
    + destruct (Hrest b Hok eq_refl eq_refl Hs) as [HA HB]. split.
      * intros (Hy & [|c] & Hc & Hx); [discriminate|].
        apply HA. split; [exact Hy|]. exists c. auto.
      * destruct HB as [HB|(Hy & c & Hc & Hx)]; [left; exact HB|].
        right. split; [exact Hy|]. exists (S c). auto.
Qed.

Lemma stampRows_spec (p : Piece) (rows : list (list bool)) :
  forall (b b' : Board) (y0 : Z),
  board_ok b -> stampRows b p rows y0 = Some b' ->
  forall cy cx, 0 <= cy < Height b -> 0 <= cx < Width b ->
  let covered :=
    exists (r c : nat) (row : list bool),
      rows !! r = Some row /\ row !! c = Some true /\
      GoInt.add (Y p) (y0 + Z.of_nat r) = cy /\
      GoInt.add (X p) (Z.of_nat c) = cx in
  (covered -> boardCell b' cy cx = Some (stamped p)) /\
  (boardCell b' cy cx = boardCell b cy cx \/ covered).
Proof.
  induction rows as [|row rows IH]; intros b b' y0 Hok Hs cy cx Hcy Hcx; cbn zeta.
  - cbn [stampRows] in Hs. injection Hs as <-. split.
    + intros (r & c & row & Hr & _). discriminate.
    + left. reflexivity.
  - cbn [stampRows] in Hs.
    destruct (stampRow_ok p y0 row b 0 Hok) as (b1 & Hs1 & Hok1 & HW1 & HH1).
    rewrite Hs1 in Hs. cbn [mbind option_bind] in Hs.
    destruct (stampRow_spec p y0 row b b1 0 Hok Hs1 cy cx Hcy Hcx) as [HAr HBr].
    destruct (IH b1 b' (y0 + 1) Hok1 Hs cy cx ltac:(lia) ltac:(lia)) as [HA HB].
    cbn zeta in HAr, HBr, HA, HB.
    assert (forall r : nat, y0 + 1 + Z.of_nat r = y0 + Z.of_nat (S r)) as E
      by (intros; lia).
    split.
    + intros ([|r] & c & row' & Hr & Hc & Hy & Hx).
      * injection Hr as <-. rewrite Z.add_0_r in Hy.
        destruct HB as [HB|HB]; [|apply HA; exact HB].
        rewrite HB. apply HAr. split; [auto|]. exists c. rewrite Z.add_0_l. auto.
      * apply HA. exists r, c, row'. rewrite E. auto.
    + destruct HB as [HB|(r & c & row' & Hr & Hc & Hy & Hx)].
      * rewrite HB. destruct HBr as [HBr|(Hy & c & Hc & Hx)]; [left; exact HBr|].
        right. exists O, c, row. rewrite Z.add_0_r. rewrite Z.add_0_l in Hx. auto.
      * right. exists (S r), c, row'. rewrite <- E. auto.
Qed.

(** X18. On a well-formed board [Board.LockPiece] never panics and keeps
    width and height.  A cell of the board is afterwards filled with the
    piece's colour if a filled cell of the shape lies on it, and is as it was
    otherwise; filled cells of the shape that lie off the board are dropped.
    When the piece was in a valid position, every cell the lock writes was
    not filled before. *)
Theorem X18_lock_stamps_exactly_the_piece (b : Board) (p : Piece) :
  board_ok b ->
  exists b', Board_LockPiece b p = Some b' /\
    Width b' = Width b /\ Height b' = Height b /\
    forall cy cx, 0 <= cy < Height b -> 0 <= cx < Width b ->
      let covered :=
        exists (r c : nat) (row : list bool),
          Shape p !! r = Some row /\ row !! c = Some true /\
          GoInt.add (Y p) (Z.of_nat r) = cy /\
          GoInt.add (X p) (Z.of_nat c) = cx in
      (covered ->
       boardCell b' cy cx = Some {| Filled := true; CellColor := Color p |}) /\
      (~ covered -> boardCell b' cy cx = boardCell b cy cx) /\
      (covered -> Board_IsValidPosition b p 0 0 = Some true ->
       exists cl, boardCell b cy cx = Some cl /\ Filled cl = false).
Proof.
  intros Hok.
  destruct (Board_LockPiece_ok b p Hok) as (b' & Hb' & Hok' & HW & HH).
  exists b'. split; [exact Hb'|]. split; [exact HW|]. split; [exact HH|].
  intros cy cx Hcy Hcx. cbn zeta.
  destruct (stampRows_spec p (Shape p) b b' 0 Hok Hb' cy cx Hcy Hcx) as [HA HB].
  cbn zeta in HA, HB.
  split; [|split].
  - intros (r & c & row & Hr & Hc & Hy & Hx). apply HA.
    exists r, c, row. rewrite Z.add_0_l. auto.
  - intros Hn. destruct HB as [HB|(r & c & row & Hr & Hc & Hy & Hx)]; [exact HB|].
    exfalso. apply Hn. exists r, c, row. rewrite Z.add_0_l in Hy. auto.
  - intros (r & c & row & Hr & Hc & Hy & Hx) Hv.
    destruct (validRows_iff b p 0 0 (Shape p) Hok 0) as (v & Hv' & Hiff).
    unfold Board_IsValidPosition in Hv. rewrite Hv in Hv'. injection Hv' as <-.
    pose proof (proj1 Hiff eq_refl r c row Hr Hc) as Hfree.
    rewrite Z.add_0_l in Hfree.
    assert (forall a, GoInt.add a 0 = GoInt.wrap a) as Ea
      by (intros a; unfold GoInt.add; rewrite Z.add_0_r; reflexivity).
    rewrite !Ea in Hfree. unfold GoInt.add in Hfree, Hx, Hy.
    rewrite !wrap_wrap, Hx, Hy in Hfree.
    unfold freeAt in Hfree. apply andb_prop in Hfree as [_ H4].
    apply orb_prop in H4 as [H4|H4]; [lia|].
    destruct (boardCell b cy cx) as [cl|]; [|discriminate].
    exists cl. split; [reflexivity|]. destruct (Filled cl); [discriminate|reflexivity].
Qed.

End PlacementFacts.

(** * The flat board *)

Module FlatBoardFacts.
Import Game GamePlay GoIntFacts BoardFacts.

Lemma index_nat {A} (l : list A) (n : nat) : GoInt.index l (Z.of_nat n) = l !! n.
Proof.
  unfold GoInt.index. destruct (Z.ltb_spec (Z.of_nat n) 0); [lia|].
  rewrite Nat2Z.id. reflexivity.
Qed.

(* the index y * w + x of a grid that fits in an [int] *)
Lemma flat_index (y x w : nat) :
  Z.of_nat (y * w + x) < 2 ^ 63 ->
  GoInt.add (GoInt.mul (Z.of_nat y) (Z.of_nat w)) (Z.of_nat x)
  = Z.of_nat (y * w + x).
Proof.
  intros Hlt. unfold GoInt.add, GoInt.mul.
  rewrite (wrap_id (Z.of_nat y * Z.of_nat w)) by nia.
  rewrite wrap_id by nia. lia.
Qed.

Lemma flatRow_spec (b : Board) (y : nat) (row : list Cell) :
  0 <= Width b ->
  Cells b !! y = Some row -> length row = Z.to_nat (Width b) ->
  Z.of_nat (y * length row + length row) < 2 ^ 63 ->
  forall (todo x k : nat) (pre : list Z),
  (todo + x = length row)%nat -> (todo <= k)%nat ->
  length pre = (y * length row + x)%nat ->
  flatRow b (Z.of_nat y) todo (Z.of_nat x) (pre ++ replicate k 0)
  = Some (pre ++ (colourOf <$> drop x row) ++ replicate (k - todo) 0).
Proof.
  intros HW Hrow Hlen Hfit.
  induction todo as [|todo IH]; intros x k pre Hx Hk Hpre; cbn [flatRow].
  - rewrite drop_ge by lia. rewrite Nat.sub_0_r. reflexivity.
  - rewrite index_nat, Hrow. cbn [mbind option_bind]. rewrite index_nat.
    destruct (lookup_lt_is_Some_2 row x) as [c Hc]; [lia|].
    rewrite Hc. cbn [mbind option_bind].
    rewrite (drop_S _ _ _ Hc). cbn [fmap list_fmap]. 
    assert ((if Filled c
             then GoInt.store (pre ++ replicate k 0)
                    (GoInt.add (GoInt.mul (Z.of_nat y) (Width b)) (Z.of_nat x))
                    (CellColor c)
             else Some (pre ++ replicate k 0))
            = Some ((pre ++ [colourOf c]) ++ replicate (k - 1) 0)) as ->.
    { destruct k as [|k]; [lia|]. cbn [replicate]. rewrite Nat.sub_succ, Nat.sub_0_r.
      unfold colourOf. destruct (Filled c).
      - replace (Width b) with (Z.of_nat (length row)) by lia.
        rewrite flat_index by lia.
        rewrite store_in_range
          by (unfold GoInt.len; rewrite length_app; cbn [length]; lia).
        rewrite Nat2Z.id, <- Hpre.
        rewrite (insert_app_r_alt pre _ (length pre)) by lia.
        rewrite Nat.sub_diag. cbn [insert list_insert]. 
        rewrite <- app_assoc. reflexivity.
      - rewrite <- app_assoc. reflexivity. }
    cbn [mbind option_bind].
    replace (Z.of_nat x + 1) with (Z.of_nat (S x)) by lia.
    rewrite (IH (S x) (k - 1)%nat) by (rewrite ?length_app; cbn [length]; lia).
    rewrite <- app_assoc. cbn [app].
    replace (k - 1 - todo)%nat with (k - S todo)%nat by lia. reflexivity.
Qed.

Lemma flatRows_spec (b : Board) :
  board_ok b ->
  Z.of_nat (length (Cells b) * Z.to_nat (Width b)) < 2 ^ 63 ->
  forall (todo y : nat) (pre : list Z),
  (todo + y = length (Cells b))%nat ->
  length pre = (y * Z.to_nat (Width b))%nat ->
  flatRows b todo (Z.of_nat y) (pre ++ replicate (todo * Z.to_nat (Width b)) 0)
  = Some (pre ++ concat ((fun row : list Cell => colourOf <$> row)
                         <$> drop y (Cells b))).
Proof.
  intros Hok Hfit. pose proof Hok as (HW & HH & Hlen & Hrows).
  induction todo as [|todo IH]; intros y pre Hy Hpre; cbn [flatRows].
  - rewrite drop_ge by lia. reflexivity.
  - destruct (lookup_lt_is_Some_2 (Cells b) y) as [row Hrow]; [lia|].
    pose proof (board_ok_row b y row Hok Hrow) as Hl.
    change 0 with (Z.of_nat 0) at 1.
    rewrite <- Hl in *.
    rewrite (flatRow_spec b y row HW Hrow) with (k := (S todo * length row)%nat);
      [| lia | nia | lia | nia | lia].
    cbn [mbind option_bind]. rewrite drop_0.
    replace (Z.of_nat y + 1) with (Z.of_nat (S y)) by lia.
    replace (S todo * length row - length row)%nat
      with (todo * length row)%nat by lia.
    rewrite app_assoc.
    rewrite (IH (S y)) by (rewrite ?length_app, ?length_fmap; lia).
    rewrite (drop_S _ _ _ Hrow). cbn [fmap list_fmap concat].
    rewrite <- !app_assoc. reflexivity.
Qed.

Lemma Board_ToFlat_spec (b : Board) :
  board_ok b -> Height b * Width b < 2 ^ 63 ->
  Board_ToFlat b = Some (flatOf b).
Proof.
  intros Hok Hfit. pose proof Hok as (HW & HH & Hlen & Hrows).
  unfold Board_ToFlat, makeInts, GoInt.mul. rewrite wrap_id by nia.
  destruct (Z.ltb_spec (Height b * Width b) 0); [nia|].
  cbn [mbind option_bind].
  replace (Z.to_nat (Height b * Width b))
    with (Z.to_nat (Height b) * Z.to_nat (Width b))%nat by nia.
  change 0 with (Z.of_nat 0) at 1.
  rewrite <- (app_nil_l (replicate _ _)).
  rewrite (flatRows_spec b Hok) by (cbn [length]; nia).
  rewrite drop_0. reflexivity.
Qed.

Lemma setCell_nat (b : Board) (y x : nat) (r : list Cell) (c : Cell) :
  Cells b !! y = Some r -> (x < length r)%nat ->
  setCell b (Z.of_nat y) (Z.of_nat x) c
  = Some {| Cells := <[y := <[x := c]> r]> (Cells b);
            Width := Width b; Height := Height b |}.
Proof.
  intros Hr Hx. unfold setCell. rewrite index_nat, Hr. cbn [mbind option_bind].
  rewrite store_in_range by (unfold GoInt.len; lia). cbn [mbind option_bind].
  rewrite store_in_range
    by (unfold GoInt.len; apply lookup_lt_Some in Hr; lia).
  cbn [mbind option_bind]. rewrite !Nat2Z.id. reflexivity.
Qed.

Lemma unflatRow_spec (flat : list Z) (w y : nat) (h : Z)
    (top bot : list (list Cell)) :
  length top = y -> Z.of_nat (y * w + w) < 2 ^ 63 ->
  forall (todo x : nat) (rpre : list Cell),
  (todo + x = w)%nat -> length rpre = x ->
  unflatRow flat (Z.of_nat y) todo (Z.of_nat x)
    {| Cells := top ++ (rpre ++ replicate todo emptyCell) :: bot;
       Width := Z.of_nat w; Height := h |}
  = Some {| Cells := top ++ (rpre ++ (cellAt flat w y <$> seq x todo)) :: bot;
            Width := Z.of_nat w; Height := h |}.
Proof.
  intros Htop Hfit.
  induction todo as [|todo IH]; intros x rpre Hx Hpre; [reflexivity|].
  cbn [unflatRow Width]. rewrite flat_index by lia.
  set (b := {| Cells := top ++ (rpre ++ replicate (S todo) emptyCell) :: bot;
               Width := Z.of_nat w; Height := h |}).
  assert ((if Z.of_nat (y * w + x) <? GoInt.len flat
           then v ← GoInt.index flat (Z.of_nat (y * w + x));
                if decide (v <> 0)
                then setCell b (Z.of_nat y) (Z.of_nat x)
                       {| Filled := true; CellColor := v |}
                else Some b
           else Some b)
          = Some {| Cells := top ++ ((rpre ++ [cellAt flat w y x])
                                     ++ replicate todo emptyCell) :: bot;
                    Width := Z.of_nat w; Height := h |}) as ->.
  { unfold cellAt, GoInt.len.
    destruct (Z.ltb_spec (Z.of_nat (y * w + x)) (Z.of_nat (length flat))) as [Hlt|Hge].
    - rewrite index_nat.
      destruct (lookup_lt_is_Some_2 flat (y * w + x)) as [v Hv]; [lia|].
      rewrite Hv. cbn [mbind option_bind default from_option]. unfold id, cellOf.
      destruct (decide (v <> 0)) as [Hv0|Hv0].
      + rewrite (setCell_nat b y x (rpre ++ replicate (S todo) emptyCell)).
        * unfold b. cbn [Cells Width Height]. f_equal. f_equal.
          rewrite <- Htop, (insert_app_r_alt top _ (length top)) by lia.
          rewrite Nat.sub_diag. cbn [insert list_insert]. f_equal. f_equal.
          rewrite <- Hpre, (insert_app_r_alt rpre _ (length rpre)) by lia.
          rewrite Nat.sub_diag. cbn [replicate insert list_insert].
          rewrite <- app_assoc. reflexivity.
        * unfold b. cbn [Cells]. rewrite <- Htop.
          rewrite (lookup_app_r top) by lia. rewrite Nat.sub_diag. reflexivity.
        * rewrite length_app, length_replicate. lia.
      + unfold b. cbn [replicate]. rewrite <- app_assoc. reflexivity.
    - rewrite lookup_ge_None_2 by lia. cbn [default from_option]. unfold cellOf.
      destruct (decide (0 <> 0)) as [Hv0|_]; [congruence|].
      unfold b. cbn [replicate]. rewrite <- app_assoc. reflexivity. }
  cbn [mbind option_bind].
  replace (Z.of_nat x + 1) with (Z.of_nat (S x)) by lia.
  rewrite (IH (S x)) by (rewrite ?length_app; cbn [length]; lia).
  cbn [seq fmap list_fmap]. rewrite <- app_assoc. reflexivity.
Qed.

Lemma unflatRows_spec (flat : list Z) (w : nat) (h : Z) :
  forall (todo y : nat) (top : list (list Cell)),
  length top = y -> Z.of_nat ((y + todo) * w) < 2 ^ 63 ->
  unflatRows flat todo (Z.of_nat y)
    {| Cells := top ++ replicate todo []; Width := Z.of_nat w; Height := h |}
  = Some {| Cells := top ++ ((fun y' => cellAt flat w y' <$> seq 0 w) <$> seq y todo);
            Width := Z.of_nat w; Height := h |}.
Proof.
  induction todo as [|todo IH]; intros y top Htop Hfit; [reflexivity|].
  cbn [unflatRows Width Height Cells]. unfold makeRow.
  destruct (Z.ltb_spec (Z.of_nat w) 0); [lia|]. cbn [mbind option_bind].
  rewrite store_in_range
    by (unfold GoInt.len; rewrite length_app, length_replicate; lia).
  cbn [mbind option_bind]. rewrite !Nat2Z.id.
  rewrite (insert_app_r_alt top _ y) by lia.
  replace (y - length top)%nat with O by lia.
  cbn [replicate insert list_insert].
  pose proof (unflatRow_spec flat w y h top (replicate todo []) Htop ltac:(nia)
                w 0%nat [] ltac:(lia) eq_refl) as Hrow.
  cbn [app] in Hrow. change (Z.of_nat 0) with 0 in Hrow. rewrite Hrow.
  cbn [mbind option_bind].
  replace (Z.of_nat y + 1) with (Z.of_nat (S y)) by lia.
  rewrite (cons_middle _ top), app_assoc.
  rewrite (IH (S y)) by (rewrite ?length_app; cbn [length]; nia).
  cbn [seq fmap list_fmap]. rewrite <- app_assoc. reflexivity.
Qed.

Lemma BoardFromFlat_spec (flat : list Z) (width height : Z) :
  0 <= width -> 0 <= height -> height * width < 2 ^ 63 ->
  BoardFromFlat flat width height
  = Some {| Cells := gridOf flat (Z.to_nat width) (Z.to_nat height);
            Width := width; Height := height |}.
Proof.
  intros Hw Hh Hfit. unfold BoardFromFlat.
  destruct (Z.ltb_spec height 0); [lia|]. cbn [mbind option_bind].
  change 0 with (Z.of_nat 0) at 1.
  rewrite <- (Z2Nat.id width Hw) at 1 2.
  rewrite <- (app_nil_l (replicate _ _)).
  rewrite unflatRows_spec by (cbn [length]; nia).
  rewrite Z2Nat.id by lia. reflexivity.
Qed.

Lemma concat_lookup {A} (w : nat) (rows : list (list A)) :
  Forall (fun row => length row = w) rows ->
  forall (y x : nat), (x < w)%nat ->
  concat rows !! (y * w + x)%nat = rows !! y ≫= fun row => row !! x.
Proof.
  induction 1 as [|row rows Hrow _ IH]; intros y x Hx; [destruct y; reflexivity|].
  cbn [concat]. destruct y as [|y].
  - cbn [Nat.mul Nat.add lookup list_lookup mbind option_bind].
    apply lookup_app_l. lia.
  - rewrite lookup_app_r by lia.
    replace (S y * w + x - length row)%nat with (y * w + x)%nat by lia.
    apply IH. exact Hx.
Qed.

Lemma concat_length {A} (w : nat) (rows : list (list A)) :
  Forall (fun row => length row = w) rows ->
  length (concat rows) = (length rows * w)%nat.
Proof.
  induction 1 as [|row rows Hrow _ IH]; [reflexivity|].
  cbn [concat length]. rewrite length_app. lia.
Qed.

Lemma colourOf_cellOf (v : Z) : colourOf (cellOf v) = v.
Proof.
  unfold cellOf, colourOf. destruct (decide (v <> 0)) as [Hv|Hv]; cbn; lia.
Qed.

Lemma cellOf_colourOf (c : Cell) : cleanCell c -> cellOf (colourOf c) = c.
Proof.
  unfold cleanCell, cellOf, colourOf, emptyCell. destruct c as [[|] v]; cbn.
  - intros Hv. destruct (decide (v <> 0)); [reflexivity|contradiction].
  - intros ->. reflexivity.
Qed.

Lemma flatOf_rows (b : Board) :
  board_ok b ->
  Forall (fun row => length row = Z.to_nat (Width b))
    ((fun row : list Cell => colourOf <$> row) <$> Cells b).
Proof.
  intros (_ & _ & _ & Hrows). apply Forall_fmap.
  eapply Forall_impl; [exact Hrows|]. intros row Hl. cbn.
  rewrite length_fmap. exact Hl.
Qed.

Lemma flatOf_lookup (b : Board) (y x : nat) (row : list Cell) (c : Cell) :
  board_ok b -> Cells b !! y = Some row -> row !! x = Some c ->
  flatOf b !! (y * Z.to_nat (Width b) + x)%nat = Some (colourOf c).
Proof.
  intros Hok Hrow Hc. unfold flatOf.
  pose proof (board_ok_row b y row Hok Hrow) as Hl.
  rewrite (concat_lookup _ _ (flatOf_rows b Hok))
    by (apply lookup_lt_Some in Hc; lia).
  rewrite list_lookup_fmap, Hrow. cbn [fmap option_fmap option_map mbind option_bind].
  rewrite list_lookup_fmap, Hc. reflexivity.
Qed.

Lemma gridOf_flatOf (b : Board) :
  board_ok b ->
  gridOf (flatOf b) (Z.to_nat (Width b)) (Z.to_nat (Height b))
  = (fun row : list Cell => (fun c => cellOf (colourOf c)) <$> row) <$> Cells b.
Proof.
  intros Hok. pose proof Hok as (HW & HH & Hlen & Hrows).
  apply list_eq. intros y. unfold gridOf. rewrite !list_lookup_fmap.
  destruct (decide (y < length (Cells b))%nat) as [Hy|Hy].
  - rewrite lookup_seq_lt by lia.
    destruct (lookup_lt_is_Some_2 (Cells b) y Hy) as [row Hrow]. rewrite Hrow.
    pose proof (board_ok_row b y row Hok Hrow) as Hl.
    cbn [fmap option_fmap option_map Nat.add]. f_equal.
    apply list_eq. intros x. rewrite !list_lookup_fmap.
    destruct (decide (x < length row)%nat) as [Hx|Hx].
    + rewrite lookup_seq_lt by lia.
      destruct (lookup_lt_is_Some_2 row x Hx) as [c Hc]. rewrite Hc.
      cbn [fmap option_fmap option_map Nat.add].
      rewrite (flatOf_lookup b y x row c Hok Hrow Hc). reflexivity.
    + rewrite lookup_seq_ge by lia. rewrite lookup_ge_None_2 by lia. reflexivity.
  - rewrite lookup_seq_ge by lia. rewrite lookup_ge_None_2 by lia. reflexivity.
Qed.

Lemma fmap_clean (row : list Cell) :
  Forall cleanCell row -> (fun c => cellOf (colourOf c)) <$> row = row.
Proof.
  induction 1 as [|c row Hc _ IH]; [reflexivity|].
  cbn [fmap list_fmap]. rewrite (cellOf_colourOf c Hc). f_equal. exact IH.
Qed.

Lemma fmap_clean_rows (rows : list (list Cell)) :
  Forall (Forall cleanCell) rows ->
  (fun row : list Cell => (fun c => cellOf (colourOf c)) <$> row) <$> rows = rows.
Proof.
  induction 1 as [|row rows Hrow _ IH]; [reflexivity|].
  cbn [fmap list_fmap]. rewrite (fmap_clean row Hrow). f_equal. exact IH.
Qed.

(** X7. On a well-formed board whose cell count fits an [int], [ToFlat]
    returns the cells row after row, [Height * Width] entries, the entry at
    [y * Width + x] being the colour of cell (y, x) when it is filled and 0
    otherwise; [BoardFromFlat] reads that list back as a board of the same
    width and height in which a cell is filled exactly when it was filled
    with a non-zero colour.  A board whose filled cells have non-zero colours
    and whose empty cells have colour 0 is read back unchanged. *)
Theorem X7_board_flat_board (b : Board) :
  board_ok b -> Height b * Width b < 2 ^ 63 ->
  exists flat b',
    Board_ToFlat b = Some flat /\
    length flat = (Z.to_nat (Height b) * Z.to_nat (Width b))%nat /\
    (forall (y x : nat) (row : list Cell) (c : Cell),
       Cells b !! y = Some row -> row !! x = Some c ->
       flat !! (y * Z.to_nat (Width b) + x)%nat
       = Some (if Filled c then CellColor c else 0)) /\
    BoardFromFlat flat (Width b) (Height b) = Some b' /\
    Width b' = Width b /\ Height b' = Height b /\
    Cells b' = (fun row : list Cell => (fun c => cellOf (colourOf c)) <$> row)
               <$> Cells b /\
    (Forall (Forall cleanCell) (Cells b) -> b' = b).
Proof.
  intros Hok Hfit. pose proof Hok as (HW & HH & Hlen & Hrows).
  eexists (flatOf b), _.
  split; [apply Board_ToFlat_spec; assumption|].
  split; [unfold flatOf; rewrite (concat_length _ _ (flatOf_rows b Hok)),
            length_fmap; lia|].
  split; [intros y x row c Hrow Hc; exact (flatOf_lookup b y x row c Hok Hrow Hc)|].
  split; [apply BoardFromFlat_spec; assumption|].
  cbn [Width Height Cells]. split; [reflexivity|]. split; [reflexivity|].
  split; [apply gridOf_flatOf; exact Hok|].
  intros Hclean. rewrite (gridOf_flatOf b Hok), (fmap_clean_rows _ Hclean).
  destruct b; reflexivity.
Qed.

Lemma gridOf_ok (flat : list Z) (w h : nat) :
  length (gridOf flat w h) = h /\
  Forall (fun row => length row = w) (gridOf flat w h).
Proof.
  unfold gridOf. split; [rewrite length_fmap, length_seq; reflexivity|].
  apply Forall_fmap, Forall_forall. intros y _. cbn.
  rewrite length_fmap, length_seq. reflexivity.
Qed.

Lemma default_pad (flat : list Z) (n i : nat) :
  default 0 ((flat ++ replicate n 0) !! i) = default 0 (flat !! i).
Proof.
  destruct (decide (i < length flat)%nat) as [Hi|Hi].
  - rewrite lookup_app_l by lia. reflexivity.
  - rewrite lookup_app_r by lia. rewrite (lookup_ge_None_2 flat) by lia.
    destruct (replicate n 0 !! (i - length flat)%nat) as [v|] eqn:E; [|reflexivity].
    apply lookup_replicate in E. destruct E as [-> _]. reflexivity.
Qed.

Lemma chunk_take (l : list Z) (a w : nat) :
  (a + w <= length l)%nat ->
  (fun x => default 0 (l !! (a + x)%nat)) <$> seq 0 w = take w (drop a l).
Proof.
  intros Hl. apply list_eq. intros i. rewrite list_lookup_fmap.
  destruct (decide (i < w)%nat) as [Hi|Hi].
  - rewrite lookup_seq_lt by lia. rewrite lookup_take_lt by lia.
    rewrite lookup_drop. cbn [fmap option_fmap option_map Nat.add].
    destruct (lookup_lt_is_Some_2 l (a + i)) as [v Hv]; [lia|].
    rewrite Hv. reflexivity.
  - rewrite lookup_seq_ge by lia. rewrite lookup_take_ge by lia. reflexivity.
Qed.

Lemma chunks_take (l : list Z) (w : nat) :
  forall h : nat, (h * w <= length l)%nat ->
  concat ((fun y => (fun x => default 0 (l !! (y * w + x)%nat)) <$> seq 0 w)
          <$> seq 0 h) = take (h * w) l.
Proof.
  induction h as [|h IH]; intros Hl; [reflexivity|].
  rewrite seq_S, fmap_app, concat_app, IH by lia.
  cbn [Nat.add fmap list_fmap concat]. rewrite app_nil_r.
  rewrite chunk_take by lia.
  replace (S h * w)%nat with (h * w + w)%nat by lia.
  rewrite take_take_drop. reflexivity.
Qed.

Lemma flatOf_gridOf (flat : list Z) (w h : nat) (width height : Z) :
  flatOf {| Cells := gridOf flat w h; Width := width; Height := height |}
  = take (h * w) (flat ++ replicate (h * w) 0).
Proof.
  unfold flatOf, gridOf. cbn [Cells].
  rewrite <- (chunks_take (flat ++ replicate (h * w) 0) w h)
    by (rewrite length_app, length_replicate; lia).
  rewrite <- list_fmap_compose. f_equal. apply list_fmap_ext.
  intros _ y _. cbn. rewrite <- list_fmap_compose. apply list_fmap_ext.
  intros _ x _. cbn. rewrite colourOf_cellOf, default_pad. reflexivity.
Qed.

(** X8. For a width and a height from 0 to 1024 (sizes that [make]
    allocates: past the allocator's bound it panics), [BoardFromFlat] returns
    a well-formed board of that width and height whatever the length of the
    list, and [ToFlat] of that board is the list cut or padded with zeros to
    [height * width] entries: a list of exactly that length comes back
    unchanged. *)
Theorem X8_flat_board_flat (flat : list Z) (width height : Z) :
  0 <= width <= 1024 -> 0 <= height <= 1024 ->
  exists b,
    let n := (Z.to_nat height * Z.to_nat width)%nat in
    BoardFromFlat flat width height = Some b /\
    board_ok b /\ Width b = width /\ Height b = height /\
    Board_ToFlat b = Some (take n (flat ++ replicate n 0)) /\
    (length flat = n -> Board_ToFlat b = Some flat).
Proof.
  intros [Hw Hw'] [Hh Hh'].
  assert (height * width < 2 ^ 63) as Hfit.
  { apply Z.le_lt_trans with (1024 * 1024); [|reflexivity].
    apply Z.mul_le_mono_nonneg; assumption. }
  eexists. cbn zeta.
  split; [apply BoardFromFlat_spec; assumption|].
  destruct (gridOf_ok flat (Z.to_nat width) (Z.to_nat height)) as [Hlen Hrows].
  assert (board_ok {| Cells := gridOf flat (Z.to_nat width) (Z.to_nat height);
                      Width := width; Height := height |}) as Hok.
  { unfold board_ok. cbn [Cells Width Height]. auto. }
  split; [exact Hok|]. split; [reflexivity|]. split; [reflexivity|].
  rewrite (Board_ToFlat_spec _ Hok Hfit), flatOf_gridOf.
  split; [reflexivity|]. intros Hl. rewrite take_app_length' by lia. reflexivity.
Qed.

(* A negative height, or a negative width with at least one row, panics in
   [make]; height 0 gives the board without rows. *)
Lemma BoardFromFlat_negative (flat : list Z) (width height : Z) :
  (height < 0 -> BoardFromFlat flat width height = None) /\
  (0 < height -> width < 0 -> BoardFromFlat flat width height = None) /\
  (height = 0 -> BoardFromFlat flat width height
                 = Some {| Cells := []; Width := width; Height := 0 |}).
Proof.
  unfold BoardFromFlat. split; [|split].
  - intros Hh. destruct (Z.ltb_spec height 0); [reflexivity|lia].
  - intros Hh Hw. destruct (Z.ltb_spec height 0); [lia|].
    cbn [mbind option_bind]. destruct (Z.to_nat height) eqn:E; [lia|].
    cbn [unflatRows Width]. unfold makeRow.
    destruct (Z.ltb_spec width 0); [reflexivity|lia].
  - intros ->. reflexivity.
Qed.

End FlatBoardFacts.

(** * The board of a game and its snapshot *)

Module SnapshotFacts.
Import Game GamePlay GoIntFacts BoardFacts GamePlayFacts FlatBoardFacts.

Lemma NewPiece_colour (t : PieceType) : Color (NewPiece t) <> 0.
Proof. destruct t; discriminate. Qed.

Lemma clean_setCell (b b' : Board) (y x : Z) (c : Cell) :
  clean_board b -> cleanCell c -> setCell b y x c = Some b' -> clean_board b'.
Proof.
  unfold clean_board, setCell. intros Hb Hc Hs.
  destruct (GoInt.index (Cells b) y) as [r|] eqn:Hr; [|discriminate].
  cbn [mbind option_bind] in Hs.
  destruct (GoInt.store r x c) as [r'|] eqn:Hr'; [|discriminate].
  cbn [mbind option_bind] in Hs.
  destruct (GoInt.store (Cells b) y r') as [cells|] eqn:Hcells; [|discriminate].
  injection Hs as <-. cbn [Cells].
  unfold GoInt.store in Hr', Hcells.
  destruct (_ || _) in Hr'; [discriminate|]. injection Hr' as <-.
  destruct (_ || _) in Hcells; [discriminate|]. injection Hcells as <-.
  apply Forall_insert; [exact Hb|]. apply Forall_insert; [|exact Hc].
  apply index_lookup in Hr. eapply Forall_lookup_1; eauto.
Qed.

Lemma clean_stampRow (p : Piece) (y : Z) (row : list bool) :
  Color p <> 0 -> forall (b b' : Board) (x : Z),
  clean_board b -> stampRow b p y row x = Some b' -> clean_board b'.
Proof.
  intros Hcol. induction row as [|cell row IH]; intros b b' x Hb Hs;
    cbn [stampRow] in Hs.
  - injection Hs as <-. exact Hb.
  - destruct cell; [|exact (IH b b' (x + 1) Hb Hs)].
    destruct (_ && _) in Hs; [|exact (IH b b' (x + 1) Hb Hs)].
    destruct (setCell b _ _ _) as [b1|] eqn:Hset; [|discriminate].
    cbn [mbind option_bind] in Hs.
    apply (IH b1 b' (x + 1)); [|exact Hs].
    eapply clean_setCell; [exact Hb| |exact Hset]. exact Hcol.
Qed.

Lemma clean_LockPiece (b b' : Board) (p : Piece) :
  Color p <> 0 -> clean_board b -> Board_LockPiece b p = Some b' -> clean_board b'.
Proof.
  intros Hcol. unfold Board_LockPiece. generalize 0. generalize (Shape p).
  intros rows. revert b. induction rows as [|row rows IH]; intros b y Hb Hs;
    cbn [stampRows] in Hs.
  - injection Hs as <-. exact Hb.
  - destruct (stampRow b p y row 0) as [b1|] eqn:Hrow; [|discriminate].
    cbn [mbind option_bind] in Hs.
    apply (IH b1 (y + 1)); [|exact Hs].
    exact (clean_stampRow p y row Hcol b b1 0 Hb Hrow).
Qed.

Lemma filter_Forall {A} (P : A -> Prop) (f : A -> bool) (l : list A) :
  Forall P l -> Forall P (List.filter f l).
Proof.
  induction 1 as [|x l Hx _ IH]; [constructor|]. cbn [List.filter].
  destruct (f x); [constructor; assumption|exact IH].
Qed.

Lemma clean_ClearLines (b b' : Board) (n : Z) :
  board_ok b -> clean_board b -> Board_ClearLines b = Some (b', n) ->
  clean_board b'.
Proof.
  intros Hok Hb Hs.
  destruct (Board_ClearLines_spec b Hok) as (b0 & Hs0 & Hcells & _).
  cbn zeta in Hs0. rewrite Hs0 in Hs. injection Hs as <- _.
  unfold clean_board. rewrite Hcells. apply Forall_app. split.
  - apply Forall_replicate. unfold emptyRow. apply Forall_replicate. reflexivity.
  - apply filter_Forall. exact Hb.
Qed.

Lemma garbageLine_clean (width holeX : Z) : Forall cleanCell (garbageLine width holeX).
Proof.
  unfold garbageLine. apply Forall_fmap, Forall_forall. intros x _. cbn.
  destruct (decide (x = holeX)); cbn; [reflexivity|discriminate].
Qed.

Lemma clean_applyQueuedGarbage {R : Type} `{RandSource R}
    (b b' : Board) (queue queue' : Z) (g g' : R) :
  game_board b -> clean_board b ->
  applyQueuedGarbage b queue g = Some (b', queue', g') -> clean_board b'.
Proof.
  intros (Hok & HW & HH) Hb. unfold applyQueuedGarbage.
  destruct (0 <? queue); [|intros [= <- _ _]; exact Hb].
  destruct (Intn g BoardWidth) as [holeX g1]. unfold Board_AddGarbageLines.
  destruct (addGarbageLines_ok (Z.to_nat queue) holeX b Hok)
    as (b1 & Hs & Hcells & _); [right; rewrite HH; reflexivity|].
  rewrite Hs. cbn [mbind option_bind]. intros [= <- _ _].
  unfold clean_board. rewrite Hcells. apply Forall_drop, Forall_app.
  split; [exact Hb|]. apply Forall_replicate, garbageLine_clean.
Qed.

Section Tidy.
Context {R : Type} `{RandSource R}.

Lemma nextPiece_colour (gs : GameState R) (g g' : R) (p : Piece)
    (gen : option (PieceGenerator R)) :
  nextPiece gs g = Some (p, gen, g') -> Color p <> 0.
Proof.
  unfold nextPiece. destruct (PieceGen gs) as [pg|].
  - destruct (Next pg) as [[q pg']|] eqn:HN; [|discriminate].
    cbn [mbind option_bind]. intros [= <- _ _].
    rewrite (Next_NewPiece _ _ _ HN). apply NewPiece_colour.
  - unfold RandomPiece. destruct (Intn g _) as [k g1].
    destruct (GoInt.index allPieces k) as [t|]; [|discriminate].
    cbn [mbind option_bind]. intros [= <- _ _]. apply NewPiece_colour.
Qed.

Lemma tidy_LockPiece (gs gs' : GameState R) (g g' : R) (n : Z) :
  tidy gs -> LockPiece gs g = Some (n, gs', g') -> tidy gs'.
Proof.
  intros (Hb & Hclean & Hcur & Hnext & Hhold) HL.
  destruct (GameStateFacts.LockPiece_steps gs g Hb)
    as (b1 & b2 & n0 & next & gen & g1 & b3 & queue & g2 & over &
        H1 & H2 & Hb2 & _ & H3 & H4 & Hb3 & _ & HL').
  rewrite HL' in HL. injection HL as _ <- _.
  unfold tidy. cbn [GBoard CurrentPiece NextPiece HoldPiece].
  split; [exact Hb3|]. split.
  - eapply clean_applyQueuedGarbage; [exact Hb2| |exact H4].
    destruct (Board_LockPiece_ok (GBoard gs) (CurrentPiece gs) (proj1 Hb))
      as (b1' & H1' & Hok1 & _).
    rewrite H1 in H1'. injection H1' as <-.
    eapply clean_ClearLines; [exact Hok1| |exact H2].
    eapply clean_LockPiece; [exact Hcur|exact Hclean|exact H1].
  - split; [exact Hnext|]. split; [|exact Hhold].
    eapply nextPiece_colour. exact H3.
Qed.

Lemma tidy_Hold (gs gs' : GameState R) (g g' : R) (ok : bool) :
  tidy gs -> Hold gs g = Some (ok, gs', g') -> tidy gs'.
Proof.
  intros Ht. pose proof Ht as (Hb & Hclean & Hcur & Hnext & Hhold). unfold Hold.
  destruct (negb (CanHold gs)); [intros [= _ <- _]; exact Ht|].
  destruct (HoldPiece gs) as [held|] eqn:Eh.
  - destruct (NewPiece_row0 (Typ held)) as (row0 & Hrow & Hsame).
    rewrite Hrow. cbn [mbind option_bind]. rewrite Hsame. intros [= _ <- _].
    unfold tidy. cbn [GBoard CurrentPiece NextPiece HoldPiece].
    split; [exact Hb|]. split; [exact Hclean|].
    split; [apply NewPiece_colour|]. split; [exact Hnext|].
    intros h [= <-]. apply NewPiece_colour.
  - destruct (nextPiece gs g) as [[[np gen] g1]|] eqn:Hn; [|discriminate].
    cbn [mbind option_bind]. intros [= _ <- _].
    unfold tidy. cbn [GBoard CurrentPiece NextPiece HoldPiece].
    split; [exact Hb|]. split; [exact Hclean|]. split; [exact Hnext|].
    split; [eapply nextPiece_colour; exact Hn|].
    intros h [= <-]. apply NewPiece_colour.
Qed.

Lemma tidy_setCurrentPiece (gs : GameState R) (p : Piece) :
  tidy gs -> Color p = Color (CurrentPiece gs) -> tidy (setCurrentPiece p gs).
Proof.
  intros (Hb & Hclean & Hcur & Hnext & Hhold) Hc. unfold tidy.
  cbn [GBoard CurrentPiece NextPiece HoldPiece setCurrentPiece].
  rewrite Hc. auto.
Qed.

Lemma tryMove_colour (dx dy : Z) (move : Piece -> Piece) (gs gs' : GameState R)
    (ok : bool) :
  (forall p, Color (move p) = Color p) ->
  tryMove dx dy move gs = Some (ok, gs') ->
  exists p', gs' = setCurrentPiece p' gs /\ Color p' = Color (CurrentPiece gs).
Proof.
  intros Hmove. unfold tryMove.
  destruct (Board_IsValidPosition _ _ dx dy) as [[|]|]; cbn [mbind option_bind];
    [| |discriminate]; intros [= _ <-].
  - eexists. split; [reflexivity|]. apply Hmove.
  - exists (CurrentPiece gs). rewrite setCurrentPiece_id. auto.
Qed.

Lemma Rotate_colour (gs gs' : GameState R) (ok : bool) :
  Rotate gs = Some (ok, gs') ->
  exists p', gs' = setCurrentPiece p' gs /\ Color p' = Color (CurrentPiece gs).
Proof.
  unfold Rotate, Piece_Rotate.
  destruct (forM _ _ _) as [rotated|]; [|discriminate].
  cbn [mbind option_bind].
  repeat (match goal with
          | |- context [Board_IsValidPosition ?b ?p ?x ?y] =>
              destruct (Board_IsValidPosition b p x y) as [[|]|];
              cbn [mbind option_bind]; [| |discriminate]
          end; [intros [= _ <-]; eexists; split; reflexivity|]).
  intros [= _ <-]. eexists. split; reflexivity.
Qed.

Lemma tidy_moveStep (op : MoveOp) (gs gs' : GameState R) (ok : bool) :
  tidy gs -> moveStep op gs = Some (ok, gs') -> tidy gs'.
Proof.
  intros Ht Hs.
  assert (exists p', gs' = setCurrentPiece p' gs /\
                     Color p' = Color (CurrentPiece gs)) as (p' & -> & Hc).
  { destruct op; cbn [moveStep] in Hs.
    - eapply tryMove_colour; [|exact Hs]. reflexivity.
    - eapply tryMove_colour; [|exact Hs]. reflexivity.
    - eapply tryMove_colour; [|exact Hs]. reflexivity.
    - eapply Rotate_colour. exact Hs. }
  apply tidy_setCurrentPiece; assumption.
Qed.

Lemma tidy_runPlay (ops : list PlayOp) :
  forall (gs gs' : GameState R) (g g' : R),
  tidy gs -> runPlay ops gs g = Some (gs', g') -> tidy gs'.
Proof.
  induction ops as [|op ops IH]; intros gs gs' g g' Ht Hr; cbn [runPlay] in Hr.
  - injection Hr as <- _. exact Ht.
  - destruct op as [| |lines|m].
    + destruct (LockPiece gs g) as [[[n gs1] g1]|] eqn:HL; [|discriminate].
      cbn [mbind option_bind] in Hr.
      exact (IH gs1 gs' g1 g' (tidy_LockPiece _ _ _ _ _ Ht HL) Hr).
    + destruct (Hold gs g) as [[[ok gs1] g1]|] eqn:HH; [|discriminate].
      cbn [mbind option_bind] in Hr.
      exact (IH gs1 gs' g1 g' (tidy_Hold _ _ _ _ _ Ht HH) Hr).
    + exact (IH (ReceiveGarbage gs lines) gs' g g' Ht Hr).
    + destruct (moveStep m gs) as [[ok gs1]|] eqn:HM; [|discriminate].
      cbn [mbind option_bind] in Hr.
      exact (IH gs1 gs' g g' (tidy_moveStep _ _ _ _ Ht HM) Hr).
Qed.

Lemma NewBoard_clean : clean_board NewBoard.
Proof.
  unfold clean_board, NewBoard. cbn [Cells].
  apply Forall_replicate, Forall_replicate. reflexivity.
Qed.

Lemma tidy_start (playerID playerName : string) (s : Z) (gs : GameState R) :
  NewSeededGameState playerID playerName s = Some gs -> tidy gs.
Proof.
  unfold NewSeededGameState.
  destruct (Next (NewPieceGenerator s)) as [[cur gen1]|] eqn:H1; [|discriminate].
  cbn [mbind option_bind].
  destruct (Next gen1) as [[nxt gen2]|] eqn:H2; [|discriminate].
  cbn [mbind option_bind]. intros [= <-]. unfold tidy.
  cbn [GBoard CurrentPiece NextPiece HoldPiece].
  split; [apply Witnesses.NewBoard_ok|]. split; [apply NewBoard_clean|].
  split; [rewrite (Next_NewPiece _ _ _ H1); apply NewPiece_colour|].
  split; [rewrite (Next_NewPiece _ _ _ H2); apply NewPiece_colour|].
  discriminate.
Qed.

(* The snapshot of a clean game board reads back as the board. *)
Lemma snapshot_round_trip (b : Board) :
  game_board b -> clean_board b ->
  Board_ToFlat b = Some (flatOf b) /\
  length (flatOf b) = 200%nat /\
  BoardFromFlat (flatOf b) BoardWidth BoardHeight = Some b.
Proof.
  intros (Hok & HW & HH) Hclean.
  assert (Height b * Width b < 2 ^ 63) as Hfit
    by (rewrite HW, HH; reflexivity).
  split; [apply Board_ToFlat_spec; assumption|]. split.
  - unfold flatOf. rewrite (concat_length _ _ (flatOf_rows b Hok)), length_fmap.
    destruct Hok as (_ & _ & -> & _). rewrite HW, HH. reflexivity.
  - rewrite <- HW, <- HH.
    rewrite BoardFromFlat_spec by (destruct Hok as (? & ? & _); assumption).
    rewrite (gridOf_flatOf b Hok), (fmap_clean_rows _ Hclean).
    destruct b; reflexivity.
Qed.

(** X21. In a game begun with [NewSeededGameState], whatever locks, holds,
    garbage receipts, moves and turns are played, the board stays a 10 x 20
    grid in which every filled cell has a colour other than 0 and every empty
    cell has colour 0.  So the snapshot [ToFlat] makes of it, 200 colour
    indices, loses nothing: [BoardFromFlat] reads it back as exactly the
    board. *)
Theorem X21_snapshot_of_a_game_reads_back (playerID playerName : string)
    (s : Z) (ops : list PlayOp) (g : R) :
  exists gs0 gs' g' flat,
    NewSeededGameState playerID playerName s = Some gs0 /\
    runPlay ops gs0 g = Some (gs', g') /\
    game_board (GBoard gs') /\
    Forall (Forall cleanCell) (Cells (GBoard gs')) /\
    Board_ToFlat (GBoard gs') = Some flat /\ length flat = 200%nat /\
    BoardFromFlat flat BoardWidth BoardHeight = Some (GBoard gs').
Proof.
  destruct (seeded_start playerID playerName s) as (gs0 & H0 & Hs0).
  destruct (seeded_runPlay s ops 0 false gs0 g Hs0) as (gs' & g' & Hrun & _).
  pose proof (tidy_runPlay ops gs0 gs' g g' (tidy_start _ _ _ _ H0) Hrun)
    as (Hb & Hclean & _).
  destruct (snapshot_round_trip (GBoard gs') Hb Hclean) as (Hflat & Hlen & Hback).
  exists gs0, gs', g', (flatOf (GBoard gs')). auto 10.
Qed.

End Tidy.

End SnapshotFacts.

(** * The room server, continued *)

Module SessionFacts.
Import Server Session.

(** *** The outbound queue *)

Lemma runChan_fields (ops : list ChanOp) (p : Player) :
  let p' := (runChan ops p).2 in
  ID p' = ID p /\ Name p' = Name p /\ Ready p' = Ready p /\
  Alive p' = Alive p /\ sendClosed p' = sendClosed p /\
  roomID p' = roomID p /\ TargetID p' = TargetID p.
Proof.
  revert p. induction ops as [|[env|] ops IH]; intros p; cbn [runChan].
  - cbn. auto 10.
  - specialize (IH (send env p)). cbn zeta in *.
    destruct IH as (H1 & H2 & H3 & H4 & H5 & H6 & H7).
    rewrite H1, H2, H3, H4, H5, H6, H7.
    destruct (ServerFacts.send_fields env p) as (? & ? & ? & ? & ? & ? & ?).
    auto 10.
  - unfold recv. destruct (sendCh p) as [|msg q].
    + apply IH.
    + specialize (IH (setSendCh q p)). cbn zeta in *.
      destruct (runChan ops (setSendCh q p)) as [out p']. exact IH.
Qed.

(** X9. A player's outbound queue under any interleaving of sends by the
    room and receives by the write pump.  The queue never holds more than 64
    messages.  What the write pump has received, followed by what is still
    queued, is a subsequence of what was queued at the start followed by the
    messages sent, in their order: messages may be dropped, none is invented,
    duplicated or reordered.  A send to a closed channel queues nothing.
    Nothing but the queue changes.  With no receive in between, an open queue
    holds the first 64 of the old and the sent messages. *)
Theorem X9_outbound_queue_bounded_fifo (ops : list ChanOp) (p : Player) :
  (length (sendCh p) <= sendChCap)%nat ->
  let out := (runChan ops p).1 in
  let p' := (runChan ops p).2 in
  (length (sendCh p') <= sendChCap)%nat /\
  sublist (out ++ sendCh p') (sendCh p ++ sentOf ops) /\
  (sendClosed p = true -> out ++ sendCh p' = sendCh p) /\
  (sendClosed p = false -> Forall (fun op => op <> ChRecv) ops ->
   out = [] /\ sendCh p' = take sendChCap (sendCh p ++ sentOf ops)) /\
  setSendCh (sendCh p) p' = p.
Proof.
  intros Hcap. cbn zeta. split; [|split; [|split; [|split]]].
  - revert p Hcap. induction ops as [|[env|] ops IH]; intros p Hcap; cbn [runChan].
    + exact Hcap.
    + apply IH. unfold send. destruct (sendClosed p); [exact Hcap|].
      destruct (decide (length (sendCh p) < sendChCap)%nat) as [Hlt|];
        [|exact Hcap].
      cbn [sendCh setSendCh]. rewrite length_app. cbn [length]. lia.
    + unfold recv. destruct (sendCh p) as [|msg q] eqn:E.
      * apply IH. rewrite E. exact Hcap.
      * specialize (IH (setSendCh q p)).
        destruct (runChan ops (setSendCh q p)) as [out p']. apply IH.
        cbn [sendCh setSendCh length] in *. lia.
  - clear Hcap. revert p. induction ops as [|[env|] ops IH]; intros p;
      cbn [runChan sentOf omap].
    + cbn [fst snd app]. rewrite app_nil_r. reflexivity.
    + etransitivity; [apply IH|]. fold (sentOf ops). unfold send.
      destruct (sendClosed p).
      * apply sublist_app; [reflexivity|]. apply sublist_cons. reflexivity.
      * destruct (decide (length (sendCh p) < sendChCap)%nat).
        -- cbn [sendCh setSendCh]. rewrite <- app_assoc. reflexivity.
        -- apply sublist_app; [reflexivity|]. apply sublist_cons. reflexivity.
    + fold (sentOf ops). unfold recv. destruct (sendCh p) as [|msg q] eqn:E.
      * specialize (IH p). rewrite E in IH. exact IH.
      * specialize (IH (setSendCh q p)).
        destruct (runChan ops (setSendCh q p)) as [out p'].
        cbn [fst snd sendCh setSendCh app] in *. apply sublist_skip. exact IH.
  - clear Hcap. revert p. induction ops as [|[env|] ops IH]; intros p Hclosed;
      cbn [runChan].
    + reflexivity.
    + unfold send. rewrite Hclosed. apply IH. exact Hclosed.
    + unfold recv. destruct (sendCh p) as [|msg q] eqn:E.
      * rewrite IH by exact Hclosed. exact E.
      * specialize (IH (setSendCh q p) Hclosed).
        destruct (runChan ops (setSendCh q p)) as [out p'].
        cbn [fst snd sendCh setSendCh app] in *. rewrite IH. reflexivity.
  - intros Hopen Hsends. revert p Hcap Hopen.
    induction Hsends as [|op ops Hop Hsends IH]; intros p Hcap Hopen.
    + cbn [runChan fst snd sentOf omap]. rewrite app_nil_r.
      rewrite take_ge by exact Hcap. auto.
    + destruct op as [env|]; [|congruence]. cbn [runChan sentOf omap].
      fold (sentOf ops). unfold send. rewrite Hopen.
      destruct (decide (length (sendCh p) < sendChCap)%nat) as [Hlt|Hge].
      * destruct (IH (setSendCh (sendCh p ++ [env]) p)) as [Ho Hq].
        -- cbn [sendCh setSendCh]. rewrite length_app. cbn [length]. lia.
        -- exact Hopen.
        -- split; [exact Ho|]. rewrite Hq. cbn [sendCh setSendCh].
           rewrite <- app_assoc. reflexivity.
      * destruct (IH p Hcap Hopen) as [Ho Hq]. split; [exact Ho|]. rewrite Hq.
        rewrite !take_app_le by lia. reflexivity.
  - pose proof (runChan_fields ops p) as Hf. cbn zeta in Hf.
    destruct Hf as (H1 & H2 & H3 & H4 & H5 & H6 & H7).
    destruct (runChan ops p).2 as [i n r a q c ro t]. cbn in *.
    destruct p; cbn in *. subst. reflexivity.
Qed.

(** *** The start of a match *)

Lemma filter_all_true {A} (f : A -> bool) (l : list A) :
  (forall x, x ∈ l -> f x = true) -> List.filter f l = l.
Proof.
  induction l as [|a l IH]; intros Hall; [reflexivity|]. cbn.
  rewrite (Hall a) by (left). f_equal. apply IH. intros x Hx. apply Hall.
  right. exact Hx.
Qed.

Lemma alivePlayers_all (r : Room) :
  (forall id p, players r !! id = Some p -> Alive p = true) ->
  GoInt.len (alivePlayers r) = playerCount r.
Proof.
  intros Hall. unfold alivePlayers, GoInt.len, playerCount.
  rewrite filter_all_true.
  - rewrite length_fmap, length_map_to_list. reflexivity.
  - intros p Hp. apply list_elem_of_fmap in Hp as ([id p'] & -> & Hin).
    apply elem_of_map_to_list in Hin. eapply Hall. exact Hin.
Qed.

Lemma startGame_players (newSeed : Z) (r : Room) :
  players (startGame newSeed r)
  = (fun p => send (gameStart newSeed r) (setReady false (setAlive true p)))
    <$> players r.
Proof.
  unfold startGame, broadcastToAll, sendAll. cbn [players setPlayers].
  rewrite <- map_fmap_compose. reflexivity.
Qed.

(** X10. [startGame] puts the room in the playing phase with the drawn seed
    and no winner, keeps the membership, and makes every member alive and not
    ready.  Every member is sent one and the same game-start message: the
    drawn seed and the list of the members' ids, each id once.  Right after
    the start the room cannot start again and the win-condition check changes
    nothing. *)
Theorem X10_start_game_same_seed_for_all (newSeed : Z) (r : Room) :
  let r' := startGame newSeed r in
  let ids := (map_to_list (players r)).*1 in
  phase r' = PhasePlaying /\ seed r' = newSeed /\ winnerID r' = "" /\
  code r' = code r /\
  NoDup ids /\ (forall id, id ∈ ids <-> is_Some (players r !! id)) /\
  (forall id, players r' !! id =
     (fun p => send (protocol.mkEnvelope protocol.MsgGameStart
                       (protocol.GameStartPayload newSeed ids))
                 (setReady false (setAlive true p))) <$> players r !! id) /\
  (forall id p', players r' !! id = Some p' ->
     Alive p' = true /\ Ready p' = false) /\
  canStart r' = false /\
  checkWinCondition r' = r'.
Proof.
  cbn zeta.
  assert (forall id p', players (startGame newSeed r) !! id = Some p' ->
            Alive p' = true /\ Ready p' = false) as Hfresh.
  { intros id p' Hp'. rewrite startGame_players, lookup_fmap in Hp'.
    destruct (players r !! id) as [p|]; [|discriminate].
    cbn in Hp'. injection Hp' as <-.
    destruct (ServerFacts.send_fields (gameStart newSeed r)
                (setReady false (setAlive true p))) as (_ & _ & -> & -> & _).
    auto. }
  split; [reflexivity|]. split; [reflexivity|]. split; [reflexivity|].
  split; [reflexivity|].
  split; [apply NoDup_fst_map_to_list|].
  split.
  { intros id. rewrite list_elem_of_fmap. split.
    - intros ([id' p] & -> & Hin). apply elem_of_map_to_list in Hin. eauto.
    - intros [p Hp]. exists (id, p). split; [reflexivity|].
      apply elem_of_map_to_list. exact Hp. }
  split; [intros id; rewrite startGame_players, lookup_fmap; reflexivity|].
  split; [exact Hfresh|].
  split.
  - unfold canStart. destruct (playerCount _ <? minPlayers) eqn:E; [reflexivity|].
    apply bool_decide_eq_false. intros Hall.
    destruct (map_choose (players (startGame newSeed r))) as (id & p' & Hp').
    { intros Hempty. unfold playerCount in E. rewrite Hempty, map_size_empty in E.
      discriminate. }
    destruct (Hfresh id p' Hp') as [_ Hr]. specialize (Hall id p' Hp'). cbn in Hall.
    congruence.
  - unfold checkWinCondition.
    rewrite alivePlayers_all by (intros id p' Hp'; apply (Hfresh id p' Hp')).
    destruct (Z.leb_spec (playerCount (startGame newSeed r)) 1) as [Hle|Hgt];
      destruct (Z.leb_spec minPlayers (playerCount (startGame newSeed r)))
        as [Hmin|Hmin]; cbn [andb]; try reflexivity.
    unfold minPlayers in Hmin. lia.
Qed.

(** *** Tokens *)

Lemma plain_char (x : N) (s : string) :
  plain s = true -> plain (String.String (pretty_N_char x) s) = true.
Proof.
  intros Hs. cbn [plain]. rewrite Hs, andb_true_r.
  unfold pretty_N_char. destruct x as [|d]; [reflexivity|].
  do 4 (try (destruct d as [d|d|]; try reflexivity)).
Qed.

Lemma plain_pretty_N_go (x : N) (s : string) :
  plain s = true -> plain (pretty_N_go x s) = true.
Proof.
  revert s. induction (N.lt_wf_0 x) as [x _ IH]. intros s Hs.
  destruct (decide (0 < x)%N) as [Hx|Hx].
  - rewrite pretty_N_go_step by exact Hx. apply IH.
    + apply N.div_lt; [exact Hx|reflexivity].
    + apply plain_char. exact Hs.
  - assert (x = 0%N) as -> by lia. rewrite pretty_N_go_0. exact Hs.
Qed.

Lemma plain_pretty_N (x : N) : plain (pretty x) = true.
Proof.
  unfold pretty, pretty_N. destruct (decide (x = 0%N)); [reflexivity|].
  apply plain_pretty_N_go. reflexivity.
Qed.

Lemma plain_dash (s : string) : plain ("-" +:+ s) = plain s.
Proof. reflexivity. Qed.

(* a number is printed without an underscore *)
Lemma plain_pretty (x : Z) : plain (pretty x) = true.
Proof.
  unfold pretty, pretty_Z. destruct x as [|p|p].
  - reflexivity.
  - apply plain_pretty_N.
  - rewrite plain_dash. apply plain_pretty_N.
Qed.

Lemma plain_app_underscore (a d : string) :
  plain (a +:+ String.String underscore d) = false.
Proof.
  induction a as [|c a IH]; [reflexivity|].
  change (negb (bool_decide (c = underscore))
          && plain (a +:+ String.String underscore d) = false).
  rewrite IH. apply andb_false_r.
Qed.

(* a string is split at its last underscore in one way only *)
Lemma last_underscore (a a' d d' : string) :
  plain d = true -> plain d' = true ->
  a +:+ String.String underscore d = a' +:+ String.String underscore d' ->
  d = d'.
Proof.
  intros Hd Hd'. revert a'. induction a as [|c a IH]; intros [|c' a'] Heq.
  - change (String.String underscore d = String.String underscore d') in Heq.
    congruence.
  - change (String.String underscore d
            = String.String c' (a' +:+ String.String underscore d')) in Heq.
    injection Heq as _ Heq. rewrite Heq, plain_app_underscore in Hd. discriminate.
  - change (String.String c (a +:+ String.String underscore d)
            = String.String underscore d') in Heq.
    injection Heq as _ Heq. rewrite <- Heq, plain_app_underscore in Hd'.
    discriminate.
  - change (String.String c (a +:+ String.String underscore d)
            = String.String c' (a' +:+ String.String underscore d')) in Heq.
    injection Heq as _ Heq. exact (IH a' Heq).
Qed.

Lemma append_inj_l (p s s' : string) : p +:+ s = p +:+ s' -> s = s'.
Proof.
  induction p as [|c p IH]; intros Heq; [exact Heq|].
  change (String.String c (p +:+ s) = String.String c (p +:+ s')) in Heq.
  injection Heq as Heq. exact (IH Heq).
Qed.

(* tokens made from different values of the counter differ *)
Lemma token_counter (t t' n n' : Z) :
  "tok_" +:+ pretty t +:+ "_" +:+ pretty n
  = "tok_" +:+ pretty t' +:+ "_" +:+ pretty n' ->
  n = n'.
Proof.
  intros Heq. apply append_inj_l in Heq. apply (inj pretty).
  exact (last_underscore _ _ _ _ (plain_pretty n) (plain_pretty n') Heq).
Qed.

(* the token of a counter value above the counter is not pending *)
Lemma token_fresh (h : Hub) (t n : Z) :
  tokens_ok h -> nextID h < n ->
  pendingJoins h !! ("tok_" +:+ pretty t +:+ "_" +:+ pretty n) = None.
Proof.
  intros Hok Hn.
  destruct (pendingJoins h !! _) as [pj|] eqn:Hlk; [|reflexivity].
  destruct (Hok _ pj Hlk) as (t' & n' & Heq & Hle).
  apply token_counter in Heq. lia.
Qed.

Lemma addPendingJoin_tokens_ok (t n now : Z) (pj : PendingJoin) (h : Hub) :
  tokens_ok h -> n <= nextID h ->
  tokens_ok (addPendingJoin ("tok_" +:+ pretty t +:+ "_" +:+ pretty n) pj now h).
Proof.
  intros Hok Hn tok pj'. unfold addPendingJoin.
  cbn [pendingJoins nextID setPendingJoins].
  destruct (decide (tok = "tok_" +:+ pretty t +:+ "_" +:+ pretty n)) as [->|Hne].
  - intros _. exists t, n. auto.
  - rewrite lookup_insert_ne by congruence. intros Hlk.
    apply map_lookup_filter_Some in Hlk as [Hlk _]. exact (Hok tok pj' Hlk).
Qed.

(** *** From the front desk to the game room *)

Section DeskFacts.
Variable ToUpper : string -> string.
Variable TrimSpace : string -> string.

Lemma addPendingJoin_lookup (token : string) (pj : PendingJoin) (now : Z) (h : Hub) :
  pendingJoins (addPendingJoin token pj now h) !! token = Some pj /\
  rooms (addPendingJoin token pj now h) = rooms h /\
  nextID (addPendingJoin token pj now h) = nextID h.
Proof.
  unfold addPendingJoin. cbn [pendingJoins rooms nextID setPendingJoins].
  rewrite lookup_insert_eq. auto.
Qed.

Lemma handlePlay_fresh (roomCode token : string) (now : Z) (h : Hub)
    (pj : PendingJoin) :
  roomCode <> "" -> token <> "" ->
  pendingJoins h !! token = Some pj -> now - CreatedAt pj <= 60 * Second ->
  let h' := setPendingJoins (delete token (pendingJoins h)) h in
  handlePlay ToUpper roomCode token now h =
    if decide (RoomCode pj <> ToUpper roomCode) then (StatusForbidden, h')
    else match rooms h !! ToUpper (RoomCode pj) with
         | None => (StatusNotFound, h')
         | Some _ => (Upgrade pj, h')
         end.
Proof.
  intros Hr Ht Hpj Hyoung. cbn zeta. unfold handlePlay.
  rewrite bool_decide_eq_false_2 by exact Hr.
  rewrite bool_decide_eq_false_2 by exact Ht. cbn [orb].
  unfold consumeToken. rewrite Hpj.
  destruct (expired now pj) eqn:Ex;
    [apply ServerFacts.expired_spec in Ex; lia|].
  reflexivity.
Qed.

Lemma handlePlay_spent (roomCode token : string) (now : Z) (h : Hub) :
  roomCode <> "" -> token <> "" -> pendingJoins h !! token = None ->
  handlePlay ToUpper roomCode token now h = (StatusUnauthorized, h).
Proof.
  intros Hr Ht Hnone. unfold handlePlay.
  rewrite bool_decide_eq_false_2 by exact Hr.
  rewrite bool_decide_eq_false_2 by exact Ht. cbn [orb].
  unfold consumeToken. rewrite Hnone. reflexivity.
Qed.

(** X11. [handleJoinRoom] looks the room up under the trimmed, upper-cased
    id: with no such room it answers 404 and with a room that is not in the
    lobby phase 409, and the hub is unchanged.  Otherwise it answers 200 with
    the code and the token made of the clock's reading and the counter,
    registers for the token a pending join for that code (with the name, or
    "Player" for a blank name) and leaves the rooms as they are.  The token
    is fresh, that is, not pending before: this holds in a hub whose pending
    tokens were all made by [generateToken] from values of the counter not
    above the counter, short of the counter's overflow, and the hub is such a
    hub again afterwards.  Presented with the same code within 60 seconds,
    [handlePlay] upgrades the connection for that pending join and burns the
    token: presenting it again is answered 401.  Presented with another
    room, the token is answered 403 and is burnt as well. *)
Theorem X11_join_then_play (h : Hub) (roomID playerName : string) (t : Clock) :
  (forall s, ToUpper (ToUpper s) = ToUpper s) ->
  let code := ToUpper (TrimSpace roomID) in
  let out := handleJoinRoom ToUpper TrimSpace roomID playerName t h in
  (rooms h !! code = None -> out = (JoinNotFound code, h)) /\
  (forall room, rooms h !! code = Some room -> phase room <> PhaseLobby ->
     out = (JoinConflict, h)) /\
  (forall room, rooms h !! code = Some room -> phase room = PhaseLobby ->
     exists tok pj h',
       out = (JoinOK code tok, h') /\ tok <> "" /\ rooms h' = rooms h /\
       pendingJoins h' !! tok = Some pj /\
       RoomCode pj = code /\ PlayerName pj = playerNameOr TrimSpace playerName /\
       CreatedAt pj = atCreated t /\
       tok = "tok_" +:+ pretty (atToken t) +:+ "_" +:+
             pretty (GoInt.add (GoInt.add (nextID h) 1) 1) /\
       (tokens_ok h -> - 2 ^ 63 <= nextID h -> nextID h + 2 < 2 ^ 63 ->
        pendingJoins h !! tok = None /\ nextID h' = nextID h + 2 /\
        tokens_ok h') /\
       forall now, now - atCreated t <= 60 * Second -> code <> "" ->
         (exists h'',
            handlePlay ToUpper code tok now h' = (Upgrade pj, h'') /\
            rooms h'' = rooms h /\ pendingJoins h'' !! tok = None /\
            forall now2,
              handlePlay ToUpper code tok now2 h'' = (StatusUnauthorized, h'')) /\
         (forall other, other <> "" -> ToUpper other <> code ->
            exists h'',
              handlePlay ToUpper other tok now h' = (StatusForbidden, h'') /\
              pendingJoins h'' !! tok = None)).
Proof.
  intros Hidem code out.
  assert (getRoom ToUpper h code = rooms h !! code) as Hget
    by (unfold getRoom, code; rewrite Hidem; reflexivity).
  unfold out, handleJoinRoom. fold code. rewrite Hget.
  split; [intros ->; reflexivity|]. split.
  { intros room -> Hph. destruct (decide _); [reflexivity|contradiction]. }
  intros room Hroom Hph. rewrite Hroom.
  destruct (decide (phase room <> PhaseLobby)) as [|_]; [contradiction|].
  cbn [generatePlayerID generateToken nextID rooms pendingJoins].
  set (tok := "tok_" +:+ pretty (atToken t) +:+ "_" +:+
              pretty (GoInt.add (GoInt.add (nextID h) 1) 1)).
  set (pj := {| RoomCode := code; PlayerName := playerNameOr TrimSpace playerName;
                PlayerID := _; CreatedAt := atCreated t |}).
  set (h2 := {| rooms := rooms h; pendingJoins := pendingJoins h; nextID := _ |}).
  destruct (addPendingJoin_lookup tok pj (atSweep t) h2) as (Hlk & Hrooms & _).
  assert (tok <> "") as Htok by discriminate.
  exists tok, pj, (addPendingJoin tok pj (atSweep t) h2).
  split; [reflexivity|]. split; [exact Htok|]. split; [exact Hrooms|].
  split; [exact Hlk|]. split; [reflexivity|]. split; [reflexivity|].
  split; [reflexivity|]. split; [reflexivity|].
  split.
  { intros Hok Hlo Hhi.
    assert (GoInt.add (GoInt.add (nextID h) 1) 1 = nextID h + 2) as Hcount.
    { unfold GoInt.add. rewrite (GoIntFacts.wrap_id (nextID h + 1)) by lia.
      rewrite GoIntFacts.wrap_id by lia. lia. }
    split; [|split].
    - unfold tok. rewrite Hcount. apply token_fresh; [exact Hok|lia].
    - cbn [nextID addPendingJoin setPendingJoins h2]. exact Hcount.
    - unfold tok. apply addPendingJoin_tokens_ok.
      + intros k pk Hk. destruct (Hok k pk Hk) as (t' & n' & Heq & Hle).
        exists t', n'. split; [exact Heq|]. cbn [nextID h2]. lia.
      + cbn [nextID h2]. lia. }
  assert (ToUpper code = code) as Hup by apply Hidem.
  set (h' := addPendingJoin tok pj (atSweep t) h2) in *.
  intros now Hyoung Hcode. split.
  - exists (setPendingJoins (delete tok (pendingJoins h')) h').
    rewrite (handlePlay_fresh code tok now _ pj Hcode Htok Hlk Hyoung).
    cbn [RoomCode pj]. rewrite Hup.
    destruct (decide (code <> code)) as [Hne|_]; [congruence|].
    rewrite Hrooms. cbn [rooms h2]. rewrite Hroom.
    split; [reflexivity|]. cbn [rooms pendingJoins setPendingJoins].
    split; [exact Hrooms|]. split; [apply lookup_delete_eq|].
    intros now2. apply handlePlay_spent; [exact Hcode|exact Htok|].
    cbn [pendingJoins setPendingJoins]. apply lookup_delete_eq.
  - intros other Hother Hne.
    exists (setPendingJoins (delete tok (pendingJoins h')) h').
    rewrite (handlePlay_fresh other tok now _ pj Hother Htok Hlk Hyoung).
    cbn [RoomCode pj].
    destruct (decide (code <> ToUpper other)) as [_|Heq];
      [|exfalso; apply Heq; congruence].
    split; [reflexivity|]. cbn [pendingJoins setPendingJoins].
    apply lookup_delete_eq.
Qed.

End DeskFacts.

(** *** Where garbage can go *)

Section GarbageFacts.
Context {R : Type} `{RandSource R}.

Lemma handleLinesCleared_cases (attackerID : string)
    (payload : protocol.LinesClearedPayload) (r : Room) (g : R) :
  let r' := (handleLinesCleared attackerID payload r g).1 in
  r' = r \/
  exists tid t,
    tid <> attackerID /\ players r !! tid = Some t /\ Alive t = true /\
    0 < protocol.AttackPower payload /\ is_Some (players r !! attackerID) /\
    r' = garbageSentTo tid attackerID (protocol.AttackPower payload) t r.
Proof.
  cbn zeta. unfold handleLinesCleared.
  destruct (Z.leb_spec (protocol.AttackPower payload) 0) as [|Hpos];
    [left; reflexivity|].
  destruct (players r !! attackerID) as [attacker|] eqn:Ha; [|left; reflexivity].
  pose proof (ServerFacts.resolveTarget_member attackerID attacker r g) as Hmem.
  destruct (resolveTarget attackerID attacker r g) as [[tid|] g'];
    [|left; reflexivity].
  destruct (Hmem tid eq_refl) as (Hne & t & Ht & Halive).
  rewrite Ht. right. exists tid, t. cbn [fst]. eauto 10.
Qed.

(** X19. Whatever the report, the target setting and the random source,
    [handleLinesCleared] changes at most one member, and only by sending it
    the garbage message: that member is alive and is not the attacker, the
    attack power is positive and the attacker is a member.  So a report with
    attack power 0 or less, or from a player who is not in the room, changes
    nothing (and draws nothing); the attacker never receives its own garbage,
    a dead member never receives any, nobody joins or leaves, and the phase,
    the seed and the winner are untouched. *)
Theorem X19_garbage_goes_to_one_alive_opponent (attackerID : string)
    (payload : protocol.LinesClearedPayload) (r : Room) (g : R) :
  let r' := (handleLinesCleared attackerID payload r g).1 in
  (protocol.AttackPower payload <= 0 \/ players r !! attackerID = None ->
   handleLinesCleared attackerID payload r g = (r, g)) /\
  (r' = r \/
   exists tid t,
     tid <> attackerID /\ players r !! tid = Some t /\ Alive t = true /\
     0 < protocol.AttackPower payload /\ is_Some (players r !! attackerID) /\
     r' = garbageSentTo tid attackerID (protocol.AttackPower payload) t r) /\
  code r' = code r /\ phase r' = phase r /\ seed r' = seed r /\
  winnerID r' = winnerID r /\
  players r' !! attackerID = players r !! attackerID /\
  (forall id p, players r !! id = Some p -> Alive p = false ->
     players r' !! id = Some p) /\
  (forall id, players r !! id = None -> players r' !! id = None).
Proof.
  cbn zeta. split.
  { intros [Hle|Hnone]; unfold handleLinesCleared.
    - destruct (Z.leb_spec (protocol.AttackPower payload) 0); [reflexivity|lia].
    - destruct (_ <=? 0); [reflexivity|]. rewrite Hnone. reflexivity. }
  pose proof (handleLinesCleared_cases attackerID payload r g) as Hc.
  cbn zeta in Hc. split; [exact Hc|].
  destruct Hc as [->|(tid & t & Hne & Ht & Halive & Hpos & Hmem & ->)];
    [auto 10|].
  unfold garbageSentTo. cbn [code phase seed winnerID players setPlayers].
  do 4 (split; [reflexivity|]).
  split; [apply lookup_insert_ne; exact Hne|]. split.
  - intros id p Hp Hdead. rewrite lookup_insert_ne; [exact Hp|].
    intros ->. congruence.
  - intros id Hnone. rewrite lookup_insert_ne; [exact Hnone|].
    intros ->. congruence.
Qed.

End GarbageFacts.

(** *** When a match goes on *)

Lemma two_elements {A} (l : list A) (x y : A) :
  x ∈ l -> y ∈ l -> x <> y -> (2 <= length l)%nat.
Proof.
  intros Hx Hy Hne. destruct l as [|a [|b l]]; cbn [length]; [|exfalso|lia].
  - inversion Hx.
  - apply list_elem_of_singleton in Hx, Hy. congruence.
Qed.

Lemma alivePlayers_two (r : Room) (a b : string) (pa pb : Player) :
  a <> b -> players r !! a = Some pa -> players r !! b = Some pb ->
  Alive pa = true -> Alive pb = true ->
  2 <= GoInt.len (alivePlayers r).
Proof.
  intros Hne Ha Hb Haa Hab. unfold alivePlayers, GoInt.len.
  rewrite ServerFacts.filter_snd_commute, length_fmap.
  assert (2 <= length (List.filter (fun kv : string * Player => Alive kv.2)
                         (map_to_list (players r))))%nat as Hlen; [|lia].
  apply (two_elements _ (a, pa) (b, pb)); [| |congruence];
    apply ServerFacts.filter_elem_of; (split; [apply elem_of_map_to_list|]);
    assumption.
Qed.

Lemma checkWinCondition_goes_on (r : Room) :
  2 <= GoInt.len (alivePlayers r) \/ playerCount r < minPlayers ->
  checkWinCondition r = r.
Proof.
  intros Hon. unfold checkWinCondition.
  destruct (Z.leb_spec (GoInt.len (alivePlayers r)) 1);
    destruct (Z.leb_spec minPlayers (playerCount r)); cbn [andb];
    try reflexivity.
  lia.
Qed.

(** X20. The win-condition check changes nothing while two or more members
    are alive, and nothing in a room of fewer than two members.  So the
    death of a member with two other members still alive only marks it dead:
    no message is sent and the phase stays.  And when one of the two members
    of a match leaves, the room is left playing with the other member, who is
    sent nothing: the match is not ended.  Outside the playing phase a leave
    only removes the member. *)
Theorem X20_match_goes_on (r : Room) (id : string) :
  (2 <= GoInt.len (alivePlayers r) \/ playerCount r < minPlayers ->
   checkWinCondition r = r) /\
  (forall (a b : string) (pa pb : Player),
     a <> b -> a <> id -> b <> id ->
     players r !! a = Some pa -> players r !! b = Some pb ->
     Alive pa = true -> Alive pb = true ->
     handlePlayerDead id r
     = setPlayers (alter (setAlive false) id (players r)) r) /\
  (is_Some (players r !! id) -> (size (players r) <= 2)%nat ->
   removePlayer id r = setPlayers (delete id (players r)) r) /\
  (phase r <> PhasePlaying ->
   removePlayer id r = setPlayers (delete id (players r)) r).
Proof.
  split; [apply checkWinCondition_goes_on|]. split; [|split].
  - intros a b pa pb Hab Ha Hb Hpa Hpb Haa Hab'. unfold handlePlayerDead.
    apply checkWinCondition_goes_on. left.
    apply (alivePlayers_two _ a b pa pb Hab); cbn [players setPlayers];
      rewrite ?lookup_alter_ne by congruence; assumption.
  - intros [p Hp] Hsize. unfold removePlayer.
    destruct (decide _); [|reflexivity].
    apply checkWinCondition_goes_on. right.
    unfold playerCount, minPlayers. cbn [players setPlayers].
    rewrite (map_size_delete_Some id (players r)) by eauto. lia.
  - intros Hph. unfold removePlayer. cbn [phase setPlayers].
    destruct (decide (phase r = PhasePlaying)); [contradiction|reflexivity].
Qed.

End SessionFacts.

(** * The client *)

Module TuiFacts.
Import Tui GoIntFacts.

Lemma firstIndex_absent (ids : list string) (id : string) (i pos : Z) :
  id ∉ ids -> firstIndex ids id i pos = pos.
Proof.
  revert i. induction ids as [|x ids IH]; intros i Hni; [reflexivity|].
  cbn [firstIndex]. apply not_elem_of_cons in Hni as [Hne Hni].
  destruct (decide (x = id)); [congruence|]. apply IH. exact Hni.
Qed.

Lemma firstIndex_NoDup (ids : list string) (id : string) (j : nat) (i pos : Z) :
  NoDup ids -> ids !! j = Some id ->
  firstIndex ids id i pos = i + Z.of_nat j.
Proof.
  revert j i. induction ids as [|x ids IH]; intros j i Hnd Hj; [discriminate|].
  apply NoDup_cons in Hnd as [Hni Hnd]. cbn [firstIndex].
  destruct j as [|j].
  - injection Hj as ->. destruct (decide (id = id)); [lia|congruence].
  - cbn in Hj. destruct (decide (x = id)) as [->|_].
    + exfalso. apply Hni. eapply list_elem_of_lookup_2. exact Hj.
    + rewrite (IH j (i + 1) Hnd Hj). lia.
Qed.


Lemma NoDup_fmap_filter {A} (f : A -> string) (g : A -> bool) (l : list A) :
  NoDup (f <$> l) -> NoDup (f <$> List.filter g l).
Proof.
  induction l as [|a l IH]; intros Hnd; [constructor|].
  cbn in Hnd. apply NoDup_cons in Hnd as [Hni Hnd]. cbn [List.filter].
  destruct (g a); [|apply IH; exact Hnd].
  cbn. apply NoDup_cons. split; [|apply IH; exact Hnd].
  intros Hin. apply Hni. apply list_elem_of_fmap in Hin as (a' & -> & Hin).
  apply ServerFacts.filter_elem_of in Hin as [Hin _].
  apply list_elem_of_fmap. exists a'. auto.
Qed.

(* The opponent an alive id names: where it is in the list. *)
Lemma alive_opponent (m : Model) (id : string) :
  NoDup (PlayerID <$> opponents m) -> id ∈ aliveIDs m ->
  exists (j : nat) (opp : OpponentState),
    opponents m !! j = Some opp /\ PlayerID opp = id /\ Alive opp = true /\
    forall pos, firstIndex (PlayerID <$> opponents m) id 0 pos = Z.of_nat j.
Proof.
  intros Hnd Hin. unfold aliveIDs in Hin.
  apply list_elem_of_fmap in Hin as (opp & -> & Hin).
  apply ServerFacts.filter_elem_of in Hin as [Hin Halive].
  apply list_elem_of_lookup in Hin as [j Hj].
  exists j, opp. split; [exact Hj|]. split; [reflexivity|]. split; [exact Halive|].
  intros pos. rewrite (firstIndex_NoDup _ (PlayerID opp) j 0 pos Hnd).
  - lia.
  - rewrite list_lookup_fmap, Hj. reflexivity.
Qed.

Lemma aliveIDs_length (m : Model) :
  (length (aliveIDs m) <= length (opponents m))%nat.
Proof.
  unfold aliveIDs. rewrite length_fmap.
  induction (opponents m) as [|o l IH]; [reflexivity|]. cbn [List.filter].
  destruct (Alive o); cbn [length]; lia.
Qed.

Lemma nextPos_spec (m : Model) (i : nat) :
  targeting_ok m -> (i <= length (aliveIDs m))%nat ->
  targetID m = posID (aliveIDs m) i ->
  GoInt.add (firstIndex (aliveIDs m) (targetID m) 0 (-1)) 1 = Z.of_nat i.
Proof.
  intros (_ & Hnd & Hblank & _ & Hlen) Hi Ht.
  pose proof (aliveIDs_length m) as Hle. unfold GoInt.len in Hlen.
  rewrite Ht. destruct i as [|i]; cbn [posID].
  - rewrite firstIndex_absent by exact Hblank. reflexivity.
  - destruct (lookup_lt_is_Some_2 (aliveIDs m) i) as [tid Htid]; [lia|].
    rewrite Htid. cbn [default from_option]. unfold id.
    rewrite (firstIndex_NoDup (aliveIDs m) tid i 0 (-1)
               (NoDup_fmap_filter _ _ _ Hnd) Htid).
    unfold GoInt.add. rewrite wrap_id by lia. lia.
Qed.


Lemma cycleTarget_advance (m : Model) (i : nat) :
  targeting_ok m -> (i < length (aliveIDs m))%nat ->
  targetID m = posID (aliveIDs m) i ->
  exists (m' : Model) (j : nat) (opp : OpponentState),
    cycleTarget m = Some m' /\
    targetID m' = posID (aliveIDs m) (S i) /\
    targetIndex m' = Z.of_nat j /\ opponents m !! j = Some opp /\
    PlayerID opp = targetID m' /\ Alive opp = true /\
    mode m' = mode m /\ opponents m' = opponents m /\
    connected m' = connected m /\
    outbox m' = outbox m ++
      (if connected m then [MsgSetTarget (targetID m')] else []).
Proof.
  intros Hok Hi Ht. pose proof Hok as (Hmode & Hnd & Hblank & Hne & _).
  destruct (lookup_lt_is_Some_2 (aliveIDs m) i Hi) as [tid Htid].
  destruct (alive_opponent m tid Hnd (list_elem_of_lookup_2 _ _ _ Htid))
    as (j & opp & Hj & Hopp & Halive & Hidx).
  unfold cycleTarget. rewrite bool_decide_eq_true_2 by exact Hmode. cbn [negb orb].
  assert (length (opponents m) <> 0)%nat as Hopps.
  { intros E. apply Hne. unfold aliveIDs.
    destruct (opponents m); [reflexivity|discriminate]. }
  unfold GoInt.len.
  destruct (Z.eqb_spec (Z.of_nat (length (opponents m))) 0); [lia|].
  destruct (Z.eqb_spec (Z.of_nat (length (aliveIDs m))) 0); [lia|].
  cbn zeta. rewrite (nextPos_spec m i Hok ltac:(lia) Ht).
  destruct (Z.leb_spec (Z.of_nat (length (aliveIDs m))) (Z.of_nat i)); [lia|].
  rewrite FlatBoardFacts.index_nat, Htid. cbn [mbind option_bind]. rewrite Hidx.
  eexists _, j, opp. split; [reflexivity|].
  unfold notify. cbn [posID]. rewrite Htid. cbn [default from_option].
  destruct (connected m) eqn:Hc; cbn [targetID targetIndex setTarget mode opponents
                                     connected outbox]; rewrite ?Hc;
    cbn [targetID targetIndex setTarget mode opponents connected outbox];
    rewrite ?app_nil_r; auto 12.
Qed.

Lemma cycleTarget_wrap (m : Model) :
  targeting_ok m ->
  targetID m = posID (aliveIDs m) (length (aliveIDs m)) ->
  exists m' : Model,
    cycleTarget m = Some m' /\ targetID m' = "" /\ targetIndex m' = -1 /\
    mode m' = mode m /\ opponents m' = opponents m /\
    connected m' = connected m /\
    outbox m' = outbox m ++ (if connected m then [MsgSetTarget ""] else []).
Proof.
  intros Hok Ht. pose proof Hok as (Hmode & Hnd & Hblank & Hne & _).
  unfold cycleTarget. rewrite bool_decide_eq_true_2 by exact Hmode. cbn [negb orb].
  assert (length (aliveIDs m) <> 0)%nat as Halive
    by (destruct (aliveIDs m); [congruence|discriminate]).
  assert (length (opponents m) <> 0)%nat as Hopps.
  { intros E. apply Hne. unfold aliveIDs.
    destruct (opponents m); [reflexivity|discriminate]. }
  unfold GoInt.len.
  destruct (Z.eqb_spec (Z.of_nat (length (opponents m))) 0); [lia|].
  destruct (Z.eqb_spec (Z.of_nat (length (aliveIDs m))) 0); [lia|].
  cbn zeta. rewrite (nextPos_spec m _ Hok (le_n _) Ht).
  destruct (Z.leb_spec (Z.of_nat (length (aliveIDs m)))
              (Z.of_nat (length (aliveIDs m)))); [|lia].
  cbn [mbind option_bind]. eexists. split; [reflexivity|].
  unfold notify.
  destruct (connected m) eqn:Hc; cbn [targetID targetIndex setTarget mode opponents
                                     connected outbox]; rewrite ?Hc;
    cbn [targetID targetIndex setTarget mode opponents connected outbox];
    rewrite ?app_nil_r; auto 12.
Qed.


Lemma targeting_ok_same (m m' : Model) :
  targeting_ok m -> mode m' = mode m -> opponents m' = opponents m ->
  targeting_ok m' /\ aliveIDs m' = aliveIDs m.
Proof.
  intros Hok Hm Ho. unfold targeting_ok, aliveIDs in *. rewrite Hm, Ho. auto.
Qed.

Lemma cycles_add (a b : nat) (m : Model) :
  cycles (a + b) m = cycles a m ≫= cycles b.
Proof.
  revert m. induction a as [|a IH]; intros m; [reflexivity|].
  cbn [Nat.add cycles]. destruct (cycleTarget m) as [m1|]; [|reflexivity].
  cbn [mbind option_bind]. apply IH.
Qed.

Lemma cycles_from (ids : list string) (k : nat) :
  forall (i : nat) (m : Model),
  targeting_ok m -> aliveIDs m = ids -> targetID m = posID ids i ->
  (i + k <= length ids)%nat ->
  exists m' : Model,
    cycles k m = Some m' /\ targetID m' = posID ids (i + k) /\
    mode m' = mode m /\ opponents m' = opponents m /\
    connected m' = connected m /\
    outbox m' = outbox m ++
      (if connected m then MsgSetTarget <$> take k (drop i ids) else []) /\
    ((0 < k)%nat ->
     exists (j : nat) (opp : OpponentState),
       targetIndex m' = Z.of_nat j /\ opponents m !! j = Some opp /\
       PlayerID opp = targetID m' /\ Alive opp = true).
Proof.
  induction k as [|k IH]; intros i m Hok Hids Ht Hik.
  - exists m. rewrite Nat.add_0_r. cbn [cycles take fmap list_fmap].
    split; [reflexivity|]. split; [exact Ht|].
    split; [reflexivity|]. split; [reflexivity|]. split; [reflexivity|].
    split; [destruct (connected m); rewrite app_nil_r; reflexivity|]. lia.
  - subst ids.
    destruct (cycleTarget_advance m i Hok ltac:(lia) Ht)
      as (m1 & j & opp & Hstep & Ht1 & Hidx & Hj & Hopp & Halive &
          Hm1 & Ho1 & Hc1 & Hout1).
    destruct (targeting_ok_same m m1 Hok Hm1 Ho1) as [Hok1 Hids1].
    destruct (IH (S i) m1 Hok1 Hids1 Ht1 ltac:(lia))
      as (m' & Hrun & Ht' & Hm' & Ho' & Hc' & Hout' & Hidx').
    exists m'. cbn [cycles]. rewrite Hstep. cbn [mbind option_bind].
    split; [exact Hrun|].
    split; [rewrite Ht'; f_equal; lia|].
    split; [congruence|]. split; [congruence|]. split; [congruence|].
    split.
    + rewrite Hout', Hout1, Hc1, Ht1. cbn [posID].
      destruct (lookup_lt_is_Some_2 (aliveIDs m) i ltac:(lia)) as [tid Htid].
      rewrite Htid. cbn [default from_option]. unfold id.
      rewrite (drop_S _ _ _ Htid). cbn [take fmap list_fmap].
      destruct (connected m); rewrite <- app_assoc; reflexivity.
    + intros _. destruct k as [|k].
      * cbn [cycles] in Hrun. injection Hrun as <-. exists j, opp. auto.
      * destruct (Hidx' ltac:(lia)) as (j' & opp' & H1 & H2 & H3 & H4).
        exists j', opp'. rewrite <- Ho1. auto.
Qed.

(** X14. In a multiplayer game with opponents of distinct ids, at least
    one of them alive, and "random" as the target: [k] presses of the Tab key,
    for [k] up to the number of alive opponents, never panic and make the
    [k]-th alive opponent of the list the target, with [targetIndex] the
    place of that opponent, alive, in the list; one press more returns to
    "random" with index -1.  Every press tells the server the new target,
    when there is a client; the opponents, the mode and the client are
    untouched. *)
Theorem X14_tab_cycles_through_alive_opponents (m : Model) :
  targeting_ok m -> targetID m = "" ->
  let ids := aliveIDs m in
  (forall k, (k <= length ids)%nat ->
     exists m' : Model,
       cycles k m = Some m' /\ targetID m' = posID ids k /\
       mode m' = mode m /\ opponents m' = opponents m /\
       connected m' = connected m /\
       outbox m' = outbox m ++
         (if connected m then MsgSetTarget <$> take k ids else []) /\
       ((0 < k)%nat ->
        exists (j : nat) (opp : OpponentState),
          targetIndex m' = Z.of_nat j /\ opponents m !! j = Some opp /\
          PlayerID opp = targetID m' /\ Alive opp = true)) /\
  (exists m' : Model,
     cycles (S (length ids)) m = Some m' /\
     targetID m' = "" /\ targetIndex m' = -1 /\
     outbox m' = outbox m ++
       (if connected m then (MsgSetTarget <$> ids) ++ [MsgSetTarget ""] else [])).
Proof.
  intros Hok Ht ids. split.
  - intros k Hk. exact (cycles_from ids k 0 m Hok eq_refl Ht Hk).
  - destruct (cycles_from ids (length ids) 0 m Hok eq_refl Ht (le_n _))
      as (m1 & Hrun & Ht1 & Hm1 & Ho1 & Hc1 & Hout1 & _).
    destruct (targeting_ok_same m m1 Hok Hm1 Ho1) as [Hok1 Hids1].
    cbn [Nat.add] in Ht1. fold ids in Hids1. rewrite <- Hids1 in Ht1.
    destruct (cycleTarget_wrap m1 Hok1 Ht1)
      as (m' & Hstep & Ht' & Hidx' & _ & _ & _ & Hout').
    exists m'. replace (S (length ids)) with (length ids + 1)%nat by lia.
    rewrite cycles_add, Hrun. cbn [mbind option_bind cycles]. rewrite Hstep.
    split; [reflexivity|]. split; [exact Ht'|]. split; [exact Hidx'|].
    rewrite Hout', Hout1, Hc1, drop_0, firstn_all.
    destruct (connected m); rewrite <- app_assoc; reflexivity.
Qed.

End TuiFacts.

Module ClientFacts.
Import Tui.
Import Game GamePlay Client GamePlayFacts.

Section Facts.
Context {R : Type} `{RandSource R}.

Lemma NewSeededGameState_level (playerID playerName : string) (s : Z)
    (gs : GameState R) :
  NewSeededGameState playerID playerName s = Some gs ->
  Level gs = 1 /\ IsGameOver gs = false /\ GarbageQueue gs = 0 /\
  Score gs = 0 /\ AttackPower gs = 0.
Proof.
  unfold NewSeededGameState. intros Hs.
  destruct (Next (NewPieceGenerator s)) as [[cur gen1]|]; [|discriminate].
  cbn [mbind option_bind] in Hs.
  destruct (Next gen1) as [[nxt gen2]|]; [|discriminate].
  cbn [mbind option_bind] in Hs. injection Hs as <-. auto.
Qed.

Lemma handleServerMsg_GameStart (s : Z) (ids : list string) (c : Client) :
  exists gs,
    NewSeededGameState (playerID c) (playerName c) s = Some gs /\
    seeded s 0 false gs /\
    handleServerMsg (protocol.mkEnvelope protocol.MsgGameStart
                       (protocol.GameStartPayload s ids)) c
    = Some {| model := Tui.setTarget "" (-1) (model c); screen := ScreenPlaying;
              playerID := playerID c; playerName := playerName c;
              gameState := Some gs; countdown := countdown c;
              lobbyPlayers := lobbyPlayers c; seed := s;
              matchPlayers := ids; matchResult := None |}.
Proof.
  destruct (seeded_start (playerID c) (playerName c) s) as (gs & Hgs & Hseeded).
  exists gs. split; [exact Hgs|]. split; [exact Hseeded|].
  unfold handleServerMsg. cbn [protocol.EType protocol.EPayload].
  rewrite Hgs. cbn [mbind option_bind].
  destruct (NewSeededGameState_level _ _ _ _ Hgs) as (Hl & _).
  unfold GetDropSpeed. rewrite Hl. reflexivity.
Qed.

(* Two games of one seed after the same number of draws show the same next
   piece and, with no hold, the same current piece. *)
Lemma seeded_same (s : Z) (d : nat) (h1 h2 : bool) (gs1 gs2 : GameState R) :
  seeded s d h1 gs1 -> seeded s d h2 gs2 ->
  Typ (NextPiece gs1) = Typ (NextPiece gs2) /\
  (h1 = false -> h2 = false ->
   Typ (CurrentPiece gs1) = Typ (CurrentPiece gs2)).
Proof.
  intros (_ & _ & ts1 & pg1 & t1 & Hr1 & _ & Ht1 & Hn1 & Hh1)
         (_ & _ & ts2 & pg2 & t2 & Hr2 & _ & Ht2 & Hn2 & Hh2).
  rewrite Hr1 in Hr2. injection Hr2 as <- <-.
  split; [congruence|]. intros -> ->.
  destruct Hh1 as (_ & _ & Hc1), Hh2 as (_ & _ & Hc2). congruence.
Qed.

(** X15. A client that receives the game-start message creates a seeded
    game from the message's seed under its own id and name (level 1, score 0,
    no garbage), goes to the playing screen, takes over the seed and the list
    of players, forgets the last match result and resets its target to
    "random"; it never panics.  Two clients that receive the same message
    play the same pieces: whatever each of them does (locks, holds, moves,
    turns, garbage received) and whatever their global random sources hold,
    after the same number of draws both see the same next piece and, if
    neither has held a piece, the same current piece. *)
Theorem X15_game_start_same_pieces_for_all (s : Z) (ids : list string)
    (c1 c2 : Client) :
  let env := protocol.mkEnvelope protocol.MsgGameStart
               (protocol.GameStartPayload s ids) in
  exists (c1' c2' : Client) (gs1 gs2 : GameState R),
    handleServerMsg env c1 = Some c1' /\ handleServerMsg env c2 = Some c2' /\
    gameState c1' = Some gs1 /\ gameState c2' = Some gs2 /\
    screen c1' = ScreenPlaying /\ seed c1' = s /\ matchPlayers c1' = ids /\
    matchResult c1' = None /\
    Tui.targetID (model c1') = "" /\ Tui.targetIndex (model c1') = -1 /\
    Level gs1 = 1 /\ Score gs1 = 0 /\ GarbageQueue gs1 = 0 /\
    forall (ops1 ops2 : list PlayOp) (g1 g2 : R),
      countDraws false ops1 = countDraws false ops2 ->
      exists gs1' g1' gs2' g2',
        runPlay ops1 gs1 g1 = Some (gs1', g1') /\
        runPlay ops2 gs2 g2 = Some (gs2', g2') /\
        Typ (NextPiece gs1') = Typ (NextPiece gs2') /\
        (hasHold ops1 = false -> hasHold ops2 = false ->
         Typ (CurrentPiece gs1') = Typ (CurrentPiece gs2')).
Proof.
  cbn zeta.
  destruct (handleServerMsg_GameStart s ids c1) as (gs1 & Hgs1 & Hs1 & H1).
  destruct (handleServerMsg_GameStart s ids c2) as (gs2 & Hgs2 & Hs2 & H2).
  destruct (NewSeededGameState_level _ _ _ _ Hgs1) as (Hl & _ & Hq & Hsc & _).
  eexists _, _, gs1, gs2. split; [exact H1|]. split; [exact H2|].
  cbn [gameState screen seed matchPlayers matchResult model Tui.targetID
       Tui.targetIndex Tui.setTarget].
  do 8 (split; [reflexivity|]).
  split; [exact Hl|]. split; [exact Hsc|]. split; [exact Hq|].
  intros ops1 ops2 g1 g2 Hd.
  destruct (seeded_runPlay s ops1 0 false gs1 g1 Hs1) as (gs1' & g1' & Hr1 & Hs1').
  destruct (seeded_runPlay s ops2 0 false gs2 g2 Hs2) as (gs2' & g2' & Hr2 & Hs2').
  cbn [orb Nat.add] in Hs1', Hs2'. rewrite Hd in Hs1'.
  exists gs1', g1', gs2', g2'. split; [exact Hr1|]. split; [exact Hr2|].
  exact (seeded_same s _ _ _ gs1' gs2' Hs1' Hs2').
Qed.


Lemma calculateAttack_other (n : Z) :
  n <> 2 -> n <> 3 -> n <> 4 -> calculateAttack n = 0.
Proof.
  intros H2 H3 H4. unfold calculateAttack.
  destruct n as [|p|p]; try reflexivity.
  destruct p as [p|p|]; try reflexivity;
    destruct p as [p|p|]; try reflexivity; try lia;
    destruct p as [p|p|]; try reflexivity; lia.
Qed.

Lemma sendAttackIfNeeded_idle (c : Client) (gs : GameState R) :
  gameState c = Some gs -> AttackPower gs <= 0 -> sendAttackIfNeeded c = c.
Proof.
  intros Hgs Ha. unfold sendAttackIfNeeded. rewrite Hgs.
  destruct (_ || _); [reflexivity|].
  destruct (Z.ltb_spec 0 (AttackPower gs)); [lia|reflexivity].
Qed.

Lemma sendAttackIfNeeded_sends (c : Client) (gs : GameState R) :
  Tui.mode (model c) = Tui.ModeMulti -> Tui.connected (model c) = true ->
  gameState c = Some gs -> 0 < AttackPower gs ->
  sendAttackIfNeeded c =
    setGameState (Some (setAttackPower 0 gs))
      (setModel (Tui.notify (Tui.MsgLinesCleared (AttackPower gs) (AttackPower gs))
                   (model c)) c).
Proof.
  intros Hm Hc Hgs Ha. unfold sendAttackIfNeeded. rewrite Hgs, Hc.
  rewrite bool_decide_eq_true_2 by exact Hm. cbn [negb orb].
  destruct (Z.ltb_spec 0 (AttackPower gs)); [reflexivity|lia].
Qed.

(** X16. The way of an attack.  A connected multiplayer client locks a piece
    on a game board, clearing [n] lines, and calls [sendAttackIfNeeded].  For
    [n] below 2 or above 4 nothing is sent.  For [n] from 2 to 4 the client
    sends one lines-cleared message whose count and attack power are both
    [attackTable[n]] (1, 2, 4) and resets its attack power, so a second call
    sends nothing.  The room, for an attacker whose chosen target is valid,
    queues for that target, and for nobody else, the garbage message with
    that many lines (the target's queue being open with room left), and draws
    nothing.  The target's client, its game running, adds that many lines to
    its garbage queue (in [int] arithmetic). *)
Theorem X16_attack_reaches_the_target
    (cA cT : Client) (stA stT : GameState R) (g gS : R)
    (r : Server.Room) (aid : string) (attacker t : Server.Player) :
  Tui.mode (model cA) = Tui.ModeMulti -> Tui.connected (model cA) = true ->
  gameState cA = Some stA -> game_board (GBoard stA) ->
  Server.players r !! aid = Some attacker ->
  Server.validTarget aid attacker r ->
  Server.players r !! Server.TargetID attacker = Some t ->
  Server.sendClosed t = false ->
  (length (Server.sendCh t) < Server.sendChCap)%nat ->
  gameState cT = Some stT -> IsGameOver stT = false ->
  exists n stA' g',
    LockPiece stA g = Some (n, stA', g') /\
    let cA1 := sendAttackIfNeeded (setGameState (Some stA') cA) in
    (n < 2 \/ 4 < n -> cA1 = setGameState (Some stA') cA) /\
    (2 <= n <= 4 ->
     let a := nth (Z.to_nat n) attackTable 0 in
     let env := Server.receiveGarbage a aid in
     0 < a /\
     Tui.outbox (model cA1)
       = Tui.outbox (model cA) ++ [Tui.MsgLinesCleared a a] /\
     gameState cA1 = Some (setAttackPower 0 stA') /\
     sendAttackIfNeeded cA1 = cA1 /\
     exists (r' : Server.Room) (t' : Server.Player),
       Server.handleLinesCleared aid
         {| protocol.Count := a; protocol.AttackPower := a |} r gS = (r', gS) /\
       Server.players r' !! Server.TargetID attacker = Some t' /\
       Server.sendCh t' = Server.sendCh t ++ [env] /\
       (forall id, id <> Server.TargetID attacker ->
          Server.players r' !! id = Server.players r !! id) /\
       handleServerMsg env cT
         = Some (setGameState (Some (ReceiveGarbage stT a)) cT) /\
       GarbageQueue (ReceiveGarbage stT a) = GoInt.wrap (GarbageQueue stT + a)).
Proof.
  intros Hmode Hconn HgsA Hboard Hatt Hvalid Ht Hopen Hroom HgsT Hrun.
  destruct (GameStateFacts.LockPiece_steps stA g Hboard)
    as (b1 & b2 & n & next & gen & g1 & b3 & queue & g2 & over &
        _ & _ & _ & Hn & _ & _ & _ & _ & HL).
  eexists n, _, g2. split; [exact HL|]. cbn zeta.
  set (stA' := {| GBoard := b3 |}).
  set (c1 := setGameState (Some stA') cA).
  assert (AttackPower stA' = if 0 <? n then calculateAttack n else 0) as Hap
    by reflexivity.
  split.
  - intros Hsmall. apply (sendAttackIfNeeded_idle c1 stA' eq_refl).
    rewrite Hap. destruct (Z.ltb_spec 0 n); [|lia].
    rewrite calculateAttack_other by lia. lia.
  - intros Hmid.
    assert (n = 2 \/ n = 3 \/ n = 4) as Hcases by lia.
    assert (AttackPower stA' = nth (Z.to_nat n) attackTable 0 /\
            0 < nth (Z.to_nat n) attackTable 0) as [Ha Hpos].
    { rewrite Hap.
      destruct Hcases as [-> | [-> | ->]]; vm_compute; split; reflexivity. }
    set (a := nth (Z.to_nat n) attackTable 0) in *.
    rewrite (sendAttackIfNeeded_sends c1 stA' Hmode Hconn eq_refl) by lia.
    rewrite Ha. split; [exact Hpos|].
    split.
    { cbn [model setGameState setModel c1]. unfold Tui.notify.
      rewrite Hconn. reflexivity. }
    split; [reflexivity|].
    split.
    { eapply sendAttackIfNeeded_idle; [reflexivity|].
      cbn [AttackPower setAttackPower]. lia. }
    eexists _, _. split.
    { rewrite (ServerFacts.handleLinesCleared_resolved aid attacker)
        by (cbn [protocol.AttackPower]; assumption).
      rewrite ServerFacts.resolveTarget_valid by exact Hvalid.
      rewrite Ht. reflexivity. }
    unfold Server.garbageSentTo. cbn [Server.players Server.setPlayers protocol.AttackPower].
    split; [apply lookup_insert_eq|].
    split; [apply ServerFacts.send_queued; assumption|].
    split; [intros id Hid; apply lookup_insert_ne; congruence|].
    split.
    { unfold handleServerMsg, Server.receiveGarbage.
      cbn [protocol.EType protocol.EPayload]. rewrite HgsT, Hrun. reflexivity. }
    reflexivity.
Qed.

End Facts.
End ClientFacts.

(** * The lobby of package player *)

Module LobbyFacts.
Import player LobbyOps GoIntFacts.

Lemma lobbyStep_ok (op : LobbyOp) (l : Lobby) : lobby_ok l -> lobby_ok (lobbyStep op l).
Proof.
  intros Hok id p. destruct op; cbn [lobbyStep AddPlayer RemovePlayer SetPlayerReady
    SetPlayerAlive SetAttackTarget IncrementKills Reset players snd].
  - destruct (decide (id0 = id)) as [->|Hne].
    + rewrite lookup_insert_eq. intros [= <-]. reflexivity.
    + rewrite lookup_insert_ne by exact Hne. apply Hok.
  - destruct (decide (id0 = id)) as [->|Hne].
    + rewrite lookup_delete_eq. discriminate.
    + rewrite lookup_delete_ne by exact Hne. apply Hok.
  - destruct (decide (id0 = id)) as [->|Hne].
    + rewrite lookup_alter_eq. destruct (players l !! id) as [q|] eqn:E; [|discriminate].
      cbn. intros [= <-]. cbn. apply (Hok id q E).
    + rewrite lookup_alter_ne by exact Hne. apply Hok.
  - destruct (decide (id0 = id)) as [->|Hne].
    + rewrite lookup_alter_eq. destruct (players l !! id) as [q|] eqn:E; [|discriminate].
      cbn. intros [= <-]. cbn. apply (Hok id q E).
    + rewrite lookup_alter_ne by exact Hne. apply Hok.
  - destruct (decide (id0 = id)) as [->|Hne].
    + rewrite lookup_alter_eq. destruct (players l !! id) as [q|] eqn:E; [|discriminate].
      cbn. intros [= <-]. cbn. apply (Hok id q E).
    + rewrite lookup_alter_ne by exact Hne. apply Hok.
  - destruct (decide (id0 = id)) as [->|Hne].
    + rewrite lookup_alter_eq. destruct (players l !! id) as [q|] eqn:E; [|discriminate].
      cbn. intros [= <-]. cbn. apply (Hok id q E).
    + rewrite lookup_alter_ne by exact Hne. apply Hok.
  - rewrite lookup_fmap. destruct (players l !! id) as [q|] eqn:E; [|discriminate].
    cbn. intros [= <-]. cbn. apply (Hok id q E).
Qed.

Lemma runLobby_ok (ops : list LobbyOp) (l : Lobby) :
  lobby_ok l -> lobby_ok (runLobby ops l).
Proof.
  revert l. induction ops as [|op ops IH]; intros l Hok; [exact Hok|].
  cbn. apply IH, lobbyStep_ok, Hok.
Qed.

(* The counting loop counts the players the filter keeps. *)
Lemma count_filter (f : Player -> bool) (ps : list Player) (c : Z) :
  0 <= c -> c + Z.of_nat (length ps) < 2 ^ 63 ->
  foldl (fun count p => if f p then GoInt.add count 1 else count) c ps
  = c + Z.of_nat (length (List.filter f ps)).
Proof.
  revert c. induction ps as [|p ps IH]; intros c Hc Hfit; cbn [foldl List.filter].
  - cbn. lia.
  - cbn [length] in Hfit. destruct (f p).
    + unfold GoInt.add. rewrite wrap_id by lia. rewrite IH by lia.
      cbn [length]. lia.
    + apply IH; lia.
Qed.

Lemma filter_length_le {A} (f : A -> bool) (l : list A) :
  (length (List.filter f l) <= length l)%nat.
Proof.
  induction l as [|a l IH]; [reflexivity|]. cbn [List.filter].
  destruct (f a); cbn [length]; lia.
Qed.

Lemma GetAllPlayers_length (l : Lobby) :
  Z.of_nat (length (GetAllPlayers l)) = Count l.
Proof.
  unfold GetAllPlayers, Count. rewrite length_fmap, length_map_to_list.
  reflexivity.
Qed.

Lemma GetAllPlayers_Reset (l : Lobby) :
  GetAllPlayers (Reset l)
  = (fun p => {| ID := ID p; Name := Name p; Ready := false; IsAlive := true;
                 AttackTarget := ""; Kills := 0 |}) <$> GetAllPlayers l.
Proof.
  unfold GetAllPlayers, Reset. cbn [players].
  rewrite map_to_list_fmap, <- !list_fmap_compose. reflexivity.
Qed.

Lemma GetAllPlayers_member (l : Lobby) (p : Player) :
  lobby_ok l -> p ∈ GetAllPlayers l -> players l !! ID p = Some p.
Proof.
  intros Hok Hin. unfold GetAllPlayers in Hin.
  apply list_elem_of_fmap in Hin as ([k q] & -> & Hin).
  apply elem_of_map_to_list in Hin. cbn. rewrite (Hok k q Hin). exact Hin.
Qed.

(** X22. The lobby of package [player], after any sequence of its calls
    from [NewLobby].  Every player is stored under its own id.  [CountAlive]
    and [CountReady] are the lengths of [GetAlivePlayers] and
    [GetReadyPlayers] and at most [Count]; after [Reset] every player is alive
    and none is ready.  [GetRandomAliveTarget] draws nothing: it returns the
    first alive player other than [excludeID] in the order of the range, and
    the empty string when there is none; an id it returns is that of an alive
    member other than [excludeID].  (The length of the map is an [int].) *)
Theorem X22_lobby_counts_and_target (ops : list LobbyOp) (excludeID : string) :
  let l := runLobby ops NewLobby in
  let t := GetRandomAliveTarget excludeID l in
  lobby_ok l /\
  (Count l < 2 ^ 63 ->
   CountAlive l = GoInt.len (GetAlivePlayers l) /\
   CountReady l = GoInt.len (GetReadyPlayers l) /\
   CountAlive l <= Count l /\ CountReady l <= Count l /\
   CountAlive (Reset l) = Count l /\ CountReady (Reset l) = 0) /\
  Count (Reset l) = Count l /\
  t = default "" (head (aliveOthers excludeID l)) /\
  (t <> "" ->
   t <> excludeID /\ exists p, players l !! t = Some p /\ IsAlive p = true) /\
  ((forall id p, players l !! id = Some p -> IsAlive p = true -> id = excludeID) ->
   t = "").
Proof.
  intros l t.
  assert (lobby_ok l) as Hok.
  { apply runLobby_ok. intros id p. cbn. rewrite lookup_empty. discriminate. }
  split; [exact Hok|]. split; [|split; [|split; [|split]]].
  - intros Hfit. pose proof (GetAllPlayers_length l) as Hlen.
    pose proof (filter_length_le IsAlive (GetAllPlayers l)) as Ha.
    pose proof (filter_length_le Ready (GetAllPlayers l)) as Hr.
    unfold CountAlive, CountReady, GetAlivePlayers, GetReadyPlayers, GoInt.len.
    rewrite !count_filter by lia. rewrite !Z.add_0_l.
    split; [reflexivity|]. split; [reflexivity|]. split; [lia|]. split; [lia|].
    rewrite GetAllPlayers_Reset.
    rewrite !count_filter by (rewrite ?length_fmap; lia). rewrite !Z.add_0_l.
    split.
    + rewrite SessionFacts.filter_all_true.
      * rewrite length_fmap. exact Hlen.
      * intros p Hp. apply list_elem_of_fmap in Hp as (q & -> & _). reflexivity.
    + rewrite ServerFacts.filter_all_false; [reflexivity|].
      intros p Hp. apply list_elem_of_fmap in Hp as (q & -> & _). reflexivity.
  - unfold Count, Reset. cbn [players]. rewrite map_size_fmap. reflexivity.
  - apply ServerFacts.GetRandomAliveTarget_first.
  - intros Ht. unfold t in Ht. rewrite ServerFacts.GetRandomAliveTarget_first in Ht.
    unfold t. rewrite ServerFacts.GetRandomAliveTarget_first.
    destruct (aliveOthers excludeID l) as [|a rest] eqn:E; [contradiction|].
    cbn [head default from_option] in *. unfold id in *.
    assert (a ∈ aliveOthers excludeID l) as Hin by (rewrite E; left).
    unfold aliveOthers in Hin. apply list_elem_of_fmap in Hin as (p & -> & Hin).
    apply ServerFacts.filter_elem_of in Hin as [Hin Hf].
    apply andb_prop in Hf as [Halive Hne]. apply bool_decide_eq_true in Hne.
    split; [exact Hne|]. exists p. split; [|exact Halive].
    apply GetAllPlayers_member; assumption.
  - intros Hnone. unfold t. rewrite ServerFacts.GetRandomAliveTarget_first.
    unfold aliveOthers. rewrite ServerFacts.filter_all_false; [reflexivity|].
    intros p Hp. pose proof (GetAllPlayers_member l p Hok Hp) as Hmem.
    destruct (IsAlive p) eqn:Ea; [|reflexivity]. cbn [andb].
    apply bool_decide_eq_false. intros Hne. apply Hne.
    exact (Hnone (ID p) p Hmem Ea).
Qed.

End LobbyFacts.

(** * Connections: arrival and leave *)

Module ConnectionFacts.
Import Server Session Connection.

Lemma broadcastLobbyUpdate_spec (r : Room) :
  broadcastLobbyUpdate r
  = setPlayers (send (lobbyUpdate (lobbyList r)) <$> players r) r.
Proof. reflexivity. Qed.

Lemma lobbyList_length (r : Room) : length (lobbyList r) = size (players r).
Proof. unfold lobbyList. rewrite length_fmap, length_map_to_list. reflexivity. Qed.

Lemma lobbyList_member (r : Room) (lp : protocol.LobbyPlayer) :
  lp ∈ lobbyList r <->
  exists id q, players r !! id = Some q /\
               lp = protocol.mkLobbyPlayer (ID q) (Name q) (Ready q).
Proof.
  unfold lobbyList. rewrite list_elem_of_fmap. split.
  - intros ([id q] & -> & Hin). apply elem_of_map_to_list in Hin. eauto.
  - intros (id & q & Hq & ->). exists (id, q). split; [reflexivity|].
    apply elem_of_map_to_list. exact Hq.
Qed.

(* the list of a lobby update reads the id, the name and the ready flag *)
Lemma lobbyList_ext (f : Player -> Player) (r : Room) :
  (forall q, ID (f q) = ID q /\ Name (f q) = Name q /\ Ready (f q) = Ready q) ->
  lobbyList (setPlayers (f <$> players r) r) = lobbyList r.
Proof.
  intros Hf. unfold lobbyList. cbn [players setPlayers].
  rewrite map_to_list_fmap, <- list_fmap_compose.
  apply list_fmap_ext. intros i [id q] _. cbn.
  destruct (Hf q) as (-> & -> & ->). reflexivity.
Qed.


Lemma connect_spec (pumped : bool) (pj : PendingJoin) (r : Room) :
  let pid := PlayerID pj in
  let joined := {| ID := pid; Name := PlayerName pj; Ready := false;
                   Alive := true;
                   sendCh := if pumped then [] else [assignID pid];
                   sendClosed := false; roomID := code r; TargetID := "" |} in
  let r3 := setPlayers (<[pid := joined]> (players r)) r in
  connect pumped pj r
  = setPlayers (send (lobbyUpdate (lobbyList r3)) <$> players r3) r3.
Proof.
  cbn zeta. unfold connect. rewrite broadcastLobbyUpdate_spec.
  match goal with
  | |- setPlayers (_ <$> players ?a) ?a = setPlayers (_ <$> players ?b) ?b =>
      assert (a = b) as ->; [|reflexivity]
  end.
  unfold addPlayer. cbn [ID newPlayer players setPlayers].
  rewrite alter_insert_eq.
  destruct pumped; cbn [players setPlayers].
  - rewrite alter_insert_eq. reflexivity.
  - reflexivity.
Qed.

(** X23. A connection that [handlePlay] upgrades.  The new player is a member
    under its id, not ready, alive, with the room's code as [roomID] and an
    open queue; the messages sent to it are its id and then the lobby update,
    in this order and none dropped, whether or not its write pump has taken
    the first by then.  Every other member is sent the same lobby update (by
    [send]) and is otherwise unchanged.  The update lists exactly the members
    of the room, the new one included.  Phase, code, seed and winner are
    kept; the room cannot start right after a connection, since the new
    member is not ready; and members stay stored under their ids. *)
Theorem X23_connection_joins_the_room (pumped : bool) (pj : PendingJoin) (r : Room) :
  let pid := PlayerID pj in
  let r' := connect pumped pj r in
  exists (upd : list protocol.LobbyPlayer) (p' : Player),
    players r' !! pid = Some p' /\
    (ID p' = pid /\ Name p' = PlayerName pj /\ Ready p' = false /\
     Alive p' = true /\ roomID p' = code r /\ TargetID p' = "" /\
     sendClosed p' = false) /\
    (if pumped then [assignID pid] else []) ++ sendCh p'
    = [assignID pid; lobbyUpdate upd] /\
    (forall id, id <> pid ->
       players r' !! id = send (lobbyUpdate upd) <$> players r !! id) /\
    (forall lp, lp ∈ upd <->
       exists id q, players r' !! id = Some q /\
                    lp = protocol.mkLobbyPlayer (ID q) (Name q) (Ready q)) /\
    length upd = size (players r') /\
    (phase r' = phase r /\ code r' = code r /\ seed r' = seed r /\
     winnerID r' = winnerID r) /\
    canStart r' = false /\
    (room_ok r -> pid <> "" -> room_ok r').
Proof.
  cbn zeta. rewrite connect_spec.
  set (pid := PlayerID pj).
  set (joined := {| ID := pid; Name := PlayerName pj; Ready := false;
                    Alive := true;
                    sendCh := if pumped then [] else [assignID pid];
                    sendClosed := false; roomID := code r; TargetID := "" |}).
  set (r3 := setPlayers (<[pid := joined]> (players r)) r).
  set (upd := lobbyList r3).
  set (r' := setPlayers (send (lobbyUpdate upd) <$> players r3) r3).
  assert (players r' !! pid = Some (send (lobbyUpdate upd) joined)) as Hp.
  { unfold r', r3. cbn [players setPlayers].
    rewrite lookup_fmap, lookup_insert_eq. reflexivity. }
  assert (send (lobbyUpdate upd) joined
          = setSendCh (sendCh joined ++ [lobbyUpdate upd]) joined) as Hs.
  { unfold send. cbn [sendClosed joined].
    rewrite decide_True; [reflexivity|].
    unfold sendChCap. destruct pumped; cbn; lia. }
  exists upd, (send (lobbyUpdate upd) joined).
  split; [exact Hp|]. split.
  { rewrite Hs. cbn. auto 10. }
  split.
  { rewrite Hs. unfold joined. destruct pumped; reflexivity. }
  split.
  { intros id Hne. unfold r', r3. cbn [players setPlayers].
    rewrite !lookup_fmap, lookup_insert_ne by congruence. reflexivity. }
  assert (lobbyList r' = upd) as Hl.
  { unfold r'. apply lobbyList_ext. intros q.
    destruct (ServerFacts.send_fields (lobbyUpdate upd) q) as (-> & -> & -> & _).
    auto. }
  split.
  { intros lp. rewrite <- Hl. apply lobbyList_member. }
  split.
  { rewrite <- Hl. apply lobbyList_length. }
  split; [auto|]. split.
  { destruct (canStart r') eqn:E; [|reflexivity].
    apply ServerFacts.canStart_spec in E as [_ Hall].
    specialize (Hall pid _ Hp). rewrite Hs in Hall. discriminate. }
  intros Hok Hpid id p. unfold r', r3. cbn [players setPlayers].
  rewrite lookup_fmap. destruct (decide (id = pid)) as [->|Hne].
  - rewrite lookup_insert_eq. cbn [fmap option_fmap option_map]. intros [= <-].
    rewrite Hs. cbn. auto.
  - rewrite lookup_insert_ne by congruence.
    destruct (players r !! id) as [q|] eqn:Hq; [|discriminate].
    cbn [fmap option_fmap option_map]. intros [= <-].
    destruct (ServerFacts.send_fields (lobbyUpdate upd) q) as (-> & _).
    exact (Hok id q Hq).
Qed.


Lemma checkWinCondition_size (r : Room) :
  size (players (checkWinCondition r)) = size (players r).
Proof.
  unfold checkWinCondition.
  destruct ((GoInt.len (alivePlayers r) <=? 1) && (minPlayers <=? playerCount r));
    [|reflexivity].
  destruct (alivePlayers r) as [|w [|w' l]];
    cbn [players setPlayers setPhase setWinnerID]; apply map_size_fmap.
Qed.

Lemma checkWinCondition_member (r : Room) (id : string) :
  is_Some (players (checkWinCondition r) !! id) <-> is_Some (players r !! id).
Proof.
  unfold checkWinCondition.
  destruct ((GoInt.len (alivePlayers r) <=? 1) && (minPlayers <=? playerCount r));
    [|reflexivity].
  destruct (alivePlayers r) as [|w [|w' l]];
    cbn [players setPlayers setPhase setWinnerID];
    rewrite lookup_fmap; apply fmap_is_Some.
Qed.

Lemma removePlayer_size (r : Room) (id : string) :
  size (players (removePlayer id r)) = size (delete id (players r)).
Proof.
  unfold removePlayer. destruct (decide _); [|reflexivity].
  rewrite checkWinCondition_size. reflexivity.
Qed.

Lemma removePlayer_member (r : Room) (id id' : string) :
  id' <> id ->
  is_Some (players (removePlayer id r) !! id') <-> is_Some (players r !! id').
Proof.
  intros Hne. unfold removePlayer. destruct (decide _).
  - rewrite checkWinCondition_member. cbn [players setPlayers].
    rewrite lookup_delete_ne by congruence. reflexivity.
  - cbn [players setPlayers]. rewrite lookup_delete_ne by congruence. reflexivity.
Qed.

Section LeaveFacts.
Variable ToUpper : string -> string.

(** X24. A member [pid] of the room stored under the code [c] (a code in
    upper case, as the hub makes them) sends the leave-room message.  Its
    [roomID] is cleared.  If it was the only member the room is removed from
    the hub; otherwise the room stays, without [pid] and with the same other
    members, as [removePlayer] leaves it, and every remaining member is sent
    a lobby update that lists exactly the remaining members.  Other rooms,
    the pending joins and the id counter are untouched.  A second leave
    message of the same connection, like the message of any player in no
    room, changes nothing. *)
Theorem X24_leaving_a_room (pid c : string) (h : Hub) (room : Room) (p : Player) :
  c <> "" -> ToUpper c = c ->
  rooms h !! c = Some room -> players room !! pid = Some p ->
  let h' := (handleMessage_LeaveRoom ToUpper pid c h).1 in
  let rid' := (handleMessage_LeaveRoom ToUpper pid c h).2 in
  rid' = "" /\
  pendingJoins h' = pendingJoins h /\ nextID h' = nextID h /\
  (forall c', c' <> c -> rooms h' !! c' = rooms h !! c') /\
  (size (players room) = 1%nat -> rooms h' !! c = None) /\
  ((1 < size (players room))%nat ->
   exists room',
     rooms h' !! c = Some room' /\
     room' = broadcastLobbyUpdate (removePlayer pid room) /\
     players room' !! pid = None /\
     (forall id, id <> pid ->
        is_Some (players room' !! id) <-> is_Some (players room !! id)) /\
     (forall id, players room' !! id
        = send (lobbyUpdate (lobbyList room'))
            <$> players (removePlayer pid room) !! id) /\
     length (lobbyList room') = (size (players room) - 1)%nat) /\
  handleMessage_LeaveRoom ToUpper pid rid' h' = (h', rid').
Proof.
  intros Hc Hup Hroom Hp. cbn zeta.
  assert (size (players (removePlayer pid room)) = (size (players room) - 1)%nat)
    as Hsize.
  { rewrite removePlayer_size, (map_size_delete_Some pid (players room)) by eauto.
    lia. }
  destruct (Z.eqb_spec (Z.of_nat (size (players room) - 1)) 0) as [Hz|Hz].
  - (* the last member *)
    assert (handleMessage_LeaveRoom ToUpper pid c h
            = (setRooms
                 (delete c (<[c := resetToLobby (removePlayer pid room)]> (rooms h)))
                 h, "")) as ->.
    { unfold handleMessage_LeaveRoom. rewrite decide_False by exact Hc.
      unfold getRoom. rewrite Hup, Hroom, Hp.
      unfold playerCount at 1. rewrite Hsize, Hz. cbn [Z.eqb].
      unfold removeRoomIfEmpty. cbn [rooms setRooms].
      rewrite lookup_insert_eq.
      assert (playerCount (resetToLobby (removePlayer pid room)) = 0) as ->.
      { unfold playerCount, resetToLobby. cbn [players setPlayers setPhase].
        rewrite map_size_fmap, Hsize. exact Hz. }
      reflexivity. }
    cbn [fst snd rooms setRooms pendingJoins nextID].
    split; [reflexivity|]. split; [reflexivity|]. split; [reflexivity|].
    split.
    { intros c' Hne. rewrite lookup_delete_ne, lookup_insert_ne by congruence.
      reflexivity. }
    split; [intros _; apply lookup_delete_eq|].
    split; [intros Hgt; lia|].
    unfold handleMessage_LeaveRoom. rewrite decide_True by reflexivity.
    reflexivity.
  - assert (handleMessage_LeaveRoom ToUpper pid c h
            = (setRooms
                 (<[c := broadcastLobbyUpdate (removePlayer pid room)]> (rooms h))
                 h, "")) as ->.
    { unfold handleMessage_LeaveRoom. rewrite decide_False by exact Hc.
      unfold getRoom. rewrite Hup, Hroom, Hp.
      unfold playerCount. rewrite Hsize.
      destruct (Z.eqb_spec (Z.of_nat (size (players room) - 1)) 0); [lia|].
      reflexivity. }
    cbn [fst snd rooms setRooms pendingJoins nextID].
    split; [reflexivity|]. split; [reflexivity|]. split; [reflexivity|].
    split.
    { intros c' Hne. rewrite lookup_insert_ne by congruence. reflexivity. }
    split; [intros H1; rewrite H1 in Hz; cbn in Hz; lia|].
    split.
    2:{ unfold handleMessage_LeaveRoom. rewrite decide_True by reflexivity.
        reflexivity. }
    intros _. exists (broadcastLobbyUpdate (removePlayer pid room)).
    split; [apply lookup_insert_eq|]. split; [reflexivity|].
    assert (lobbyList (broadcastLobbyUpdate (removePlayer pid room))
            = lobbyList (removePlayer pid room)) as Hl.
    { rewrite broadcastLobbyUpdate_spec. apply lobbyList_ext. intros q.
      destruct (ServerFacts.send_fields
                  (lobbyUpdate (lobbyList (removePlayer pid room))) q)
        as (-> & -> & -> & _).
      auto. }
    rewrite Hl. rewrite broadcastLobbyUpdate_spec. cbn [players setPlayers].
    split.
    { rewrite lookup_fmap, ServerFacts.removePlayer_absent. reflexivity. }
    split.
    { intros id Hne. rewrite lookup_fmap, fmap_is_Some.
      apply removePlayer_member. exact Hne. }
    split.
    { intros id. apply lookup_fmap. }
    rewrite lobbyList_length. exact Hsize.
Qed.

End LeaveFacts.

End ConnectionFacts.

(** * The countdown task *)

Module CountdownFacts.
Import Server Session Countdown.

Lemma send_room (env : protocol.Envelope) (p : Player) :
  sendClosed p = false -> (length (sendCh p) < sendChCap)%nat ->
  send env p = setSendCh (sendCh p ++ [env]) p.
Proof.
  intros Ho Hl. unfold send. rewrite Ho, decide_True by exact Hl. reflexivity.
Qed.

Lemma countdownTick_ids (i : Z) (r : Room) :
  (map_to_list (players (countdownTick i r))).*1 = (map_to_list (players r)).*1.
Proof.
  unfold countdownTick, broadcastToAll, sendAll. cbn [players setPlayers setCountdown].
  rewrite map_to_list_fmap, <- list_fmap_compose. reflexivity.
Qed.

(** X25. The countdown task on a room to which nothing else happens
    meanwhile.  It ends in the playing phase with the drawn seed, no winner
    and the counter at 1; the members are the same, all alive and none ready.
    A member whose queue is open and has room for four messages is sent, in
    this order and after what was queued, the countdown values 3, 2 and 1
    and the game start with the drawn seed and the ids of the members; a
    member whose queue is closed is sent nothing. *)
Theorem X25_countdown_then_start (newSeed : Z) (r : Room) :
  let r' := countdownTask newSeed r in
  let ids := (map_to_list (players r)).*1 in
  phase r' = PhasePlaying /\ seed r' = newSeed /\ winnerID r' = "" /\
  countdown r' = 1 /\ code r' = code r /\
  (forall id, is_Some (players r' !! id) <-> is_Some (players r !! id)) /\
  (forall id p, players r !! id = Some p ->
     exists p', players r' !! id = Some p' /\
       ID p' = ID p /\ Name p' = Name p /\ Alive p' = true /\ Ready p' = false /\
       TargetID p' = TargetID p /\ roomID p' = roomID p /\
       sendClosed p' = sendClosed p /\
       (sendClosed p = false -> (length (sendCh p) + 4 <= sendChCap)%nat ->
        sendCh p' = sendCh p ++ [countdownMsg 3; countdownMsg 2; countdownMsg 1;
                                 protocol.mkEnvelope protocol.MsgGameStart
                                   (protocol.GameStartPayload newSeed ids)]) /\
       (sendClosed p = true -> sendCh p' = sendCh p)).
Proof.
  cbn zeta.
  assert (forall id, players (countdownTask newSeed r) !! id
            = (fun p => send (protocol.mkEnvelope protocol.MsgGameStart
                                (protocol.GameStartPayload newSeed
                                   (map_to_list (players r)).*1))
                          (setReady false (setAlive true
                             (send (countdownMsg 1) (send (countdownMsg 2)
                                (send (countdownMsg 3) p))))))
              <$> players r !! id) as Hall.
  { intros id. unfold countdownTask. cbn [foldl].
    unfold startGame, broadcastToAll, sendAll.
    cbn [players setPlayers].
    rewrite !countdownTick_ids.
    unfold countdownTick, broadcastToAll, sendAll.
    cbn [players setPlayers setCountdown].
    rewrite !lookup_fmap. destruct (players r !! id); reflexivity. }
  split; [reflexivity|]. split; [reflexivity|]. split; [reflexivity|].
  split; [reflexivity|]. split; [reflexivity|]. split.
  { intros id. rewrite Hall. apply fmap_is_Some. }
  intros id p Hp. rewrite Hall, Hp. cbn [fmap option_fmap option_map].
  eexists. split; [reflexivity|].
  set (g := protocol.mkEnvelope protocol.MsgGameStart _).
  set (p1 := send (countdownMsg 3) p).
  set (p2 := send (countdownMsg 2) p1).
  set (p3 := send (countdownMsg 1) p2).
  set (p4 := setReady false (setAlive true p3)).
  destruct (ServerFacts.send_fields (countdownMsg 3) p)
    as (I1 & N1 & _ & _ & T1 & R1 & C1).
  destruct (ServerFacts.send_fields (countdownMsg 2) p1)
    as (I2 & N2 & _ & _ & T2 & R2 & C2).
  destruct (ServerFacts.send_fields (countdownMsg 1) p2)
    as (I3 & N3 & _ & _ & T3 & R3 & C3).
  destruct (ServerFacts.send_fields g p4) as (I4 & N4 & Rd4 & A4 & T4 & R4 & C4).
  fold p1 in I1, N1, T1, R1, C1. fold p2 in I2, N2, T2, R2, C2.
  fold p3 in I3, N3, T3, R3, C3.
  split; [rewrite I4; cbn; congruence|].
  split; [rewrite N4; cbn; congruence|].
  split; [rewrite A4; reflexivity|].
  split; [rewrite Rd4; reflexivity|].
  split; [rewrite T4; cbn; congruence|].
  split; [rewrite R4; cbn; congruence|].
  split; [rewrite C4; cbn; congruence|].
  split.
  - intros Ho Hl.
    assert (sendCh p1 = sendCh p ++ [countdownMsg 3]) as E1.
    { unfold p1. rewrite send_room by (auto; lia). reflexivity. }
    assert (sendCh p2 = sendCh p1 ++ [countdownMsg 2]) as E2.
    { unfold p2. rewrite send_room; [reflexivity|congruence|].
      rewrite E1, length_app. cbn. lia. }
    assert (sendCh p3 = sendCh p2 ++ [countdownMsg 1]) as E3.
    { unfold p3. rewrite send_room; [reflexivity|congruence|].
      rewrite E2, E1, !length_app. cbn. lia. }
    assert (sendCh (send g p4) = sendCh p4 ++ [g]) as E4.
    { rewrite send_room; [reflexivity|cbn; congruence|].
      cbn. rewrite E3, E2, E1, !length_app. cbn. lia. }
    rewrite E4. cbn. rewrite E3, E2, E1, <- !app_assoc. reflexivity.
  - intros Hcl.
    rewrite (ServerFacts.send_dropped g p4) by (left; cbn; congruence).
    cbn. unfold p3. rewrite (ServerFacts.send_dropped _ p2) by (left; congruence).
    unfold p2. rewrite (ServerFacts.send_dropped _ p1) by (left; congruence).
    unfold p1. rewrite (ServerFacts.send_dropped _ p) by (left; congruence).
    reflexivity.
Qed.

End CountdownFacts.

(** * The properties above, at the inputs of the examples *)

Module ExtraWitnesses.
Import Lcg Game GamePlay Server Session Connection Examples PlayExamples.
Import BoardFacts.

Lemma uprightI_square : square (Shape uprightI).
Proof. repeat constructor. Qed.

Lemma uprightI_valid :
  Board_IsValidPosition (GBoard (wellState 0)) (CurrentPiece (wellState 0)) 0 0
  = Some true.
Proof. vm_compute. reflexivity. Qed.

Lemma filledWell_ok : board_ok filledWell.
Proof.
  destruct (Board_LockPiece_ok wellBoard uprightI (proj1 Witnesses.wellBoard_ok))
    as (b' & Hb & Hok & _).
  unfold filledWell. rewrite Hb. exact Hok.
Qed.

Lemma upperChar_idem (c : Ascii.ascii) : upperChar (upperChar c) = upperChar c.
Proof. destruct c as [[|] [|] [|] [|] [|] [|] [|] [|]]; reflexivity. Qed.

Lemma asciiUpper_idem (s : string) : asciiUpper (asciiUpper s) = asciiUpper s.
Proof.
  induction s as [|c s IH]; [reflexivity|]. cbn [asciiUpper].
  rewrite upperChar_idem, IH. reflexivity.
Qed.

Lemma X1_witness :
  square (Shape (NewPiece PieceT)) /\
  exists p1, Piece_Rotate (NewPiece PieceT) = Some p1 /\
    Typ p1 = PieceT /\ length (Shape p1) = 3%nat.
Proof.
  split; [apply GamePlayFacts.NewPiece_square|].
  destruct (GamePlayFacts.X1_rotate_quarter_turn (NewPiece PieceT)
              (GamePlayFacts.NewPiece_square PieceT))
    as (p1 & _ & _ & H1 & _ & _ & _ & _ & Hl & _ & Ht & _).
  exists p1. split; [exact H1|]. split; [exact Ht|exact Hl].
Defined.

Lemma X3_witness :
  board_ok (GBoard (wellState 0)) /\
  exists gs', runMoves [OpRotate; OpLeft; OpDown; OpRight] (wellState 0) = Some gs' /\
    Board_IsValidPosition (GBoard gs') (CurrentPiece gs') 0 0 = Some true /\
    Typ (CurrentPiece gs') = PieceI.
Proof.
  split; [exact (proj1 Witnesses.wellBoard_ok)|].
  destruct (GamePlayFacts.X3_moves_keep_piece_valid (wellState 0)
              [OpRotate; OpLeft; OpDown; OpRight]
              (proj1 Witnesses.wellBoard_ok) uprightI_valid uprightI_square)
    as [(gs' & Hrun & Hv & _ & _ & Ht & _) _].
  exists gs'. split; [exact Hrun|]. split; [exact Hv|exact Ht].
Defined.

Lemma X6_witness :
  board_ok filledWell /\
  exists b', Board_ClearLines filledWell = Some (b', 4) /\
    Cells b' = Cells NewBoard.
Proof.
  split; [exact filledWell_ok|].
  destruct (GamePlayFacts.X6_clear_lines_drops_exactly_the_full_rows filledWell
              filledWell_ok) as (b' & Hc & Hcells & _).
  exists b'. split; [exact Hc|]. rewrite Hcells. vm_compute. reflexivity.
Defined.

Lemma X7_witness :
  board_ok wellBoard /\ Height wellBoard * Width wellBoard < 2 ^ 63 /\
  exists flat, Board_ToFlat wellBoard = Some flat /\ length flat = 200%nat /\
    BoardFromFlat flat 10 20 = Some wellBoard.
Proof.
  split; [exact (proj1 Witnesses.wellBoard_ok)|]. split; [reflexivity|].
  destruct (FlatBoardFacts.X7_board_flat_board wellBoard
              (proj1 Witnesses.wellBoard_ok) eq_refl)
    as (flat & b' & Hflat & Hlen & _ & Hback & _ & _ & _ & Hsame).
  exists flat. split; [exact Hflat|]. split; [exact Hlen|].
  change (BoardFromFlat flat 10 20 = Some b') in Hback.
  rewrite Hback. f_equal. apply Hsame.
  unfold wellBoard, wellRow. cbn [Cells].
  apply Forall_app. split; apply Forall_replicate.
  - apply Forall_replicate. reflexivity.
  - constructor; [reflexivity|]. apply Forall_replicate. cbn. discriminate.
Defined.

Lemma X8_witness :
  0 <= 2 <= 1024 /\
  exists b, BoardFromFlat flat4 2 2 = Some b /\ Board_ToFlat b = Some flat4.
Proof.
  assert (0 <= 2 <= 1024) as Hsize by lia.
  split; [exact Hsize|].
  destruct (FlatBoardFacts.X8_flat_board_flat flat4 2 2 Hsize Hsize)
    as (b & Hb & _ & _ & _ & _ & Hsame).
  exists b. split; [exact Hb|]. apply Hsame. reflexivity.
Defined.

Lemma X9_witness :
  (length (sendCh ann) <= sendChCap)%nat /\
  let ops := [ChSend countdown1; ChRecv; ChSend countdown1] in
  (length (sendCh (runChan ops ann).2) <= sendChCap)%nat /\
  sublist ((runChan ops ann).1 ++ sendCh (runChan ops ann).2)
          [countdown1; countdown1].
Proof.
  assert (length (sendCh ann) <= sendChCap)%nat as Hcap by (cbn; lia).
  split; [exact Hcap|].
  destruct (SessionFacts.X9_outbound_queue_bounded_fifo
              [ChSend countdown1; ChRecv; ChSend countdown1] ann Hcap)
    as (Hlen & Hsub & _).
  split; [exact Hlen|exact Hsub].
Defined.

Lemma X11_witness :
  (forall s, asciiUpper (asciiUpper s) = asciiUpper s) /\
  tokens_ok hubABCDE /\
  exists tok pj h',
    handleJoinRoom asciiUpper (fun s => s) "abcde" "Bob" noon hubABCDE
      = (JoinOK "ABCDE" tok, h') /\
    pendingJoins h' !! tok = Some pj /\ PlayerName pj = "Bob" /\
    pendingJoins hubABCDE !! tok = None /\ tokens_ok h'.
Proof.
  assert (tokens_ok hubABCDE) as Htok.
  { intros tok pj Hlk. change (pendingJoins hubABCDE) with (∅ : gmap string PendingJoin) in Hlk.
    rewrite lookup_empty in Hlk. discriminate. }
  split; [exact asciiUpper_idem|]. split; [exact Htok|].
  destruct (SessionFacts.X11_join_then_play asciiUpper (fun s => s) hubABCDE
              "abcde" "Bob" noon asciiUpper_idem)
    as (_ & _ & Hok).
  destruct (Hok (addPlayer ann (newRoom "ABCDE")) eq_refl eq_refl)
    as (tok & pj & h' & Hout & _ & _ & Hlk & _ & Hname & _ & _ & Hnew & _).
  destruct (Hnew Htok) as (Hfresh & _ & Hok');
    [change (- 2 ^ 63 <= 1); lia|change (1 + 2 < 2 ^ 63); lia|].
  exists tok, pj, h'. split; [exact Hout|]. split; [exact Hlk|].
  split; [exact Hname|]. split; [exact Hfresh|exact Hok'].
Defined.

Lemma highState_valid :
  Board_IsValidPosition (GBoard highState) (CurrentPiece highState) 0 0 = Some true.
Proof. vm_compute. reflexivity. Qed.

Lemma highState_filled :
  exists row, row ∈ Shape (CurrentPiece highState) /\ true ∈ row.
Proof.
  exists [false; false; true; false]. split; [left|]. right. right. left.
Qed.

Lemma highState_row : 0 <= Y (CurrentPiece highState) < BoardHeight.
Proof. change (0 <= 3 < 20). lia. Qed.

Lemma highState_size : (length (Shape (CurrentPiece highState)) <= 4)%nat.
Proof. change (4 <= 4)%nat. lia. Qed.

Lemma highState_score : GoInt.in_range (Score highState).
Proof. change (- 2 ^ 63 <= 0 < 2 ^ 63). lia. Qed.

Lemma X12_witness :
  game_board (GBoard highState) /\
  GetGhostY 20 highState = Some 16 /\
  exists gs' g', HardDrop 20 highState g0 = Some (gs', g').
Proof.
  split; [exact Witnesses.wellBoard_ok|].
  destruct (GamePlayFacts.X12_hard_drop_lands_on_ghost highState g0 20
              Witnesses.wellBoard_ok highState_valid
              highState_row highState_size highState_filled
              highState_score ltac:(lia))
    as (gy & Hg & _ & _ & _ & _ & _ & _ & n & gs' & g' & _ & Hd).
  split; [reflexivity|]. exists gs', g'. exact Hd.
Defined.

Lemma X13_witness :
  game_board (GBoard highState) /\ IsGameOver highState = false /\
  exists gs' g',
    runTicks 14 highState g0 = Some (replicate 13 true ++ [false], gs', g').
Proof.
  split; [exact Witnesses.wellBoard_ok|]. split; [reflexivity|].
  destruct (GamePlayFacts.X13_gravity_locks_at_the_ghost highState g0
              Witnesses.wellBoard_ok highState_valid
              highState_row highState_size highState_filled)
    as [_ Hrun].
  destruct (Hrun eq_refl) as (gy & n & gs' & g' & Hg & _ & _ & Hticks).
  assert (gy = 16) as ->.
  { assert (GetGhostY 20 highState = Some 16) as Hc by reflexivity.
    rewrite Hg in Hc. congruence. }
  exists gs', g'. exact Hticks.
Defined.

Lemma annTargets_ok : Tui.targeting_ok annTargets.
Proof.
  unfold Tui.targeting_ok. split; [reflexivity|].
  split; [refine (bool_decide_unpack _ _); vm_compute; exact I|].
  split; [refine (bool_decide_unpack _ _); vm_compute; exact I|].
  split; [discriminate|]. vm_compute. reflexivity.
Qed.

Lemma X14_witness :
  Tui.targeting_ok annTargets /\
  exists m2 m3 : Tui.Model,
    Tui.cycles 2 annTargets = Some m2 /\ Tui.targetID m2 = "player_4_4" /\
    Tui.cycles 3 annTargets = Some m3 /\ Tui.targetID m3 = "".
Proof.
  split; [exact annTargets_ok|].
  destruct (TuiFacts.X14_tab_cycles_through_alive_opponents annTargets
              annTargets_ok eq_refl) as [Hk (m3 & H3 & Ht3 & _)].
  destruct (Hk 2%nat ltac:(cbn; lia)) as (m2 & H2 & Ht2 & _).
  exists m2, m3. split; [exact H2|]. split; [exact Ht2|].
  split; [exact H3|exact Ht3].
Defined.

Lemma annValidTarget : validTarget "player_1_1" annInMatch match3.
Proof.
  split; [vm_compute; discriminate|]. split; [vm_compute; discriminate|].
  eexists. split; vm_compute; reflexivity.
Qed.

Lemma X16_witness :
  game_board (GBoard (wellState 0)) /\
  validTarget "player_1_1" annInMatch match3 /\
  exists stA' g' a,
    LockPiece (wellState 0) g0 = Some (4, stA', g') /\
    Tui.outbox (Client.model
                  (Client.sendAttackIfNeeded
                     (Client.setGameState (Some stA')
                        (clientOf "player_1_1" "Ann" (wellState 0)))))
      = [Tui.MsgLinesCleared a a] /\ a = 4.
Proof.
  split; [exact Witnesses.wellBoard_ok|]. split; [exact annValidTarget|].
  destruct (ClientFacts.X16_attack_reaches_the_target
              (clientOf "player_1_1" "Ann" (wellState 0))
              (clientOf "player_2_2" "Bob" (wellState 0))
              (wellState 0) (wellState 0) g0 g0 match3 "player_1_1"
              annInMatch bobInMatch
              eq_refl eq_refl eq_refl Witnesses.wellBoard_ok
              ltac:(vm_compute; reflexivity) annValidTarget
              ltac:(vm_compute; reflexivity) ltac:(vm_compute; reflexivity)
              ltac:(vm_compute; lia) eq_refl eq_refl)
    as (n & stA' & g' & HL & _ & Hsend).
  assert (n = 4) as ->.
  { assert ((fun x : Z * GameState Z * Z => x.1.1) <$> LockPiece (wellState 0) g0
            = Some 4) as Hc by (vm_compute; reflexivity).
    rewrite HL in Hc. cbn in Hc. congruence. }
  destruct (Hsend ltac:(lia)) as (_ & Hout & _).
  exists stA', g', 4. split; [exact HL|]. split; [exact Hout|reflexivity].
Defined.

Lemma X17_witness :
  board_ok wellBoard /\
  forall (r c : nat) (row : list bool),
    Shape uprightI !! r = Some row -> row !! c = Some true ->
    0 <= GoInt.add (GoInt.add (X uprightI) (Z.of_nat c)) 0 < Width wellBoard.
Proof.
  split; [exact (proj1 Witnesses.wellBoard_ok)|].
  destruct (PlacementFacts.X17_valid_position_means_free_cells wellBoard uprightI
              0 0 (proj1 Witnesses.wellBoard_ok)) as (v & Hv & Hiff).
  assert (v = true) as ->.
  { assert (Board_IsValidPosition wellBoard uprightI 0 0 = Some true) as Hc
      by (vm_compute; reflexivity).
    rewrite Hv in Hc. congruence. }
  intros r c row Hr Hc. exact (proj1 (proj1 Hiff eq_refl r c row Hr Hc)).
Defined.

Lemma X18_witness :
  board_ok wellBoard /\
  exists b', Board_LockPiece wellBoard uprightI = Some b' /\
    boardCell b' 19 0 = Some {| Filled := true; CellColor := 6 |} /\
    boardCell b' 0 0 = boardCell wellBoard 0 0.
Proof.
  split; [exact (proj1 Witnesses.wellBoard_ok)|].
  destruct (PlacementFacts.X18_lock_stamps_exactly_the_piece wellBoard uprightI
              (proj1 Witnesses.wellBoard_ok)) as (b' & Hb' & _ & _ & Hcells).
  exists b'. split; [exact Hb'|]. split.
  - apply (Hcells 19 0); [change (0 <= 19 < 20); lia|change (0 <= 0 < 10); lia|].
    exists 3%nat, 2%nat, [false; false; true; false].
    split; [reflexivity|]. split; [reflexivity|]. split; reflexivity.
  - apply (Hcells 0 0); [change (0 <= 0 < 20); lia|change (0 <= 0 < 10); lia|].
    intros (r & c & row & Hr & Hc & Hy & Hx).
    assert (r < 4)%nat as Hr4 by (apply lookup_lt_Some in Hr; exact Hr).
    cbn [Y uprightI] in Hy. unfold GoInt.add in Hy.
    rewrite GoIntFacts.wrap_id in Hy by lia. lia.
Defined.

(** The drop speed at levels 0, 1, 10 and 25, in milliseconds. *)
Example drop_speeds :
  (fun l => (fun d => d / Millisecond) <$> GetDropSpeed (atLevel l))
  <$> [0; 1; 10; 25] = [None; Some 800; Some 100; Some 30].
Proof. vm_compute. reflexivity. Qed.

(** The game of seed 42 begins with the first two pieces of the seed's
    sequence. *)
Example seeded_game_of_42 :
  (fun gs : GameState Z => (Typ (CurrentPiece gs), Typ (NextPiece gs)))
  <$> NewSeededGameState "player_1_1" "Ann" 42 = Some (PieceL, PieceI).
Proof. vm_compute. reflexivity. Qed.

(** Bob leaves a match of two: the room goes on playing with Ann alone, and
    Ann's queue holds the game start and nothing else. *)
Example leaving_a_duel :
  let r := removePlayer "player_2_2" duel in
  phase r = PhasePlaying /\ size (players r) = 1%nat /\
  (fun p => protocol.EType <$> sendCh p) <$> players r !! "player_1_1"
  = Some [protocol.MsgGameStart].
Proof. vm_compute. auto. Qed.

Lemma X24_witness :
  "ABCDE" <> "" /\ asciiUpper "ABCDE" = "ABCDE" /\
  rooms hubABCDE !! "ABCDE" = Some (addPlayer ann (newRoom "ABCDE")) /\
  players (addPlayer ann (newRoom "ABCDE")) !! "player_1_1"
  = Some (setRoomID "ABCDE" ann) /\
  rooms (handleMessage_LeaveRoom asciiUpper "player_1_1" "ABCDE" hubABCDE).1
    !! "ABCDE" = None.
Proof.
  assert ("ABCDE" <> "") as H1 by discriminate.
  assert (asciiUpper "ABCDE" = "ABCDE") as H2 by reflexivity.
  assert (rooms hubABCDE !! "ABCDE" = Some (addPlayer ann (newRoom "ABCDE")))
    as H3 by (vm_compute; reflexivity).
  assert (players (addPlayer ann (newRoom "ABCDE")) !! "player_1_1"
          = Some (setRoomID "ABCDE" ann)) as H4 by (vm_compute; reflexivity).
  split; [exact H1|]. split; [exact H2|]. split; [exact H3|]. split; [exact H4|].
  destruct (ConnectionFacts.X24_leaving_a_room asciiUpper "player_1_1" "ABCDE"
              hubABCDE _ _ H1 H2 H3 H4) as (_ & _ & _ & _ & Hlast & _).
  apply Hlast. vm_compute. reflexivity.
Defined.

(** Bob connects to Ann's room: he is sent his id and then the list of both
    players; Ann is sent the list. *)
Example bob_connects :
  let r := connect false (mkPendingJoin "ABCDE" "Bob" "player_2_2" 0)
             (addPlayer ann (newRoom "ABCDE")) in
  (fun p => protocol.EType <$> sendCh p) <$> players r !! "player_2_2"
  = Some [protocol.MsgAssignID; protocol.MsgLobbyUpdate] /\
  (fun p => protocol.EType <$> sendCh p) <$> players r !! "player_1_1"
  = Some [protocol.MsgLobbyUpdate].
Proof. vm_compute. auto. Qed.

End ExtraWitnesses.
